(** * dnd-map-generator: a shallow embedding of the generation pipeline

    The TypeScript sources under [src/] are embedded function by function.

    - JavaScript numbers that hold map data (elevations, scores, positions)
      are rationals [Q]: every arithmetic step of the source is kept, the
      rounding of binary floating point is not.  Comparisons are the exact
      ones of [Q].
    - The PRNG state of [SeededRandom] is two machine integers; its
      arithmetic is the 32-bit arithmetic of JavaScript ([ToInt32],
      [ToUint32], [Math.imul], the shifts), written out on [Z].
    - Typed arrays ([Float32Array], [Uint8Array]) are lists read and written
      by index; a write outside the array does nothing, as in JavaScript.
    - An object that the source mutates (the PRNG, the heightmap, the set of
      used cells) is passed through the functions explicitly.
    - What the repository imports from outside ([simplex-noise],
      [Math.sqrt], [Math.exp], [Math.PI], [Math.random]) is the class
      [Host]: the functions are parameters of the development. *)

From Stdlib Require Import ZArith QArith Qround Qminmax Qabs Lia Lqa.
From Stdlib Require Import String Ascii List Sorted.
From stdpp Require Import base list gmap strings.

Open Scope Z_scope.

(* ================================================================== *)
(** ** JavaScript integers and numbers                                  *)
(* ================================================================== *)

Module JS.

Definition ToUint32 (z : Z) : Z := z mod 4294967296.

Definition ToInt32 (z : Z) : Z :=
  let u := ToUint32 z in
  if u <? 2147483648 then u else u - 4294967296.

(** [a ^ b] *)
Definition xor (a b : Z) : Z := Z.lxor (ToInt32 a) (ToInt32 b).

(** [a & b] *)
Definition band (a b : Z) : Z := Z.land (ToInt32 a) (ToInt32 b).

(** [a % b] on integers: the sign of the result is the sign of [a]. *)
Definition rem (a b : Z) : Z := Z.rem a b.

(** [Math.imul(a, b)] *)
Definition imul (a b : Z) : Z := ToInt32 (ToInt32 a * ToInt32 b).

(** [a << n] *)
Definition shl (a n : Z) : Z := ToInt32 (Z.shiftl (ToInt32 a) (n mod 32)).

(** [a >>> n] *)
Definition shru (a n : Z) : Z := Z.shiftr (ToUint32 a) (n mod 32).

(** [a < b], [a <= b] and [a === b] on numbers. *)
Definition ltb (a b : Q) : bool := negb (Qle_bool b a).
Definition leb (a b : Q) : bool := Qle_bool a b.
Definition eqb (a b : Q) : bool := Qeq_bool a b.

(** [Math.floor], [Math.max], [Math.min], [Math.abs]. *)
Definition floor (a : Q) : Z := Qfloor a.
Definition max (a b : Q) : Q := Qmax a b.
Definition min (a b : Q) : Q := Qmin a b.
Definition abs (a : Q) : Q := Qabs a.

(** An integer used as a number. *)
Definition num (z : Z) : Q := inject_Z z.

(** [str.charCodeAt(i)] for every [i], in order. *)
Definition charCodes (s : string) : list Z :=
  map (fun c => Z.of_nat (nat_of_ascii c)) (list_ascii_of_string s).

(** [arr[i]] on a typed array of numbers; an index outside the array
    reads as [0] here (JavaScript gives [undefined]). *)
Definition get (a : list Q) (i : Z) : Q :=
  if i <? 0 then 0%Q else nth (Z.to_nat i) a 0%Q.

(** [arr[i] = v]; a write outside the array is dropped. *)
Definition set {A} (a : list A) (i : Z) (v : A) : list A :=
  if i <? 0 then a else <[Z.to_nat i := v]> a.

(** [arr[i]] on a [Uint8Array]. *)
Definition getb (a : list Z) (i : Z) : Z :=
  if i <? 0 then 0 else nth (Z.to_nat i) a 0.

(** The values [lo, lo+1, ..., hi-1] of [for (i = lo; i < hi; i++)]. *)
Definition range (lo hi : Z) : list Z :=
  map (fun k => lo + Z.of_nat k) (seq 0 (Z.to_nat (hi - lo))).

(** The values of [for (i = step; i < hi; i += step)], for [step >= 1]. *)
Definition strided (step hi : Z) : list Z :=
  List.filter (fun i => i <? hi) (map (fun k => step * (1 + Z.of_nat k)) (seq 0 (Z.to_nat hi))).

(** The cells of [for (y = ylo; y < yhi; y++) for (x = xlo; x < xhi; x++)],
    in the order the loops visit them, as pairs [(x, y)]. *)
Definition cells (xlo xhi ylo yhi : Z) : list (Z * Z) :=
  flat_map (fun y => map (fun x => (x, y)) (range xlo xhi)) (range ylo yhi).

(** [new Float32Array(n)], [new Uint8Array(n)]. *)
Definition zeros (n : Z) : list Q := repeat 0%Q (Z.to_nat n).
Definition zerosb (n : Z) : list Z := repeat 0 (Z.to_nat n).

(** [array.sort(compare)]: the sort is stable; an element goes before
    the first one that [compare] puts after it. *)
Fixpoint insertBy {A} (compare : A -> A -> Q) (e : A) (l : list A) : list A :=
  match l with
  | [] => [e]
  | h :: t => if ltb 0 (compare h e) then e :: h :: t else h :: insertBy compare e t
  end.

Definition sortBy {A} (compare : A -> A -> Q) (l : list A) : list A :=
  fold_left (fun acc e => insertBy compare e acc) l [].

(** [array.slice(0, count)] *)
Definition slice0 {A} (l : list A) (count : Z) : list A :=
  if count <? 0 then firstn (Z.to_nat (Z.of_nat (length l) + count)) l
  else firstn (Z.to_nat count) l.

End JS.

(* ================================================================== *)
(** ** src/utils/random.ts                                              *)
(* ================================================================== *)

Module Random.

(** [state: [number, number]] *)
Record SeededRandom := { state0 : Z; state1 : Z }.

(** The loop of the constructor over the characters of the seed. *)
Definition mix (h : Z * Z) (ch : Z) : Z * Z :=
  (JS.imul (JS.xor (fst h) ch) 2246822519 (* 0x85ebca77 *),
   JS.imul (JS.xor (snd h) ch) 3266489917 (* 0xc2b2ae3d *)).

(** [new SeededRandom(seed)] *)
Definition new (seed : string) : SeededRandom :=
  let '(h1, h2) := fold_left mix (JS.charCodes seed)
                     (3735928559 (* 0xdeadbeef *), 1103547991 (* 0x41c6ce57 *)) in
  let h1 := JS.xor h1 (JS.imul (JS.xor h1 (JS.shru h2 15)) 1935289751 (* 0x735a2d97 *)) in
  let h2 := JS.xor h2 (JS.imul (JS.xor h2 (JS.shru h1 15)) 3405138345 (* 0xcaf649a9 *)) in
  let h1 := JS.xor h1 (JS.shru h2 16) in
  let h2 := JS.xor h2 (JS.shru h1 16) in
  {| state0 := JS.ToUint32 h1; state1 := JS.ToUint32 h2 |}.

(** The 32-bit integer whose quotient by 2^32 [next()] returns. *)
Definition step (r : SeededRandom) : Z * SeededRandom :=
  let s1 := state0 r in
  let s0 := state1 r in
  let s1 := JS.xor s1 (JS.shl s1 23) in
  let s1 := JS.xor s1 (JS.shru s1 17) in
  let s1 := JS.xor s1 s0 in
  let s1 := JS.xor s1 (JS.shru s0 26) in
  (JS.ToUint32 (s0 + s1), {| state0 := s0; state1 := s1 |}).

(** [next()]: a number in [0, 1). *)
Definition next (r : SeededRandom) : Q * SeededRandom :=
  let '(k, r') := step r in (inject_Z k / 4294967296, r')%Q.

(** [range(min, max)] *)
Definition range (min max : Q) (r : SeededRandom) : Q * SeededRandom :=
  let '(u, r') := next r in (min + u * (max - min), r')%Q.

(** [int(min, max)], both bounds included. *)
Definition int (min max : Z) (r : SeededRandom) : Z * SeededRandom :=
  let '(v, r') := range (inject_Z min) (inject_Z (max + 1)) r in (JS.floor v, r').

(** [pick(array)]: [array[int(0, array.length - 1)]]; [None] is [undefined]. *)
Definition pick {A} (array : list A) (r : SeededRandom) : option A * SeededRandom :=
  let '(i, r') := int 0 (Z.of_nat (length array) - 1) r in
  ((if i <? 0 then None else array !! Z.to_nat i), r').

(** [[array[i], array[j]] = [array[j], array[i]]] *)
Definition swap {A} (array : list A) (i j : Z) : list A :=
  match array !! Z.to_nat i, array !! Z.to_nat j with
  | Some ai, Some aj => <[Z.to_nat j := ai]> (<[Z.to_nat i := aj]> array)
  | _, _ => array
  end.

(** [shuffle(array)]: Fisher-Yates, [i] from [length - 1] down to [1]. *)
Definition shuffle {A} (array : list A) (r : SeededRandom) : list A * SeededRandom :=
  fold_left
    (fun '(arr, r) i => let '(j, r') := int 0 i r in (swap arr i j, r'))
    (rev (JS.range 1 (Z.of_nat (length array))))
    (array, r).

Definition hexDigit (v : Z) : ascii :=
  nth (Z.to_nat v) (list_ascii_of_string "0123456789abcdef") "0"%char.

(** One character of the template of [uuid()]. *)
Definition uuidChar (acc : list ascii * SeededRandom) (c : ascii) : list ascii * SeededRandom :=
  let '(out, r) := acc in
  if Ascii.eqb c "x" then
    let '(u, r') := next r in
    (out ++ [hexDigit (JS.ToInt32 (JS.floor (u * 16)))], r')
  else if Ascii.eqb c "y" then
    let '(u, r') := next r in
    let v := JS.ToInt32 (JS.floor (u * 16)) in
    (out ++ [hexDigit (Z.lor (Z.land v 3) 8)], r')
  else (out ++ [c], r).

(** [uuid()] *)
Definition uuid (r : SeededRandom) : string * SeededRandom :=
  let '(out, r') :=
    fold_left uuidChar
      (list_ascii_of_string "xxxxxxxx-xxxx-4xxx-yxxx-xxxxxxxxxxxx") ([], r) in
  (string_of_list_ascii out, r').

(** [generateSeed()]: twelve characters drawn with [Math.random], whose
    successive results are [random 0], [random 1], ... *)
Definition seedChars : string :=
  "ABCDEFGHIJKLMNOPQRSTUVWXYZabcdefghijklmnopqrstuvwxyz0123456789".

Definition charAt (s : string) (i : Z) : string :=
  if i <? 0 then EmptyString
  else match String.get (Z.to_nat i) s with
       | Some c => String c EmptyString
       | None => EmptyString
       end.

Definition generateSeed (random : nat -> Q) : string :=
  fold_left
    (fun result i =>
       (result ++ charAt seedChars
                    (JS.floor (random i * inject_Z (Z.of_nat (String.length seedChars)))))%string)
    (seq 0 12) EmptyString.

(** [hashString(str)] *)
Definition hashString (str : string) : Z :=
  fold_left
    (fun hash char =>
       let hash := JS.shl hash 5 - hash + char in
       JS.band hash hash)
    (JS.charCodes str) 0.

End Random.

(* ================================================================== *)
(** ** What the repository imports                                      *)
(* ================================================================== *)

(** [NoiseFunction2D] of the package simplex-noise. *)
Definition NoiseFunction2D : Type := Q -> Q -> Q.

(** [createNoise2D(() => rng.next())] draws from the generator it is given
    while it builds its table and returns a pure function; the functions
    of [Math] that have no rational value are parameters as well. *)
Class Host : Type := {
  createNoise2D : Random.SeededRandom -> NoiseFunction2D * Random.SeededRandom;
  Math_sqrt : Q -> Q;
  Math_exp : Q -> Q;
  Math_sin : Q -> Q;
  Math_cos : Q -> Q;
  Math_atan2 : Q -> Q -> Q;
  Math_PI : Q
}.

(** The two facts about [Math] that the blur relies on. *)
Class HostFacts (H : Host) : Prop := {
  Math_exp_pos : forall x : Q, (0 < Math_exp x)%Q;
  Math_PI_pos : (0 < Math_PI)%Q
}.

(* ================================================================== *)
(** ** src/utils/math.ts                                                *)
(* ================================================================== *)

Module MathUtil.
Section WithHost.
Context {host : Host}.
Open Scope Q_scope.

Definition clamp (value min max : Q) : Q := JS.min (JS.max value min) max.

(** [clamp] at integer arguments, where the result is used as an index. *)
Definition clampi (value min max : Z) : Z := Z.min (Z.max value min) max.

Definition lerp (a b t : Q) : Q := a + (b - a) * t.

Definition smoothstep (edge0 edge1 x : Q) : Q :=
  let t := clamp ((x - edge0) / (edge1 - edge0)) 0 1 in
  t * t * (3 - 2 * t).

Definition smootherstep (edge0 edge1 x : Q) : Q :=
  let t := clamp ((x - edge0) / (edge1 - edge0)) 0 1 in
  t * t * t * (t * (t * 6 - 15) + 10).

(** [normalize(value, inMin, inMax, outMin = 0, outMax = 1)] *)
Definition normalize (value inMin inMax outMin outMax : Q) : Q :=
  ((value - inMin) / (inMax - inMin)) * (outMax - outMin) + outMin.

Definition distance (x1 y1 x2 y2 : Q) : Q :=
  let dx := x2 - x1 in
  let dy := y2 - y1 in
  Math_sqrt (dx * dx + dy * dy).

Definition manhattanDistance (x1 y1 x2 y2 : Q) : Q := JS.abs (x2 - x1) + JS.abs (y2 - y1).

Definition coordToIndex (x y width : Z) : Z := (y * width + x)%Z.

(** [indexToCoord(index, width)]: the fields [x] and [y]. *)
Definition indexToCoord (index width : Z) : Z * Z :=
  (JS.rem index width, JS.floor (JS.num index / JS.num width)).

Definition gradient (data : list Q) (x y width height : Z) : Q * Q :=
  let left := if (0 <? x)%Z then JS.get data (coordToIndex (x - 1) y width)
              else JS.get data (coordToIndex x y width) in
  let right := if (x <? width - 1)%Z then JS.get data (coordToIndex (x + 1) y width)
               else JS.get data (coordToIndex x y width) in
  let up := if (0 <? y)%Z then JS.get data (coordToIndex x (y - 1) width)
            else JS.get data (coordToIndex x y width) in
  let down := if (y <? height - 1)%Z then JS.get data (coordToIndex x (y + 1) width)
              else JS.get data (coordToIndex x y width) in
  ((right - left) / 2, (down - up) / 2).

(** The offsets of [for (y = -radius; y <= radius; y++)
    for (x = -radius; x <= radius; x++)]. *)
Definition window (radius : Z) : list (Z * Z) :=
  JS.cells (- radius) (radius + 1) (- radius) (radius + 1).

(** One step of the first loop of [createGaussianKernel]. *)
Definition kernelStep (radius : Z) (s : Q) (acc : list Q * Q) (c : Z * Z) : list Q * Q :=
  let '(kernel, sum) := acc in
  let '(x, y) := c in
  let size := (radius * 2 + 1)%Z in
  let r := JS.num (x * x + y * y) in
  let value := Math_exp (- r / s) / (Math_PI * s) in
  (JS.set kernel ((y + radius) * size + (x + radius))%Z value, sum + value).

Definition createGaussianKernel (radius : Z) : list Q :=
  let size := (radius * 2 + 1)%Z in
  let sigma := JS.num radius / 3 in
  let s := 2 * sigma * sigma in
  let '(kernel, sum) :=
    fold_left (kernelStep radius s) (window radius) (JS.zeros (size * size), 0) in
  map (fun k => k / sum) kernel.

(** The two inner loops of [gaussianBlur] at the cell [(x, y)]. *)
Definition blurStep (data kernel : list Q) (width height radius x y : Z)
    (acc : Q * Q) (k : Z * Z) : Q * Q :=
  let '(sum, weightSum) := acc in
  let '(kx, ky) := k in
  let kernelSize := (radius * 2 + 1)%Z in
  let nx := clampi (x + kx) 0 (width - 1) in
  let ny := clampi (y + ky) 0 (height - 1) in
  let weight := JS.get kernel ((ky + radius) * kernelSize + (kx + radius))%Z in
  (sum + JS.get data (coordToIndex nx ny width) * weight, weightSum + weight).

Definition blurCell (data kernel : list Q) (width height radius : Z)
    (result : list Q) (c : Z * Z) : list Q :=
  let '(x, y) := c in
  let '(sum, weightSum) :=
    fold_left (blurStep data kernel width height radius x y) (window radius) (0, 0) in
  JS.set result (coordToIndex x y width) (sum / weightSum).

Definition gaussianBlur (data : list Q) (width height radius : Z) : list Q :=
  let kernel := createGaussianKernel radius in
  fold_left (blurCell data kernel width height radius)
    (JS.cells 0 width 0 height)
    (JS.zeros (Z.of_nat (length data))).

(** The two inner loops of [findLocalMinima] at the cell [(x, y)]: they
    stop changing [isMinimum] once it is [false]. *)
Definition isLocalMinimum (data : list Q) (width x y : Z) : bool :=
  let current := JS.get data (coordToIndex x y width) in
  fold_left
    (fun (isMinimum : bool) '(dx, dy) =>
       if isMinimum then
         if (dx =? 0)%Z && (dy =? 0)%Z then true
         else negb (JS.ltb (JS.get data (coordToIndex (x + dx) (y + dy) width)) current)
       else false)
    (window 1) true.

Definition findLocalMinima (data : list Q) (width height : Z) : list (Z * Z) :=
  fold_left
    (fun minima '(x, y) =>
       if isLocalMinimum data width x y then minima ++ [(x, y)] else minima)
    (JS.cells 1 (width - 1) 1 (height - 1)) [].

End WithHost.
End MathUtil.

(* ================================================================== *)
(** ** src/types/index.ts, src/constants                                *)
(* ================================================================== *)

Module Types.

Inductive MapType :=
| island | archipelago | peninsula | continent | inland | coastal
| isthmus | atoll | delta | fjord | great_lake.

Inductive MapSize := local | regional | kingdom | continental.

Inductive BiomeType :=
| ocean | beach | grassland | forest | rainforest | desert
| tundra | snow | mountain | swamp | lake.

Inductive SettlementSize :=
| thorp | hamlet | village | small_town | large_town
| small_city | large_city | metropolis.

(** [RiverSegment]: the fields [x], [y], [flow]. *)
Record RiverSegment := { seg_x : Q; seg_y : Q; seg_flow : Q }.

(** [River]: the fields [id], [name], [segments]. *)
Record River := { river_id : string; river_name : string; segments : list RiverSegment }.

(** [Settlement]: the fields [id], [name], [x], [y], [size], [population], [type]. *)
Record Settlement := {
  settlement_id : string;
  settlement_name : string;
  settlement_x : Z;
  settlement_y : Z;
  size : SettlementSize;
  population : Z;
  settlement_type : string
}.

(** [MAP_SIZE_CONFIG]: the width (and equal height) of each map size. *)
Definition MAP_SIZE_CONFIG (s : MapSize) : Z * Z :=
  match s with
  | local => (256, 256)
  | regional => (512, 512)
  | kingdom => (1024, 1024)
  | continental => (2048, 2048)
  end.

(** [SETTLEMENT_POPULATIONS]: [(min, max)] of each size. *)
Definition SETTLEMENT_POPULATIONS (s : SettlementSize) : Z * Z :=
  match s with
  | thorp => (20, 80)
  | hamlet => (81, 400)
  | village => (401, 900)
  | small_town => (901, 2000)
  | large_town => (2001, 5000)
  | small_city => (5001, 12000)
  | large_city => (12001, 25000)
  | metropolis => (25001, 100000)
  end.

(** The string that each [BiomeType] is in the source. *)
Definition biomeLiteral (b : BiomeType) : string :=
  match b with
  | ocean => "ocean" | beach => "beach" | grassland => "grassland" | forest => "forest"
  | rainforest => "rainforest" | desert => "desert" | tundra => "tundra" | snow => "snow"
  | mountain => "mountain" | swamp => "swamp" | lake => "lake"
  end.

End Types.

(* ================================================================== *)
(** ** src/generation/climate/biomes.ts                                 *)
(* ================================================================== *)

Module Biomes.
Section WithHost.
Context {host : Host}.
Import Types.
Open Scope Q_scope.

Record BiomeOptions := {
  width : Z;
  height : Z;
  heightmap : list Q;
  temperature : list Q;
  moisture : list Q;
  seaLevel : Q;
  seed : string
}.

Definition BIOME_IDS (b : BiomeType) : Z :=
  match b with
  | ocean => 0 | beach => 1 | grassland => 2 | forest => 3
  | rainforest => 4 | desert => 5 | tundra => 6 | snow => 7
  | mountain => 8 | swamp => 9 | lake => 10
  end%Z.

Definition classifyBiome
    (elevation temperature moisture seaLevel beachLevel mountainLevel snowLevel : Q) : Z :=
  if JS.ltb elevation seaLevel then BIOME_IDS ocean
  else if JS.ltb elevation beachLevel then BIOME_IDS beach
  else if JS.ltb snowLevel elevation
          || (JS.ltb mountainLevel elevation && JS.ltb temperature 0.2)
  then BIOME_IDS snow
  else if JS.ltb mountainLevel elevation then BIOME_IDS mountain
  else if JS.ltb temperature 0.2 then
    if JS.ltb 0.5 moisture then BIOME_IDS snow else BIOME_IDS tundra
  else if JS.ltb temperature 0.4 then
    if JS.ltb 0.6 moisture then BIOME_IDS forest
    else if JS.ltb 0.3 moisture then BIOME_IDS grassland
    else BIOME_IDS tundra
  else if JS.ltb temperature 0.7 then
    if JS.ltb 0.8 moisture then
      if JS.ltb elevation (seaLevel + 0.1) then BIOME_IDS swamp else BIOME_IDS forest
    else if JS.ltb 0.4 moisture then BIOME_IDS forest
    else if JS.ltb 0.2 moisture then BIOME_IDS grassland
    else BIOME_IDS desert
  else
    if JS.ltb 0.7 moisture then
      if JS.ltb elevation (seaLevel + 0.1) then BIOME_IDS swamp else BIOME_IDS rainforest
    else if JS.ltb 0.4 moisture then BIOME_IDS forest
    else if JS.ltb 0.2 moisture then BIOME_IDS grassland
    else BIOME_IDS desert.

(** The biome id the body of the loops computes at the cell [(x, y)]. *)
Definition cellBiome (o : BiomeOptions) (noise : NoiseFunction2D) (x y : Z) : Z :=
  let beachLevel := seaLevel o + 0.03 in
  let mountainLevel := 0.7 in
  let snowLevel := 0.85 in
  let idx := MathUtil.coordToIndex x y (width o) in
  let jitterT := noise (JS.num x / 60) (JS.num y / 60) * 0.08 in
  let jitterM := noise (JS.num x / 60 + 100) (JS.num y / 60 + 100) * 0.08 in
  let elevation := JS.get (heightmap o) idx in
  let temp := JS.max 0 (JS.min 1 (JS.get (temperature o) idx + jitterT)) in
  let moist := JS.max 0 (JS.min 1 (JS.get (moisture o) idx + jitterM)) in
  let beachNoise := noise (JS.num x / 20) (JS.num y / 20) in
  let beachThreshold := beachLevel - (if JS.ltb 0.6 beachNoise then 0.02 else 0) in
  classifyBiome elevation temp moist (seaLevel o) beachThreshold mountainLevel snowLevel.

Definition generateBiomes (o : BiomeOptions) : list Z :=
  let rng := Random.new (seed o ++ "_biomes") in
  let '(noise, _) := createNoise2D rng in
  fold_left
    (fun biomes '(x, y) =>
       JS.set biomes (MathUtil.coordToIndex x y (width o)) (cellBiome o noise x y))
    (JS.cells 0 (width o) 0 (height o))
    (JS.zerosb (width o * height o)).

Definition ID_TO_BIOME : list BiomeType :=
  [ocean; beach; grassland; forest; rainforest; desert; tundra; snow; mountain; swamp; lake].

(** The object [colors] of [getBiomeColor], keyed by biome id. *)
Definition colors : list (Z * string) :=
  [ (BIOME_IDS ocean, "#006994"); (BIOME_IDS beach, "#e8d68c");
    (BIOME_IDS grassland, "#8db360"); (BIOME_IDS forest, "#228b22");
    (BIOME_IDS rainforest, "#006400"); (BIOME_IDS desert, "#edc9af");
    (BIOME_IDS tundra, "#c9d4c5"); (BIOME_IDS snow, "#fffafa");
    (BIOME_IDS mountain, "#8b8589"); (BIOME_IDS swamp, "#2f4f2f");
    (BIOME_IDS lake, "#4169e1") ]%string.

(** [colors[biomeId] || '#000000'] *)
Definition getBiomeColor (biomeId : Z) : string :=
  match List.find (fun entry => (fst entry =? biomeId)%Z) colors with
  | Some entry => snd entry
  | None => "#000000"
  end.

(** [ID_TO_BIOME[biomeId] || 'unknown'] *)
Definition getBiomeName (biomeId : Z) : string :=
  match (if (biomeId <? 0)%Z then None else ID_TO_BIOME !! Z.to_nat biomeId) with
  | Some b => biomeLiteral b
  | None => "unknown"
  end.

End WithHost.
End Biomes.

(* ================================================================== *)
(** ** src/generation/hydrology/rivers.ts                               *)
(* ================================================================== *)

Module Rivers.
Import Types.
Open Scope Q_scope.

Record RiverOptions := {
  width : Z;
  height : Z;
  seed : string;
  heightmap : list Q;
  moisture : list Q;
  seaLevel : Q;
  riverCount : Z;
  minRiverLength : Z
}.

Record Candidate := { cand_x : Z; cand_y : Z; score : Q }.

Definition findRiverSources (width height : Z) (heightmap moisture : list Q)
    (seaLevel : Q) (rng : Random.SeededRandom) (count : Z)
    : list Candidate * Random.SeededRandom :=
  let sampleStep := Z.max 4 (JS.floor (JS.num width / 50)) in
  let '(candidates, rng) :=
    fold_left
      (fun '(candidates, rng) '(x, y) =>
         let idx := MathUtil.coordToIndex x y width in
         let elevation := JS.get heightmap idx in
         let moist := JS.get moisture idx in
         if JS.ltb (seaLevel + 0.3) elevation && JS.ltb elevation 0.9 then
           let '(u, rng) := Random.next rng in
           let score := elevation * 0.5 + moist * 0.5 + u * 0.2 in
           (candidates ++ [{| cand_x := x; cand_y := y; score := score |}], rng)
         else (candidates, rng))
      (flat_map (fun y => map (fun x => (x, y)) (JS.strided sampleStep (width - sampleStep)))
                (JS.strided sampleStep (height - sampleStep)))
      ([], rng) in
  (JS.slice0 (JS.sortBy (fun a b => score b - score a) candidates) count, rng).

(** The eight neighbours, in the order of the array literal. *)
Definition neighbors8 : list (Z * Z) :=
  [(-1, 0); (1, 0); (0, -1); (0, 1); (-1, -1); (1, -1); (-1, 1); (1, 1)]%Z.

Definition findSteepestDescent (x y width height : Z) (heightmap : list Q)
    (rng : Random.SeededRandom) : (Z * Z) * Random.SeededRandom :=
  let currentHeight := JS.get heightmap (MathUtil.coordToIndex x y width) in
  let '(neighbors, rng) := Random.shuffle neighbors8 rng in
  let '(_, nextX, nextY) :=
    fold_left
      (fun '(lowestHeight, nextX, nextY) '(dx, dy) =>
         let nx := (x + dx)%Z in
         let ny := (y + dy)%Z in
         if (nx <? 0)%Z || (width <=? nx)%Z || (ny <? 0)%Z || (height <=? ny)%Z
         then (lowestHeight, nextX, nextY)
         else
           let neighborHeight := JS.get heightmap (MathUtil.coordToIndex nx ny width) in
           if JS.ltb neighborHeight lowestHeight then (neighborHeight, nx, ny)
           else (lowestHeight, nextX, nextY))
      neighbors (currentHeight, x, y) in
  ((nextX, nextY), rng).

Definition neighbors4 : list (Z * Z) := [(-1, 0); (1, 0); (0, -1); (0, 1)]%Z.

(** The [while (queue.length > 0)] loop of [escapeLocalMinimum]; each
    turn of the loop uses one unit of [fuel].  [None] is "out of fuel";
    [Some r] is the loop's result [r] ([None] for [null]). *)
Fixpoint escapeLoop (fuel : nat) (width height : Z) (heightmap : list Q)
    (seaLevel startHeight : Q) (queue : list (Z * Z * Z)) (visited : gset Z)
    : option (option (Z * Z)) :=
  match fuel with
  | O => None
  | S fuel =>
    match queue with
    | [] => Some None
    | (cx, cy, depth) :: queue =>
      if (20 <? depth)%Z then
        escapeLoop fuel width height heightmap seaLevel startHeight queue visited
      else
        let idx := MathUtil.coordToIndex cx cy width in
        if decide (idx ∈ visited) then
          escapeLoop fuel width height heightmap seaLevel startHeight queue visited
        else
          let visited := {[ idx ]} ∪ visited in
          let currentHeight := JS.get heightmap idx in
          if JS.ltb currentHeight startHeight || JS.ltb currentHeight seaLevel
          then Some (Some (cx, cy))
          else
            let pushed :=
              List.filter (fun '(nx, ny, _) =>
                        (0 <=? nx)%Z && (nx <? width)%Z && (0 <=? ny)%Z && (ny <? height)%Z)
                     (map (fun '(dx, dy) => (cx + dx, cy + dy, depth + 1)%Z) neighbors4) in
            escapeLoop fuel width height heightmap seaLevel startHeight
              (queue ++ pushed) visited
    end
  end.

(** Every turn either drops a queue entry or visits a new cell and
    pushes at most four entries, so [4 * width * height + 2] turns are
    enough (lemma [escapeLoop_fuel] below). *)
Definition escapeFuel (width height : Z) : nat := Z.to_nat (4 * (width * height) + 2).

Definition escapeLocalMinimum (x y width height : Z) (heightmap : list Q) (seaLevel : Q)
    : option (Z * Z) :=
  let startHeight := JS.get heightmap (MathUtil.coordToIndex x y width) in
  match escapeLoop (escapeFuel width height) width height heightmap seaLevel startHeight
          [(x, y, 0%Z)] ∅ with
  | Some r => r
  | None => None
  end.

(** The [for (step = 0; step < maxSteps; step++)] loop of [traceRiver];
    [steps] is the number of turns left. *)
Fixpoint traceLoop (steps : nat) (width height : Z) (heightmap : list Q) (seaLevel : Q)
    (usedCells : gset Z) (x y : Q) (lastIdx : Z) (segments : list RiverSegment)
    (rng : Random.SeededRandom) : list RiverSegment * Random.SeededRandom :=
  match steps with
  | O => (segments, rng)
  | S steps =>
    let intX := JS.floor x in
    let intY := JS.floor y in
    if (intX <? 1)%Z || (width - 1 <=? intX)%Z || (intY <? 1)%Z || (height - 1 <=? intY)%Z
    then (segments, rng)
    else
      let idx := MathUtil.coordToIndex intX intY width in
      let elevation := JS.get heightmap idx in
      if JS.ltb elevation seaLevel then
        (segments ++ [{| seg_x := x; seg_y := y; seg_flow := 1 |}], rng)
      else if bool_decide (idx ∈ usedCells) && negb (idx =? lastIdx)%Z then
        (segments, rng)
      else
        let segments := segments ++ [{| seg_x := x; seg_y := y; seg_flow := 1 |}] in
        let lastIdx := idx in
        let '((nextX, nextY), rng) :=
          findSteepestDescent intX intY width height heightmap rng in
        if (nextX =? intX)%Z && (nextY =? intY)%Z then
          match escapeLocalMinimum intX intY width height heightmap seaLevel with
          | Some (ex, ey) =>
              traceLoop steps width height heightmap seaLevel usedCells
                (JS.num ex) (JS.num ey) lastIdx segments rng
          | None => (segments, rng)
          end
        else
          let '(u, rng) := Random.next rng in
          let x := JS.num nextX + (u - 0.5) * 0.3 in
          let '(v, rng) := Random.next rng in
          let y := JS.num nextY + (v - 0.5) * 0.3 in
          traceLoop steps width height heightmap seaLevel usedCells
            x y lastIdx segments rng
  end.

Definition traceRiver (startX startY width height : Z) (heightmap : list Q) (seaLevel : Q)
    (usedCells : gset Z) (rng : Random.SeededRandom) : River * Random.SeededRandom :=
  let maxSteps := (width + height)%Z in
  let '(segments, rng) :=
    traceLoop (Z.to_nat maxSteps) width height heightmap seaLevel usedCells
      (JS.num startX) (JS.num startY) (-1)%Z [] rng in
  ({| river_id := ""; river_name := ""; segments := segments |}, rng).

Definition calculateRiverFlow (river : River) : River :=
  let length := JS.num (Z.of_nat (length (segments river))) in
  {| river_id := river_id river;
     river_name := river_name river;
     segments :=
       imap (fun i seg =>
               {| seg_x := seg_x seg; seg_y := seg_y seg;
                  seg_flow := 0.3 + (JS.num (Z.of_nat i) / length) * 0.7 |})
            (segments river) |}.

(** The grid cell a segment is in: [coordToIndex(Math.floor(seg.x), Math.floor(seg.y), width)]. *)
Definition cellOf (width : Z) (seg : RiverSegment) : Z :=
  MathUtil.coordToIndex (JS.floor (seg_x seg)) (JS.floor (seg_y seg)) width.

(** The [for (const source of sources)] loop of [generateRivers]. *)
Fixpoint riverLoop (o : RiverOptions) (sources : list Candidate)
    (rivers : list River) (usedCells : gset Z) (rng : Random.SeededRandom)
    : list River * gset Z * Random.SeededRandom :=
  match sources with
  | [] => (rivers, usedCells, rng)
  | source :: sources =>
    if (riverCount o <=? Z.of_nat (length rivers))%Z then (rivers, usedCells, rng)
    else
      let '(river, rng) :=
        traceRiver (cand_x source) (cand_y source) (width o) (height o)
          (heightmap o) (seaLevel o) usedCells rng in
      if (minRiverLength o <=? Z.of_nat (length (segments river)))%Z then
        let '(id, rng) := Random.uuid rng in
        let river := {| river_id := id; river_name := ""; segments := segments river |} in
        let usedCells :=
          fold_left (fun used seg => {[ cellOf (width o) seg ]} ∪ used)
                    (segments river) usedCells in
        riverLoop o sources (rivers ++ [river]) usedCells rng
      else riverLoop o sources rivers usedCells rng
  end.

Definition generateRivers (o : RiverOptions) : list River :=
  let rng := Random.new (seed o ++ "_rivers") in
  let '(sources, rng) :=
    findRiverSources (width o) (height o) (heightmap o) (moisture o) (seaLevel o)
      rng (riverCount o * 3) in
  let '(rivers, _, _) := riverLoop o sources [] ∅ rng in
  map calculateRiverFlow rivers.

(** [carveRiversIntoHeightmap(heightmap, rivers, width, carveDepth = 0.02)] *)
Definition carveSegment (width : Z) (carveDepth : Q) (heightmap : list Q)
    (segment : RiverSegment) : list Q :=
  let x := JS.floor (seg_x segment) in
  let y := JS.floor (seg_y segment) in
  if (0 <=? x)%Z && (x <? width)%Z && (0 <=? y)%Z
     && JS.ltb (JS.num y) (JS.num (Z.of_nat (length heightmap)) / JS.num width)
  then
    let idx := MathUtil.coordToIndex x y width in
    let carve := carveDepth * seg_flow segment in
    JS.set heightmap idx (JS.max 0 (JS.get heightmap idx - carve))
  else heightmap.

Definition carveRiversIntoHeightmap (heightmap : list Q) (rivers : list River)
    (width : Z) (carveDepth : Q) : list Q :=
  fold_left
    (fun heightmap river => fold_left (carveSegment width carveDepth) (segments river) heightmap)
    rivers heightmap.

End Rivers.

(* ================================================================== *)
(** ** src/generation/civilization/settlements.ts                       *)
(* ================================================================== *)

Module Settlements.
Section WithHost.
Context {host : Host}.
Import Types.
Open Scope Q_scope.

Record SettlementOptions := {
  width : Z;
  height : Z;
  seed : string;
  heightmap : list Q;
  moisture : list Q;
  biomes : list Z;
  rivers : list River;
  seaLevel : Q;
  density : Q
}.

Definition BIOME_OCEAN : Z := 0.
Definition BIOME_BEACH : Z := 1.
Definition BIOME_MOUNTAIN : Z := 8.
Definition BIOME_SNOW : Z := 7.

Definition inGrid (width height nx ny : Z) : bool :=
  (0 <=? nx)%Z && (nx <? width)%Z && (0 <=? ny)%Z && (ny <? height)%Z.

(** The river proximity map: the loops over rivers, segments, [dy], [dx]. *)
Definition riverProximityMap (width height : Z) (rivers : list River) : list Q :=
  fold_left
    (fun riverProximity river =>
       fold_left
         (fun riverProximity segment =>
            let rx := JS.floor (seg_x segment) in
            let ry := JS.floor (seg_y segment) in
            let radius := 10%Z in
            fold_left
              (fun riverProximity '(dx, dy) =>
                 let nx := (rx + dx)%Z in
                 let ny := (ry + dy)%Z in
                 if inGrid width height nx ny then
                   let dist := Math_sqrt (JS.num (dx * dx + dy * dy)) in
                   let value := JS.max 0 (1 - dist / JS.num radius) in
                   let idx := MathUtil.coordToIndex nx ny width in
                   JS.set riverProximity idx (JS.max (JS.get riverProximity idx) value)
                 else riverProximity)
              (MathUtil.window radius) riverProximity)
         (segments river) riverProximity)
    rivers (JS.zeros (width * height)).

(** The coast proximity map. *)
Definition coastProximityMap (width height : Z) (biomes : list Z) : list Q :=
  fold_left
    (fun coastProximity '(x, y) =>
       let idx := MathUtil.coordToIndex x y width in
       if (JS.getb biomes idx =? BIOME_OCEAN)%Z then coastProximity
       else
         fold_left
           (fun coastProximity '(dx, dy) =>
              let nx := (x + dx)%Z in
              let ny := (y + dy)%Z in
              if inGrid width height nx ny
                 && (JS.getb biomes (MathUtil.coordToIndex nx ny width) =? BIOME_OCEAN)%Z
              then JS.set coastProximity idx 1
              else coastProximity)
           (MathUtil.window 1) coastProximity)
    (JS.cells 0 width 0 height) (JS.zeros (width * height)).

Definition calculateSuitability (width height : Z) (heightmap moisture : list Q)
    (biomes : list Z) (rivers : list River) (_seaLevel : Q) : list Q :=
  let riverProximity := riverProximityMap width height rivers in
  let coastProximity := coastProximityMap width height biomes in
  fold_left
    (fun suitability '(x, y) =>
       let idx := MathUtil.coordToIndex x y width in
       let biome := JS.getb biomes idx in
       if (biome =? BIOME_OCEAN)%Z || (biome =? BIOME_MOUNTAIN)%Z || (biome =? BIOME_SNOW)%Z
       then JS.set suitability idx 0
       else
         let elevation := JS.get heightmap idx in
         let moist := JS.get moisture idx in
         let score := 0.5 in
         let elevationScore := 1 - JS.abs (elevation - 0.4) * 2 in
         let score := score + elevationScore * 0.2 in
         let score := score + JS.get riverProximity idx * 0.3 in
         let score := score + JS.get coastProximity idx * 0.25 in
         let score := score + moist * 0.1 in
         let score := if (biome =? BIOME_BEACH)%Z then score + 0.15 else score in
         JS.set suitability idx (JS.max 0 (JS.min 1 score)))
    (JS.cells 0 width 0 height) (JS.zeros (width * height)).

Record Weighted := { wx : Z; wy : Z; weight : Q }.

(** [for (const candidate of candidates) { random -= weight; if (random <= 0) return ... }] *)
Fixpoint pickWeighted (candidates : list Weighted) (random : Q) : option (Z * Z) :=
  match candidates with
  | [] => None
  | candidate :: candidates =>
    let random := random - weight candidate in
    if JS.leb random 0 then Some (wx candidate, wy candidate)
    else pickWeighted candidates random
  end.

Definition findSettlementLocation (width height : Z) (suitability : list Q)
    (placedPositions : list (Z * Z)) (minDistance : Q) (rng : Random.SeededRandom)
    : option (Z * Z) * Random.SeededRandom :=
  let step := Z.max 2 (JS.floor (JS.num width / 100)) in
  let candidates :=
    fold_left
      (fun candidates '(x, y) =>
         let idx := MathUtil.coordToIndex x y width in
         let score := JS.get suitability idx in
         if JS.ltb score 0.3 then candidates
         else
           let tooClose :=
             existsb (fun '(px, py) =>
                        JS.ltb (MathUtil.distance (JS.num x) (JS.num y) (JS.num px) (JS.num py))
                               minDistance)
                     placedPositions in
           if tooClose then candidates
           else candidates ++ [{| wx := x; wy := y; weight := score * score |}])
      (flat_map (fun y => map (fun x => (x, y)) (JS.strided step (width - step)))
                (JS.strided step (height - step)))
      [] in
  match candidates with
  | [] => (None, rng)
  | _ =>
    let totalWeight := fold_left (fun sum c => sum + weight c) candidates 0 in
    let '(u, rng) := Random.next rng in
    let random := u * totalWeight in
    match pickWeighted candidates random with
    | Some p => (Some p, rng)
    | None =>
      (option_map (fun c => (wx c, wy c)) (last candidates), rng)
    end
  end.

Definition isNearRiverMouth (x y : Z) (rivers : list River) (maxDist : Q) : bool :=
  existsb
    (fun river =>
       match last (segments river) with
       | None => false
       | Some mouth =>
         JS.ltb (MathUtil.distance (JS.num x) (JS.num y) (seg_x mouth) (seg_y mouth)) maxDist
       end)
    rivers.

Definition isNearMajorRiver (x y : Z) (rivers : list River) (maxDist : Q) : bool :=
  existsb
    (fun river =>
       if (Z.of_nat (length (segments river)) <? 20)%Z then false
       else
         existsb
           (fun segment =>
              JS.ltb (MathUtil.distance (JS.num x) (JS.num y) (seg_x segment) (seg_y segment))
                     maxDist)
           (segments river))
    rivers.

Definition determineSettlementSize (x y width : Z) (suitability : list Q)
    (rivers : list River) (biomes : list Z) (_seaLevel : Q) (rng : Random.SeededRandom)
    : SettlementSize * Random.SeededRandom :=
  let idx := MathUtil.coordToIndex x y width in
  let score := JS.get suitability idx in
  let nearRiverMouth := isNearRiverMouth x y rivers 20 in
  let isCoastal := (JS.getb biomes idx =? BIOME_BEACH)%Z in
  let nearMajorRiver := isNearMajorRiver x y rivers 15 in
  let sizeScore := score in
  let sizeScore := if nearRiverMouth then sizeScore + 0.3 else sizeScore in
  let sizeScore := if isCoastal then sizeScore + 0.2 else sizeScore in
  let sizeScore := if nearMajorRiver then sizeScore + 0.15 else sizeScore in
  let '(u, rng) := Random.next rng in
  let sizeScore := sizeScore + (u - 0.5) * 0.3 in
  (if JS.ltb 0.9 sizeScore then metropolis
   else if JS.ltb 0.8 sizeScore then large_city
   else if JS.ltb 0.7 sizeScore then small_city
   else if JS.ltb 0.6 sizeScore then large_town
   else if JS.ltb 0.5 sizeScore then small_town
   else if JS.ltb 0.4 sizeScore then village
   else if JS.ltb 0.3 sizeScore then hamlet
   else thorp, rng).

Definition generatePopulation (size : SettlementSize) (rng : Random.SeededRandom)
    : Z * Random.SeededRandom :=
  let '(min, max) := SETTLEMENT_POPULATIONS size in
  Random.int min max rng.

Definition determineSettlementType (x y width : Z) (biomes : list Z)
    (rivers : list River) (_seaLevel : Q) (heightmap : list Q) : string :=
  let idx := MathUtil.coordToIndex x y width in
  let biome := JS.getb biomes idx in
  let elevation := JS.get heightmap idx in
  if (biome =? BIOME_BEACH)%Z then "port"
  else if isNearMajorRiver x y rivers 10 then "river_town"
  else if JS.ltb 0.6 elevation then "mountain_town"
  else "farming_village".

Definition countLandCells (biomes : list Z) : Z :=
  fold_left (fun count b => if (b =? BIOME_OCEAN)%Z then count else (count + 1)%Z) biomes 0%Z.

(** [settlementCount]: the number of settlements asked for. *)
Definition settlementCount (o : SettlementOptions) : Z :=
  let mapArea := (width o * height o)%Z in
  let landCells := countLandCells (biomes o) in
  let baseCount := JS.floor ((JS.num landCells / JS.num mapArea) * density o * 50) in
  Z.max 3 (Z.min baseCount 100).

(** The placement loop: [attempts] turns are left of the
    [settlementCount * 10] the [for] allows. *)
Fixpoint placeLoop (attempts : nat) (o : SettlementOptions) (suitability : list Q)
    (minDistance : Q) (settlements : list Settlement) (placedPositions : list (Z * Z))
    (rng : Random.SeededRandom) : list Settlement :=
  match attempts with
  | O => settlements
  | S attempts =>
    if (settlementCount o <=? Z.of_nat (length settlements))%Z then settlements
    else
      let '(location, rng) :=
        findSettlementLocation (width o) (height o) suitability placedPositions
          minDistance rng in
      match location with
      | None => placeLoop attempts o suitability minDistance settlements placedPositions rng
      | Some (lx, ly) =>
        let '(size, rng) :=
          determineSettlementSize lx ly (width o) suitability (rivers o) (biomes o)
            (seaLevel o) rng in
        let '(id, rng) := Random.uuid rng in
        let '(population, rng) := generatePopulation size rng in
        let settlement :=
          {| settlement_id := id;
             settlement_name := "";
             settlement_x := lx;
             settlement_y := ly;
             size := size;
             population := population;
             settlement_type :=
               determineSettlementType lx ly (width o) (biomes o) (rivers o)
                 (seaLevel o) (heightmap o) |} in
        placeLoop attempts o suitability minDistance
          (settlements ++ [settlement]) (placedPositions ++ [(lx, ly)]) rng
      end
  end.

Definition generateSettlements (o : SettlementOptions) : list Settlement :=
  let rng := Random.new (seed o ++ "_settlements") in
  let suitability :=
    calculateSuitability (width o) (height o) (heightmap o) (moisture o) (biomes o)
      (rivers o) (seaLevel o) in
  let mapArea := (width o * height o)%Z in
  let minDistance :=
    Math_sqrt (JS.num mapArea / JS.num (settlementCount o)) * 0.5 in
  let settlements :=
    placeLoop (Z.to_nat (settlementCount o * 10)) o suitability minDistance [] [] rng in
  JS.sortBy (fun a b => JS.num (population b) - JS.num (population a)) settlements.

End WithHost.
End Settlements.

(* ================================================================== *)
(** ** src/generation/terrain/erosion.ts                                *)
(* ================================================================== *)

Module Erosion.
Section WithHost.
Context {host : Host}.
Open Scope Q_scope.

Record ErosionOptions := {
  width : Z;
  height : Z;
  iterations : Z;
  erosionRate : Q;
  depositionRate : Q;
  evaporationRate : Q;
  sedimentCapacity : Q;
  minSlope : Q
}.

(** [{ ...DEFAULT_EROSION_OPTIONS, width, height, iterations }] *)
Definition withDefaults (width height iterations : Z) : ErosionOptions :=
  {| width := width; height := height; iterations := iterations;
     erosionRate := 0.3; depositionRate := 0.3; evaporationRate := 0.02;
     sedimentCapacity := 4; minSlope := 0.01 |}.

Definition getInterpolatedHeight (heightmap : list Q) (x y : Q) (width height : Z) : Q :=
  let x0 := JS.floor x in
  let y0 := JS.floor y in
  let x1 := Z.min (x0 + 1) (width - 1) in
  let y1 := Z.min (y0 + 1) (height - 1) in
  let fx := x - JS.num x0 in
  let fy := y - JS.num y0 in
  let h00 := JS.get heightmap (MathUtil.coordToIndex x0 y0 width) in
  let h10 := JS.get heightmap (MathUtil.coordToIndex x1 y0 width) in
  let h01 := JS.get heightmap (MathUtil.coordToIndex x0 y1 width) in
  let h11 := JS.get heightmap (MathUtil.coordToIndex x1 y1 width) in
  let h0 := h00 * (1 - fx) + h10 * fx in
  let h1 := h01 * (1 - fx) + h11 * fx in
  h0 * (1 - fy) + h1 * fy.

(** [heightmap[i] += v] *)
Definition addAt (heightmap : list Q) (i : Z) (v : Q) : list Q :=
  JS.set heightmap i (JS.get heightmap i + v).

Definition depositSediment (heightmap : list Q) (x y : Q) (width height : Z) (amount : Q)
    : list Q :=
  let x0 := JS.floor x in
  let y0 := JS.floor y in
  let x1 := Z.min (x0 + 1) (width - 1) in
  let y1 := Z.min (y0 + 1) (height - 1) in
  let fx := x - JS.num x0 in
  let fy := y - JS.num y0 in
  let heightmap := addAt heightmap (MathUtil.coordToIndex x0 y0 width) (amount * (1 - fx) * (1 - fy)) in
  let heightmap := addAt heightmap (MathUtil.coordToIndex x1 y0 width) (amount * fx * (1 - fy)) in
  let heightmap := addAt heightmap (MathUtil.coordToIndex x0 y1 width) (amount * (1 - fx) * fy) in
  addAt heightmap (MathUtil.coordToIndex x1 y1 width) (amount * fx * fy).

Definition erodeTerrain (heightmap : list Q) (x y : Q) (width height : Z) (amount : Q)
    : list Q :=
  let radius := 2%Z in
  let x0 := JS.floor x in
  let y0 := JS.floor y in
  let '(totalWeight, weights) :=
    fold_left
      (fun '(totalWeight, weights) '(dx, dy) =>
         let nx := (x0 + dx)%Z in
         let ny := (y0 + dy)%Z in
         if (nx <? 0)%Z || (width <=? nx)%Z || (ny <? 0)%Z || (height <=? ny)%Z
         then (totalWeight, weights)
         else
           let dist := Math_sqrt (JS.num (dx * dx + dy * dy)) in
           if JS.leb dist (JS.num radius) then
             let weight := JS.max 0 (JS.num radius - dist) / JS.num radius in
             (totalWeight + weight, weights ++ [(MathUtil.coordToIndex nx ny width, weight)])
           else (totalWeight, weights))
      (MathUtil.window radius) (0, []) in
  fold_left
    (fun heightmap '(idx, weight) => addAt heightmap idx (- (amount * (weight / totalWeight))))
    weights heightmap.

(** The state of one droplet. *)
Record Droplet := {
  posX : Q; posY : Q;
  dirX : Q; dirY : Q;
  speed : Q; water : Q; sediment : Q
}.

(** The [for (step = 0; step < maxSteps; step++)] loop of one droplet. *)
Fixpoint dropletLoop (steps : nat) (opts : ErosionOptions) (d : Droplet)
    (result : list Q) (rng : Random.SeededRandom) : list Q * Random.SeededRandom :=
  match steps with
  | O => (result, rng)
  | S steps =>
    let x := posX d in
    let y := posY d in
    let intX := JS.floor x in
    let intY := JS.floor y in
    if (intX <? 0)%Z || (width opts - 1 <=? intX)%Z
       || (intY <? 0)%Z || (height opts - 1 <=? intY)%Z
    then (result, rng)
    else
      let '(gdx, gdy) := MathUtil.gradient result intX intY (width opts) (height opts) in
      let inertia := 0.3 in
      let dirX := dirX d * inertia - gdx * (1 - inertia) in
      let dirY := dirY d * inertia - gdy * (1 - inertia) in
      let len := Math_sqrt (dirX * dirX + dirY * dirY) in
      let '(dirX, dirY, rng) :=
        if JS.ltb 0 len then (dirX / len, dirY / len, rng)
        else
          let '(angle, rng) := Random.range 0 (Math_PI * 2) rng in
          (Math_cos angle, Math_sin angle, rng) in
      let newX := x + dirX in
      let newY := y + dirY in
      if JS.ltb newX 0 || JS.leb (JS.num (width opts - 1)) newX
         || JS.ltb newY 0 || JS.leb (JS.num (height opts - 1)) newY
      then (result, rng)
      else
        let oldHeight := getInterpolatedHeight result x y (width opts) (height opts) in
        let newHeight := getInterpolatedHeight result newX newY (width opts) (height opts) in
        let heightDiff := newHeight - oldHeight in
        let slope := JS.max (- heightDiff) (minSlope opts) in
        let capacity := JS.max (slope * speed d * water d * sedimentCapacity opts) 0 in
        let '(sediment, result) :=
          if JS.ltb capacity (sediment d) || JS.ltb 0 heightDiff then
            let depositAmount :=
              if JS.ltb 0 heightDiff then JS.min (sediment d) heightDiff
              else (sediment d - capacity) * depositionRate opts in
            (sediment d - depositAmount,
             depositSediment result x y (width opts) (height opts) depositAmount)
          else
            let erodeAmount :=
              JS.min ((capacity - sediment d) * erosionRate opts) (- heightDiff) in
            (sediment d + erodeAmount,
             erodeTerrain result x y (width opts) (height opts) erodeAmount) in
        let speed := Math_sqrt (JS.max 0 (speed d * speed d + heightDiff)) in
        let water := water d * (1 - evaporationRate opts) in
        if JS.ltb water 0.01 then (result, rng)
        else
          dropletLoop steps opts
            {| posX := newX; posY := newY; dirX := dirX; dirY := dirY;
               speed := speed; water := water; sediment := sediment |}
            result rng
  end.

(** One turn of [for (let i = 0; i < iterations; i++)]. *)
Definition droplet (opts : ErosionOptions) (acc : list Q * Random.SeededRandom) (_ : Z)
    : list Q * Random.SeededRandom :=
  let '(result, rng) := acc in
  let '(x, rng) := Random.range 0 (JS.num (width opts - 1)) rng in
  let '(y, rng) := Random.range 0 (JS.num (height opts - 1)) rng in
  dropletLoop 64 opts
    {| posX := x; posY := y; dirX := 0; dirY := 0; speed := 1; water := 1; sediment := 0 |}
    result rng.

(** [Math.min] and [Math.max] folded over the array from [Infinity] and
    [-Infinity]; the value for the empty array is not used. *)
Definition minOf (l : list Q) : Q :=
  match l with [] => 0 | h :: t => fold_left JS.min t h end.
Definition maxOf (l : list Q) : Q :=
  match l with [] => 0 | h :: t => fold_left JS.max t h end.

(** The normalisation that ends [applyErosion]. *)
Definition normalizeResult (result : list Q) : list Q :=
  let min := minOf result in
  let max := maxOf result in
  let range := if JS.eqb (max - min) 0 then 1 else max - min in
  map (fun r => MathUtil.clamp ((r - min) / range) 0 1) result.

Definition applyErosion (heightmap : list Q) (seed : string) (opts : ErosionOptions)
    : list Q :=
  let rng := Random.new (seed ++ "_erosion") in
  let '(result, _) :=
    fold_left (droplet opts) (JS.range 0 (iterations opts)) (heightmap, rng) in
  normalizeResult result.

(** The body of the loops of [applyThermalErosion] at the cell [(x, y)]. *)
Definition thermalCell (width : Z) (talusAngle : Q) (result : list Q) (c : Z * Z) : list Q :=
  let '(x, y) := c in
  let idx := MathUtil.coordToIndex x y width in
  let h := JS.get result idx in
  let neighbors :=
    [ MathUtil.coordToIndex (x - 1) y width;
      MathUtil.coordToIndex (x + 1) y width;
      MathUtil.coordToIndex x (y - 1) width;
      MathUtil.coordToIndex x (y + 1) width ] in
  let '(maxDiff, maxNeighbor) :=
    fold_left
      (fun '(maxDiff, maxNeighbor) nIdx =>
         let diff := h - JS.get result nIdx in
         if JS.ltb maxDiff diff && JS.ltb talusAngle diff then (diff, nIdx)
         else (maxDiff, maxNeighbor))
      neighbors (0, (-1)%Z) in
  if (0 <=? maxNeighbor)%Z then
    let transfer := (maxDiff - talusAngle) * 0.5 in
    let result := addAt result idx (- transfer) in
    addAt result maxNeighbor transfer
  else result.

Definition applyThermalErosion (heightmap : list Q) (width height iterations : Z)
    (talusAngle : Q) : list Q :=
  fold_left
    (fun result _ =>
       fold_left (thermalCell width talusAngle) (JS.cells 1 (width - 1) 1 (height - 1)) result)
    (JS.range 0 iterations) heightmap.

End WithHost.
End Erosion.

(* ================================================================== *)
(** ** src/generation/climate/index.ts                                  *)
(* ================================================================== *)

Module Climate.
Section WithHost.
Context {host : Host}.
Open Scope Q_scope.

Record ClimateOptions := {
  width : Z;
  height : Z;
  seed : string;
  heightmap : list Q;
  seaLevel : Q
}.

(** The value stored at the cell [(x, y)] by the loops of [generateTemperature]. *)
Definition cellTemperature (width height : Z) (heightmap : list Q) (seaLevel : Q)
    (noise : NoiseFunction2D) (x y : Z) : Q :=
  let idx := MathUtil.coordToIndex x y width in
  let elevation := JS.get heightmap idx in
  let latitudeFactor := 1 - JS.abs (JS.num y / JS.num height - 0.5) * 2 in
  let baseTemp := latitudeFactor * 0.8 + 0.1 in
  let elevationAboveSea := JS.max 0 (elevation - seaLevel) in
  let elevationFactor := 1 - elevationAboveSea * 1.5 in
  let noiseLow := noise (JS.num x / 150) (JS.num y / 150) * 0.15 in
  let noiseMed := noise (JS.num x / 50 + 500) (JS.num y / 50 + 500) * 0.08 in
  let noiseValue := noiseLow + noiseMed in
  let oceanModeration := if JS.ltb elevation seaLevel then 0.5 else 0 in
  MathUtil.clamp (baseTemp * elevationFactor + noiseValue + oceanModeration * 0.2) 0 1.

Definition generateTemperature (width height : Z) (heightmap : list Q) (seaLevel : Q)
    (rng : Random.SeededRandom) : list Q * Random.SeededRandom :=
  let '(noise, rng) := createNoise2D rng in
  let temperature :=
    fold_left
      (fun temperature '(x, y) =>
         JS.set temperature (MathUtil.coordToIndex x y width)
           (cellTemperature width height heightmap seaLevel noise x y))
      (JS.cells 0 width 0 height) (JS.zeros (width * height)) in
  (MathUtil.gaussianBlur temperature width height 3, rng).

(** The first pass of [generateMoisture]: water cells get moisture 1. *)
Definition waterCells (width height : Z) (heightmap : list Q) (seaLevel : Q) : list Q :=
  fold_left
    (fun moisture i =>
       if JS.ltb (JS.get heightmap i) seaLevel then JS.set moisture i 1 else moisture)
    (JS.range 0 (Z.of_nat (length heightmap))) (JS.zeros (width * height)).

(** The body of one spreading pass at the cell [(x, y)]. *)
Definition spreadCell (width : Z) (heightmap : list Q) (seaLevel : Q)
    (tempMoisture : list Q) (c : Z * Z) : list Q :=
  let '(x, y) := c in
  let idx := MathUtil.coordToIndex x y width in
  if JS.leb seaLevel (JS.get heightmap idx) then
    let maxNeighbor :=
      JS.max (JS.max (JS.max
        (JS.get tempMoisture (MathUtil.coordToIndex (x - 1) y width))
        (JS.get tempMoisture (MathUtil.coordToIndex (x + 1) y width)))
        (JS.get tempMoisture (MathUtil.coordToIndex x (y - 1) width)))
        (JS.get tempMoisture (MathUtil.coordToIndex x (y + 1) width)) in
    let elevation := JS.get heightmap idx in
    let elevationPenalty := if JS.ltb (seaLevel + 0.3) elevation then 0.7 else 0.92 in
    JS.set tempMoisture idx (JS.max (JS.get tempMoisture idx) (maxNeighbor * elevationPenalty))
  else tempMoisture.

(** The last loops of [generateMoisture]: noise and evaporation on land. *)
Definition variationCell (width : Z) (heightmap temperature : list Q) (seaLevel : Q)
    (noise : NoiseFunction2D) (moisture : list Q) (c : Z * Z) : list Q :=
  let '(x, y) := c in
  let idx := MathUtil.coordToIndex x y width in
  if JS.leb seaLevel (JS.get heightmap idx) then
    let noiseValue :=
      noise (JS.num x / 100) (JS.num y / 100) * 0.2
      + noise (JS.num x / 50) (JS.num y / 50) * 0.1 in
    let tempEffect := JS.get temperature idx * 0.15 in
    JS.set moisture idx (MathUtil.clamp (JS.get moisture idx + noiseValue - tempEffect) 0 1)
  else moisture.

Definition generateMoisture (width height : Z) (heightmap temperature : list Q)
    (seaLevel : Q) (rng : Random.SeededRandom) : list Q * Random.SeededRandom :=
  let '(noise, rng) := createNoise2D rng in
  let moisture := waterCells width height heightmap seaLevel in
  let spreadPasses := 30%Z in
  let tempMoisture :=
    fold_left
      (fun tempMoisture _ =>
         fold_left (spreadCell width heightmap seaLevel)
           (JS.cells 1 (width - 1) 1 (height - 1)) tempMoisture)
      (JS.range 0 spreadPasses) moisture in
  let moisture := tempMoisture in
  let moisture :=
    fold_left (variationCell width heightmap temperature seaLevel noise)
      (JS.cells 0 width 0 height) moisture in
  (MathUtil.gaussianBlur moisture width height 4, rng).

Definition generateClimate (o : ClimateOptions) : list Q * list Q :=
  let rng := Random.new (seed o ++ "_climate") in
  let '(temperature, rng) :=
    generateTemperature (width o) (height o) (heightmap o) (seaLevel o) rng in
  let '(moisture, _) :=
    generateMoisture (width o) (height o) (heightmap o) temperature (seaLevel o) rng in
  (temperature, moisture).

(** The values stored at the cell [(x, y)] by the loops of [generateWindPatterns]. *)
Definition windCell (height : Z) (noise : NoiseFunction2D) (x y : Z) : Q * Q :=
  let latitude := JS.num y / JS.num height in
  let '(baseWindX, baseWindY) :=
    if JS.ltb latitude 0.3 then (- 0.5, 0.2)
    else if JS.ltb latitude 0.6 then (0.7, 0)
    else (- 0.5, - 0.2) in
  let turbulenceX := noise (JS.num x / 50) (JS.num y / 50) * 0.3 in
  let turbulenceY := noise (JS.num x / 50 + 100) (JS.num y / 50 + 100) * 0.3 in
  (baseWindX + turbulenceX, baseWindY + turbulenceY).

(** [generateWindPatterns(width, height, seed)]: the fields [dx] and [dy]. *)
Definition generateWindPatterns (width height : Z) (seed : string) : list Q * list Q :=
  let rng := Random.new (seed ++ "_wind") in
  let '(noise, _) := createNoise2D rng in
  fold_left
    (fun '(dx, dy) '(x, y) =>
       let idx := MathUtil.coordToIndex x y width in
       let '(windX, windY) := windCell height noise x y in
       (JS.set dx idx windX, JS.set dy idx windY))
    (JS.cells 0 width 0 height)
    (JS.zeros (width * height), JS.zeros (width * height)).

End WithHost.
End Climate.

(* ================================================================== *)
(** ** src/generation/terrain/heightmap.ts                              *)
(* ================================================================== *)

Module Heightmap.
Section WithHost.
Context {host : Host}.
Import Types.
Open Scope Q_scope.

Local Abbreviation smootherstep := MathUtil.smootherstep.
Local Abbreviation clamp := MathUtil.clamp.
Local Abbreviation rng_t := Random.SeededRandom.

Record HeightmapOptions := {
  width : Z;
  height : Z;
  seed : string;
  mapType : MapType;
  seaLevel : Q;
  roughness : Q;
  waterCoverage : Q
}.

(** The six octaves of [generateFBM] at the cell [(x, y)]. *)
Definition fbmCell (width height : Z) (noise : NoiseFunction2D) (roughness : Q) (x y : Z) : Q :=
  let persistence := 0.5 + roughness * 0.2 in
  let lacunarity := 2 in
  let baseScale := JS.num (Z.max width height) / 4 in
  let '(_, _, value, maxAmplitude) :=
    fold_left
      (fun '(amplitude, frequency, value, maxAmplitude) _ =>
         let nx := (JS.num x / baseScale) * frequency in
         let ny := (JS.num y / baseScale) * frequency in
         (amplitude * persistence, frequency * lacunarity,
          value + noise nx ny * amplitude, maxAmplitude + amplitude))
      (JS.range 0 6) (1, 1, 0, 0) in
  value / maxAmplitude.

Definition generateFBM (heightmap : list Q) (width height : Z) (noise : NoiseFunction2D)
    (roughness : Q) : list Q :=
  fold_left
    (fun heightmap '(x, y) =>
       JS.set heightmap (MathUtil.coordToIndex x y width) (fbmCell width height noise roughness x y))
    (JS.cells 0 width 0 height) heightmap.

Definition islandMask (normalizedDist variation : Q) : Q :=
  let falloff := smootherstep 0.3 0.9 (normalizedDist + variation) in
  1 - falloff.

Definition archipelagoMask (x y : Q) (width height : Z) (rng : rng_t) (_normalizedDist : Q)
    : Q * rng_t :=
  let nx := x / JS.num width in
  let ny := y / JS.num height in
  let '(clusterNoise, rng) := createNoise2D rng in
  let '(detailNoise, rng) := createNoise2D rng in
  let clusters := clusterNoise (nx * 3) (ny * 3) in
  let islands := detailNoise (nx * 15) (ny * 15) in
  let clusterVal := (clusters + 1) / 2 in
  let islandVal := (islands + 1) / 2 in
  let shapedCluster := smootherstep 0.4 0.8 clusterVal in
  let mask := shapedCluster * islandVal in
  let mask := mask * 1.5 in
  let edgeDist := JS.max (JS.abs (nx - 0.5)) (JS.abs (ny - 0.5)) * 2 in
  let edgeFalloff := smootherstep 0.8 1 edgeDist in
  (clamp (mask * (1 - edgeFalloff)) 0 1, rng).

Definition peninsulaMask (x y : Q) (width height : Z) (_normalizedDist variation : Q) : Q :=
  let yFactor := y / JS.num height in
  let xCenter := JS.abs (x - JS.num width / 2) / (JS.num width / 2) in
  let baseWidth := 0.8 - yFactor * 0.6 + variation * 0.15 in
  let tipStart := 0.7 in
  if JS.ltb tipStart yFactor then
    let tipProgress := (yFactor - tipStart) / (1 - tipStart) in
    let tipWidth := baseWidth * (1 - tipProgress * 0.9) in
    if JS.ltb xCenter tipWidth then
      let edgeSoftness := smootherstep tipWidth (tipWidth * 0.5) xCenter in
      let tipFade := 1 - smootherstep 0.85 1 yFactor in
      edgeSoftness * tipFade
    else 0
  else if JS.ltb xCenter baseWidth then smootherstep baseWidth (baseWidth * 0.6) xCenter
  else 0.

Definition continentMask (normalizedDist variation : Q) : Q :=
  let falloff := smootherstep 0.5 1 (normalizedDist + variation * 0.5) in
  1 - falloff * 0.7.

Definition coastalMask (x y : Q) (width height : Z) (variation : Q) (rng : rng_t)
    : Q * rng_t :=
  let xFactor := x / JS.num width in
  let yFactor := y / JS.num height in
  let '(u1, rng) := Random.next rng in
  let phase1 := u1 * Math_PI * 2 in
  let '(u2, rng) := Random.next rng in
  let phase2 := u2 * Math_PI * 2 in
  let '(u3, rng) := Random.next rng in
  let phase3 := u3 * Math_PI * 2 in
  let wave1 := Math_sin (yFactor * Math_PI * 3 + phase1) * 0.08 in
  let wave2 := Math_sin (yFactor * Math_PI * 7 + 1.5 + phase2) * 0.04 in
  let wave3 := Math_sin (yFactor * Math_PI * 13 + 3 + phase3) * 0.02 in
  let bays := Math_sin (yFactor * Math_PI * 1.5) * 0.12 in
  let coastLine := 0.25 + wave1 + wave2 + wave3 + bays + variation * 0.15 in
  let inletChance := Math_sin (yFactor * Math_PI * 5) * Math_sin (yFactor * Math_PI * 8) in
  let inlet := if JS.ltb 0.5 inletChance then 0.1 else 0 in
  let effectiveCoast := coastLine + inlet in
  if JS.ltb xFactor effectiveCoast then (smootherstep 0 (effectiveCoast * 0.8) xFactor, rng)
  else (1, rng).

Definition isthmusMask (x y : Q) (width height : Z) (variation : Q) : Q :=
  let xCenter := JS.abs (x - JS.num width / 2) / (JS.num width / 2) in
  let yFactor := y / JS.num height in
  let narrowness := Math_sin (yFactor * Math_PI) in
  let isthmusWidth := 0.7 - narrowness * 0.55 + variation * 0.1 in
  let coastWobble := Math_sin (yFactor * Math_PI * 6) * 0.05 in
  let effectiveWidth := isthmusWidth + coastWobble in
  if JS.ltb xCenter effectiveWidth then smootherstep effectiveWidth (effectiveWidth * 0.7) xCenter
  else 0.

Definition atollMask (x y : Q) (width height : Z) (rng : rng_t)
    (normalizedDist variation : Q) : Q * rng_t :=
  let centerX := JS.num width / 2 in
  let centerY := JS.num height / 2 in
  let angle := Math_atan2 (y - centerY) (x - centerX) in
  let '(breakNoise, rng) := createNoise2D rng in
  let '(islandNoise, rng) := createNoise2D rng in
  let ringCenter := 0.45 in
  let ringWidth := 0.12 in
  let ringDist := JS.abs (normalizedDist - ringCenter) in
  let inRing := JS.ltb ringDist ringWidth in
  if negb inRing then (0, rng)
  else
    let angularBreak := breakNoise (Math_cos angle * 2) (Math_sin angle * 2) in
    let islandShape := islandNoise (x / 30) (y / 30) in
    let gapThreshold := - 0.1 + variation * 0.2 in
    if JS.ltb angularBreak gapThreshold then (0, rng)
    else
      let ringStrength := 1 - ringDist / ringWidth in
      let islandMask := (angularBreak + 0.5) * ringStrength in
      let smallIslands := if JS.ltb 0.3 islandShape then 0.3 else 0 in
      (clamp (islandMask + smallIslands) 0 1, rng).

Definition deltaMask (x y : Q) (width height : Z) (rng : rng_t) (variation : Q)
    : Q * rng_t :=
  let xNorm := x / JS.num width in
  let yFactor := y / JS.num height in
  let centerX := 0.5 in
  let distFromCenter := JS.abs (xNorm - centerX) in
  let maxWidth := 0.1 + (1 - yFactor) * 0.45 in
  if JS.ltb maxWidth distFromCenter then (0, rng)
  else
    let '(channelNoise, rng) := createNoise2D rng in
    let channelDensity := (1 - yFactor) * 8 + 2 in
    let channelPattern := channelNoise (xNorm * channelDensity) (yFactor * 3) in
    let isChannel := JS.ltb channelPattern (- 0.2 - yFactor * 0.3) in
    if isChannel && JS.ltb 0.3 yFactor then (0, rng)
    else
      let edgeFade := smootherstep maxWidth (maxWidth * 0.6) distFromCenter in
      let islandNoise := channelNoise (x / 40) (y / 40) in
      let hasIsland := JS.ltb 0.2 islandNoise in
      if JS.ltb 0.7 yFactor then
        if hasIsland then (edgeFade * 0.8, rng) else (0, rng)
      else (edgeFade * (0.6 + yFactor * 0.4 + variation * 0.1), rng).

Definition fjordMask (x y : Q) (width height : Z) (rng : rng_t) (variation : Q)
    : Q * rng_t :=
  let xNorm := x / JS.num width in
  let yFactor := y / JS.num height in
  let baseLand := smootherstep 0.1 0.5 yFactor in
  let '(fjordNoise1, rng) := createNoise2D rng in
  let '(fjordNoise2, rng) := createNoise2D rng in
  let '(u1, rng) := Random.next rng in
  let freq1X := 4 + u1 * 3 in
  let '(u2, rng) := Random.next rng in
  let freq1Y := 0.4 + u2 * 0.4 in
  let '(u3, rng) := Random.next rng in
  let freq2X := 7 + u3 * 5 in
  let '(u4, rng) := Random.next rng in
  let freq2Y := 0.6 + u4 * 0.6 in
  let fjord1 := fjordNoise1 (xNorm * freq1X) (yFactor * freq1Y) in
  let fjord2 := fjordNoise2 (xNorm * freq2X + 10) (yFactor * freq2Y) in
  let fjordDepth1 := if JS.ltb 0.3 fjord1 then (fjord1 - 0.3) * 2.5 else 0 in
  let fjordDepth2 := if JS.ltb 0.4 fjord2 then (fjord2 - 0.4) * 2 else 0 in
  let maxFjordPenetration := 0.7 in
  let fjordReach1 := fjordDepth1 * maxFjordPenetration in
  let fjordReach2 := fjordDepth2 * maxFjordPenetration * 0.8 in
  let inFjord1 := JS.ltb yFactor fjordReach1 && JS.ltb 0.3 fjord1 in
  let inFjord2 := JS.ltb yFactor fjordReach2 && JS.ltb 0.4 fjord2 in
  if inFjord1 || inFjord2 then
    let skerry := fjordNoise1 (x / 20) (y / 20) in
    if JS.ltb 0.7 skerry && JS.ltb 0.15 yFactor then (0.6, rng) else (0, rng)
  else
    let coastDetail := fjordNoise1 (xNorm * 15) (yFactor * 2) * 0.15 in
    if JS.ltb yFactor 0.3
       && JS.ltb 0.15 (fjordNoise2 (xNorm * 20) (yFactor * 10) * 0.2)
    then (0, rng)
    else (clamp (baseLand + coastDetail + variation * 0.1) 0 1, rng).

Definition inlandMask (x y : Q) (width height : Z) (rng : rng_t) (waterCoverage : Q)
    : Q * rng_t :=
  let '(lakeNoise, rng) := createNoise2D rng in
  let '(lakeDetail, rng) := createNoise2D rng in
  let nx := x / JS.num width in
  let ny := y / JS.num height in
  let val := lakeNoise (nx * 3) (ny * 3) in
  let detail := lakeDetail (nx * 10) (ny * 10) * 0.2 in
  let combined := val + detail in
  let threshold := (waterCoverage * 2.4) - 1.2 in
  if JS.ltb combined threshold then (0, rng) else (1, rng).

Definition greatLakeMask (x y : Q) (_width _height : Z) (rng : rng_t)
    (normalizedDist _variation waterCoverage : Q) : Q * rng_t :=
  let lakeRadius := 0.2 + waterCoverage * 0.5 in
  let '(shapeNoise, rng) := createNoise2D rng in
  let distortion := shapeNoise (x / 150) (y / 150) * 0.2 in
  let lakeBoundary := lakeRadius + distortion in
  if JS.ltb normalizedDist lakeBoundary then
    let '(islandNoise, rng) := createNoise2D rng in
    let islandVal := islandNoise (x / 50) (y / 50) in
    if JS.ltb 0.6 islandVal then (1, rng) else (0, rng)
  else (smootherstep lakeBoundary (lakeBoundary + 0.1) normalizedDist, rng).

(** The blend that ends the body of the loops of [applyLandmassMask]:
    the height stored for a cell, from its mask value and terrain noise. *)
Definition blend (mask terrainValue : Q) : Q :=
  let seaLvl := 0.35 in
  if JS.ltb mask 0.3 then
    let oceanDepth := mask / 0.3 in
    oceanDepth * seaLvl * 0.95
  else
    let landFactor := (mask - 0.3) / 0.7 in
    let smoothedLand := smootherstep 0 1 landFactor in
    let minHeight := seaLvl in
    let maxHeight := 0.4 + terrainValue * 0.6 in
    minHeight + (maxHeight - minHeight) * smoothedLand.

Definition isLargeLandmass (mapType : MapType) : bool :=
  match mapType with
  | continent | peninsula | isthmus | island => true
  | _ => false
  end.

(** What [applyLandmassMask] computes once, before its loops. *)
Record MaskSetup := {
  centerX : Q; centerY : Q; maxRadius : Q;
  warpNoiseX : NoiseFunction2D; warpNoiseY : NoiseFunction2D;
  warpScale : Q; warpStrength : Q;
  cos : Q; sin : Q; scaleX : Q; scaleY : Q
}.

Definition maskSetup (width height : Z) (rng : rng_t) : MaskSetup * rng_t :=
  let '(warpNoiseX, rng) := createNoise2D rng in
  let '(warpNoiseY, rng) := createNoise2D rng in
  let '(u, rng) := Random.next rng in
  let angle := u * Math_PI * 2 in
  let '(u1, rng) := Random.next rng in
  let '(u2, rng) := Random.next rng in
  ({| centerX := JS.num width / 2; centerY := JS.num height / 2;
      maxRadius := JS.num (Z.min width height) / 2;
      warpNoiseX := warpNoiseX; warpNoiseY := warpNoiseY;
      warpScale := 0.005; warpStrength := JS.num (Z.min width height) * 0.2;
      cos := Math_cos angle; sin := Math_sin angle;
      scaleX := 0.8 + u1 * 0.4; scaleY := 0.8 + u2 * 0.4 |}, rng).

Definition transformCoords (s : MaskSetup) (x y : Q) : Q * Q :=
  let dx := x - centerX s in
  let dy := y - centerY s in
  let rx := dx * cos s - dy * sin s in
  let ry := dx * sin s + dy * cos s in
  let rx := rx * scaleX s in
  let ry := ry * scaleY s in
  (rx + centerX s, ry + centerY s).

(** The mask value of the cell [(x, y)]: the [switch] on the map type and
    the inland blending that follows it. *)
Definition cellMask (s : MaskSetup) (width height : Z) (mapType : MapType)
    (waterCoverage : Q) (x y : Z) (rng : rng_t) : Q * rng_t :=
  let wx := JS.num x + warpNoiseX s (JS.num x * warpScale s) (JS.num y * warpScale s) * warpStrength s in
  let wy := JS.num y + warpNoiseY s (JS.num x * warpScale s) (JS.num y * warpScale s) * warpStrength s in
  let dist := MathUtil.distance wx wy (centerX s) (centerY s) in
  let normalizedDist := dist / maxRadius s in
  let '(tx, ty) := transformCoords s wx wy in
  let variation := warpNoiseX s (wx / 50) (wy / 50) * 0.2 in
  let '(mask, rng) :=
    match mapType with
    | island => (islandMask normalizedDist variation, rng)
    | archipelago => archipelagoMask wx wy width height rng normalizedDist
    | peninsula => (peninsulaMask tx ty width height normalizedDist variation, rng)
    | continent => (continentMask normalizedDist variation, rng)
    | coastal => coastalMask tx ty width height variation rng
    | inland => inlandMask wx wy width height rng waterCoverage
    | isthmus => (isthmusMask tx ty width height variation, rng)
    | atoll => atollMask wx wy width height rng normalizedDist variation
    | great_lake => greatLakeMask wx wy width height rng normalizedDist variation waterCoverage
    | delta => deltaMask tx ty width height rng variation
    | fjord => fjordMask tx ty width height rng variation
    end in
  if isLargeLandmass mapType && JS.ltb 0.8 mask then
    let '(lakeVal, rng) := inlandMask wx wy width height rng waterCoverage in
    if JS.ltb lakeVal 0.1 then (mask * 0.3, rng) else (mask, rng)
  else (mask, rng).

Definition maskCell (s : MaskSetup) (width height : Z) (mapType : MapType)
    (waterCoverage : Q) (acc : list Q * rng_t) (c : Z * Z) : list Q * rng_t :=
  let '(heightmap, rng) := acc in
  let '(x, y) := c in
  let idx := MathUtil.coordToIndex x y width in
  let '(mask, rng) := cellMask s width height mapType waterCoverage x y rng in
  let terrainValue := (JS.get heightmap idx + 1) / 2 in
  (JS.set heightmap idx (blend mask terrainValue), rng).

Definition applyLandmassMask (heightmap : list Q) (width height : Z) (mapType : MapType)
    (rng : rng_t) (waterCoverage : Q) : list Q * rng_t :=
  let '(s, rng) := maskSetup width height rng in
  fold_left (maskCell s width height mapType waterCoverage)
    (JS.cells 0 width 0 height) (heightmap, rng).

Definition normalizeHeightmap (heightmap : list Q) : list Q :=
  map (fun h => clamp h 0 1) heightmap.

(** The change, if any, that [cleanupArtifacts] records for the cell [(x, y)]. *)
Definition artifactChange (heightmap : list Q) (width : Z) (threshold : Q) (x y : Z)
    : option (Z * Q) :=
  let idx := MathUtil.coordToIndex x y width in
  let val := JS.get heightmap idx in
  let isLand := JS.ltb threshold val in
  let nIdxs :=
    [ MathUtil.coordToIndex (x + 1) y width;
      MathUtil.coordToIndex (x - 1) y width;
      MathUtil.coordToIndex x (y + 1) width;
      MathUtil.coordToIndex x (y - 1) width ] in
  let neighborLandCount :=
    fold_left
      (fun count nIdx => if JS.ltb threshold (JS.get heightmap nIdx) then (count + 1)%Z else count)
      nIdxs 0%Z in
  if isLand && (neighborLandCount <=? 1)%Z then Some (idx, threshold - 0.01)
  else if negb isLand && (3 <=? neighborLandCount)%Z then Some (idx, threshold + 0.01)
  else None.

Definition cleanupArtifacts (heightmap : list Q) (width height : Z) (threshold : Q) : list Q :=
  let changes :=
    fold_left
      (fun changes '(x, y) =>
         match artifactChange heightmap width threshold x y with
         | Some ch => changes ++ [ch]
         | None => changes
         end)
      (JS.cells 1 (width - 1) 1 (height - 1)) [] in
  fold_left (fun heightmap '(idx, val) => JS.set heightmap idx val) changes heightmap.

(** [adjustWaterCoverage] changes nothing, for every map type. *)
Definition adjustWaterCoverage (heightmap : list Q) (_seaLevel _targetWaterCoverage : Q)
    (mapType : MapType) : list Q :=
  match mapType with
  | inland => heightmap
  | _ => heightmap
  end.

Definition generateHeightmap (o : HeightmapOptions) : list Q :=
  let rng := Random.new (seed o) in
  let '(noise, rng) := createNoise2D rng in
  let heightmap := JS.zeros (width o * height o) in
  let heightmap := generateFBM heightmap (width o) (height o) noise (roughness o) in
  let '(heightmap, _) :=
    applyLandmassMask heightmap (width o) (height o) (mapType o) rng (waterCoverage o) in
  let heightmap := normalizeHeightmap heightmap in
  let heightmap := cleanupArtifacts heightmap (width o) (height o) (seaLevel o) in
  adjustWaterCoverage heightmap (seaLevel o) (waterCoverage o) (mapType o).

End WithHost.
End Heightmap.

(* ================================================================== *)
(** ** src/generation/index.ts                                          *)
(* ================================================================== *)

(** [applyNames(seed, settlements, rivers)] of src/generation/naming fills
    the [name] fields; the name grammar is not embedded, the function is a
    parameter. *)
Class Naming : Type := {
  applyNames : string -> list Types.Settlement -> list Types.River
               -> list Types.Settlement * list Types.River
}.

Module Pipeline.
Section WithHost.
Context {host : Host} {naming : Naming}.
Import Types.
Open Scope Q_scope.

Record MapConfig := {
  seed : string;
  mapType : MapType;
  mapSize : MapSize;
  width : Z;
  height : Z;
  seaLevel : Q;
  roughness : Q;
  waterCoverage : Q;
  forestDensity : Q;
  settlementDensity : Q
}.

(** [Partial<MapConfig>]: a field that is absent is [None]. *)
Record PartialMapConfig := {
  seed_ : option string;
  mapType_ : option MapType;
  mapSize_ : option MapSize;
  width_ : option Z;
  height_ : option Z;
  seaLevel_ : option Q;
  roughness_ : option Q;
  waterCoverage_ : option Q;
  forestDensity_ : option Q;
  settlementDensity_ : option Q
}.

Definition DEFAULT_MAP_CONFIG : MapConfig :=
  {| seed := ""; mapType := island; mapSize := regional;
     width := 512; height := 512; seaLevel := 0.35; roughness := 0.6;
     waterCoverage := 0.4; forestDensity := 0.5; settlementDensity := 0.3 |}.

(** A full configuration given as the [config] option. *)
Definition given (c : MapConfig) : PartialMapConfig :=
  {| seed_ := Some (seed c); mapType_ := Some (mapType c); mapSize_ := Some (mapSize c);
     width_ := Some (width c); height_ := Some (height c);
     seaLevel_ := Some (seaLevel c); roughness_ := Some (roughness c);
     waterCoverage_ := Some (waterCoverage c); forestDensity_ := Some (forestDensity c);
     settlementDensity_ := Some (settlementDensity c) |}.

Record GenerationProgress := { phase : string; progress : Q; message : string }.

Record MapData := {
  config : MapConfig;
  heightmap : list Q;
  moisture : list Q;
  temperature : list Q;
  biomes : list Z;
  rivers : list River;
  settlements : list Settlement
  (* pois and roads are always empty *)
}.

(** How the promise [generateMap] returns settles. *)
Inductive Promise (A : Type) :=
| Resolved (value : A)
| Rejected (reason : string).
Arguments Resolved {A} value.
Arguments Rejected {A} reason.

(** [options.config.seed || generateSeed()]: the empty string is falsy. *)
Definition effectiveSeed (random : nat -> Q) (s : option string) : string :=
  match s with
  | Some (String c rest) => String c rest
  | _ => Random.generateSeed random
  end.

(** The merged configuration, with the dimensions of the map size. *)
Definition mergeConfig (random : nat -> Q) (c : PartialMapConfig) : MapConfig :=
  let d := DEFAULT_MAP_CONFIG in
  let mapSize := default (mapSize d) (mapSize_ c) in
  let sizeConfig := MAP_SIZE_CONFIG mapSize in
  {| seed := effectiveSeed random (seed_ c);
     mapType := default (mapType d) (mapType_ c);
     mapSize := mapSize;
     width := fst sizeConfig;
     height := snd sizeConfig;
     seaLevel := default (seaLevel d) (seaLevel_ c);
     roughness := default (roughness d) (roughness_ c);
     waterCoverage := default (waterCoverage d) (waterCoverage_ c);
     forestDensity := default (forestDensity d) (forestDensity_ c);
     settlementDensity := default (settlementDensity d) (settlementDensity_ c) |}.

(** The calls [report(phase, progress, message)], in order. *)
Definition reports : list GenerationProgress :=
  [ {| phase := "Heightmap"; progress := 0.1; message := "Generating terrain..." |};
    {| phase := "Erosion"; progress := 0.25; message := "Simulating erosion..." |};
    {| phase := "Climate"; progress := 0.4; message := "Calculating climate..." |};
    {| phase := "Biomes"; progress := 0.5; message := "Distributing biomes..." |};
    {| phase := "Rivers"; progress := 0.6; message := "Carving rivers..." |};
    {| phase := "Settlements"; progress := 0.75; message := "Placing settlements..." |};
    {| phase := "Names"; progress := 0.9; message := "Generating names..." |};
    {| phase := "Complete"; progress := 1; message := "Map generation complete!" |} ].

(** The stages of [generateMap] on the merged configuration. *)
Definition runStages (config : MapConfig) : MapData :=
  let heightmap :=
    Heightmap.generateHeightmap
      {| Heightmap.width := width config; Heightmap.height := height config;
         Heightmap.seed := seed config; Heightmap.mapType := mapType config;
         Heightmap.seaLevel := seaLevel config; Heightmap.roughness := roughness config;
         Heightmap.waterCoverage := waterCoverage config |} in
  let heightmap :=
    Erosion.applyErosion heightmap (seed config)
      (Erosion.withDefaults (width config) (height config)
         (JS.floor (JS.num (width config * height config) * 0.1))) in
  let heightmap :=
    Erosion.applyThermalErosion heightmap (width config) (height config) 5 0.5 in
  let '(temperature, moisture) :=
    Climate.generateClimate
      {| Climate.width := width config; Climate.height := height config;
         Climate.seed := seed config; Climate.heightmap := heightmap;
         Climate.seaLevel := seaLevel config |} in
  let biomes :=
    Biomes.generateBiomes
      {| Biomes.width := width config; Biomes.height := height config;
         Biomes.heightmap := heightmap; Biomes.temperature := temperature;
         Biomes.moisture := moisture; Biomes.seaLevel := seaLevel config;
         Biomes.seed := seed config |} in
  let riverCount := JS.floor (JS.num (width config) / 50) in
  let rivers :=
    Rivers.generateRivers
      {| Rivers.width := width config; Rivers.height := height config;
         Rivers.seed := seed config; Rivers.heightmap := heightmap;
         Rivers.moisture := moisture; Rivers.seaLevel := seaLevel config;
         Rivers.riverCount := riverCount; Rivers.minRiverLength := 15 |} in
  let heightmap := Rivers.carveRiversIntoHeightmap heightmap rivers (width config) 0.02 in
  let settlements :=
    Settlements.generateSettlements
      {| Settlements.width := width config; Settlements.height := height config;
         Settlements.seed := seed config; Settlements.heightmap := heightmap;
         Settlements.moisture := moisture; Settlements.biomes := biomes;
         Settlements.rivers := rivers; Settlements.seaLevel := seaLevel config;
         Settlements.density := settlementDensity config |} in
  let '(settlements, rivers) := applyNames (seed config) settlements rivers in
  {| config := config; heightmap := heightmap; moisture := moisture;
     temperature := temperature; biomes := biomes; rivers := rivers;
     settlements := settlements |}.

(** [generateMap(options)]: what [onProgress] is called with, and how
    the promise settles.  [random] gives the results of [Math.random]. *)
Definition generateMap (random : nat -> Q) (options : PartialMapConfig)
    : list GenerationProgress * Promise MapData :=
  let config := mergeConfig random options in
  (reports, Resolved (runStages config)).

(** [quickGenerate(mapType = 'island', mapSize = 'regional')]; an argument
    that is left out is [None]. *)
Definition quickGenerate (random : nat -> Q) (mapType : option MapType)
    (mapSize : option MapSize) : list GenerationProgress * Promise MapData :=
  generateMap random
    {| seed_ := None;
       mapType_ := Some (default island mapType);
       mapSize_ := Some (default regional mapSize);
       width_ := None; height_ := None; seaLevel_ := None; roughness_ := None;
       waterCoverage_ := None; forestDensity_ := None; settlementDensity_ := None |}.

End WithHost.
Arguments Resolved {A} value.
Arguments Rejected {A} reason.
End Pipeline.

(* ================================================================== *)
(** ** src/generation/naming/index.ts                                   *)
(* ================================================================== *)

Module Names.
Import Types.
Open Scope string_scope.

Inductive NameStyle := fantasy | nordic | celtic | medieval.

Record SyllableSet := {
  prefixes : list string;
  middles : list string;
  suffixes : list string;
  standalone : list string
}.

(** The shape of [RIVER_NAMES]: the fields [prefixes], [roots], [suffixes]. *)
Record RiverNames := {
  river_prefixes : list string;
  river_roots : list string;
  river_suffixes : list string
}.

Definition FANTASY_SYLLABLES : SyllableSet := {|
  prefixes := [
    "Aer"; "Ald"; "Ara"; "Ash"; "Bel"; "Bri"; "Cal"; "Cel"; "Dae"; "Dal"; "Dra"; "Dun";
    "Eld"; "Elm"; "Fae"; "Fen"; "Gal"; "Gil"; "Grim"; "Hal"; "Hel"; "Ir"; "Ith"; "Kar";
    "Kel"; "Kir"; "Lir"; "Lor"; "Mal"; "Mar"; "Mel"; "Mith"; "Mor"; "Nar"; "Nel"; "Nor";
    "Orn"; "Pel"; "Quel"; "Ral"; "Rath"; "Ril"; "Riv"; "Sar"; "Sel"; "Sil"; "Sol"; "Sul";
    "Tal"; "Tar"; "Tel"; "Thal"; "Thor"; "Til"; "Tor"; "Tyr"; "Ul"; "Val"; "Var"; "Vel";
    "Vor"; "Wil"; "Wyn"; "Xan"; "Yen"; "Zar"; "Zeph" ];
  middles := [
    "an"; "ar"; "el"; "en"; "er"; "eth"; "ia"; "il"; "in"; "ion"; "ir"; "is"; "ith"; "on";
    "or"; "oth"; "ul"; "un"; "ur" ];
  suffixes := [
    "dale"; "dell"; "den"; "dor"; "fall"; "feld"; "ford"; "gate"; "glen"; "guard"; "hall";
    "haven"; "helm"; "hill"; "hold"; "hollow"; "keep"; "lake"; "land"; "leigh"; "mere";
    "moor"; "mount"; "mouth"; "peak"; "port"; "rest"; "ridge"; "shire"; "shore"; "spire";
    "stead"; "stone"; "vale"; "view"; "ville"; "wall"; "watch"; "water"; "wind"; "wood";
    "worth" ];
  standalone := [
    "Amber"; "Autumn"; "Azure"; "Black"; "Blue"; "Bright"; "Bronze"; "Clear"; "Cold";
    "Crystal"; "Dark"; "Dawn"; "Deep"; "Dusk"; "East"; "Ever"; "Fair"; "Far"; "First";
    "Frost"; "Gold"; "Grand"; "Great"; "Green"; "Grey"; "High"; "Iron"; "Lake"; "Last";
    "Light"; "Long"; "Lost"; "Low"; "Mid"; "Moon"; "New"; "Night"; "North"; "Oak"; "Old";
    "Pine"; "Rain"; "Red"; "River"; "Rock"; "Rose"; "Sea"; "Shadow"; "Silver"; "Snow";
    "South"; "Spring"; "Star"; "Steel"; "Stone"; "Storm"; "Summer"; "Sun"; "Thunder";
    "West"; "White"; "Wild"; "Wind"; "Winter"; "Wolf" ]
|}.

Definition NORDIC_SYLLABLES : SyllableSet := {|
  prefixes := [
    "Bjorn"; "Borg"; "Bran"; "Dra"; "Eid"; "Eir"; "Frey"; "Gar"; "Grim"; "Haf"; "Hel";
    "Hild"; "Hrun"; "Ing"; "Jar"; "Jot"; "Kald"; "Kjel"; "Krag"; "Lod"; "Mjol"; "Nar";
    "Nid"; "Rag"; "Sig"; "Skag"; "Skar"; "Skal"; "Stor"; "Svar"; "Thor"; "Tyr"; "Ulf";
    "Val"; "Vin"; "Ygg" ];
  middles := [
    "a"; "e"; "i"; "o"; "u"; "ar"; "or"; "ir"; "en"; "in" ];
  suffixes := [
    "by"; "dal"; "fell"; "fjord"; "heim"; "holm"; "hus"; "land"; "mark"; "ness"; "rike";
    "stad"; "stein"; "strand"; "sund"; "vik"; "voll" ];
  standalone := [
    "Black"; "Cold"; "Dark"; "Deep"; "East"; "Far"; "Frost"; "Great"; "Grey"; "High";
    "Ice"; "Iron"; "Long"; "Low"; "Mid"; "North"; "Old"; "South"; "Storm"; "Stone"; "West";
    "White"; "Wolf" ]
|}.

Definition RIVER_NAMES : RiverNames := {|
  river_prefixes := [
    "Silver"; "Gold"; "Crystal"; "Swift"; "Slow"; "Deep"; "Winding"; "Clear"; "Dark";
    "Bright"; "Cold"; "Warm"; "Rushing"; "Gentle"; "Mighty"; "Ancient" ];
  river_roots := [
    "Ald"; "Ash"; "Bel"; "Cel"; "Dal"; "Eld"; "Fen"; "Gal"; "Hel"; "Ir"; "Kel"; "Lor";
    "Mel"; "Nar"; "Pel"; "Ral"; "Sel"; "Tal"; "Val"; "Wyr" ];
  river_suffixes := [
    "a"; "an"; "el"; "en"; "ia"; "in"; "on"; "or"; "un"; "yn" ]
|}.

(** [str.toLowerCase()], on the letters A to Z. *)
Definition lowerChar (c : ascii) : ascii :=
  let n := nat_of_ascii c in
  if (65 <=? n)%nat && (n <=? 90)%nat then ascii_of_nat (n + 32) else c.

Definition toLowerCase (s : string) : string :=
  string_of_list_ascii (map lowerChar (list_ascii_of_string s)).

(** The fields [rng], [style] and [usedNames] of the class [NameGenerator]. *)
Record NameGenerator := {
  rng : Random.SeededRandom;
  style : NameStyle;
  usedNames : gset string
}.

(** [new NameGenerator(seed, style)] *)
Definition new (seed : string) (style : NameStyle) : NameGenerator :=
  {| rng := Random.new (seed ++ "_names"); style := style; usedNames := ∅ |}.

Definition getSyllables (style : NameStyle) : SyllableSet :=
  match style with
  | nordic => NORDIC_SYLLABLES
  | _ => FANTASY_SYLLABLES
  end.

(** [this.rng.pick(array)] where the result is used as a string;
    [undefined] would read "undefined". *)
Definition pick (array : list string) (r : Random.SeededRandom)
    : string * Random.SeededRandom :=
  let '(picked, r) := Random.pick array r in (default "undefined" picked, r).

(** The loop [do { name = generator(); attempts++ } while (usedNames.has(name)
    && attempts < 100)]; [more] is the number of turns that may still follow
    this one. *)
Fixpoint drawLoop (more : nat)
    (generator : Random.SeededRandom -> string * Random.SeededRandom)
    (used : gset string) (r : Random.SeededRandom) : string * Random.SeededRandom :=
  let '(name, r) := generator r in
  match more with
  | O => (name, r)
  | S more => if decide (name ∈ used) then drawLoop more generator used r else (name, r)
  end.

Definition generateUniqueName
    (generator : Random.SeededRandom -> string * Random.SeededRandom)
    (g : NameGenerator) : string * NameGenerator :=
  let '(name, r) := drawLoop 99 generator (usedNames g) (rng g) in
  (name, {| rng := r; style := style g; usedNames := {[ name ]} ∪ usedNames g |}).

(** The function that [generateSettlementName] hands to [generateUniqueName]. *)
Definition settlementNameDraw (style : NameStyle) (r : Random.SeededRandom)
    : string * Random.SeededRandom :=
  let syllables := getSyllables style in
  let '(patterns, r) := Random.int 0 3 r in
  if (patterns =? 0)%Z then
    let '(a, r) := pick (prefixes syllables) r in
    let '(b, r) := pick (suffixes syllables) r in
    (a ++ b, r)
  else if (patterns =? 1)%Z then
    let '(a, r) := pick (standalone syllables) r in
    let '(b, r) := pick (suffixes syllables) r in
    (a ++ b, r)
  else if (patterns =? 2)%Z then
    let '(a, r) := pick (prefixes syllables) r in
    let '(b, r) := pick (middles syllables) r in
    let '(c, r) := pick (suffixes syllables) r in
    (a ++ b ++ c, r)
  else
    let '(a, r) := pick (standalone syllables) r in
    let '(b, r) := pick (standalone syllables) r in
    (a ++ toLowerCase b, r).

Definition generateSettlementName (_size : SettlementSize) (_type : string)
    (g : NameGenerator) : string * NameGenerator :=
  generateUniqueName (settlementNameDraw (style g)) g.

(** The function that [generateRiverName] hands to [generateUniqueName]. *)
Definition riverNameDraw (r : Random.SeededRandom) : string * Random.SeededRandom :=
  let '(pattern, r) := Random.int 0 2 r in
  if (pattern =? 0)%Z then
    let '(a, r) := pick (river_prefixes RIVER_NAMES) r in
    let '(b, r) := pick (river_roots RIVER_NAMES) r in
    let '(c, r) := pick (river_suffixes RIVER_NAMES) r in
    (a ++ toLowerCase b ++ c, r)
  else if (pattern =? 1)%Z then
    let '(a, r) := pick (river_roots RIVER_NAMES) r in
    let '(b, r) := pick (river_suffixes RIVER_NAMES) r in
    (a ++ b ++ " River", r)
  else
    let '(a, r) := pick (river_prefixes RIVER_NAMES) r in
    let '(b, r) := pick (river_roots RIVER_NAMES) r in
    ("The " ++ a ++ " " ++ b, r).

Definition generateRiverName (g : NameGenerator) : string * NameGenerator :=
  generateUniqueName riverNameDraw g.

(** [settlement.name = name] and [river.name = name] *)
Definition nameSettlement (s : Settlement) (name : string) : Settlement :=
  {| settlement_id := settlement_id s; settlement_name := name;
     settlement_x := settlement_x s; settlement_y := settlement_y s;
     size := size s; population := population s; settlement_type := settlement_type s |}.

Definition nameRiver (river : River) (name : string) : River :=
  {| river_id := river_id river; river_name := name; segments := segments river |}.

(** [applyNames(seed, settlements, rivers, style = 'fantasy')]: the two
    arrays with the names filled in. *)
Definition applyNames (seed : string) (settlements : list Settlement) (rivers : list River)
    (style : NameStyle) : list Settlement * list River :=
  let generator := new seed style in
  let '(settlements, generator) :=
    fold_left
      (fun '(named, g) settlement =>
         let '(name, g) :=
           generateSettlementName (size settlement) (settlement_type settlement) g in
         ((named ++ [nameSettlement settlement name])%list, g))
      settlements ([], generator) in
  let '(rivers, _) :=
    fold_left
      (fun '(named, g) river =>
         let '(name, g) := generateRiverName g in
         ((named ++ [nameRiver river name])%list, g))
      rivers ([], generator) in
  (settlements, rivers).

(** The naming that [generateMap] uses: the style is left out. *)
#[export] Instance naming : Naming := Build_Naming (fun seed settlements rivers =>
  applyNames seed settlements rivers fantasy).

End Names.

(* ================================================================== *)
(** ** A host to run the definitions on                                 *)
(* ================================================================== *)

(** Small stand-ins for [simplex-noise] and [Math], used where a statement
    is evaluated on concrete data: the noise function drawn from the
    generator is constant over the plane, at one of the sixteen levels
    -1, -7/8, ..., 7/8, chosen by one draw. *)
Module Sample.
Open Scope Q_scope.

Definition levelNoise (rng : Random.SeededRandom) : NoiseFunction2D * Random.SeededRandom :=
  let '(u, rng) := Random.next rng in
  let level := Qred ((JS.num (JS.floor (u * 16)) - 8) / 8) in
  (fun _ _ => level, rng).

(** Four Heron steps from [(x + 1) / 2]. *)
Definition heron (x : Q) : Q :=
  if JS.leb x 0 then 0
  else fold_left (fun y _ => Qred ((y + x / y) / 2)) (seq 0 4) (Qred ((x + 1) / 2)).

Definition recip (x : Q) : Q := if JS.ltb x 0 then Qred (1 / (1 - x)) else Qred (1 + x).

#[export] Instance host : Host := {|
  createNoise2D := levelNoise;
  Math_sqrt := heron;
  Math_exp := recip;
  Math_sin := fun _ => 0;
  Math_cos := fun _ => 1;
  Math_atan2 := fun _ _ => 0;
  Math_PI := 355 # 113
|}.

#[export] Instance naming : Naming := {|
  applyNames := fun _ settlements rivers => (settlements, rivers)
|}.

End Sample.

(* ================================================================== *)
(** ** Measures the properties are stated with                          *)
(* ================================================================== *)

Module Measures.
Open Scope Q_scope.

(** The number of cells of a heightmap that are below sea level. *)
Definition oceanCells (heightmap : list Q) (seaLevel : Q) : Z :=
  Z.of_nat (length (List.filter (fun v => JS.ltb v seaLevel) heightmap)).

(** The fraction of the cells that are below sea level. *)
Definition oceanFraction (heightmap : list Q) (seaLevel : Q) : Q :=
  JS.num (oceanCells heightmap seaLevel) / JS.num (Z.of_nat (length heightmap)).

(** The options [o] with another water coverage. *)
Definition withWaterCoverage (o : Heightmap.HeightmapOptions) (waterCoverage : Q)
    : Heightmap.HeightmapOptions :=
  {| Heightmap.width := Heightmap.width o; Heightmap.height := Heightmap.height o;
     Heightmap.seed := Heightmap.seed o; Heightmap.mapType := Heightmap.mapType o;
     Heightmap.seaLevel := Heightmap.seaLevel o; Heightmap.roughness := Heightmap.roughness o;
     Heightmap.waterCoverage := waterCoverage |}.

End Measures.

(* ================================================================== *)
(** ** Concrete maps                                                    *)
(* ================================================================== *)

Module Examples.
Import Types.
Open Scope Q_scope.

(** A 13 x 13 basin: one cell below sea level at the centre [(6, 6)],
    and around it rings that rise by 0.1 with the distance. *)
Definition ring (x y : Z) : Z := Z.max (Z.abs (x - 6)) (Z.abs (y - 6)).

Definition basin : list Q :=
  map (fun '(x, y) => if (ring x y =? 0)%Z then 0.05 else 0.3 + 0.1 * JS.num (ring x y))
      (JS.cells 0 13 0 13).

Definition basinRivers : Rivers.RiverOptions :=
  {| Rivers.width := 13; Rivers.height := 13; Rivers.seed := "a";
     Rivers.heightmap := basin; Rivers.moisture := repeat 0.5 169;
     Rivers.seaLevel := 0.15; Rivers.riverCount := 2; Rivers.minRiverLength := 2 |}.

(** The cells [(Math.floor(x), Math.floor(y))] along a river. *)
Definition path (river : River) : list (Z * Z) :=
  map (fun seg => (JS.floor (seg_x seg), JS.floor (seg_y seg))) (segments river).

(** The flow values along a river. *)
Definition flows (river : River) : list Q := map seg_flow (segments river).

(** An 8 x 8 map that is all ocean: no cell is suitable for a settlement. *)
Definition openSea : Settlements.SettlementOptions :=
  {| Settlements.width := 8; Settlements.height := 8; Settlements.seed := "a";
     Settlements.heightmap := JS.zeros 64; Settlements.moisture := repeat 1 64;
     Settlements.biomes := JS.zerosb 64; Settlements.rivers := [];
     Settlements.seaLevel := 0.35; Settlements.density := 0.3 |}.

(** An 8 x 8 map that is all grassland at the elevation 0.5. *)
Definition meadow : Settlements.SettlementOptions :=
  {| Settlements.width := 8; Settlements.height := 8; Settlements.seed := "a";
     Settlements.heightmap := repeat 0.5 64; Settlements.moisture := repeat 0.5 64;
     Settlements.biomes := repeat 2%Z 64; Settlements.rivers := [];
     Settlements.seaLevel := 0.35; Settlements.density := 0.3 |}.

(** A 4 x 4 heightmap request with the seed ["a"] and the sea level 0.35. *)
Definition pond (mapType : MapType) (waterCoverage : Q) : Heightmap.HeightmapOptions :=
  {| Heightmap.width := 4; Heightmap.height := 4; Heightmap.seed := "a";
     Heightmap.mapType := mapType; Heightmap.seaLevel := 0.35;
     Heightmap.roughness := 0.5; Heightmap.waterCoverage := waterCoverage |}.

(** The heightmap request of the default configuration, on a 4 x 4 grid,
    at the seed [seed]. *)
Definition terrainAt (seed : string) : Heightmap.HeightmapOptions :=
  {| Heightmap.width := 4; Heightmap.height := 4; Heightmap.seed := seed;
     Heightmap.mapType := island; Heightmap.seaLevel := 0.35;
     Heightmap.roughness := 0.6; Heightmap.waterCoverage := 0.4 |}.

(** A configuration with a sea level and a water coverage outside [0, 1]
    and negative dimensions. *)
Definition outOfRange : Pipeline.MapConfig :=
  {| Pipeline.seed := "a"; Pipeline.mapType := island; Pipeline.mapSize := local;
     Pipeline.width := -5; Pipeline.height := 0; Pipeline.seaLevel := 2;
     Pipeline.roughness := 0.6; Pipeline.waterCoverage := -1;
     Pipeline.forestDensity := 0.5; Pipeline.settlementDensity := 0.3 |}.

(** A 2 x 2 grid with one cell below the sea level 0.35. *)
Definition shore : Biomes.BiomeOptions :=
  {| Biomes.width := 2; Biomes.height := 2; Biomes.heightmap := [0.1; 0.5; 0.36; 0.9];
     Biomes.temperature := [0.5; 0.5; 0.1; 0.9]; Biomes.moisture := [0.5; 0.9; 0.5; 0.1];
     Biomes.seaLevel := 0.35; Biomes.seed := "a" |}.

End Examples.

(* ================================================================== *)
(** ** Basic facts: comparisons, arrays, loops                          *)
(* ================================================================== *)

Section Basics.
Open Scope Q_scope.

Lemma ltb_lt (a b : Q) : JS.ltb a b = true <-> a < b.
Proof.
  unfold JS.ltb. rewrite negb_true_iff, <- not_true_iff_false, Qle_bool_iff.
  split; [apply Qnot_le_lt | apply Qlt_not_le].
Qed.

Lemma ltb_ge (a b : Q) : JS.ltb a b = false <-> b <= a.
Proof.
  unfold JS.ltb. rewrite negb_false_iff. apply Qle_bool_iff.
Qed.

Lemma leb_le (a b : Q) : JS.leb a b = true <-> a <= b.
Proof. apply Qle_bool_iff. Qed.

Lemma leb_gt (a b : Q) : JS.leb a b = false <-> b < a.
Proof.
  unfold JS.leb. rewrite <- not_true_iff_false, Qle_bool_iff.
  split; [apply Qnot_le_lt | apply Qlt_not_le].
Qed.

Lemma max_case (a b : Q) (P : Q -> Prop) : P a -> P b -> P (JS.max a b).
Proof.
  unfold JS.max, Qmax, GenericMinMax.gmax. destruct (a ?= b); auto.
Qed.

Lemma min_case (a b : Q) (P : Q -> Prop) : P a -> P b -> P (JS.min a b).
Proof.
  unfold JS.min, Qmin, GenericMinMax.gmin. destruct (a ?= b); auto.
Qed.

(** The closed unit interval. *)
Definition unit (v : Q) : Prop := 0 <= v /\ v <= 1.

Lemma unit_0 : unit 0.
Proof. split; lra. Qed.

Lemma unit_1 : unit 1.
Proof. split; lra. Qed.

Lemma clamp_unit (v : Q) : unit (MathUtil.clamp v 0 1).
Proof.
  unfold MathUtil.clamp, unit, JS.min, JS.max. split.
  - apply Q.min_glb; [apply Q.le_max_r | lra].
  - apply Q.le_min_r.
Qed.

End Basics.

Section Arrays.
Context {A : Type}.

Lemma set_length (a : list A) (i : Z) (v : A) : length (JS.set a i v) = length a.
Proof. unfold JS.set. destruct (i <? 0); [done | apply length_insert]. Qed.

Lemma set_Forall (P : A -> Prop) (a : list A) (i : Z) (v : A) :
  Forall P a -> P v -> Forall P (JS.set a i v).
Proof.
  intros Ha Hv. unfold JS.set. destruct (i <? 0); [done |].
  by apply Forall_insert.
Qed.

Lemma nth_set_same (a : list A) (i : Z) (v d : A) :
  0 <= i < Z.of_nat (length a) -> nth (Z.to_nat i) (JS.set a i v) d = v.
Proof.
  intros Hi. unfold JS.set. destruct (i <? 0) eqn:E; [lia |].
  apply nth_lookup_Some. apply list_lookup_insert_eq. lia.
Qed.

Lemma nth_set_other (a : list A) (i j : Z) (v d : A) :
  0 <= j -> i <> j -> nth (Z.to_nat j) (JS.set a i v) d = nth (Z.to_nat j) a d.
Proof.
  intros Hj Hne. unfold JS.set. destruct (i <? 0) eqn:E; [done |].
  rewrite !nth_lookup. rewrite list_lookup_insert_ne; [done | lia].
Qed.

End Arrays.

Section Reads.
Open Scope Q_scope.

Lemma get_Forall (P : Q -> Prop) (a : list Q) (i : Z) :
  P 0 -> Forall P a -> P (JS.get a i).
Proof.
  intros H0 Ha. unfold JS.get. destruct (i <? 0)%Z; [done |].
  destruct (nth_in_or_default (Z.to_nat i) a 0) as [Hin | ->]; [| done].
  rewrite Forall_forall in Ha. by apply Ha, list_elem_of_In.
Qed.

Lemma get_set_same (a : list Q) (i : Z) (v : Q) :
  (0 <= i < Z.of_nat (length a))%Z -> JS.get (JS.set a i v) i = v.
Proof.
  intros Hi. unfold JS.get. destruct (i <? 0)%Z eqn:E; [lia |].
  by apply nth_set_same.
Qed.

Lemma get_set_other (a : list Q) (i j : Z) (v : Q) :
  i <> j -> JS.get (JS.set a i v) j = JS.get a j.
Proof.
  intros Hne. unfold JS.get. destruct (j <? 0)%Z eqn:E; [done |].
  apply nth_set_other; lia.
Qed.

(** A read after a write gives the value written or the old value. *)
Lemma get_set_cases (a : list Q) (i j : Z) (v : Q) :
  JS.get (JS.set a i v) j = v \/ JS.get (JS.set a i v) j = JS.get a j.
Proof.
  destruct (decide (i = j)) as [-> | Hne]; [| right; by apply get_set_other].
  destruct (decide (0 <= j < Z.of_nat (length a))%Z) as [Hin | Hout].
  - left. by apply get_set_same.
  - right. unfold JS.set. destruct (j <? 0)%Z eqn:E; [done |].
    rewrite list_insert_ge; [done | lia].
Qed.

Lemma get_out (a : list Q) (i : Z) :
  ~ (0 <= i < Z.of_nat (length a))%Z -> JS.get a i = 0.
Proof.
  intros Hi. unfold JS.get. destruct (i <? 0)%Z eqn:E; [done |].
  apply nth_overflow. lia.
Qed.

Lemma get_set (a : list Q) (i j : Z) (v : Q) :
  JS.get (JS.set a i v) j
  = if decide (i = j /\ (0 <= j < Z.of_nat (length a))%Z) then v else JS.get a j.
Proof.
  destruct (decide _) as [[-> Hj] | Hn].
  - by apply get_set_same.
  - destruct (decide (i = j)) as [-> | Hne]; [| by apply get_set_other].
    rewrite !get_out; [done | tauto | rewrite set_length; tauto].
Qed.

Lemma get_map (f : Q -> Q) (a : list Q) (i : Z) :
  (0 <= i < Z.of_nat (length a))%Z -> JS.get (map f a) i = f (JS.get a i).
Proof.
  intros Hi. unfold JS.get. destruct (i <? 0)%Z eqn:E; [lia |].
  rewrite (nth_indep _ 0 (f 0)) by (rewrite length_map; lia). apply map_nth.
Qed.

Lemma getb_set_same (a : list Z) (i v : Z) :
  (0 <= i < Z.of_nat (length a))%Z -> JS.getb (JS.set a i v) i = v.
Proof.
  intros Hi. unfold JS.getb. destruct (i <? 0)%Z eqn:E; [lia |].
  by apply nth_set_same.
Qed.

Lemma getb_set_other (a : list Z) (i j v : Z) :
  i <> j -> JS.getb (JS.set a i v) j = JS.getb a j.
Proof.
  intros Hne. unfold JS.getb. destruct (j <? 0)%Z eqn:E; [done |].
  apply nth_set_other; lia.
Qed.

Lemma zeros_length (n : Z) : length (JS.zeros n) = Z.to_nat n.
Proof. apply repeat_length. Qed.

Lemma zerosb_length (n : Z) : length (JS.zerosb n) = Z.to_nat n.
Proof. apply repeat_length. Qed.

Lemma zeros_Forall (P : Q -> Prop) (n : Z) : P 0 -> Forall P (JS.zeros n).
Proof. intros H. apply Forall_forall. intros x Hx%list_elem_of_In. by apply repeat_spec in Hx as ->. Qed.

End Reads.

Section Loops.

Lemma in_range (lo hi i : Z) : In i (JS.range lo hi) <-> lo <= i < hi.
Proof.
  unfold JS.range. rewrite in_map_iff. split.
  - intros (k & <- & Hk%in_seq). lia.
  - intros H. exists (Z.to_nat (i - lo)). split; [lia | apply in_seq; lia].
Qed.

Lemma in_cells (xlo xhi ylo yhi x y : Z) :
  In (x, y) (JS.cells xlo xhi ylo yhi) <-> (xlo <= x < xhi) /\ (ylo <= y < yhi).
Proof.
  unfold JS.cells. rewrite in_flat_map. split.
  - intros (y' & Hy & Hin). apply in_map_iff in Hin as (x' & [= <- <-] & Hx).
    apply in_range in Hy, Hx. done.
  - intros [Hx Hy]. exists y. split; [by apply in_range |].
    apply in_map_iff. exists x. split; [done | by apply in_range].
Qed.

(** The index of a cell of the grid determines the cell. *)
Lemma coordToIndex_inj (width x y x' y' : Z) :
  0 <= x < width -> 0 <= x' < width ->
  MathUtil.coordToIndex x y width = MathUtil.coordToIndex x' y' width ->
  x = x' /\ y = y'.
Proof.
  unfold MathUtil.coordToIndex. intros Hx Hx' H.
  assert (y = y') as -> by nia. split; [lia | done].
Qed.

Lemma coordToIndex_bound (width height x y : Z) :
  0 <= x < width -> 0 <= y < height ->
  0 <= MathUtil.coordToIndex x y width < width * height.
Proof. unfold MathUtil.coordToIndex. intros Hx Hy. nia. Qed.

(** A loop that stores [f x y] at the index of each pair [(x, y)] in
    turn: the entry [i] ends up holding the value that all the pairs of
    index [i] agree on. *)
Lemma fill_nth {X Y A} (index : X -> Y -> Z) (f : X -> Y -> A) (cs : list (X * Y))
    (init : list A) (i : Z) (v d : A) :
  0 <= i < Z.of_nat (length init) ->
  (forall x y, In (x, y) cs -> index x y = i -> f x y = v) ->
  nth (Z.to_nat i) init d = v \/ (exists x y, In (x, y) cs /\ index x y = i) ->
  nth (Z.to_nat i)
      (fold_left (fun a '(x, y) => JS.set a (index x y) (f x y)) cs init) d = v.
Proof.
  revert init. induction cs as [| [x0 y0] cs IH]; intros init Hi Hf Hor; simpl.
  - destruct Hor as [H | (x & y & [] & _)]. done.
  - apply IH.
    + by rewrite set_length.
    + intros x y Hc. apply Hf. by right.
    + destruct (decide (index x0 y0 = i)) as [E | Hne].
      * left. rewrite E. rewrite nth_set_same by done. apply Hf; [by left | done].
      * destruct Hor as [H | (x & y & [[= <- <-] | Hc] & Hidx)].
        -- left. by rewrite nth_set_other by lia.
        -- done.
        -- right. eauto.
Qed.

(** Every cell of the grid has an index, and the index gives the cell back. *)
Lemma index_cell (width height i : Z) :
  0 < width -> 0 <= i < width * height ->
  exists x y, 0 <= x < width /\ 0 <= y < height /\ MathUtil.coordToIndex x y width = i.
Proof.
  intros Hw Hi.
  exists (i mod width), (i / width). unfold MathUtil.coordToIndex.
  pose proof (Z.mod_pos_bound i width Hw). pose proof (Z.div_mod i width ltac:(lia)).
  repeat split; try lia.
  - apply Z.div_pos; lia.
  - apply Z.div_lt_upper_bound; lia.
Qed.

End Loops.

(* ================================================================== *)
(** ** Rivers: the search out of a local minimum ends                   *)
(* ================================================================== *)

Section EscapeFuel.
Open Scope Z_scope.

Variables (width height : Z) (heightmap : list Q) (seaLevel startHeight : Q).

(** The cells of the grid that the search has not visited. *)
Definition unvisited (visited : gset Z) : list Z :=
  List.filter (fun i => bool_decide (i ∉ visited)) (JS.range 0 (width * height)).

(** What is left to do: four entries for each cell not visited, and the queue. *)
Definition work (queue : list (Z * Z * Z)) (visited : gset Z) : nat :=
  (4 * length (unvisited visited) + length queue)%nat.

Definition queued (e : Z * Z * Z) : Prop :=
  let '(x, y, _) := e in 0 <= x < width /\ 0 <= y < height.

Lemma visit_decreases (l : list Z) (visited : gset Z) (idx : Z) :
  In idx l -> idx ∉ visited ->
  (length (List.filter (fun i => bool_decide (i ∉ {[ idx ]} ∪ visited)) l)
   < length (List.filter (fun i => bool_decide (i ∉ visited)) l))%nat.
Proof.
  intros Hin Hnot.
  assert (forall l', length (List.filter (fun i => bool_decide (i ∉ {[ idx ]} ∪ visited)) l')
                     <= length (List.filter (fun i => bool_decide (i ∉ visited)) l'))%nat as Hle.
  { induction l' as [| e l' IH]; simpl; [done |].
    destruct (bool_decide (e ∉ {[ idx ]} ∪ visited)) eqn:E1.
    - apply bool_decide_eq_true in E1.
      rewrite bool_decide_eq_true_2 by set_solver. simpl. lia.
    - destruct (bool_decide (e ∉ visited)); simpl; lia. }
  induction l as [| e l IH]; [done |]. simpl.
  destruct Hin as [-> | Hin].
  - rewrite bool_decide_eq_false_2 by set_solver.
    rewrite bool_decide_eq_true_2 by done. simpl. specialize (Hle l). lia.
  - specialize (IH Hin).
    destruct (bool_decide (e ∉ {[ idx ]} ∪ visited)) eqn:E1.
    + apply bool_decide_eq_true in E1.
      rewrite bool_decide_eq_true_2 by set_solver. simpl. lia.
    + destruct (bool_decide (e ∉ visited)); simpl; lia.
Qed.

(** With more fuel than there is work, the loop ends by itself. *)
Lemma escapeLoop_fuel (fuel : nat) :
  forall (queue : list (Z * Z * Z)) (visited : gset Z),
    Forall queued queue -> (work queue visited < fuel)%nat ->
    Rivers.escapeLoop fuel width height heightmap seaLevel startHeight queue visited <> None.
Proof.
  induction fuel as [| fuel IH]; intros queue visited Hq Hwork; [lia |].
  cbn [Rivers.escapeLoop].
  destruct queue as [| [[cx cy] depth] queue]; [done |].
  apply Forall_cons in Hq as [[Hx Hy] Hq].
  unfold work in Hwork. cbn [length] in Hwork.
  destruct (20 <? depth); [apply IH; [done | unfold work; lia] |].
  set (idx := MathUtil.coordToIndex cx cy width).
  destruct (decide (idx ∈ visited)) as [Hin | Hnot]; [apply IH; [done | unfold work; lia] |].
  destruct (_ || _); [done |].
  set (pushed := List.filter _ _).
  assert (length pushed <= 4)%nat as Hlen.
  { unfold pushed. etransitivity; [apply filter_length_le |]. done. }
  assert (Forall queued pushed) as Hpushed.
  { apply Forall_forall. intros [[nx ny] d] [_ Hc]%list_elem_of_In%filter_In.
    simpl. lia. }
  apply IH; [by apply Forall_app |].
  assert (In idx (JS.range 0 (width * height))) as Hidx.
  { apply in_range. by apply coordToIndex_bound. }
  pose proof (visit_decreases _ visited idx Hidx Hnot) as Hdec.
  unfold work, unvisited. rewrite length_app. unfold unvisited in Hwork. lia.
Qed.

(** [escapeLocalMinimum] never runs out of the fuel it is given. *)
Lemma escapeLocalMinimum_fuel (x y : Z) :
  0 <= x < width -> 0 <= y < height ->
  Rivers.escapeLoop (Rivers.escapeFuel width height) width height heightmap seaLevel
    startHeight [(x, y, 0)] ∅ <> None.
Proof.
  intros Hx Hy. apply escapeLoop_fuel.
  - by apply Forall_singleton.
  - unfold work, unvisited, Rivers.escapeFuel. cbn [length].
    pose proof (filter_length_le (fun i => bool_decide (i ∉ (∅ : gset Z)))
                  (JS.range 0 (width * height))) as Hle.
    unfold JS.range in Hle. rewrite length_map, length_seq in Hle.
    assert (0 < width * height) by nia.
    unfold JS.range. set (n := length (List.filter _ _)) in *. clearbody n.
    set (cells := width * height) in *. clearbody cells. lia.
Qed.

End EscapeFuel.

(* ================================================================== *)
(** ** The generator                                                    *)
(* ================================================================== *)

Section RandomFacts.
Open Scope Q_scope.

(** The state stays within 32 bits and [next()] is in [0, 1). *)
Lemma step_range (r : Random.SeededRandom) : (0 <= fst (Random.step r) < 4294967296)%Z.
Proof. unfold Random.step, JS.ToUint32. simpl. apply Z.mod_pos_bound. lia. Qed.

Lemma next_range (r : Random.SeededRandom) : 0 <= fst (Random.next r) /\ fst (Random.next r) < 1.
Proof.
  unfold Random.next. pose proof (step_range r) as [H0 H1].
  destruct (Random.step r) as [k r']. simpl in *. split.
  - apply Qle_shift_div_l; [reflexivity |]. rewrite Qmult_0_l.
    change 0 with (inject_Z 0). by rewrite <- Zle_Qle.
  - apply Qlt_shift_div_r; [reflexivity |]. rewrite Qmult_1_l.
    change 4294967296 with (inject_Z 4294967296). by rewrite <- Zlt_Qlt.
Qed.

End RandomFacts.

(* ================================================================== *)
(** ** The biome classifier                                             *)
(* ================================================================== *)

Section BiomeFacts.
Context {host : Host}.
Import Types.
Open Scope Q_scope.

Ltac classify_cases :=
  unfold Biomes.classifyBiome;
  repeat match goal with
         | |- context [if ?b then _ else _] => destruct b eqn:?
         end.

(** The classifier answers ocean exactly below sea level. *)
Lemma classifyBiome_ocean (e t m s bl ml sl : Q) :
  Biomes.classifyBiome e t m s bl ml sl = Biomes.BIOME_IDS ocean <-> e < s.
Proof.
  split.
  - intros H. apply ltb_lt. revert H. classify_cases; simpl; congruence.
  - intros H%ltb_lt. unfold Biomes.classifyBiome. by rewrite H.
Qed.

Lemma classifyBiome_range (e t m s bl ml sl : Q) :
  (0 <= Biomes.classifyBiome e t m s bl ml sl <= 9)%Z.
Proof. classify_cases; simpl; lia. Qed.

(** What [generateBiomes] stores at a cell of the grid. *)
Lemma generateBiomes_cell (o : Biomes.BiomeOptions) (x y : Z) :
  (0 <= x < Biomes.width o)%Z -> (0 <= y < Biomes.height o)%Z ->
  JS.getb (Biomes.generateBiomes o) (MathUtil.coordToIndex x y (Biomes.width o))
  = Biomes.cellBiome o (fst (createNoise2D (Random.new (Biomes.seed o ++ "_biomes")))) x y.
Proof.
  intros Hx Hy. unfold Biomes.generateBiomes.
  destruct (createNoise2D _) as [noise rng]. simpl fst.
  pose proof (coordToIndex_bound _ _ _ _ Hx Hy) as Hb.
  unfold JS.getb. destruct (_ <? 0)%Z eqn:E; [lia |].
  apply (fill_nth (fun x y => MathUtil.coordToIndex x y (Biomes.width o))
                  (Biomes.cellBiome o noise)).
  - rewrite zerosb_length. lia.
  - intros x' y' [Hx' Hy']%in_cells Hidx.
    by apply coordToIndex_inj in Hidx as [-> ->].
  - right. exists x, y. split; [by apply in_cells | done].
Qed.

Lemma generateBiomes_range (o : Biomes.BiomeOptions) :
  Forall (fun b => 0 <= b <= 9)%Z (Biomes.generateBiomes o).
Proof.
  unfold Biomes.generateBiomes. destruct (createNoise2D _) as [noise rng].
  generalize (JS.cells 0 (Biomes.width o) 0 (Biomes.height o)).
  assert (Forall (fun b => 0 <= b <= 9)%Z (JS.zerosb (Biomes.width o * Biomes.height o))) as H.
  { apply Forall_forall. intros b Hb%list_elem_of_In. apply repeat_spec in Hb as ->. lia. }
  revert H. generalize (JS.zerosb (Biomes.width o * Biomes.height o)).
  intros init Hinit cs. revert init Hinit.
  induction cs as [| [x y] cs IH]; intros init Hinit; simpl; [done |].
  apply IH. apply set_Forall; [done |]. apply classifyBiome_range.
Qed.

End BiomeFacts.

(** C5: on the grids the classifier is given, a cell is below sea level
    exactly when [generateBiomes] gives it the ocean id. *)
Theorem ocean_iff_below_sea_level {host : Host} (o : Biomes.BiomeOptions) (x y : Z) :
  length (Biomes.heightmap o) = Z.to_nat (Biomes.width o * Biomes.height o) ->
  0 <= x < Biomes.width o -> 0 <= y < Biomes.height o ->
  (JS.get (Biomes.heightmap o) (MathUtil.coordToIndex x y (Biomes.width o))
   < Biomes.seaLevel o)%Q
  <-> JS.getb (Biomes.generateBiomes o) (MathUtil.coordToIndex x y (Biomes.width o))
      = Biomes.BIOME_IDS Types.ocean.
Proof.
  intros _ Hx Hy. rewrite generateBiomes_cell by done.
  unfold Biomes.cellBiome. by rewrite classifyBiome_ocean.
Qed.

Lemma ocean_iff_below_sea_level_witness :
  (JS.get (Biomes.heightmap Examples.shore) (MathUtil.coordToIndex 0 0 2) < 0.35)%Q
  <-> JS.getb (Biomes.generateBiomes (host := Sample.host) Examples.shore)
        (MathUtil.coordToIndex 0 0 2)
      = Biomes.BIOME_IDS Types.ocean.
Proof.
  apply (ocean_iff_below_sea_level (host := Sample.host) Examples.shore 0 0);
    [reflexivity | cbn; lia | cbn; lia].
Defined.

(** C10: the classifier returns one of the ids 0 to 9, never the lake id,
    and no cell of the biome grid holds the lake id. *)
Theorem lake_never_assigned {host : Host} :
  (forall e t m s bl ml sl : Q,
     0 <= Biomes.classifyBiome e t m s bl ml sl <= 9
     /\ Biomes.classifyBiome e t m s bl ml sl <> Biomes.BIOME_IDS Types.lake)
  /\ (forall o : Biomes.BiomeOptions,
        Forall (fun b => 0 <= b <= 9 /\ b <> Biomes.BIOME_IDS Types.lake)
               (Biomes.generateBiomes o)).
Proof.
  split.
  - intros. pose proof (classifyBiome_range e t m s bl ml sl). simpl. lia.
  - intros o. eapply Forall_impl; [apply generateBiomes_range |].
    simpl. intros b Hb. lia.
Qed.

(* ================================================================== *)
(** ** Rivers: the cells a river claims                                 *)
(* ================================================================== *)

Section RiverFacts.
Import Types.
Open Scope Q_scope.

Variables (width height : Z) (heightmap : list Q) (seaLevel : Q).

(** A segment is fresh for a set of used cells when its cell is below
    sea level or is not in the set. *)
Definition fresh (usedCells : gset Z) (seg : RiverSegment) : Prop :=
  JS.get heightmap (Rivers.cellOf width seg) < seaLevel
  \/ Rivers.cellOf width seg ∉ usedCells.

Lemma traceLoop_fresh (usedCells : gset Z) (steps : nat) :
  forall (x y : Q) (lastIdx : Z) (segments : list RiverSegment) (rng : Random.SeededRandom),
    Forall (fresh usedCells) segments ->
    (lastIdx < 0)%Z \/ lastIdx ∉ usedCells ->
    Forall (fresh usedCells)
      (fst (Rivers.traceLoop steps width height heightmap seaLevel usedCells
              x y lastIdx segments rng)).
Proof.
  induction steps as [| steps IH]; intros x y lastIdx segments rng Hsegs Hlast;
    cbn [Rivers.traceLoop]; [done |].
  destruct (_ || _) eqn:Hout; [done |].
  apply orb_false_iff in Hout as [Hout Hy2]. apply orb_false_iff in Hout as [Hout Hy1].
  apply orb_false_iff in Hout as [Hx1 Hx2].
  apply Z.ltb_ge in Hx1, Hy1. apply Z.leb_gt in Hx2, Hy2.
  set (idx := MathUtil.coordToIndex (JS.floor x) (JS.floor y) width).
  assert (0 <= idx)%Z as Hidx by (unfold idx, MathUtil.coordToIndex; nia).
  set (seg := {| seg_x := x; seg_y := y; seg_flow := 1 |}).
  destruct (JS.ltb (JS.get heightmap idx) seaLevel) eqn:Hsea.
  { simpl. apply Forall_app. split; [done |]. apply Forall_singleton.
    left. by apply ltb_lt. }
  destruct (bool_decide _ && negb _) eqn:Hused; [done |].
  assert (idx ∉ usedCells) as Hfree.
  { apply andb_false_iff in Hused as [Hu | Hl].
    - by apply bool_decide_eq_false in Hu.
    - apply negb_false_iff, Z.eqb_eq in Hl. destruct Hlast as [Hneg | Hnot]; [lia | by rewrite Hl]. }
  clear Hused.
  assert (Forall (fresh usedCells) (segments ++ [seg])) as Hsegs'.
  { apply Forall_app. split; [done |]. apply Forall_singleton. by right. }
  fold idx. fold seg.
  destruct (Rivers.findSteepestDescent _ _ _ _ _ _) as [[nextX nextY] rng1].
  destruct ((nextX =? _)%Z && _).
  - destruct (Rivers.escapeLocalMinimum _ _ _ _ _ _) as [[ex ey] |]; [| done].
    apply IH; [done | by right].
  - destruct (Random.next rng1) as [u rng2]. destruct (Random.next rng2) as [v rng3].
    apply IH; [done | by right].
Qed.

Lemma traceRiver_fresh (usedCells : gset Z) (startX startY : Z) (rng : Random.SeededRandom) :
  Forall (fresh usedCells)
    (segments (fst (Rivers.traceRiver startX startY width height heightmap seaLevel
                      usedCells rng))).
Proof.
  unfold Rivers.traceRiver.
  pose proof (traceLoop_fresh usedCells (Z.to_nat (width + height))
                (JS.num startX) (JS.num startY) (-1) [] rng) as H.
  destruct (Rivers.traceLoop _ _ _ _ _ _ _ _ _ _ _) as [segs rng']. simpl in *.
  apply H; [done | left; lia].
Qed.

(** The cells marked as used after a river is accepted. *)
Lemma elem_of_mark (segs : list RiverSegment) (usedCells : gset Z) (c : Z) :
  c ∈ fold_left (fun used seg => {[ Rivers.cellOf width seg ]} ∪ used) segs usedCells
  <-> c ∈ usedCells \/ exists seg, In seg segs /\ Rivers.cellOf width seg = c.
Proof.
  revert usedCells. induction segs as [| s segs IH]; intros usedCells; simpl.
  - split; [by left | intros [H | (seg & [] & _)]; done].
  - rewrite IH. rewrite elem_of_union, elem_of_singleton. split.
    + intros [[-> | H] | (seg & Hin & Hc)]; eauto 6.
    + intros [H | (seg & [-> | Hin] & Hc)]; eauto 6.
Qed.

(** Two rivers at different places of the list meet below sea level only. *)
Definition apart (rivers : list River) : Prop :=
  forall (i j : nat) (ri rj : River) (si sj : RiverSegment),
    rivers !! i = Some ri -> rivers !! j = Some rj -> i <> j ->
    In si (segments ri) -> In sj (segments rj) ->
    Rivers.cellOf width si = Rivers.cellOf width sj ->
    JS.get heightmap (Rivers.cellOf width si) < seaLevel.

(** Every cell of every accepted river is marked. *)
Definition marked (rivers : list River) (usedCells : gset Z) : Prop :=
  forall river seg, In river rivers -> In seg (segments river) ->
                    Rivers.cellOf width seg ∈ usedCells.

Lemma apart_snoc (rivers : list River) (usedCells : gset Z) (river : River) :
  apart rivers -> marked rivers usedCells ->
  Forall (fresh usedCells) (segments river) ->
  apart (rivers ++ [river]).
Proof.
  intros Hap Hmk Hfresh i j ri rj si sj Hi Hj Hne Hsi Hsj Hcell.
  rewrite Forall_forall in Hfresh.
  apply lookup_app_Some in Hi as [Hi | [Hil Hi]];
    apply lookup_app_Some in Hj as [Hj | [Hjl Hj]].
  - exact (Hap i j ri rj si sj Hi Hj Hne Hsi Hsj Hcell).
  - apply list_lookup_singleton_Some in Hj as [_ <-].
    destruct (Hfresh sj) as [Hsea | Hfree]; [by apply list_elem_of_In | by rewrite Hcell |].
    exfalso. apply Hfree. rewrite <- Hcell.
    apply (Hmk ri si); [| done]. apply list_elem_of_In. by eapply list_elem_of_lookup_2.
  - apply list_lookup_singleton_Some in Hi as [_ <-].
    destruct (Hfresh si) as [Hsea | Hfree]; [by apply list_elem_of_In | done |].
    exfalso. apply Hfree. rewrite Hcell.
    apply (Hmk rj sj); [| done]. apply list_elem_of_In. by eapply list_elem_of_lookup_2.
  - apply list_lookup_singleton_Some in Hi as [Hi _].
    apply list_lookup_singleton_Some in Hj as [Hj _]. lia.
Qed.

End RiverFacts.

Section RiverLoop.
Import Types.
Open Scope Q_scope.

Variable o : Rivers.RiverOptions.

Local Abbreviation apart_o := (apart (Rivers.width o) (Rivers.heightmap o) (Rivers.seaLevel o)).
Local Abbreviation marked_o := (marked (Rivers.width o)).

Lemma riverLoop_apart (sources : list Rivers.Candidate) :
  forall (rivers : list River) (usedCells : gset Z) (rng : Random.SeededRandom),
    apart_o rivers -> marked_o rivers usedCells ->
    apart_o (fst (fst (Rivers.riverLoop o sources rivers usedCells rng))).
Proof.
  induction sources as [| source sources IH]; intros rivers usedCells rng Hap Hmk;
    cbn [Rivers.riverLoop]; [done |].
  destruct (_ <=? _)%Z; [done |].
  pose proof (traceRiver_fresh (Rivers.width o) (Rivers.height o) (Rivers.heightmap o)
                (Rivers.seaLevel o) usedCells (Rivers.cand_x source) (Rivers.cand_y source)
                rng) as Hfresh.
  destruct (Rivers.traceRiver _ _ _ _ _ _ _ _) as [river rng1]. simpl in Hfresh.
  destruct (_ <=? _)%Z; [| by apply IH].
  destruct (Random.uuid rng1) as [id rng2]. simpl.
  apply IH.
  - by eapply apart_snoc.
  - intros r seg Hr Hseg. apply elem_of_mark.
    apply in_app_iff in Hr as [Hr | [<- | []]].
    + left. by eapply Hmk.
    + right. eauto.
Qed.

(** [calculateRiverFlow] keeps the positions, so the cells. *)
Lemma calculateRiverFlow_cells (river : River) (seg : RiverSegment) :
  In seg (segments (Rivers.calculateRiverFlow river)) ->
  exists seg0, In seg0 (segments river)
               /\ Rivers.cellOf (Rivers.width o) seg0 = Rivers.cellOf (Rivers.width o) seg.
Proof.
  simpl. intros Hin%list_elem_of_In%list_elem_of_lookup. destruct Hin as [i Hi].
  rewrite list_lookup_imap in Hi.
  destruct (segments river !! i) as [seg0 |] eqn:E; [| done].
  simpl in Hi. injection Hi as <-. exists seg0. split; [| done].
  apply list_elem_of_In. by eapply list_elem_of_lookup_2.
Qed.

Lemma generateRivers_apart : apart_o (Rivers.generateRivers o).
Proof.
  unfold Rivers.generateRivers.
  destruct (Rivers.findRiverSources _ _ _ _ _ _ _) as [sources rng].
  pose proof (riverLoop_apart sources [] ∅ rng) as H.
  destruct (Rivers.riverLoop o sources [] ∅ rng) as [[rivers used] rng']. simpl in H.
  assert (apart_o rivers) as Hap.
  { apply H.
    - intros i j ri rj si sj Hi. by rewrite lookup_nil in Hi.
    - intros r seg []. }
  intros i j ri rj si sj Hi Hj Hne Hsi Hsj Hcell.
  rewrite list_lookup_fmap in Hi, Hj.
  destruct (rivers !! i) as [ri0 |] eqn:Ei; [| done].
  destruct (rivers !! j) as [rj0 |] eqn:Ej; [| done].
  simpl in Hi, Hj. injection Hi as <-. injection Hj as <-.
  apply calculateRiverFlow_cells in Hsi as (si0 & Hsi0 & Hci).
  apply calculateRiverFlow_cells in Hsj as (sj0 & Hsj0 & Hcj).
  rewrite <- Hci. eapply (Hap i j); eauto. congruence.
Qed.

End RiverLoop.

(** C6, as amended: two distinct rivers of the list that [generateRivers]
    returns share no grid cell that is at or above sea level; a cell they
    both cover is below sea level. *)
Theorem rivers_share_only_ocean_cells (o : Rivers.RiverOptions) (i j : nat)
    (ri rj : Types.River) (si sj : Types.RiverSegment) :
  Rivers.generateRivers o !! i = Some ri ->
  Rivers.generateRivers o !! j = Some rj ->
  i <> j ->
  In si (Types.segments ri) -> In sj (Types.segments rj) ->
  Rivers.cellOf (Rivers.width o) si = Rivers.cellOf (Rivers.width o) sj ->
  (JS.get (Rivers.heightmap o) (Rivers.cellOf (Rivers.width o) si) < Rivers.seaLevel o)%Q.
Proof. apply generateRivers_apart. Qed.

(** C6, the claim as stated fails: on the basin, with the seed ["a"], the
    two rivers that are accepted both end in the cell [(6, 6)]. *)
Lemma basin_rivers_share_mouth :
  map Examples.path (Rivers.generateRivers Examples.basinRivers)
  = [ [(8, 8); (7, 6); (5, 5); (5, 5); (6, 6)];
      [(4, 8); (4, 7); (5, 7); (5, 6); (6, 5); (6, 6)] ]
  /\ (JS.get Examples.basin (MathUtil.coordToIndex 6 6 13) < 0.15)%Q.
Proof. split; [vm_compute; reflexivity | reflexivity]. Qed.

(** The theorem of C6 at the two rivers of the basin and their last segments. *)
Lemma rivers_share_only_ocean_cells_witness :
  let rivers := Rivers.generateRivers Examples.basinRivers in
  let ri := nth 0 rivers (Types.Build_River "" "" []) in
  let rj := nth 1 rivers (Types.Build_River "" "" []) in
  let si := nth 4 (Types.segments ri) (Types.Build_RiverSegment 0 0 0) in
  (JS.get Examples.basin (Rivers.cellOf 13 si) < 0.15)%Q.
Proof.
  intros rivers ri rj si.
  pose (sj := nth 5 (Types.segments rj) (Types.Build_RiverSegment 0 0 0)).
  apply (rivers_share_only_ocean_cells Examples.basinRivers 0 1 ri rj si sj).
  - vm_compute; reflexivity.
  - vm_compute; reflexivity.
  - lia.
  - apply (nth_error_In _ 4). vm_compute; reflexivity.
  - apply (nth_error_In _ 5). vm_compute; reflexivity.
  - vm_compute; reflexivity.
Defined.

(* ================================================================== *)
(** ** Rivers: the flow along a river                                   *)
(* ================================================================== *)

Section FlowFacts.
Import Types.
Open Scope Q_scope.

Lemma calculateRiverFlow_lookup (river : River) (i : nat) (seg : RiverSegment) :
  segments (Rivers.calculateRiverFlow river) !! i = Some seg ->
  (i < length (segments river))%nat
  /\ seg_flow seg
     = 0.3 + (JS.num (Z.of_nat i) / JS.num (Z.of_nat (length (segments river)))) * 0.7.
Proof.
  simpl. rewrite list_lookup_imap.
  destruct (segments river !! i) as [seg0 |] eqn:E; [| done].
  simpl. intros [= <-]. split; [by eapply lookup_lt_Some | done].
Qed.

Lemma calculateRiverFlow_length (river : River) :
  length (segments (Rivers.calculateRiverFlow river)) = length (segments river).
Proof. simpl. apply length_imap. Qed.

(** The ramp [0.3 + 0.7 * i / n] for [i < n]. *)
Lemma ramp_bounds (i n : nat) :
  (i < n)%nat ->
  let f := 0.3 + (JS.num (Z.of_nat i) / JS.num (Z.of_nat n)) * 0.7 in
  0.3 <= f /\ f < 1 /\ (S i = n -> f == 1 - 0.7 / JS.num (Z.of_nat n)).
Proof.
  intros Hi f. unfold f, JS.num.
  assert (0 < inject_Z (Z.of_nat n)) as Hn.
  { change 0 with (inject_Z 0). rewrite <- Zlt_Qlt. lia. }
  assert (0 <= inject_Z (Z.of_nat i) / inject_Z (Z.of_nat n)) as H0.
  { apply Qle_shift_div_l; [done |]. rewrite Qmult_0_l.
    change 0 with (inject_Z 0). rewrite <- Zle_Qle. lia. }
  assert (inject_Z (Z.of_nat i) / inject_Z (Z.of_nat n) < 1) as H1.
  { apply Qlt_shift_div_r; [done |]. rewrite Qmult_1_l. rewrite <- Zlt_Qlt. lia. }
  split; [lra |]. split; [lra |].
  intros <-.
  assert (inject_Z (Z.of_nat i) == inject_Z (Z.of_nat (S i)) - 1) as ->.
  { rewrite Nat2Z.inj_succ, <- Z.add_1_r, inject_Z_plus. simpl inject_Z. ring. }
  field. lra.
Qed.

End FlowFacts.

(** C7, as amended: along every river that [generateRivers] returns, the
    flow of the segment [i] of [n] is [0.3 + 0.7 * i / n]: it starts at 0.3,
    stays below 1, and is [1 - 0.7 / n] at the last segment. *)
Theorem river_flow_ramp (o : Rivers.RiverOptions) (river : Types.River)
    (i : nat) (seg : Types.RiverSegment) :
  In river (Rivers.generateRivers o) ->
  Types.segments river !! i = Some seg ->
  let n := JS.num (Z.of_nat (length (Types.segments river))) in
  (Types.seg_flow seg == 0.3 + (JS.num (Z.of_nat i) / n) * 0.7
   /\ 0.3 <= Types.seg_flow seg /\ Types.seg_flow seg < 1
   /\ (i = 0%nat -> Types.seg_flow seg == 0.3)
   /\ (S i = length (Types.segments river) -> Types.seg_flow seg == 1 - 0.7 / n))%Q.
Proof.
  intros Hin Hseg n. unfold Rivers.generateRivers in Hin.
  destruct (Rivers.findRiverSources _ _ _ _ _ _ _) as [sources rng].
  destruct (Rivers.riverLoop _ _ _ _ _) as [[rivers used] rng'].
  apply in_map_iff in Hin as (r0 & <- & _).
  apply calculateRiverFlow_lookup in Hseg as Hflow. destruct Hflow as [Hi Hflow].
  unfold n. rewrite calculateRiverFlow_length.
  destruct (ramp_bounds i (length (Types.segments r0)) Hi) as (Hlo & Hhi & Hlast).
  rewrite Hflow. repeat split; try done.
  intros ->. unfold JS.num. simpl inject_Z. unfold Qdiv. rewrite Qmult_0_l. reflexivity.
Qed.

(** C7, the claim as stated fails: the first river of the basin has five
    segments, and its flow ends at 0.86, not at 1. *)
Lemma basin_river_flow_ends_below_one :
  map Qred (Examples.flows (nth 0 (Rivers.generateRivers Examples.basinRivers)
                              (Types.Build_River "" "" [])))
  = map Qred [0.3; 0.44; 0.58; 0.72; 0.86]%Q.
Proof. vm_compute; reflexivity. Qed.

(** The theorem of C7 at the last segment of the first river of the basin. *)
Lemma river_flow_ramp_witness :
  let river := nth 0 (Rivers.generateRivers Examples.basinRivers) (Types.Build_River "" "" []) in
  let seg := nth 4 (Types.segments river) (Types.Build_RiverSegment 0 0 0) in
  (Types.seg_flow seg == 0.3 + (JS.num 4 / JS.num 5) * 0.7
   /\ 0.3 <= Types.seg_flow seg /\ Types.seg_flow seg < 1
   /\ (4%nat = 0%nat -> Types.seg_flow seg == 0.3)
   /\ (5%nat = 5%nat -> Types.seg_flow seg == 1 - 0.7 / JS.num 5))%Q.
Proof.
  intros river seg.
  apply (river_flow_ramp Examples.basinRivers river 4 seg).
  - apply (nth_error_In _ 0). vm_compute; reflexivity.
  - vm_compute; reflexivity.
Defined.

(* ================================================================== *)
(** ** Settlements: how many are placed                                 *)
(* ================================================================== *)

Section SettlementFacts.
Context {host : Host}.
Import Types.

Lemma insertBy_length {A} (compare : A -> A -> Q) (e : A) (l : list A) :
  length (JS.insertBy compare e l) = S (length l).
Proof.
  induction l as [| h t IH]; simpl; [done |].
  destruct (JS.ltb _ _); simpl; [done | by rewrite IH].
Qed.

Lemma sortBy_length {A} (compare : A -> A -> Q) (l : list A) :
  length (JS.sortBy compare l) = length l.
Proof.
  unfold JS.sortBy.
  assert (forall acc, length (fold_left (fun acc e => JS.insertBy compare e acc) l acc)
                      = (length l + length acc)%nat) as H.
  { induction l as [| e l IH]; intros acc; simpl; [done |].
    rewrite IH, insertBy_length. lia. }
  rewrite H. simpl. lia.
Qed.

Lemma settlementCount_bounds (o : Settlements.SettlementOptions) :
  3 <= Settlements.settlementCount o <= 100.
Proof. unfold Settlements.settlementCount. lia. Qed.

(** The loop stops adding at [settlementCount]. *)
Lemma placeLoop_length (o : Settlements.SettlementOptions) (suitability : list Q)
    (minDistance : Q) (attempts : nat) :
  forall (settlements : list Settlement) (placed : list (Z * Z)) (rng : Random.SeededRandom),
    Z.of_nat (length settlements) <= Settlements.settlementCount o ->
    Z.of_nat (length (Settlements.placeLoop attempts o suitability minDistance
                        settlements placed rng))
    <= Settlements.settlementCount o.
Proof.
  induction attempts as [| attempts IH]; intros settlements placed rng Hlen;
    cbn [Settlements.placeLoop]; [done |].
  destruct (_ <=? _) eqn:Hfull; [done |]. apply Z.leb_gt in Hfull.
  destruct (Settlements.findSettlementLocation _ _ _ _ _ _) as [[[lx ly] |] rng1];
    [| by apply IH].
  destruct (Settlements.determineSettlementSize _ _ _ _ _ _ _ _) as [size rng2].
  destruct (Random.uuid rng2) as [id rng3].
  destruct (Settlements.generatePopulation size rng3) as [population rng4].
  apply IH. rewrite length_app. simpl. lia.
Qed.

Lemma generateSettlements_length (o : Settlements.SettlementOptions) :
  Z.of_nat (length (Settlements.generateSettlements o)) <= Settlements.settlementCount o.
Proof.
  unfold Settlements.generateSettlements. rewrite sortBy_length.
  apply placeLoop_length. simpl. pose proof (settlementCount_bounds o). lia.
Qed.

End SettlementFacts.

(** C8, as amended: on a grid with cells, the number of settlements
    returned is at most the target count, and the target count is the
    floor of (land-cell fraction x density x 50) clamped to [3, 100]; it
    does not exceed that product clamped to [3, 100] either. *)
Theorem settlement_count_at_most_target {host : Host} (o : Settlements.SettlementOptions) :
  0 < Settlements.width o -> 0 < Settlements.height o ->
  let count := Z.of_nat (length (Settlements.generateSettlements o)) in
  let landFraction :=
    (JS.num (Settlements.countLandCells (Settlements.biomes o))
     / JS.num (Settlements.width o * Settlements.height o))%Q in
  let product := (landFraction * Settlements.density o * 50)%Q in
  0 <= count <= Settlements.settlementCount o
  /\ Settlements.settlementCount o = Z.max 3 (Z.min (JS.floor product) 100)
  /\ 3 <= Settlements.settlementCount o <= 100
  /\ (JS.num count <= MathUtil.clamp product 3 100)%Q.
Proof.
  intros _ _ count landFraction product.
  pose proof (generateSettlements_length o) as Hlen.
  pose proof (settlementCount_bounds o) as Hb.
  assert (Settlements.settlementCount o = Z.max 3 (Z.min (JS.floor product) 100)) as Hdef by done.
  repeat split; try lia; try done.
  apply Qle_trans with (JS.num (Settlements.settlementCount o)).
  { unfold JS.num. rewrite <- Zle_Qle. done. }
  rewrite Hdef. unfold MathUtil.clamp, JS.min, JS.max, JS.num, JS.floor.
  apply Q.min_glb.
  - destruct (Z.max_spec 3 (Z.min (Qfloor product) 100)) as [[_ ->] | [_ ->]].
    + apply Qle_trans with (inject_Z (Qfloor product)).
      * rewrite <- Zle_Qle. lia.
      * apply Qle_trans with product; [apply Qfloor_le | apply Q.le_max_l].
    + apply Q.le_max_r.
  - change 100%Q with (inject_Z 100). rewrite <- Zle_Qle. lia.
Qed.

(** The theorem of C8 on the meadow: four settlements for a target of 15. *)
Lemma settlement_count_at_most_target_witness :
  let o := Examples.meadow in
  let count := Z.of_nat (length (Settlements.generateSettlements (host := Sample.host) o)) in
  let product := (JS.num 64 / JS.num 64 * 0.3 * 50)%Q in
  0 <= count <= Settlements.settlementCount o
  /\ Settlements.settlementCount o = Z.max 3 (Z.min (JS.floor product) 100)
  /\ 3 <= Settlements.settlementCount o <= 100
  /\ (JS.num count <= MathUtil.clamp product 3 100)%Q.
Proof.
  intros o count product.
  apply (settlement_count_at_most_target (host := Sample.host) Examples.meadow);
    reflexivity.
Defined.

(** C8, the claim as stated fails: on a map that is all ocean the target
    count is 3 and no settlement is placed. *)
Lemma open_sea_has_no_settlement :
  Settlements.settlementCount Examples.openSea = 3
  /\ @Settlements.generateSettlements Sample.host Examples.openSea = [].
Proof. split; vm_compute; reflexivity. Qed.

(* ================================================================== *)
(** ** Heightmap: the blend of mask and terrain                         *)
(* ================================================================== *)

Section BlendFacts.
Open Scope Q_scope.

(** Below the mask value 0.3 the stored height is a fixed multiple of the mask. *)
Lemma blend_ocean (mask terrainValue : Q) :
  mask < 0.3 -> Heightmap.blend mask terrainValue = (mask / 0.3) * 0.35 * 0.95.
Proof. intros H%ltb_lt. unfold Heightmap.blend. by rewrite H. Qed.

Lemma ocean_gradient (mask seaLvl : Q) :
  (mask / 0.3) * seaLvl * 0.95 == mask * seaLvl * (19 # 6).
Proof. field. Qed.

(** It grows with the mask value, whatever the terrain noise is. *)
Lemma blend_ocean_monotone (mask1 mask2 t1 t2 : Q) :
  mask1 < mask2 -> mask2 < 0.3 -> Heightmap.blend mask1 t1 < Heightmap.blend mask2 t2.
Proof.
  intros H12 H2. rewrite !blend_ocean by lra.
  rewrite !ocean_gradient. lra.
Qed.

(** It stays below 0.35. *)
Lemma blend_ocean_below (mask terrainValue : Q) :
  mask < 0.3 -> Heightmap.blend mask terrainValue < 0.35.
Proof. intros H. rewrite blend_ocean by done. rewrite ocean_gradient. lra. Qed.

End BlendFacts.

(** C4: for a mask value below 0.3 the height stored is
    [(mask / 0.3) * 0.35 * 0.95], with the constant 0.35 of the source: for
    a sea level other than 0.35 and a mask other than 0 it is not the
    [(mask / 0.3) * seaLevel * 0.95] of the claim.  The gradient is
    increasing in the mask and stays below 0.35. *)
Theorem blend_ocean_ignores_sea_level (mask terrainValue seaLevel : Q) :
  (mask < 0.3)%Q ->
  (Heightmap.blend mask terrainValue == (mask / 0.3) * 0.35 * 0.95
   /\ (~ seaLevel == 0.35 -> ~ mask == 0 ->
       ~ Heightmap.blend mask terrainValue == (mask / 0.3) * seaLevel * 0.95)
   /\ Heightmap.blend mask terrainValue < 0.35
   /\ forall mask' t', mask' < mask ->
        Heightmap.blend mask' t' < Heightmap.blend mask terrainValue)%Q.
Proof.
  intros Hm. rewrite blend_ocean by done. split; [reflexivity |]. split; [| split].
  - intros Hs Hz E. rewrite !ocean_gradient in E.
    assert (mask * (seaLevel - 0.35) == 0)%Q as H by lra.
    destruct (Qmult_integral _ _ H) as [H1 | H1]; [by apply Hz |].
    apply Hs. lra.
  - rewrite ocean_gradient. lra.
  - intros mask' t' Hlt. rewrite <- (blend_ocean mask terrainValue) by done.
    by apply blend_ocean_monotone.
Qed.

(** The theorem of C4 at the mask value 0.15 and the sea level 0.5. *)
Lemma blend_ocean_ignores_sea_level_witness :
  (0.15 < 0.3
   /\ Heightmap.blend 0.15 0.5 == 0.16625
   /\ ~ Heightmap.blend 0.15 0.5 == (0.15 / 0.3) * 0.5 * 0.95)%Q.
Proof.
  assert (0.15 < 0.3)%Q as H by reflexivity.
  destruct (blend_ocean_ignores_sea_level 0.15 0.5 0.5 H)
    as (E & Hne & _).
  split; [done |]. split.
  - rewrite E. reflexivity.
  - apply Hne; intros Habs; vm_compute in Habs; discriminate.
Defined.

(* ================================================================== *)
(** ** The pipeline                                                     *)
(* ================================================================== *)

Section PipelineFacts.
Context {host : Host} {naming : Naming}.

(** With a seed given, [Math.random] is not consulted. *)
Lemma mergeConfig_seeded (random1 random2 : nat -> Q) (options : Pipeline.PartialMapConfig)
    (s : string) :
  Pipeline.seed_ options = Some s -> s <> ""%string ->
  Pipeline.mergeConfig random1 options = Pipeline.mergeConfig random2 options.
Proof.
  intros Hs Hne. unfold Pipeline.mergeConfig, Pipeline.effectiveSeed. rewrite Hs.
  destruct s; [done | reflexivity].
Qed.

(** The dimensions the stages are run with are those of the size table. *)
Lemma mergeConfig_dimensions (random : nat -> Q) (options : Pipeline.PartialMapConfig) :
  let config := Pipeline.mergeConfig random options in
  (Pipeline.width config, Pipeline.height config)
  = Types.MAP_SIZE_CONFIG (Pipeline.mapSize config)
  /\ 256 <= Pipeline.width config <= 2048
  /\ Pipeline.height config = Pipeline.width config.
Proof.
  simpl. destruct (default _ _); simpl; repeat split; lia.
Qed.

End PipelineFacts.

(** Without a seed the seed comes from [Math.random]: two runs differ. *)
Lemma empty_seed_is_drawn :
  Pipeline.effectiveSeed (fun _ => 0%Q) (Some ""%string) = "AAAAAAAAAAAA"%string
  /\ Pipeline.effectiveSeed (fun _ => 0.5%Q) (Some ""%string) = "ffffffffffff"%string
  /\ Pipeline.effectiveSeed (fun _ => 0.5%Q) None = "ffffffffffff"%string.
Proof. repeat split; vm_compute; reflexivity. Qed.

(** C1, as amended: with a seed string that is not empty given in the
    configuration, two runs of [generateMap] give the same reports and the
    same map data (the grids, the rivers and the settlements), whatever
    [Math.random] returns. *)
Theorem generateMap_deterministic {host : Host} {naming : Naming}
    (random1 random2 : nat -> Q) (options : Pipeline.PartialMapConfig) (s : string) :
  Pipeline.seed_ options = Some s -> s <> ""%string ->
  Pipeline.generateMap random1 options = Pipeline.generateMap random2 options.
Proof.
  intros Hs Hne. unfold Pipeline.generateMap.
  by rewrite (mergeConfig_seeded random1 random2 options s).
Qed.

(** The theorem of C1 at the default configuration with the seed ["alpha"]. *)
Lemma generateMap_deterministic_witness :
  let options :=
    Pipeline.given
      {| Pipeline.seed := "alpha"; Pipeline.mapType := Types.island;
         Pipeline.mapSize := Types.local; Pipeline.width := 256; Pipeline.height := 256;
         Pipeline.seaLevel := 0.35; Pipeline.roughness := 0.6;
         Pipeline.waterCoverage := 0.4; Pipeline.forestDensity := 0.5;
         Pipeline.settlementDensity := 0.3 |} in
  Pipeline.generateMap (host := Sample.host) (naming := Sample.naming) (fun _ => 0%Q) options
  = Pipeline.generateMap (host := Sample.host) (naming := Sample.naming) (fun _ => 0.5%Q) options.
Proof.
  intros options.
  apply (generateMap_deterministic (fun _ => 0%Q) (fun _ => 0.5%Q) options "alpha").
  - reflexivity.
  - discriminate.
Defined.

(** C1, the claim as stated fails at the empty seed, which is the seed of
    [DEFAULT_MAP_CONFIG]: [options.config.seed || generateSeed()] then
    draws the seed from [Math.random].  Two runs on the default
    configuration, one where [Math.random] returns 0 and one where it
    returns 0.5, resolve with different map data, seeded ["AAAAAAAAAAAA"]
    and ["ffffffffffff"]; and at these two seeds the terrain stage gives
    different heightmaps already on a 4 x 4 grid (with the stand-in noise):
    the cell 1 is above 0 in the first and 0 in the second. *)
Lemma empty_seed_runs_differ :
  exists data1 data2 : Pipeline.MapData,
    Pipeline.seed Pipeline.DEFAULT_MAP_CONFIG = ""%string
    /\ snd (Pipeline.generateMap (host := Sample.host) (naming := Sample.naming)
              (fun _ => 0%Q) (Pipeline.given Pipeline.DEFAULT_MAP_CONFIG))
       = Pipeline.Resolved data1
    /\ snd (Pipeline.generateMap (host := Sample.host) (naming := Sample.naming)
              (fun _ => 0.5%Q) (Pipeline.given Pipeline.DEFAULT_MAP_CONFIG))
       = Pipeline.Resolved data2
    /\ Pipeline.seed (Pipeline.config data1) = "AAAAAAAAAAAA"%string
    /\ Pipeline.seed (Pipeline.config data2) = "ffffffffffff"%string
    /\ data1 <> data2
    /\ (0 < JS.get (Heightmap.generateHeightmap (host := Sample.host)
                       (Examples.terrainAt (Pipeline.seed (Pipeline.config data1)))) 1)%Q
    /\ (JS.get (Heightmap.generateHeightmap (host := Sample.host)
                  (Examples.terrainAt (Pipeline.seed (Pipeline.config data2)))) 1 == 0)%Q.
Proof.
  eexists. eexists. split; [reflexivity |]. split; [reflexivity |]. split; [reflexivity |].
  assert (forall c, Pipeline.config (Pipeline.runStages (host := Sample.host)
                                       (naming := Sample.naming) c) = c) as E.
  { intros c. unfold Pipeline.runStages.
    destruct (Climate.generateClimate _) as [temperature moisture].
    destruct (applyNames _ _ _) as [settlements rivers]. reflexivity. }
  rewrite !E.
  assert (Pipeline.seed (Pipeline.mergeConfig (fun _ => 0%Q)
                           (Pipeline.given Pipeline.DEFAULT_MAP_CONFIG))
          = "AAAAAAAAAAAA"%string) as E1 by (vm_compute; reflexivity).
  assert (Pipeline.seed (Pipeline.mergeConfig (fun _ => 0.5%Q)
                           (Pipeline.given Pipeline.DEFAULT_MAP_CONFIG))
          = "ffffffffffff"%string) as E2 by (vm_compute; reflexivity).
  split; [exact E1 |]. split; [exact E2 |]. split.
  - intros Heq. apply (f_equal (fun data => Pipeline.seed (Pipeline.config data))) in Heq.
    rewrite !E, E1, E2 in Heq. discriminate.
  - rewrite E1, E2. split; vm_compute; reflexivity.
Qed.

(** C3, as amended: [generateMap] checks nothing.  For every configuration
    the promise resolves after all eight reports; the stages run on the
    dimensions of the map size, which are positive whatever the
    configuration holds, and on the sea level and the water coverage as
    given. *)
Theorem generateMap_never_rejects {host : Host} {naming : Naming}
    (random : nat -> Q) (options : Pipeline.PartialMapConfig) :
  exists data : Pipeline.MapData,
    Pipeline.generateMap random options = (Pipeline.reports, Pipeline.Resolved data)
    /\ data = Pipeline.runStages (Pipeline.mergeConfig random options)
    /\ 256 <= Pipeline.width (Pipeline.config data) <= 2048
    /\ Pipeline.height (Pipeline.config data) = Pipeline.width (Pipeline.config data)
    /\ Pipeline.seaLevel (Pipeline.config data)
       = default 0.35%Q (Pipeline.seaLevel_ options)
    /\ Pipeline.waterCoverage (Pipeline.config data)
       = default 0.4%Q (Pipeline.waterCoverage_ options).
Proof.
  eexists. split; [reflexivity |]. split; [reflexivity |].
  assert (Pipeline.config (Pipeline.runStages (Pipeline.mergeConfig random options))
          = Pipeline.mergeConfig random options) as ->.
  { unfold Pipeline.runStages.
    destruct (Climate.generateClimate _) as [temperature moisture].
    destruct (applyNames _ _ _) as [settlements rivers]. reflexivity. }
  destruct (mergeConfig_dimensions random options) as (_ & Hw & Hh).
  repeat split; try done; lia.
Qed.

(** C3, the claim as stated fails: a configuration with sea level 2, water
    coverage -1 and negative dimensions is not rejected; the promise
    resolves, on a 256 x 256 map with the sea level 2. *)
Lemma out_of_range_config_is_accepted :
  exists data : Pipeline.MapData,
    Pipeline.generateMap (host := Sample.host) (naming := Sample.naming)
      (fun _ => 0%Q) (Pipeline.given Examples.outOfRange)
    = (Pipeline.reports, Pipeline.Resolved data)
    /\ Pipeline.width (Pipeline.config data) = 256
    /\ Pipeline.seaLevel (Pipeline.config data) = 2%Q
    /\ Pipeline.waterCoverage (Pipeline.config data) = (-1)%Q.
Proof.
  eexists. split; [reflexivity |].
  assert (forall c, Pipeline.config (Pipeline.runStages (host := Sample.host)
                                       (naming := Sample.naming) c) = c) as E.
  { intros c. unfold Pipeline.runStages.
    destruct (Climate.generateClimate _) as [temperature moisture].
    destruct (applyNames _ _ _) as [settlements rivers]. reflexivity. }
  rewrite E. repeat split.
Qed.

(* ================================================================== *)
(** ** Ranges: the elevation grid                                       *)
(* ================================================================== *)

Section ElevationRange.
Context {host : Host}.
Import Types.
Open Scope Q_scope.

(** A loop whose every turn keeps an invariant keeps it. *)
Lemma fold_left_invariant {S C} (P : S -> Prop) (body : S -> C -> S) (cs : list C) (s : S) :
  (forall s c, P s -> P (body s c)) -> P s -> P (fold_left body cs s).
Proof.
  intros Hbody. revert s. induction cs as [| c cs IH]; intros s Hs; simpl; [done |].
  apply IH. by apply Hbody.
Qed.

Lemma normalizeResult_unit (result : list Q) : Forall unit (Erosion.normalizeResult result).
Proof.
  unfold Erosion.normalizeResult. apply Forall_forall.
  intros v Hv%list_elem_of_In. apply in_map_iff in Hv as (r & <- & _). apply clamp_unit.
Qed.

Lemma applyErosion_unit (heightmap : list Q) (seed : string) (opts : Erosion.ErosionOptions) :
  Forall unit (Erosion.applyErosion heightmap seed opts).
Proof.
  unfold Erosion.applyErosion. destruct (fold_left _ _ _) as [result rng].
  apply normalizeResult_unit.
Qed.

(** The steepest neighbour found by the scan of [thermalCell]. *)
Lemma steepest_neighbor (result : list Q) (h talusAngle : Q) (neighbors : list Z) :
  forall maxDiff maxNeighbor,
    (maxNeighbor < 0)%Z
    \/ (maxDiff = h - JS.get result maxNeighbor /\ talusAngle < maxDiff) ->
    let r :=
      fold_left
        (fun '(maxDiff, maxNeighbor) nIdx =>
           let diff := h - JS.get result nIdx in
           if JS.ltb maxDiff diff && JS.ltb talusAngle diff then (diff, nIdx)
           else (maxDiff, maxNeighbor))
        neighbors (maxDiff, maxNeighbor) in
    (snd r < 0)%Z \/ (fst r = h - JS.get result (snd r) /\ talusAngle < fst r).
Proof.
  induction neighbors as [| nIdx neighbors IH]; intros maxDiff maxNeighbor Hinv; simpl; [done |].
  destruct (JS.ltb maxDiff _ && JS.ltb talusAngle _) eqn:E; apply IH; [| done].
  apply andb_true_iff in E as [_ E%ltb_lt]. by right.
Qed.

Lemma thermalCell_unit (width : Z) (talusAngle : Q) (result : list Q) (c : Z * Z) :
  0 <= talusAngle -> Forall unit result ->
  Forall unit (Erosion.thermalCell width talusAngle result c).
Proof.
  intros Htalus Hres. destruct c as [x y]. unfold Erosion.thermalCell.
  set (idx := MathUtil.coordToIndex x y width).
  set (h := JS.get result idx).
  match goal with
  | |- context [fold_left ?f ?l (0, (-1)%Z)] =>
      pose proof (steepest_neighbor result h talusAngle l 0 (-1)%Z) as Hscan;
      destruct (fold_left f l (0, (-1)%Z)) as [maxDiff maxNeighbor]
  end.
  simpl in Hscan.
  destruct (0 <=? maxNeighbor)%Z eqn:Hfound; [| done]. apply Z.leb_le in Hfound.
  destruct Hscan as [Hneg | [-> Hsteep]]; [left; lia | lia |].
  pose proof (get_Forall unit result idx unit_0 Hres) as [Hh0 Hh1]. fold h in Hh0, Hh1.
  pose proof (get_Forall unit result maxNeighbor unit_0 Hres) as [Hn0 Hn1].
  set (n := JS.get result maxNeighbor) in *.
  unfold Erosion.addAt. fold h.
  apply set_Forall.
  - apply set_Forall; [done |]. split; lra.
  - destruct (get_set_cases result idx maxNeighbor (h + - ((h - n - talusAngle) * 0.5)))
      as [-> | ->]; fold n; split; lra.
Qed.

Lemma applyThermalErosion_unit (heightmap : list Q) (width height iterations : Z)
    (talusAngle : Q) :
  0 <= talusAngle -> Forall unit heightmap ->
  Forall unit (Erosion.applyThermalErosion heightmap width height iterations talusAngle).
Proof.
  intros Htalus Hh. unfold Erosion.applyThermalErosion.
  apply fold_left_invariant; [| done]. intros result _ Hres.
  apply fold_left_invariant; [| done]. intros result' c Hres'.
  by apply thermalCell_unit.
Qed.

(** Along the rivers that [generateRivers] returns the flow is at least 0.3. *)
Lemma generateRivers_flow (o : Rivers.RiverOptions) (river : River) (seg : RiverSegment) :
  In river (Rivers.generateRivers o) -> In seg (segments river) ->
  0.3 <= seg_flow seg /\ seg_flow seg < 1.
Proof.
  intros Hin Hseg. unfold Rivers.generateRivers in Hin.
  destruct (Rivers.findRiverSources _ _ _ _ _ _ _) as [sources rng].
  destruct (Rivers.riverLoop _ _ _ _ _) as [[rivers used] rng'].
  apply in_map_iff in Hin as (r0 & <- & _).
  apply list_elem_of_In, list_elem_of_lookup in Hseg as [i Hi].
  apply calculateRiverFlow_lookup in Hi as [Hlt ->].
  destruct (ramp_bounds i (length (segments r0)) Hlt) as (Hlo & Hhi & _). done.
Qed.

Lemma carveSegment_unit (width : Z) (carveDepth : Q) (heightmap : list Q)
    (segment : RiverSegment) :
  0 <= carveDepth -> 0 <= seg_flow segment -> Forall unit heightmap ->
  Forall unit (Rivers.carveSegment width carveDepth heightmap segment).
Proof.
  intros Hd Hf Hh. unfold Rivers.carveSegment.
  destruct (_ && _); [| done].
  apply set_Forall; [done |].
  set (idx := MathUtil.coordToIndex _ _ _).
  pose proof (get_Forall unit heightmap idx unit_0 Hh) as [H0 H1].
  assert (0 <= carveDepth * seg_flow segment) as Hc by (by apply Qmult_le_0_compat).
  split; [apply Q.le_max_l | apply Q.max_lub; lra].
Qed.

Lemma carveRivers_unit (heightmap : list Q) (rivers : list River) (width : Z)
    (carveDepth : Q) :
  0 <= carveDepth ->
  (forall river seg, In river rivers -> In seg (segments river) -> 0 <= seg_flow seg) ->
  Forall unit heightmap ->
  Forall unit (Rivers.carveRiversIntoHeightmap heightmap rivers width carveDepth).
Proof.
  intros Hd. unfold Rivers.carveRiversIntoHeightmap.
  revert heightmap. induction rivers as [| river rivers IH]; intros heightmap Hflow Hh;
    simpl; [done |].
  apply IH; [intros r s Hr; apply Hflow; by right |].
  assert (forall seg, In seg (segments river) -> 0 <= seg_flow seg) as Hsegs.
  { intros seg. apply Hflow. by left. }
  revert heightmap Hh. induction (segments river) as [| seg segs IHs]; intros heightmap Hh;
    simpl; [done |].
  apply IHs; [intros s Hs; apply Hsegs; by right |].
  apply carveSegment_unit; [done | apply Hsegs; by left | done].
Qed.

End ElevationRange.

(* ================================================================== *)
(** ** Ranges: the blur and the climate grids                           *)
(* ================================================================== *)

Section BlurRange.
Context {host : Host} {facts : HostFacts host}.
Open Scope Q_scope.

Variable radius : Z.
Hypothesis radius_pos : (0 < radius)%Z.

Local Abbreviation size := (radius * 2 + 1)%Z.

(** Where [createGaussianKernel] stores the weight of the offset [(x, y)]. *)
Definition kernelIndex (x y : Z) : Z := ((y + radius) * size + (x + radius))%Z.

(** The weight before normalisation. *)
Definition kernelValue (s : Q) (x y : Z) : Q :=
  Math_exp (- JS.num (x * x + y * y) / s) / (Math_PI * s).

Lemma kernelStep_split (s : Q) (cs : list (Z * Z)) :
  forall (kernel : list Q) (sum : Q),
    fold_left (MathUtil.kernelStep radius s) cs (kernel, sum)
    = (fold_left (fun a '(x, y) => JS.set a (kernelIndex x y) (kernelValue s x y)) cs kernel,
       fold_left (fun sum '(x, y) => sum + kernelValue s x y) cs sum).
Proof.
  induction cs as [| [x y] cs IH]; intros kernel sum; simpl; [done |]. by rewrite <- IH.
Qed.

Lemma kernelValue_pos (s : Q) (x y : Z) : 0 < s -> 0 < kernelValue s x y.
Proof.
  intros Hs. unfold kernelValue.
  pose proof (Math_exp_pos (- JS.num (x * x + y * y) / s)) as He.
  pose proof Math_PI_pos as Hpi.
  assert (0 < Math_PI * s) as Hd by (by apply Qmult_lt_0_compat).
  apply Qlt_shift_div_l; [done |]. by rewrite Qmult_0_l.
Qed.

Lemma kernelSum_pos (s : Q) (cs : list (Z * Z)) :
  0 < s -> forall sum, 0 <= sum -> cs <> [] \/ 0 < sum ->
  0 < fold_left (fun sum '(x, y) => sum + kernelValue s x y) cs sum.
Proof.
  intros Hs. induction cs as [| [x y] cs IH]; intros sum Hsum Hor; simpl.
  - by destruct Hor.
  - pose proof (kernelValue_pos s x y Hs). apply IH; [lra | right; lra].
Qed.

Lemma in_window (x y : Z) :
  In (x, y) (MathUtil.window radius) <-> (- radius <= x <= radius)%Z /\ (- radius <= y <= radius)%Z.
Proof. unfold MathUtil.window. rewrite in_cells. lia. Qed.

Lemma kernelIndex_bound (x y : Z) :
  In (x, y) (MathUtil.window radius) -> (0 <= kernelIndex x y < size * size)%Z.
Proof. intros [Hx Hy]%in_window. unfold kernelIndex. nia. Qed.

Lemma kernelIndex_inj (x y x' y' : Z) :
  In (x, y) (MathUtil.window radius) -> In (x', y') (MathUtil.window radius) ->
  kernelIndex x y = kernelIndex x' y' -> x = x' /\ y = y'.
Proof.
  intros [Hx Hy]%in_window [Hx' Hy']%in_window. unfold kernelIndex. intros H.
  assert (y = y') as -> by nia. split; [lia | done].
Qed.

(** Every weight the blur reads is positive. *)
Lemma kernel_weight_pos (x y : Z) :
  In (x, y) (MathUtil.window radius) ->
  0 < JS.get (MathUtil.createGaussianKernel radius) (kernelIndex x y).
Proof.
  intros Hin. pose proof (kernelIndex_bound x y Hin) as Hb.
  unfold MathUtil.createGaussianKernel.
  set (s := 2 * (JS.num radius / 3) * (JS.num radius / 3)).
  assert (0 < s) as Hs.
  { assert (0 < JS.num radius / 3) as Hsig.
    { apply Qlt_shift_div_l; [reflexivity |]. rewrite Qmult_0_l.
      unfold JS.num. change 0 with (inject_Z 0). rewrite <- Zlt_Qlt. done. }
    unfold s. pose proof (Qmult_lt_0_compat _ _ Hsig Hsig). lra. }
  rewrite kernelStep_split.
  set (kernel0 := fold_left _ _ (JS.zeros _)).
  set (sum := fold_left _ _ 0).
  assert (0 < sum) as Hsum.
  { apply kernelSum_pos; [done | lra |]. left. intros E. by rewrite E in Hin. }
  assert (nth (Z.to_nat (kernelIndex x y)) kernel0 0 = kernelValue s x y) as Hk.
  { apply (fill_nth kernelIndex (kernelValue s)).
    - rewrite zeros_length. lia.
    - intros x' y' Hin' Hidx. by apply kernelIndex_inj in Hidx as [-> ->].
    - right. eauto. }
  assert (length kernel0 = Z.to_nat (size * size)) as Hlen.
  { unfold kernel0. apply (fold_left_invariant (fun a => length a = Z.to_nat (size * size))).
    - intros a [x' y'] Ha. by rewrite set_length.
    - apply zeros_length. }
  unfold JS.get. destruct (_ <? 0)%Z eqn:E; [lia |].
  set (f := fun k : Q => k / sum).
  rewrite (nth_indep _ 0 (f 0)) by (rewrite length_map; lia).
  rewrite map_nth, Hk. unfold f.
  apply Qlt_shift_div_l; [done |]. rewrite Qmult_0_l. by apply kernelValue_pos.
Qed.

Variables (data : list Q) (width height : Z).
Hypothesis data_unit : Forall unit data.

Local Abbreviation kernel := (MathUtil.createGaussianKernel radius).

(** The weighted sum stays between 0 and the sum of the weights. *)
Lemma blurStep_bounds (x y : Z) (ks : list (Z * Z)) :
  (forall kx ky, In (kx, ky) ks -> In (kx, ky) (MathUtil.window radius)) ->
  forall sum weightSum,
    0 <= sum -> sum <= weightSum -> ks <> [] \/ 0 < weightSum ->
    let r := fold_left (MathUtil.blurStep data kernel width height radius x y) ks
               (sum, weightSum) in
    0 <= fst r /\ fst r <= snd r /\ 0 < snd r.
Proof.
  induction ks as [| [kx ky] ks IH]; intros Hks sum weightSum H0 H1 Hor; simpl.
  - destruct Hor; [done | by repeat split].
  - apply IH.
    + intros kx' ky' Hin. apply Hks. by right.
    + set (d := JS.get data _). set (w := JS.get kernel _).
      assert (0 <= d * w); [| lra].
      apply Qmult_le_0_compat.
      * apply (get_Forall unit data _ unit_0 data_unit).
      * apply Qlt_le_weak, kernel_weight_pos, Hks. by left.
    + set (d := JS.get data _). set (w := JS.get kernel _).
      assert (0 <= (1 - d) * w) as H; [| lra].
      apply Qmult_le_0_compat.
      * pose proof (get_Forall unit data (MathUtil.coordToIndex
            (MathUtil.clampi (x + kx) 0 (width - 1))
            (MathUtil.clampi (y + ky) 0 (height - 1)) width) unit_0 data_unit) as [_ Hd].
        fold d in Hd. lra.
      * apply Qlt_le_weak, kernel_weight_pos, Hks. by left.
    + right. pose proof (kernel_weight_pos kx ky (Hks kx ky (or_introl eq_refl))) as Hw.
      unfold kernelIndex in Hw. lra.
Qed.

Lemma blurCell_unit (result : list Q) (c : Z * Z) :
  Forall unit result ->
  Forall unit (MathUtil.blurCell data kernel width height radius result c).
Proof.
  intros Hres. destruct c as [x y]. unfold MathUtil.blurCell.
  pose proof (blurStep_bounds x y (MathUtil.window radius) (fun _ _ H => H) 0 0) as Hb.
  destruct (fold_left _ _ (0, 0)) as [sum weightSum]. simpl in Hb.
  destruct Hb as (H0 & H1 & Hpos); [lra | lra | |].
  { left. intros E. assert (In (0, 0)%Z (MathUtil.window radius)) as Hin by (apply in_window; lia).
    by rewrite E in Hin. }
  apply set_Forall; [done |]. split.
  - apply Qle_shift_div_l; [done |]. by rewrite Qmult_0_l.
  - apply Qle_shift_div_r; [done |]. by rewrite Qmult_1_l.
Qed.

Lemma gaussianBlur_unit : Forall unit (MathUtil.gaussianBlur data width height radius).
Proof.
  unfold MathUtil.gaussianBlur. apply fold_left_invariant.
  - intros result c. apply blurCell_unit.
  - apply zeros_Forall, unit_0.
Qed.

End BlurRange.

Section ClimateRange.
Context {host : Host} {facts : HostFacts host}.
Open Scope Q_scope.

Lemma generateTemperature_unit (width height : Z) (heightmap : list Q) (seaLevel : Q)
    (rng : Random.SeededRandom) :
  Forall unit (fst (Climate.generateTemperature width height heightmap seaLevel rng)).
Proof.
  unfold Climate.generateTemperature. destruct (createNoise2D rng) as [noise rng'].
  cbn [fst]. apply gaussianBlur_unit; [lia |].
  apply fold_left_invariant; [| apply zeros_Forall, unit_0].
  intros temperature [x y] Ht. apply set_Forall; [done |]. apply clamp_unit.
Qed.

Lemma waterCells_unit (width height : Z) (heightmap : list Q) (seaLevel : Q) :
  Forall unit (Climate.waterCells width height heightmap seaLevel).
Proof.
  unfold Climate.waterCells. apply fold_left_invariant; [| apply zeros_Forall, unit_0].
  intros moisture i Hm. destruct (JS.ltb _ _); [| done].
  apply set_Forall; [done | apply unit_1].
Qed.

Lemma spreadCell_unit (width : Z) (heightmap : list Q) (seaLevel : Q)
    (tempMoisture : list Q) (c : Z * Z) :
  Forall unit tempMoisture ->
  Forall unit (Climate.spreadCell width heightmap seaLevel tempMoisture c).
Proof.
  intros Ht. destruct c as [x y]. unfold Climate.spreadCell.
  destruct (JS.leb _ _); [| done].
  apply set_Forall; [done |].
  assert (forall i, unit (JS.get tempMoisture i)) as Hget.
  { intros i. by apply get_Forall; [apply unit_0 |]. }
  apply max_case; [apply Hget |].
  set (m := JS.max _ _).
  assert (unit m) as [Hm0 Hm1] by (unfold m; repeat apply max_case; apply Hget).
  destruct (JS.ltb _ _); split; lra.
Qed.

Lemma variationCell_unit (width : Z) (heightmap temperature : list Q) (seaLevel : Q)
    (noise : NoiseFunction2D) (moisture : list Q) (c : Z * Z) :
  Forall unit moisture ->
  Forall unit (Climate.variationCell width heightmap temperature seaLevel noise moisture c).
Proof.
  intros Hm. destruct c as [x y]. unfold Climate.variationCell.
  destruct (JS.leb _ _); [| done].
  apply set_Forall; [done | apply clamp_unit].
Qed.

Lemma generateMoisture_unit (width height : Z) (heightmap temperature : list Q)
    (seaLevel : Q) (rng : Random.SeededRandom) :
  Forall unit (fst (Climate.generateMoisture width height heightmap temperature seaLevel rng)).
Proof.
  unfold Climate.generateMoisture. destruct (createNoise2D rng) as [noise rng'].
  cbn [fst]. apply gaussianBlur_unit; [lia |].
  apply fold_left_invariant; [intros m c; apply variationCell_unit |].
  apply fold_left_invariant; [| apply waterCells_unit].
  intros t _ Ht. apply fold_left_invariant; [| done].
  intros t' c. apply spreadCell_unit.
Qed.

Lemma generateClimate_unit (o : Climate.ClimateOptions) :
  Forall unit (fst (Climate.generateClimate o))
  /\ Forall unit (snd (Climate.generateClimate o)).
Proof.
  unfold Climate.generateClimate.
  pose proof (generateTemperature_unit (Climate.width o) (Climate.height o)
                (Climate.heightmap o) (Climate.seaLevel o)
                (Random.new (Climate.seed o ++ "_climate"))) as Ht.
  destruct (Climate.generateTemperature _ _ _ _ _) as [temperature rng]. simpl in Ht.
  pose proof (generateMoisture_unit (Climate.width o) (Climate.height o)
                (Climate.heightmap o) temperature (Climate.seaLevel o) rng) as Hm.
  destruct (Climate.generateMoisture _ _ _ _ _ _) as [moisture rng']. simpl in Hm.
  done.
Qed.

End ClimateRange.

(* ================================================================== *)
(** ** Ranges: the map data                                             *)
(* ================================================================== *)

Section MapDataRange.
Context {host : Host} {facts : HostFacts host} {naming : Naming}.
Open Scope Q_scope.

Lemma runStages_ranges (config : Pipeline.MapConfig) :
  let data := Pipeline.runStages config in
  Forall unit (Pipeline.heightmap data)
  /\ Forall unit (Pipeline.temperature data)
  /\ Forall unit (Pipeline.moisture data)
  /\ Forall (fun b => 0 <= b <= 10)%Z (Pipeline.biomes data).
Proof.
  unfold Pipeline.runStages.
  set (eroded := Erosion.applyThermalErosion _ _ _ _ _).
  assert (Forall unit eroded) as Heroded.
  { apply applyThermalErosion_unit; [lra | apply applyErosion_unit]. }
  match goal with
  | |- context [Climate.generateClimate ?o] =>
      pose proof (generateClimate_unit o) as [Ht Hm];
      destruct (Climate.generateClimate o) as [temperature moisture]
  end.
  simpl in Ht, Hm.
  set (rivers := Rivers.generateRivers _).
  set (carved := Rivers.carveRiversIntoHeightmap _ _ _ _).
  assert (Forall unit carved) as Hcarved.
  { apply carveRivers_unit; [lra | | done].
    intros river seg Hr Hs. destruct (generateRivers_flow _ river seg Hr Hs). lra. }
  destruct (applyNames _ _ _) as [settlements rivers']. simpl.
  repeat split; try done.
  eapply Forall_impl; [apply generateBiomes_range |]. simpl. intros b Hb. lia.
Qed.

End MapDataRange.

(** The stand-ins of [Sample] have the two facts the blur relies on. *)
Lemma sample_host_facts : HostFacts Sample.host.
Proof.
  split.
  - intros x. simpl. unfold Sample.recip.
    destruct (JS.ltb x 0) eqn:E; rewrite Qred_correct.
    + apply ltb_lt in E. apply Qlt_shift_div_l; lra.
    + apply ltb_ge in E. lra.
  - reflexivity.
Qed.

(** C2: in the map data that [generateMap] resolves to, every elevation,
    temperature and moisture is in [0, 1] and every biome id is in
    [0, 10]. *)
Theorem map_data_ranges {host : Host} {facts : HostFacts host} {naming : Naming}
    (random : nat -> Q) (options : Pipeline.PartialMapConfig) (data : Pipeline.MapData) :
  snd (Pipeline.generateMap random options) = Pipeline.Resolved data ->
  Forall (fun v => 0 <= v /\ v <= 1)%Q (Pipeline.heightmap data)
  /\ Forall (fun v => 0 <= v /\ v <= 1)%Q (Pipeline.temperature data)
  /\ Forall (fun v => 0 <= v /\ v <= 1)%Q (Pipeline.moisture data)
  /\ Forall (fun b => 0 <= b <= 10) (Pipeline.biomes data).
Proof.
  unfold Pipeline.generateMap. cbn [snd]. intros [= <-].
  apply runStages_ranges.
Qed.

(** The theorem of C2 at the default configuration with the seed ["alpha"]. *)
Lemma map_data_ranges_witness :
  let options :=
    Pipeline.given
      {| Pipeline.seed := "alpha"; Pipeline.mapType := Types.island;
         Pipeline.mapSize := Types.local; Pipeline.width := 256; Pipeline.height := 256;
         Pipeline.seaLevel := 0.35; Pipeline.roughness := 0.6;
         Pipeline.waterCoverage := 0.4; Pipeline.forestDensity := 0.5;
         Pipeline.settlementDensity := 0.3 |} in
  let data :=
    Pipeline.runStages (host := Sample.host) (naming := Sample.naming)
      (Pipeline.mergeConfig (fun _ => 0%Q) options) in
  Forall (fun v => 0 <= v /\ v <= 1)%Q (Pipeline.heightmap data)
  /\ Forall (fun v => 0 <= v /\ v <= 1)%Q (Pipeline.temperature data)
  /\ Forall (fun v => 0 <= v /\ v <= 1)%Q (Pipeline.moisture data)
  /\ Forall (fun b => 0 <= b <= 10) (Pipeline.biomes data).
Proof.
  intros options data.
  apply (map_data_ranges (host := Sample.host) (facts := sample_host_facts)
           (naming := Sample.naming) (fun _ => 0%Q) options data).
  reflexivity.
Defined.

(* ================================================================== *)
(** ** Inland maps: more water coverage, more ocean cells               *)
(* ================================================================== *)

Section InlandLakes.
Context {host : Host}.
Import Types.
Open Scope Q_scope.

(** How a height of the run with less water coverage ([v1]) and the
    height of the same cell in the run with more ([v2]) are related:
    the cell is the same, or it has become a lake of height 0. *)
Definition sunk (v1 v2 : Q) : Prop := v2 = v1 \/ v2 == 0.

Lemma blend_lake (terrainValue : Q) : Heightmap.blend 0 terrainValue == 0.
Proof. reflexivity. Qed.

(** The two noise functions of [inlandMask] are drawn whatever the water
    coverage is; a cell that is a lake stays one when the coverage grows. *)
Lemma inlandMask_coverage (x y : Q) (width height : Z) (rng : Random.SeededRandom)
    (w1 w2 : Q) :
  w1 <= w2 ->
  snd (Heightmap.inlandMask x y width height rng w2)
  = snd (Heightmap.inlandMask x y width height rng w1)
  /\ (fst (Heightmap.inlandMask x y width height rng w2)
      = fst (Heightmap.inlandMask x y width height rng w1)
      \/ fst (Heightmap.inlandMask x y width height rng w2) = 0).
Proof.
  intros Hw. unfold Heightmap.inlandMask.
  destruct (createNoise2D rng) as [lakeNoise rng1].
  destruct (createNoise2D rng1) as [lakeDetail rng2].
  set (combined := _ + _).
  destruct (JS.ltb combined (w1 * 2.4 - 1.2)) eqn:E1;
    destruct (JS.ltb combined (w2 * 2.4 - 1.2)) eqn:E2; simpl; auto.
  apply ltb_lt in E1. apply ltb_ge in E2. lra.
Qed.

(** The warped coordinates of a cell. *)
Definition warped (s : Heightmap.MaskSetup) (x y : Z) : Q * Q :=
  (JS.num x + Heightmap.warpNoiseX s (JS.num x * Heightmap.warpScale s)
                (JS.num y * Heightmap.warpScale s) * Heightmap.warpStrength s,
   JS.num y + Heightmap.warpNoiseY s (JS.num x * Heightmap.warpScale s)
                (JS.num y * Heightmap.warpScale s) * Heightmap.warpStrength s).

Lemma cellMask_inland (s : Heightmap.MaskSetup) (width height : Z) (waterCoverage : Q)
    (x y : Z) (rng : Random.SeededRandom) :
  Heightmap.cellMask s width height inland waterCoverage x y rng
  = Heightmap.inlandMask (fst (warped s x y)) (snd (warped s x y)) width height rng
      waterCoverage.
Proof.
  unfold Heightmap.cellMask, warped. cbn [fst snd].
  destruct (Heightmap.transformCoords _ _ _) as [tx ty].
  destruct (Heightmap.inlandMask _ _ _ _ _ _) as [mask rng']. reflexivity.
Qed.

Variables (width height : Z) (w1 w2 : Q).
Hypothesis coverage : w1 <= w2.

Local Abbreviation index := (fun x y : Z => MathUtil.coordToIndex x y width).

(** One cell of the mask loop, in the two runs. *)
Lemma maskCell_coverage (s : Heightmap.MaskSetup) (hm1 hm2 : list Q)
    (rng : Random.SeededRandom) (x y : Z) :
  length hm1 = length hm2 ->
  JS.get hm1 (index x y) = JS.get hm2 (index x y) ->
  exists v1 v2 rng',
    Heightmap.maskCell s width height inland w1 (hm1, rng) (x, y)
    = (JS.set hm1 (index x y) v1, rng')
    /\ Heightmap.maskCell s width height inland w2 (hm2, rng) (x, y)
       = (JS.set hm2 (index x y) v2, rng')
    /\ sunk v1 v2.
Proof.
  intros Hlen Hget. unfold Heightmap.maskCell.
  rewrite !cellMask_inland.
  set (wx := fst (warped s x y)). set (wy := snd (warped s x y)).
  destruct (inlandMask_coverage wx wy width height rng w1 w2 coverage) as [Hrng Hm].
  destruct (Heightmap.inlandMask wx wy width height rng w1) as [m1 rng1].
  destruct (Heightmap.inlandMask wx wy width height rng w2) as [m2 rng2].
  simpl in Hrng, Hm. subst rng2. rewrite Hget.
  eexists _, _, _. split; [reflexivity |]. split; [reflexivity |].
  destruct Hm as [-> | ->]; [by left | right; apply blend_lake].
Qed.

(** The mask loop over cells of pairwise different indices. *)
Lemma maskLoop_coverage (s : Heightmap.MaskSetup) (cs : list (Z * Z)) :
  NoDup (map (fun c => index (fst c) (snd c)) cs) ->
  forall (hm1 hm2 : list Q) (rng : Random.SeededRandom),
    length hm1 = length hm2 ->
    (forall x y, In (x, y) cs -> JS.get hm1 (index x y) = JS.get hm2 (index x y)) ->
    (forall i, sunk (JS.get hm1 i) (JS.get hm2 i)) ->
    let r1 := fold_left (Heightmap.maskCell s width height inland w1) cs (hm1, rng) in
    let r2 := fold_left (Heightmap.maskCell s width height inland w2) cs (hm2, rng) in
    length (fst r1) = length hm1 /\ length (fst r2) = length hm2
    /\ forall i, sunk (JS.get (fst r1) i) (JS.get (fst r2) i).
Proof.
  induction cs as [| [x y] cs IH]; intros Hnd hm1 hm2 rng Hlen Hpending Hsunk;
    cbn [fold_left]; [done |].
  apply NoDup_cons in Hnd as [Hfresh Hnd]. cbn [fst snd] in Hfresh.
  destruct (maskCell_coverage s hm1 hm2 rng x y Hlen) as (v1 & v2 & rng' & -> & -> & Hv).
  { apply Hpending. by left. }
  destruct (IH Hnd (JS.set hm1 (index x y) v1) (JS.set hm2 (index x y) v2) rng')
    as (Hl1 & Hl2 & Hrel).
  - by rewrite !set_length.
  - intros x' y' Hin.
    assert (index x y <> index x' y') as Hne.
    { intros E. apply Hfresh. rewrite E. apply list_elem_of_In.
      apply (in_map (fun c => index (fst c) (snd c)) cs (x', y') Hin). }
    rewrite !get_set_other by done. apply Hpending. by right.
  - intros i. rewrite !get_set, Hlen.
    destruct (decide _); [done | apply Hsunk].
  - rewrite set_length in Hl1, Hl2. done.
Qed.

Lemma range_NoDup (lo hi : Z) : NoDup (JS.range lo hi).
Proof.
  apply (NoDup_fmap_2_strong (fun k => lo + Z.of_nat k)%Z); [| apply NoDup_seq].
  intros k k' _ _ E. lia.
Qed.

Lemma cells_index_NoDup :
  NoDup (map (fun c => index (fst c) (snd c)) (JS.cells 0 width 0 height)).
Proof.
  apply (NoDup_fmap_2_strong (fun c => index (fst c) (snd c))).
  - intros [x y] [x' y'] [Hx Hy]%list_elem_of_In%in_cells [Hx' Hy']%list_elem_of_In%in_cells E.
    simpl in E. by apply coordToIndex_inj in E as [-> ->].
  - unfold JS.cells.
    apply (NoDup_bind (fun y => map (fun x => (x, y)) (JS.range 0 width)) (JS.range 0 height)).
    + intros y1 y2 [x y] _ _ Hin1%list_elem_of_In Hin2%list_elem_of_In.
      apply in_map_iff in Hin1 as (? & [= _ <-] & _).
      apply in_map_iff in Hin2 as (? & [= _ <-] & _). done.
    + intros y _. apply (NoDup_fmap_2_strong (fun x => (x, y))); [| apply range_NoDup].
      by intros x x' _ _ [= ->].
    + apply range_NoDup.
Qed.

End InlandLakes.

Section Despeckle.
Context {host : Host}.
Open Scope Q_scope.

Variables (width height : Z) (threshold : Q).
Hypothesis width_pos : (0 < width)%Z.
Hypothesis threshold_pos : 0 < threshold.

Local Abbreviation index := (fun x y : Z => MathUtil.coordToIndex x y width).

Lemma sunk_clamp (v1 v2 : Q) :
  sunk v1 v2 -> sunk (MathUtil.clamp v1 0 1) (MathUtil.clamp v2 0 1).
Proof.
  intros [-> | E]; [by left | right].
  unfold MathUtil.clamp, JS.min, JS.max.
  assert (Qmax v2 0 == 0) as Hmax by (apply Q.max_r; lra).
  rewrite Q.min_l; [done | rewrite Hmax; lra].
Qed.

Lemma normalize_sunk (hm1 hm2 : list Q) :
  length hm1 = length hm2 ->
  (forall i, sunk (JS.get hm1 i) (JS.get hm2 i)) ->
  forall i, sunk (JS.get (Heightmap.normalizeHeightmap hm1) i)
                 (JS.get (Heightmap.normalizeHeightmap hm2) i).
Proof.
  intros Hlen Hs i. unfold Heightmap.normalizeHeightmap.
  destruct (decide (0 <= i < Z.of_nat (length hm1))%Z) as [Hi | Hi].
  - rewrite !get_map by lia. apply sunk_clamp, Hs.
  - rewrite !get_out by (rewrite length_map; lia). by left.
Qed.

Lemma sunk_land (v1 v2 : Q) :
  sunk v1 v2 -> JS.ltb threshold v2 = true -> v2 = v1.
Proof.
  intros [-> | E] H%ltb_lt; [done | lra].
Qed.

Lemma sunk_ocean (v1 v2 : Q) :
  sunk v1 v2 -> JS.ltb v1 threshold = true -> JS.ltb v2 threshold = true.
Proof.
  intros [-> | E] H; [done |]. apply ltb_lt. lra.
Qed.

Variables n1 n2 : list Q.
Hypothesis lengths : length n1 = length n2.
Hypothesis related : forall i, sunk (JS.get n1 i) (JS.get n2 i).

(** The number of land cells among the cells [nIdxs], counted from [c]. *)
Definition landCount (hm : list Q) (nIdxs : list Z) (c : Z) : Z :=
  fold_left (fun count nIdx =>
               if JS.ltb threshold (JS.get hm nIdx) then (count + 1)%Z else count)
            nIdxs c.

(** The run with more water has no more land neighbours. *)
Lemma landCount_sunk (nIdxs : list Z) :
  forall c1 c2 : Z, (c2 <= c1)%Z -> (landCount n2 nIdxs c2 <= landCount n1 nIdxs c1)%Z.
Proof.
  unfold landCount.
  induction nIdxs as [| nIdx nIdxs IH]; intros c1 c2 Hc; simpl; [done |].
  apply IH.
  destruct (JS.ltb threshold (JS.get n2 nIdx)) eqn:E2.
  - rewrite <- (sunk_land _ _ (related nIdx) E2), E2. lia.
  - destruct (JS.ltb threshold (JS.get n1 nIdx)); lia.
Qed.

(** The height of an inner cell after the despeckle pass. *)
Definition settled (hm : list Q) (x y : Z) : Q :=
  match Heightmap.artifactChange hm width threshold x y with
  | Some (_, v) => v
  | None => JS.get hm (index x y)
  end.

Lemma artifactChange_index (hm : list Q) (x y i : Z) (v : Q) :
  Heightmap.artifactChange hm width threshold x y = Some (i, v) -> i = index x y.
Proof.
  unfold Heightmap.artifactChange.
  destruct (_ && _); [by intros [= <- _] |]. destruct (_ && _); [by intros [= <- _] | done].
Qed.

(** An inner cell that is below the threshold after the pass in the run
    with less water is below it in the run with more. *)
Lemma settled_ocean (x y : Z) :
  JS.ltb (settled n1 x y) threshold = true -> JS.ltb (settled n2 x y) threshold = true.
Proof.
  unfold settled, Heightmap.artifactChange.
  set (nIdxs := [_; _; _; _]).
  pose proof (landCount_sunk nIdxs 0 0 ltac:(lia)) as Hcount.
  fold (landCount n1 nIdxs 0). fold (landCount n2 nIdxs 0).
  set (c1 := landCount n1 nIdxs 0) in *. set (c2 := landCount n2 nIdxs 0) in *.
  pose proof (related (index x y)) as Hrel.
  set (v1 := JS.get n1 (index x y)) in *. set (v2 := JS.get n2 (index x y)) in *.
  destruct (JS.ltb threshold v1) eqn:L1; simpl.
  - (* land in the first run *)
    destruct (c1 <=? 1)%Z eqn:C1; simpl.
    + apply Z.leb_le in C1. intros _.
      destruct (JS.ltb threshold v2) eqn:L2; simpl.
      * assert ((c2 <=? 1)%Z = true) as -> by (apply Z.leb_le; lia). simpl.
        apply ltb_lt. lra.
      * assert ((3 <=? c2)%Z = false) as -> by (apply Z.leb_gt; lia).
        destruct Hrel as [E | E]; [congruence |]. apply ltb_lt. lra.
    + intros H%ltb_lt. apply ltb_lt in L1. lra.
  - (* not land in the first run *)
    destruct (3 <=? c1)%Z eqn:C1; simpl.
    + intros H%ltb_lt. lra.
    + apply Z.leb_gt in C1. intros H.
      pose proof (sunk_ocean _ _ Hrel H) as O2.
      assert (JS.ltb threshold v2 = false) as ->.
      { apply ltb_ge. apply ltb_lt in O2. lra. }
      simpl. assert ((3 <=? c2)%Z = false) as -> by (apply Z.leb_gt; lia). done.
Qed.

(** The changes that [cleanupArtifacts] records. *)
Lemma in_changes (hm : list Q) (cs : list (Z * Z)) (ch : Z * Q) :
  forall acc,
    In ch (fold_left
             (fun changes '(x, y) =>
                match Heightmap.artifactChange hm width threshold x y with
                | Some ch => changes ++ [ch]
                | None => changes
                end) cs acc)
    <-> In ch acc
        \/ exists x y, In (x, y) cs /\ Heightmap.artifactChange hm width threshold x y = Some ch.
Proof.
  induction cs as [| [x y] cs IH]; intros acc; simpl.
  - split; [by left | intros [H | (x & y & [] & _)]; done].
  - rewrite IH. destruct (Heightmap.artifactChange hm width threshold x y) as [ch0 |] eqn:E.
    + rewrite in_app_iff. simpl. split.
      * intros [[H | [<- | []]] | (x' & y' & Hin & Hch)]; eauto 8.
      * intros [H | (x' & y' & [[= <- <-] | Hin] & Hch)]; eauto 8.
        left. right. left. congruence.
    + split.
      * intros [H | (x' & y' & Hin & Hch)]; eauto 8.
      * intros [H | (x' & y' & [[= <- <-] | Hin] & Hch)]; eauto 8. congruence.
Qed.

Definition inner (x y : Z) : Prop := (1 <= x < width - 1)%Z /\ (1 <= y < height - 1)%Z.

Lemma cleanup_inner (hm : list Q) (x y : Z) :
  length hm = Z.to_nat (width * height) -> (0 <= y < height)%Z -> inner x y ->
  JS.get (Heightmap.cleanupArtifacts hm width height threshold) (index x y) = settled hm x y.
Proof.
  intros Hlen Hy [Hx Hy']. unfold Heightmap.cleanupArtifacts, settled.
  assert (0 <= index x y < width * height)%Z as Hb by (apply coordToIndex_bound; lia).
  unfold JS.get at 1. destruct (_ <? 0)%Z eqn:E; [lia |].
  set (changes := fold_left _ (JS.cells _ _ _ _) []).
  assert (forall i v, In (i, v) changes ->
            exists x' y', inner x' y' /\ i = index x' y'
                          /\ Heightmap.artifactChange hm width threshold x' y' = Some (i, v))
    as Hchanges.
  { intros i v [[] | (x' & y' & Hin%in_cells & Hch)]%in_changes.
    exists x', y'. split; [done |]. split; [by eapply artifactChange_index | done]. }
  apply (fill_nth (fun (i : Z) (_ : Q) => i) (fun (_ : Z) (v : Q) => v)).
  - lia.
  - intros i v Hin Hi. simpl in Hi.
    destruct (Hchanges _ _ Hin) as (x' & y' & [Hx' _] & Hidx & Hch).
    rewrite Hi in Hidx.
    apply coordToIndex_inj in Hidx as [-> ->]; [| lia | lia]. by rewrite Hch.
  - destruct (Heightmap.artifactChange hm width threshold x y) as [[i v] |] eqn:Hch.
    + right. exists i, v. split; [| by eapply artifactChange_index].
      apply in_changes. right. exists x, y. split; [apply in_cells; lia | done].
    + left. unfold JS.get. by rewrite E.
Qed.

Lemma cleanup_outer (hm : list Q) (i : Z) :
  (forall x y, inner x y -> index x y <> i) ->
  JS.get (Heightmap.cleanupArtifacts hm width height threshold) i = JS.get hm i.
Proof.
  intros Hout. unfold Heightmap.cleanupArtifacts.
  set (changes := fold_left _ (JS.cells _ _ _ _) []).
  assert (forall j v, In (j, v) changes -> j <> i) as Hchanges.
  { intros j v [[] | (x' & y' & Hin%in_cells & Hch)]%in_changes.
    apply artifactChange_index in Hch as ->. by apply Hout. }
  clearbody changes. revert hm.
  induction changes as [| [j v] changes IH]; intros hm; simpl; [done |].
  rewrite IH by (intros j' v' Hin; apply (Hchanges j' v'); by right).
  apply get_set_other. apply (Hchanges j v). by left.
Qed.

Lemma cleanup_length (hm : list Q) :
  length (Heightmap.cleanupArtifacts hm width height threshold) = length hm.
Proof.
  unfold Heightmap.cleanupArtifacts. generalize (fold_left
    (fun changes '(x, y) =>
       match Heightmap.artifactChange hm width threshold x y with
       | Some ch => changes ++ [ch]
       | None => changes
       end) (JS.cells 1 (width - 1) 1 (height - 1)) []).
  intros changes. revert hm.
  induction changes as [| [j v] changes IH]; intros hm; simpl; [done |].
  by rewrite IH, set_length.
Qed.

(** After the despeckle pass, a cell below the threshold in the run with
    less water is below it in the run with more. *)
Lemma cleanup_ocean (i : Z) :
  length n1 = Z.to_nat (width * height) ->
  (0 <= i < width * height)%Z ->
  JS.ltb (JS.get (Heightmap.cleanupArtifacts n1 width height threshold) i) threshold = true ->
  JS.ltb (JS.get (Heightmap.cleanupArtifacts n2 width height threshold) i) threshold = true.
Proof.
  intros Hlen Hi.
  destruct (index_cell width height i width_pos Hi) as (x & y & Hx & Hy & <-).
  destruct (decide (inner x y)) as [Hin | Hout].
  - rewrite !cleanup_inner by (done || lia). apply settled_ocean.
  - rewrite !cleanup_outer; [by apply sunk_ocean | |];
      intros x' y' Hin' E; apply Hout;
      apply coordToIndex_inj in E as [<- <-]; (done || (destruct Hin'; lia)).
Qed.

End Despeckle.

Section OceanCount.
Open Scope Q_scope.

Lemma get_lookup (a : list Q) (i : nat) (v : Q) :
  a !! i = Some v -> JS.get a (Z.of_nat i) = v.
Proof.
  intros H. unfold JS.get. destruct (_ <? 0)%Z eqn:E; [apply Z.ltb_lt in E; lia |].
  rewrite Nat2Z.id. by apply nth_lookup_Some.
Qed.

(** Cell by cell below sea level, so no fewer cells below sea level. *)
Lemma oceanCells_mono (l1 l2 : list Q) (seaLevel : Q) :
  length l1 = length l2 ->
  (forall i, (0 <= i < Z.of_nat (length l1))%Z ->
             JS.ltb (JS.get l1 i) seaLevel = true -> JS.ltb (JS.get l2 i) seaLevel = true) ->
  (Measures.oceanCells l1 seaLevel <= Measures.oceanCells l2 seaLevel)%Z.
Proof.
  intros Hlen Hcells.
  assert (Forall2 (fun a b => JS.ltb a seaLevel = true -> JS.ltb b seaLevel = true) l1 l2) as H.
  { apply Forall2_same_length_lookup_2; [done |]. intros i a b Ha Hb.
    rewrite <- (get_lookup _ _ _ Ha), <- (get_lookup _ _ _ Hb). apply Hcells.
    apply lookup_lt_Some in Ha. lia. }
  unfold Measures.oceanCells. apply inj_le.
  clear Hlen Hcells. induction H as [| a b l1 l2 Hab H IH]; cbn [List.filter]; [done |].
  destruct (JS.ltb a seaLevel) eqn:Ea.
  - rewrite (Hab eq_refl). cbn [length]. lia.
  - destruct (JS.ltb b seaLevel); cbn [length]; lia.
Qed.

End OceanCount.

Section InlandCoverage.
Context {host : Host}.
Import Types.
Open Scope Q_scope.

Lemma generateFBM_length (heightmap : list Q) (width height : Z) (noise : NoiseFunction2D)
    (roughness : Q) :
  length (Heightmap.generateFBM heightmap width height noise roughness) = length heightmap.
Proof.
  unfold Heightmap.generateFBM.
  apply (fold_left_invariant (fun a => length a = length heightmap)); [| done].
  intros a [x y] Ha. by rewrite set_length.
Qed.

(** On an inland map, with a positive sea level: cell by cell, what is
    below sea level stays so when the water coverage grows. *)
Lemma inland_ocean_cells (o : Heightmap.HeightmapOptions) (waterCoverage' : Q) :
  Heightmap.mapType o = inland ->
  (0 < Heightmap.width o)%Z -> (0 < Heightmap.height o)%Z ->
  0 < Heightmap.seaLevel o ->
  Heightmap.waterCoverage o <= waterCoverage' ->
  let h1 := Heightmap.generateHeightmap o in
  let h2 := Heightmap.generateHeightmap (Measures.withWaterCoverage o waterCoverage') in
  length h1 = Z.to_nat (Heightmap.width o * Heightmap.height o)
  /\ length h2 = length h1
  /\ (Measures.oceanCells h1 (Heightmap.seaLevel o)
      <= Measures.oceanCells h2 (Heightmap.seaLevel o))%Z.
Proof.
  intros Hm Hw Hh Hsea Hcov. unfold Heightmap.generateHeightmap.
  cbn [Measures.withWaterCoverage Heightmap.width Heightmap.height Heightmap.seed
       Heightmap.mapType Heightmap.seaLevel Heightmap.roughness Heightmap.waterCoverage].
  rewrite Hm.
  set (width := Heightmap.width o) in *. set (height := Heightmap.height o) in *.
  set (seaLevel := Heightmap.seaLevel o) in *.
  destruct (createNoise2D (Random.new (Heightmap.seed o))) as [noise rng1].
  set (fbm := Heightmap.generateFBM _ _ _ _ _).
  assert (length fbm = Z.to_nat (width * height)) as Hfbm.
  { unfold fbm. rewrite generateFBM_length. apply zeros_length. }
  unfold Heightmap.applyLandmassMask.
  destruct (Heightmap.maskSetup width height rng1) as [s rng2].
  pose proof (maskLoop_coverage width height (Heightmap.waterCoverage o) waterCoverage' Hcov
                s (JS.cells 0 width 0 height) (cells_index_NoDup width height)
                fbm fbm rng2 eq_refl (fun _ _ _ => eq_refl) (fun _ => or_introl eq_refl))
    as (Hl1 & Hl2 & Hrel).
  destruct (fold_left (Heightmap.maskCell s width height inland (Heightmap.waterCoverage o))
              _ _) as [m1 r1].
  destruct (fold_left (Heightmap.maskCell s width height inland waterCoverage') _ _)
    as [m2 r2].
  cbn [fst] in Hl1, Hl2, Hrel. cbn [Heightmap.adjustWaterCoverage].
  set (n1 := Heightmap.normalizeHeightmap m1). set (n2 := Heightmap.normalizeHeightmap m2).
  assert (length n1 = Z.to_nat (width * height)) as Hn1.
  { unfold n1, Heightmap.normalizeHeightmap. rewrite length_map. congruence. }
  assert (length n2 = length n1) as Hn2.
  { unfold n1, n2, Heightmap.normalizeHeightmap. rewrite !length_map. congruence. }
  rewrite !cleanup_length. split; [done |]. split; [done |].
  apply oceanCells_mono; [by rewrite !cleanup_length |].
  intros i Hi. rewrite cleanup_length, Hn1 in Hi.
  apply cleanup_ocean; try done; [| lia].
  apply normalize_sunk; [congruence | done].
Qed.

End InlandCoverage.

(** C9, as amended: for an inland map and a positive sea level, with the
    seed and the other options fixed, the fraction of the cells of the
    heightmap that [generateHeightmap] returns below sea level does not
    decrease when the water coverage grows. *)
Theorem inland_ocean_fraction_monotone {host : Host} (o : Heightmap.HeightmapOptions)
    (waterCoverage' : Q) :
  Heightmap.mapType o = Types.inland ->
  0 < Heightmap.width o -> 0 < Heightmap.height o ->
  (0 < Heightmap.seaLevel o)%Q ->
  (Heightmap.waterCoverage o <= waterCoverage')%Q ->
  (Measures.oceanFraction (Heightmap.generateHeightmap o) (Heightmap.seaLevel o)
   <= Measures.oceanFraction
        (Heightmap.generateHeightmap (Measures.withWaterCoverage o waterCoverage'))
        (Heightmap.seaLevel o))%Q.
Proof.
  intros Hm Hw Hh Hsea Hcov.
  destruct (inland_ocean_cells o waterCoverage' Hm Hw Hh Hsea Hcov) as (Hl1 & Hl2 & Hcells).
  unfold Measures.oceanFraction. rewrite Hl2.
  set (total := JS.num (Z.of_nat (length (Heightmap.generateHeightmap o)))).
  assert (0 < total)%Q as Htotal.
  { unfold total, JS.num. change 0%Q with (inject_Z 0). rewrite <- Zlt_Qlt, Hl1. nia. }
  unfold Qdiv. apply Qmult_le_compat_r.
  - unfold JS.num. by rewrite <- Zle_Qle.
  - apply Qlt_le_weak, Qinv_lt_0_compat, Htotal.
Qed.

(** The theorem of C9 on a 4 x 4 inland map, from the water coverage 0.2 to 0.5. *)
Lemma inland_ocean_fraction_monotone_witness :
  (Measures.oceanFraction
     (Heightmap.generateHeightmap (host := Sample.host) (Examples.pond Types.inland 0.2)) 0.35
   <= Measures.oceanFraction
        (Heightmap.generateHeightmap (host := Sample.host) (Examples.pond Types.inland 0.5)) 0.35)%Q.
Proof.
  apply (inland_ocean_fraction_monotone (host := Sample.host) (Examples.pond Types.inland 0.2) 0.5).
  - reflexivity.
  - reflexivity.
  - reflexivity.
  - reflexivity.
  - vm_compute. discriminate.
Defined.

(** C9, the claim as stated fails for the great-lake type: with the
    stand-in noise of [Sample], on a 4 x 4 map with the seed ["a"], four
    cells are below sea level at the water coverage 0.6 and two at 0.7.
    The noise functions are drawn anew for every cell, and inside the
    lake one more is drawn than outside, so the water coverage changes
    the numbers all later cells get. *)
Lemma great_lake_ocean_cells_decrease :
  Measures.oceanCells
    (Heightmap.generateHeightmap (host := Sample.host) (Examples.pond Types.great_lake 0.6)) 0.35
  = 4
  /\ Measures.oceanCells
       (Heightmap.generateHeightmap (host := Sample.host) (Examples.pond Types.great_lake 0.7)) 0.35
     = 2.
Proof. split; vm_compute; reflexivity. Qed.

(** At the sea level 0 the despeckle pass sinks lone land cells below sea
    level while lakes stay at 0: on an inland 6 x 6 map five cells are
    below sea level at the water coverage 0.5 and three at 0.6. *)
Lemma inland_sea_level_zero :
  let o := fun waterCoverage =>
    {| Heightmap.width := 6; Heightmap.height := 6; Heightmap.seed := "a";
       Heightmap.mapType := Types.inland; Heightmap.seaLevel := 0;
       Heightmap.roughness := 0.5; Heightmap.waterCoverage := waterCoverage |} in
  Measures.oceanCells (Heightmap.generateHeightmap (host := Sample.host) (o 0.5%Q)) 0 = 5
  /\ Measures.oceanCells (Heightmap.generateHeightmap (host := Sample.host) (o 0.6%Q)) 0 = 3.
Proof. split; vm_compute; reflexivity. Qed.

(* ================================================================== *)
(** * Further properties of the code                                    *)
(* ================================================================== *)

(* ================================================================== *)
(** ** src/utils/random.ts                                              *)
(* ================================================================== *)

Section RandomRanges.
Open Scope Q_scope.

Lemma range_bounds (min max : Q) (r : Random.SeededRandom) :
  min < max -> min <= fst (Random.range min max r) /\ fst (Random.range min max r) < max.
Proof.
  intros Hlt. unfold Random.range. pose proof (next_range r) as [H0 H1].
  destruct (Random.next r) as [u r']. cbn [fst] in *. split; nra.
Qed.

Lemma int_bounds (min max : Z) (r : Random.SeededRandom) :
  (min <= max)%Z -> (min <= fst (Random.int min max r) <= max)%Z.
Proof.
  intros Hle. unfold Random.int.
  assert (inject_Z min < inject_Z (max + 1)) as Hlt by (rewrite <- Zlt_Qlt; lia).
  pose proof (range_bounds _ _ r Hlt) as [Hlo Hhi].
  destruct (Random.range _ _ r) as [v r']. cbn [fst] in *. unfold JS.floor. split.
  - rewrite <- (Qfloor_Z min). by apply Qfloor_resp_le.
  - assert (Qfloor v < max + 1)%Z; [| lia].
    rewrite Zlt_Qlt. eapply Qle_lt_trans; [apply Qfloor_le | done].
Qed.

End RandomRanges.

(** X1: [next()] is in [0, 1); for [min < max], [range(min, max)] is in
    [min, max); for integers [min <= max], [int(min, max)] is an integer
    between [min] and [max], both included. *)
Theorem random_numbers_in_range (r : Random.SeededRandom) :
  (0 <= fst (Random.next r) /\ fst (Random.next r) < 1)%Q
  /\ (forall min max : Q, (min < max)%Q ->
        (min <= fst (Random.range min max r) /\ fst (Random.range min max r) < max)%Q)
  /\ (forall min max : Z, min <= max -> min <= fst (Random.int min max r) <= max).
Proof.
  split; [apply next_range |]. split.
  - intros min max. apply range_bounds.
  - intros min max. apply int_bounds.
Qed.

Section Pick.
Context {A : Type}.

Lemma pick_spec (array : list A) (r : Random.SeededRandom) :
  match fst (Random.pick array r) with
  | Some a => In a array
  | None => array = []
  end.
Proof.
  unfold Random.pick. destruct array as [| a0 array].
  - destruct (Random.int _ _ r) as [i r']. cbn [fst].
    destruct (i <? 0); [done |]. by rewrite lookup_nil.
  - assert (0 <= Z.of_nat (length (a0 :: array)) - 1) as Hle by (cbn [length]; lia).
    pose proof (int_bounds 0 _ r Hle) as Hi.
    destruct (Random.int _ _ r) as [i r']. cbn [fst] in *.
    destruct (i <? 0) eqn:E; [apply Z.ltb_lt in E; lia |].
    destruct (lookup_lt_is_Some_2 (a0 :: array) (Z.to_nat i)) as [a Ha]; [lia |].
    rewrite Ha. apply list_elem_of_In. by eapply list_elem_of_lookup_2.
Qed.

End Pick.

(** X2: [pick(array)] returns an element of the array when the array is
    not empty, and [undefined] when it is empty; it draws one number from
    the generator either way. *)
Theorem pick_returns_an_element {A} (array : list A) (r : Random.SeededRandom) :
  (array <> [] -> exists a, fst (Random.pick array r) = Some a /\ In a array)
  /\ (array = [] -> fst (Random.pick array r) = None)
  /\ snd (Random.pick array r) = snd (Random.next r).
Proof.
  pose proof (pick_spec array r) as H. split; [| split].
  - intros Hne. destruct (fst (Random.pick array r)) as [a |]; [by exists a | done].
  - intros ->. destruct (fst (Random.pick [] r)) as [a |]; [done | done].
  - unfold Random.pick, Random.int, Random.range.
    destruct (Random.next r) as [u r']. reflexivity.
Qed.

Section Shuffle.
Context {A : Type}.

(** The exchange of two positions. *)
Definition transpose (i j k : nat) : nat :=
  if decide (k = i) then j else if decide (k = j) then i else k.

Lemma transpose_inj (i j : nat) : Inj eq eq (transpose i j).
Proof.
  intros k1 k2. unfold transpose.
  repeat destruct (decide _); intros; subst; congruence.
Qed.

Lemma swap_Permutation (array : list A) (i j : Z) : Random.swap array i j ≡ₚ array.
Proof.
  unfold Random.swap.
  destruct (array !! Z.to_nat i) as [ai |] eqn:Hi; [| done].
  destruct (array !! Z.to_nat j) as [aj |] eqn:Hj; [| done].
  apply Permutation_inj. split; [by rewrite !length_insert |].
  exists (transpose (Z.to_nat i) (Z.to_nat j)). split; [apply transpose_inj |].
  intros k. unfold transpose.
  apply lookup_lt_Some in Hi as Hli. apply lookup_lt_Some in Hj as Hlj.
  set (ni := Z.to_nat i) in *. set (nj := Z.to_nat j) in *. clearbody ni nj.
  destruct (decide (k = ni)) as [-> | Hki].
  - destruct (decide (ni = nj)) as [-> | Hij].
    + rewrite list_lookup_insert_eq by (by rewrite length_insert). congruence.
    + rewrite list_lookup_insert_ne by done. by rewrite list_lookup_insert_eq.
  - destruct (decide (k = nj)) as [-> | Hkj].
    + by rewrite list_lookup_insert_eq by (by rewrite length_insert).
    + by rewrite !list_lookup_insert_ne.
Qed.

Lemma shuffle_Permutation (array : list A) (r : Random.SeededRandom) :
  fst (Random.shuffle array r) ≡ₚ array.
Proof.
  unfold Random.shuffle.
  generalize (rev (JS.range 1 (Z.of_nat (length array)))). intros idxs.
  assert (array ≡ₚ array) as H by done. revert H.
  generalize array at 1 3. revert r.
  induction idxs as [| i idxs IH]; intros r arr Harr; [done |]. cbn [fold_left].
  destruct (Random.int 0 i r) as [j r']. apply IH.
  by rewrite swap_Permutation.
Qed.

End Shuffle.

(** X3: [shuffle(array)] returns a permutation of the array: the same
    elements, each as often as before, and the same length. *)
Theorem shuffle_is_a_permutation {A} (array : list A) (r : Random.SeededRandom) :
  fst (Random.shuffle array r) ≡ₚ array
  /\ length (fst (Random.shuffle array r)) = length array.
Proof.
  pose proof (shuffle_Permutation array r) as H. split; [done |].
  by apply Permutation_length.
Qed.

Section Uuid.

(** The characters a hexadecimal digit is written with. *)
Definition hexDigits : list ascii := list_ascii_of_string "0123456789abcdef".

(** What [uuid()] puts where the template has the character [t]. *)
Definition uuidShape (t c : ascii) : Prop :=
  if Ascii.eqb t "x" then In c hexDigits
  else if Ascii.eqb t "y" then In c (list_ascii_of_string "89ab")
  else c = t.

Lemma nibble (r : Random.SeededRandom) :
  let v := JS.ToInt32 (JS.floor (fst (Random.next r) * 16)) in 0 <= v < 16.
Proof.
  pose proof (next_range r) as [H0 H1]. destruct (Random.next r) as [u r'].
  cbn [fst] in *. unfold JS.floor.
  assert (0 <= Qfloor (u * 16) < 16) as Hf.
  { split.
    - rewrite <- (Qfloor_Z 0). apply Qfloor_resp_le. unfold inject_Z. lra.
    - rewrite Zlt_Qlt.
      eapply Qle_lt_trans; [apply Qfloor_le |]. unfold inject_Z. lra. }
  unfold JS.ToInt32, JS.ToUint32. rewrite Z.mod_small by lia.
  destruct (_ <? _) eqn:E; [lia | apply Z.ltb_ge in E; lia].
Qed.

Lemma hexDigit_hex (v : Z) : 0 <= v < 16 -> In (Random.hexDigit v) hexDigits.
Proof.
  intros Hv. unfold Random.hexDigit. apply nth_In. simpl. lia.
Qed.

Lemma hexDigit_variant (v : Z) :
  0 <= v < 16 ->
  In (Random.hexDigit (Z.lor (Z.land v 3) 8)) (list_ascii_of_string "89ab").
Proof.
  intros Hv.
  assert (v = 0 \/ v = 1 \/ v = 2 \/ v = 3 \/ v = 4 \/ v = 5 \/ v = 6 \/ v = 7 \/ v = 8
          \/ v = 9 \/ v = 10 \/ v = 11 \/ v = 12 \/ v = 13 \/ v = 14 \/ v = 15) as H by lia.
  repeat destruct H as [-> | H]; try subst v; vm_compute; tauto.
Qed.

Lemma uuidChar_shape (out : list ascii) (r : Random.SeededRandom) (t : ascii) :
  exists c, fst (Random.uuidChar (out, r) t) = out ++ [c] /\ uuidShape t c.
Proof.
  unfold Random.uuidChar, uuidShape. destruct (Ascii.eqb t "x") eqn:Ex.
  - pose proof (nibble r) as Hn. destruct (Random.next r) as [u r']. cbn [fst] in *.
    eexists. split; [reflexivity |]. by apply hexDigit_hex.
  - destruct (Ascii.eqb t "y") eqn:Ey.
    + pose proof (nibble r) as Hn. destruct (Random.next r) as [u r']. cbn [fst] in *.
      eexists. split; [reflexivity |]. by apply hexDigit_variant.
    + by exists t.
Qed.

Lemma uuidChars_shape (ts : list ascii) :
  forall (ts0 out : list ascii) (r : Random.SeededRandom),
    Forall2 uuidShape ts0 out ->
    Forall2 uuidShape (ts0 ++ ts) (fst (fold_left Random.uuidChar ts (out, r))).
Proof.
  induction ts as [| t ts IH]; intros ts0 out r H.
  - by rewrite app_nil_r.
  - cbn [fold_left]. destruct (uuidChar_shape out r t) as (c & Hc & Hs).
    destruct (Random.uuidChar (out, r) t) as [out' r']. cbn [fst] in Hc. subst out'.
    replace (ts0 ++ t :: ts) with ((ts0 ++ [t]) ++ ts) by (by rewrite <- app_assoc).
    apply IH. apply Forall2_app; [done |]. by constructor.
Qed.

Lemma uuid_form (r : Random.SeededRandom) :
  String.length (fst (Random.uuid r)) = 36%nat
  /\ Forall2 uuidShape
       (list_ascii_of_string "xxxxxxxx-xxxx-4xxx-yxxx-xxxxxxxxxxxx")
       (list_ascii_of_string (fst (Random.uuid r))).
Proof.
  unfold Random.uuid.
  pose proof (uuidChars_shape
                (list_ascii_of_string "xxxxxxxx-xxxx-4xxx-yxxx-xxxxxxxxxxxx") [] [] r
                (Forall2_nil_2 _ _ _)) as H.
  destruct (fold_left _ _ _) as [out r']. cbn [fst] in *.
  rewrite app_nil_l in H. rewrite list_ascii_of_string_of_list_ascii.
  split; [| done]. apply Forall2_length in H.
  assert (forall s, String.length s = length (list_ascii_of_string s)) as Hlen.
  { induction s; simpl; congruence. }
  rewrite Hlen, list_ascii_of_string_of_list_ascii, <- H. reflexivity.
Qed.

End Uuid.

(** X4: [uuid()] returns 36 characters in the form of its template
    [xxxxxxxx-xxxx-4xxx-yxxx-xxxxxxxxxxxx]: a hexadecimal digit for each
    [x], one of 8, 9, a, b for [y], and the hyphens and the 4 in place. *)
Theorem uuid_has_the_template_form (r : Random.SeededRandom) :
  let id := fst (Random.uuid r) in
  String.length id = 36%nat
  /\ Forall2 uuidShape
       (list_ascii_of_string "xxxxxxxx-xxxx-4xxx-yxxx-xxxxxxxxxxxx")
       (list_ascii_of_string id).
Proof. intros id. apply uuid_form. Qed.

Section Seed.

Lemma list_ascii_app (s1 s2 : string) :
  list_ascii_of_string (s1 ++ s2) = list_ascii_of_string s1 ++ list_ascii_of_string s2.
Proof.
  induction s1 as [| a s1 IH]; [reflexivity |].
  change (String a s1 ++ s2)%string with (String a (s1 ++ s2)%string).
  cbn [list_ascii_of_string]. by rewrite IH.
Qed.

Lemma get_In (s : string) : forall (n : nat) (c : ascii),
  String.get n s = Some c -> In c (list_ascii_of_string s).
Proof.
  induction s as [| a s IH]; intros [| n] c H; simpl in *; try done.
  - left. congruence.
  - right. by eapply IH.
Qed.

Lemma get_Some (s : string) : forall n : nat,
  (n < String.length s)%nat -> exists c, String.get n s = Some c.
Proof.
  induction s as [| a s IH]; intros [| n] H; simpl in *; try lia.
  - by exists a.
  - apply IH. lia.
Qed.

Lemma charAt_seedChars (u : Q) :
  (0 <= u)%Q -> (u < 1)%Q ->
  exists c, Random.charAt Random.seedChars
              (JS.floor (u * inject_Z (Z.of_nat (String.length Random.seedChars))))
            = String c EmptyString
            /\ In c (list_ascii_of_string Random.seedChars).
Proof.
  intros H0 H1. unfold JS.floor.
  change (inject_Z (Z.of_nat (String.length Random.seedChars))) with 62%Q.
  assert (0 <= Qfloor (u * 62) < 62) as Hf.
  { split.
    - rewrite <- (Qfloor_Z 0). apply Qfloor_resp_le. unfold inject_Z. lra.
    - rewrite Zlt_Qlt.
      eapply Qle_lt_trans; [apply Qfloor_le |]. unfold inject_Z. lra. }
  unfold Random.charAt. destruct (_ <? 0) eqn:E; [apply Z.ltb_lt in E; lia |].
  destruct (get_Some Random.seedChars (Z.to_nat (Qfloor (u * 62)))) as [c Hc].
  { change (String.length Random.seedChars) with 62%nat. lia. }
  rewrite Hc. exists c. split; [done |]. by eapply get_In.
Qed.

End Seed.

(** X5: when [Math.random] returns numbers in [0, 1), [generateSeed()]
    returns twelve characters, each a letter or a digit of its alphabet. *)
Theorem generateSeed_is_alphanumeric (random : nat -> Q) :
  (forall i, 0 <= random i /\ random i < 1)%Q ->
  let seed := list_ascii_of_string (Random.generateSeed random) in
  length seed = 12%nat
  /\ Forall (fun c => In c (list_ascii_of_string Random.seedChars)) seed.
Proof.
  intros Hr seed. unfold seed, Random.generateSeed.
  assert (forall (idxs : list nat) (acc : string),
            let out := list_ascii_of_string
                         (fold_left
                            (fun result i =>
                               (result ++ Random.charAt Random.seedChars
                                  (JS.floor (random i
                                     * inject_Z (Z.of_nat (String.length Random.seedChars)))))%string)
                            idxs acc) in
            length out = (length (list_ascii_of_string acc) + length idxs)%nat
            /\ (Forall (fun c => In c (list_ascii_of_string Random.seedChars))
                  (list_ascii_of_string acc) ->
                Forall (fun c => In c (list_ascii_of_string Random.seedChars)) out)) as H.
  { induction idxs as [| i idxs IH]; intros acc; cbn [fold_left].
    - simpl. split; [lia | done].
    - destruct (Hr i) as [H0 H1].
      destruct (charAt_seedChars (random i) H0 H1) as (c & -> & Hc).
      destruct (IH (acc ++ String c EmptyString)%string) as [Hlen Hall].
      split.
      + rewrite Hlen, list_ascii_app, length_app. simpl. lia.
      + intros Hacc. apply Hall. rewrite list_ascii_app. apply Forall_app.
        split; [done |]. by constructor. }
  destruct (H (seq 0 12) EmptyString) as [Hlen Hall]. split.
  - rewrite Hlen. reflexivity.
  - apply Hall. constructor.
Qed.

Lemma generateSeed_is_alphanumeric_witness :
  let seed := list_ascii_of_string (Random.generateSeed (fun _ => 0.5%Q)) in
  length seed = 12%nat
  /\ Forall (fun c => In c (list_ascii_of_string Random.seedChars)) seed.
Proof.
  apply (generateSeed_is_alphanumeric (fun _ => 0.5%Q)).
  intros i. split; [vm_compute; discriminate | reflexivity].
Defined.

Section Hash.

Lemma ToInt32_shift (z : Z) : exists k, JS.ToInt32 z = z + k * 4294967296.
Proof.
  unfold JS.ToInt32, JS.ToUint32.
  pose proof (Z.div_mod z 4294967296 ltac:(lia)) as H.
  destruct (_ <? _).
  - exists (- (z / 4294967296)). lia.
  - exists (- (z / 4294967296) - 1). lia.
Qed.

Lemma ToInt32_congr (a b k : Z) : a = b + k * 4294967296 -> JS.ToInt32 a = JS.ToInt32 b.
Proof.
  intros ->. unfold JS.ToInt32, JS.ToUint32. by rewrite Z_mod_plus_full.
Qed.

Lemma ToInt32_range (z : Z) : - 2147483648 <= JS.ToInt32 z < 2147483648.
Proof.
  unfold JS.ToInt32, JS.ToUint32.
  pose proof (Z.mod_pos_bound z 4294967296 ltac:(lia)).
  destruct (_ <? _) eqn:E; [apply Z.ltb_lt in E | apply Z.ltb_ge in E]; lia.
Qed.

Lemma ToInt32_small (z : Z) : - 2147483648 <= z < 2147483648 -> JS.ToInt32 z = z.
Proof.
  intros H. unfold JS.ToInt32, JS.ToUint32.
  destruct (Z_lt_dec z 0).
  - replace z with (z + 4294967296 + (-1) * 4294967296) by lia.
    rewrite Z_mod_plus_full, Z.mod_small by lia.
    destruct (_ <? _) eqn:E; [apply Z.ltb_lt in E | apply Z.ltb_ge in E]; lia.
  - rewrite Z.mod_small by lia.
    destruct (_ <? _) eqn:E; [apply Z.ltb_lt in E | apply Z.ltb_ge in E]; lia.
Qed.

(** The polynomial of the character codes in 31, over the integers. *)
Definition hashPolynomial (codes : list Z) : Z :=
  fold_left (fun h c => 31 * h + c) codes 0.

Lemma hashStep (h p c : Z) :
  h = JS.ToInt32 p ->
  JS.band (JS.shl h 5 - h + c) (JS.shl h 5 - h + c) = JS.ToInt32 (31 * p + c).
Proof.
  intros ->. unfold JS.band. rewrite Z.land_diag. unfold JS.shl.
  change (5 mod 32) with 5. rewrite Z.shiftl_mul_pow2 by lia. change (2 ^ 5) with 32.
  rewrite (ToInt32_small (JS.ToInt32 p)) by apply ToInt32_range.
  destruct (ToInt32_shift p) as [k1 Hk1].
  destruct (ToInt32_shift (JS.ToInt32 p * 32)) as [k2 Hk2].
  apply (ToInt32_congr _ _ (k2 + 31 * k1)). lia.
Qed.

Lemma hashString_fold (codes : list Z) : forall h p : Z,
  h = JS.ToInt32 p ->
  fold_left (fun hash char =>
               let hash := JS.shl hash 5 - hash + char in JS.band hash hash) codes h
  = JS.ToInt32 (fold_left (fun h c => 31 * h + c) codes p).
Proof.
  induction codes as [| c codes IH]; intros h p Hh; cbn [fold_left]; [done |].
  apply IH. by apply hashStep.
Qed.

End Hash.

(** X6: [hashString(str)] is the polynomial of the character codes in 31,
    [c0 * 31^(n-1) + ... + c(n-1)], wrapped to a signed 32-bit integer; the
    empty string hashes to 0. *)
Theorem hashString_is_the_wrapped_polynomial (str : string) :
  Random.hashString str = JS.ToInt32 (hashPolynomial (JS.charCodes str))
  /\ - 2147483648 <= Random.hashString str < 2147483648
  /\ Random.hashString EmptyString = 0.
Proof.
  assert (Random.hashString str = JS.ToInt32 (hashPolynomial (JS.charCodes str))) as H.
  { unfold Random.hashString, hashPolynomial. by apply hashString_fold. }
  split; [done |]. split; [| reflexivity]. rewrite H. apply ToInt32_range.
Qed.

(* ================================================================== *)
(** ** src/utils/math.ts                                                *)
(* ================================================================== *)

Section Interpolation.
Open Scope Q_scope.

Lemma clamp_cases (v min max : Q) :
  (max < min /\ MathUtil.clamp v min max == max)
  \/ (min <= max /\ v < min /\ MathUtil.clamp v min max == min)
  \/ (min <= max /\ max < v /\ MathUtil.clamp v min max == max)
  \/ (min <= v /\ v <= max /\ MathUtil.clamp v min max == v).
Proof.
  unfold MathUtil.clamp, JS.min, JS.max.
  destruct (Q.max_spec v min) as [[H1 E1] | [H1 E1]];
    destruct (Q.min_spec (Qmax v min) max) as [[H2 E2] | [H2 E2]];
    set (M := Qmax v min) in *; set (R := Qmin M max) in *; clearbody R M.
  - right. left. repeat split; lra.
  - destruct (Qlt_le_dec max min); [left; split; lra | right; left; repeat split; lra].
  - right. right. right. repeat split; lra.
  - destruct (Qlt_le_dec max min); [left; split; lra |].
    destruct (Qlt_le_dec max v).
    + right. right. left. repeat split; lra.
    + right. right. right. repeat split; lra.
Qed.

Lemma clamp01_mono (a b : Q) :
  a <= b -> MathUtil.clamp a 0 1 <= MathUtil.clamp b 0 1.
Proof.
  intros Hab.
  destruct (clamp_cases a 0 1) as [[H _] | [(_ & H & ->) | [(_ & H & ->) | (H1 & H2 & ->)]]];
    destruct (clamp_cases b 0 1) as [[K _] | [(_ & K & ->) | [(_ & K & ->) | (K1 & K2 & ->)]]];
    lra.
Qed.

End Interpolation.

(** X7: [clamp(value, min, max)] is [value] when it lies between the
    bounds and the nearer bound otherwise; when the bounds are given in the
    wrong order ([max < min]) it is [max] for every value. *)
Theorem clamp_returns_the_nearest_bound (value min max : Q) :
  ((min <= max -> min <= MathUtil.clamp value min max <= max)
   /\ (min <= value <= max -> MathUtil.clamp value min max == value)
   /\ (min <= max -> value < min -> MathUtil.clamp value min max == min)
   /\ (min <= max -> max < value -> MathUtil.clamp value min max == max)
   /\ (max < min -> MathUtil.clamp value min max == max))%Q.
Proof.
  destruct (clamp_cases value min max)
    as [[H E] | [(H1 & H2 & E) | [(H1 & H2 & E) | (H1 & H2 & E)]]];
    rewrite E; repeat split; intros; try lra.
Qed.

(** X8: for [edge0 < edge1], [smootherstep] and [smoothstep] are never
    negative, are 0 for every [x] up to [edge0] and are 1 for every [x]
    from [edge1] on.  (Rounding keeps all three: the clamped ramp is then
    exactly 0 or exactly 1, and both polynomials are products of factors
    that are not negative on [0, 1].) *)
Theorem smooth_steps_are_0_below_and_1_above (edge0 edge1 x : Q) :
  (edge0 < edge1 ->
   (0 <= MathUtil.smootherstep edge0 edge1 x
    /\ (x <= edge0 -> MathUtil.smootherstep edge0 edge1 x == 0)
    /\ (edge1 <= x -> MathUtil.smootherstep edge0 edge1 x == 1))
   /\ (0 <= MathUtil.smoothstep edge0 edge1 x
       /\ (x <= edge0 -> MathUtil.smoothstep edge0 edge1 x == 0)
       /\ (edge1 <= x -> MathUtil.smoothstep edge0 edge1 x == 1)))%Q.
Proof.
  intros He.
  assert (x <= edge0 -> MathUtil.clamp ((x - edge0) / (edge1 - edge0)) 0 1 == 0)%Q as Hlow.
  { intros Hx.
    assert ((x - edge0) / (edge1 - edge0) <= 0)%Q as Hn by (apply Qle_shift_div_r; lra).
    destruct (clamp_cases ((x - edge0) / (edge1 - edge0)) 0 1)
      as [[H E] | [(H1 & H2 & E) | [(H1 & H2 & E) | (H1 & H2 & E)]]]; lra. }
  assert (edge1 <= x -> MathUtil.clamp ((x - edge0) / (edge1 - edge0)) 0 1 == 1)%Q as Hhigh.
  { intros Hx.
    assert (1 <= (x - edge0) / (edge1 - edge0))%Q as Hn by (apply Qle_shift_div_l; lra).
    destruct (clamp_cases ((x - edge0) / (edge1 - edge0)) 0 1)
      as [[H E] | [(H1 & H2 & E) | [(H1 & H2 & E) | (H1 & H2 & E)]]]; lra. }
  destruct (clamp_unit ((x - edge0) / (edge1 - edge0))) as [H0 H1].
  unfold MathUtil.smootherstep, MathUtil.smoothstep. cbv zeta.
  set (t := MathUtil.clamp ((x - edge0) / (edge1 - edge0)) 0 1) in *. clearbody t.
  assert (0 <= t * t)%Q as Hsq by (by apply Qmult_le_0_compat).
  assert (0 <= t * t * t)%Q as Hcube by (by apply Qmult_le_0_compat).
  assert (0 <= t * (15 - t * 6))%Q as Hmid by (apply Qmult_le_0_compat; lra).
  assert (t * (15 - t * 6) <= 9)%Q as Hmid9.
  { assert (0 <= (1 - t) * (9 - t * 6))%Q as H by (apply Qmult_le_0_compat; lra).
    assert ((1 - t) * (9 - t * 6) == 9 - t * (15 - t * 6))%Q as E by ring.
    rewrite E in H. lra. }
  repeat split.
  - apply Qmult_le_0_compat; [done |].
    assert (t * (t * 6 - 15) + 10 == 10 - t * (15 - t * 6))%Q as -> by ring. lra.
  - intros Hx. rewrite (Hlow Hx). ring.
  - intros Hx. rewrite (Hhigh Hx). ring.
  - apply Qmult_le_0_compat; [done | lra].
  - intros Hx. rewrite (Hlow Hx). ring.
  - intros Hx. rewrite (Hhigh Hx). ring.
Qed.

Lemma smooth_steps_are_0_below_and_1_above_witness :
  (0 <= MathUtil.smootherstep 0 1 2 /\ MathUtil.smootherstep 0 1 2 == 1
   /\ 0 <= MathUtil.smoothstep 0 1 2 /\ MathUtil.smoothstep 0 1 2 == 1)%Q.
Proof.
  destruct (smooth_steps_are_0_below_and_1_above 0 1 2) as [(H1 & _ & E1) (H2 & _ & E2)];
    [reflexivity |].
  split; [exact H1 |]. split; [apply E1; vm_compute; discriminate |].
  split; [exact H2 |]. apply E2. vm_compute. discriminate.
Defined.

(** X9: [lerp] and [normalize] keep the order of their argument.
    [lerp(a, b, t)] is [a] at [t = 0] and, as [t] grows, never decreases
    when [a <= b] and never increases when [b <= a]; for [inMin < inMax]
    and [outMin <= outMax], [normalize] never decreases as [value] grows,
    and it sends [inMin] to [outMin].  (Rounding keeps all of it: every
    operation involved is monotone, and the two values are exact.) *)
Theorem lerp_and_normalize_keep_the_order (a b inMin inMax outMin outMax : Q) :
  (MathUtil.lerp a b 0 == a
   /\ (a <= b -> forall t t', t <= t' -> MathUtil.lerp a b t <= MathUtil.lerp a b t')
   /\ (b <= a -> forall t t', t <= t' -> MathUtil.lerp a b t' <= MathUtil.lerp a b t)
   /\ (inMin < inMax -> outMin <= outMax ->
       forall v v', v <= v' ->
         MathUtil.normalize v inMin inMax outMin outMax
         <= MathUtil.normalize v' inMin inMax outMin outMax)
   /\ (inMin < inMax -> MathUtil.normalize inMin inMin inMax outMin outMax == outMin))%Q.
Proof.
  unfold MathUtil.lerp, MathUtil.normalize. repeat split.
  - ring.
  - intros Hab t t' Ht.
    assert (0 <= (b - a) * (t' - t))%Q as H by (apply Qmult_le_0_compat; lra).
    assert ((b - a) * (t' - t) == (b - a) * t' - (b - a) * t)%Q as E by ring.
    rewrite E in H. lra.
  - intros Hba t t' Ht.
    assert (0 <= (a - b) * (t' - t))%Q as H by (apply Qmult_le_0_compat; lra).
    assert ((a - b) * (t' - t) == (b - a) * t - (b - a) * t')%Q as E by ring.
    rewrite E in H. lra.
  - intros Hin Hout v v' Hv.
    assert (0 <= / (inMax - inMin))%Q as Hinv
      by (apply Qlt_le_weak, Qinv_lt_0_compat; lra).
    assert (0 <= (v' - v) * / (inMax - inMin))%Q as H1 by (apply Qmult_le_0_compat; lra).
    assert (0 <= (v' - v) * / (inMax - inMin) * (outMax - outMin))%Q as H2
      by (apply Qmult_le_0_compat; lra).
    assert ((v' - v) * / (inMax - inMin) * (outMax - outMin)
            == (v' - inMin) / (inMax - inMin) * (outMax - outMin)
               - (v - inMin) / (inMax - inMin) * (outMax - outMin))%Q as E
      by (unfold Qdiv; ring).
    rewrite E in H2. lra.
  - intros Hin. unfold Qdiv. ring.
Qed.

(** X10: for a positive width, [indexToCoord] undoes [coordToIndex] on
    the cells with [0 <= x < width] and [0 <= y], and [coordToIndex] undoes
    [indexToCoord] on every index from 0 on. *)
Theorem index_and_coordinates_round_trip (width : Z) :
  0 < width ->
  (forall x y, 0 <= x < width -> 0 <= y ->
     MathUtil.indexToCoord (MathUtil.coordToIndex x y width) width = (x, y))
  /\ (forall index, 0 <= index ->
        let '(x, y) := MathUtil.indexToCoord index width in
        MathUtil.coordToIndex x y width = index /\ 0 <= x < width /\ 0 <= y).
Proof.
  intros Hw. unfold MathUtil.indexToCoord, MathUtil.coordToIndex, JS.rem, JS.floor, JS.num.
  split.
  - intros x y Hx Hy. rewrite <- Zdiv_Qdiv.
    rewrite Z.rem_mod_nonneg by nia.
    rewrite Z.add_comm, Z_mod_plus_full, Z.mod_small by lia.
    rewrite Z.div_add by lia. rewrite Z.div_small by lia. f_equal.
  - intros index Hi. rewrite <- Zdiv_Qdiv. rewrite Z.rem_mod_nonneg by lia.
    pose proof (Z.div_mod index width ltac:(lia)).
    pose proof (Z.mod_pos_bound index width Hw).
    pose proof (Z.div_pos index width Hi Hw). lia.
Qed.

Lemma index_and_coordinates_round_trip_witness :
  MathUtil.indexToCoord (MathUtil.coordToIndex 3 2 5) 5 = (3, 2)
  /\ MathUtil.coordToIndex 3 2 5 = 13.
Proof.
  destruct (index_and_coordinates_round_trip 5) as [H _]; [reflexivity |].
  split; [apply H; lia | reflexivity].
Defined.

Section LocalMinima.
Open Scope Q_scope.

Variables (data : list Q) (width : Z).

(** No cell next to [(x, y)], at the offset [(dx, dy)], is lower. *)
Definition notLower (x y : Z) (d : Z * Z) : bool :=
  ((fst d =? 0)%Z && (snd d =? 0)%Z)
  || negb (JS.ltb (JS.get data (MathUtil.coordToIndex (x + fst d) (y + snd d) width))
                  (JS.get data (MathUtil.coordToIndex x y width))).

Lemma isLocalMinimum_forallb (x y : Z) :
  MathUtil.isLocalMinimum data width x y = forallb (notLower x y) (MathUtil.window 1).
Proof.
  unfold MathUtil.isLocalMinimum.
  assert (forall (ds : list (Z * Z)) (b : bool),
            fold_left
              (fun (isMinimum : bool) '(dx, dy) =>
                 if isMinimum then
                   if (dx =? 0)%Z && (dy =? 0)%Z then true
                   else negb (JS.ltb (JS.get data (MathUtil.coordToIndex (x + dx) (y + dy) width))
                                     (JS.get data (MathUtil.coordToIndex x y width)))
                 else false) ds b
            = b && forallb (notLower x y) ds) as H.
  { induction ds as [| [dx dy] ds IH]; intros b; cbn [fold_left forallb].
    - by rewrite andb_true_r.
    - rewrite IH. unfold notLower at 2. cbn [fst snd].
      destruct b; [| done]. cbn [andb]. by destruct ((dx =? 0)%Z && (dy =? 0)%Z). }
  by rewrite H.
Qed.

Lemma isLocalMinimum_spec (x y : Z) :
  MathUtil.isLocalMinimum data width x y = true
  <-> forall dx dy, (-1 <= dx <= 1)%Z -> (-1 <= dy <= 1)%Z ->
        ~ JS.get data (MathUtil.coordToIndex (x + dx) (y + dy) width)
          < JS.get data (MathUtil.coordToIndex x y width).
Proof.
  rewrite isLocalMinimum_forallb, forallb_forall. split.
  - intros H dx dy Hdx Hdy Hlt.
    assert (In (dx, dy) (MathUtil.window 1)) as Hin by (apply in_cells; lia).
    specialize (H _ Hin). unfold notLower in H. cbn [fst snd] in H.
    apply orb_true_iff in H as [H | H].
    + apply andb_true_iff in H as [Ex Ey].
      apply Z.eqb_eq in Ex, Ey. subst. rewrite !Z.add_0_r in Hlt. lra.
    + apply negb_true_iff, ltb_ge in H. lra.
  - intros H [dx dy] Hin. apply in_cells in Hin as [Hdx Hdy].
    unfold notLower. cbn [fst snd]. apply orb_true_iff. right.
    apply negb_true_iff, ltb_ge.
    specialize (H dx dy ltac:(lia) ltac:(lia)). lra.
Qed.

Lemma in_kept {C} (keep : C -> bool) (cs : list C) (c : C) : forall acc,
  In c (fold_left (fun kept c' => if keep c' then kept ++ [c'] else kept) cs acc)
  <-> In c acc \/ (In c cs /\ keep c = true).
Proof.
  induction cs as [| c' cs IH]; intros acc; cbn [fold_left].
  - simpl. tauto.
  - rewrite IH. destruct (keep c') eqn:E.
    + rewrite in_app_iff. simpl. split.
      * intros [[H | [-> | []]] | [H1 H2]]; tauto.
      * intros [H | [[-> | H1] H2]]; tauto.
    + simpl. split.
      * intros [H | [H1 H2]]; tauto.
      * intros [H | [[-> | H1] H2]]; [tauto | congruence | tauto].
Qed.

End LocalMinima.

(** X11: [findLocalMinima] returns exactly the cells inside the border
    that have no lower cell among their eight neighbours. *)
Theorem findLocalMinima_finds_the_minima (data : list Q) (width height x y : Z) :
  In (x, y) (MathUtil.findLocalMinima data width height)
  <-> (1 <= x < width - 1 /\ 1 <= y < height - 1
       /\ forall dx dy, -1 <= dx <= 1 -> -1 <= dy <= 1 ->
            ~ (JS.get data (MathUtil.coordToIndex (x + dx) (y + dy) width)
               < JS.get data (MathUtil.coordToIndex x y width))%Q).
Proof.
  unfold MathUtil.findLocalMinima.
  assert (forall cs acc,
            fold_left (fun minima '(x, y) =>
                         if MathUtil.isLocalMinimum data width x y
                         then minima ++ [(x, y)] else minima) cs acc
            = fold_left (fun kept c' =>
                           if MathUtil.isLocalMinimum data width (fst c') (snd c')
                           then kept ++ [c'] else kept) cs acc) as E.
  { induction cs as [| [x' y'] cs IH]; intros acc; cbn [fold_left fst snd]; [done |].
    by rewrite IH. }
  rewrite E, (in_kept (fun c' => MathUtil.isLocalMinimum data width (fst c') (snd c'))).
  cbn [fst snd]. rewrite in_cells, isLocalMinimum_spec. simpl. tauto.
Qed.

Section BlurMean.
Context {host : Host} {facts : HostFacts host}.
Open Scope Q_scope.

Variables (radius width height : Z) (data : list Q) (lo hi : Q).
Hypothesis radius_pos : (0 < radius)%Z.
Hypothesis width_pos : (0 < width)%Z.
Hypothesis height_pos : (0 < height)%Z.
Hypothesis data_length : length data = Z.to_nat (width * height).
Hypothesis data_bounds : Forall (fun v => lo <= v /\ v <= hi) data.

Lemma get_within (i : Z) :
  (0 <= i < width * height)%Z -> lo <= JS.get data i /\ JS.get data i <= hi.
Proof.
  intros Hi. unfold JS.get. destruct (i <? 0)%Z eqn:E; [apply Z.ltb_lt in E; lia |].
  rewrite Forall_forall in data_bounds. apply data_bounds.
  apply list_elem_of_In, nth_In. lia.
Qed.

(** The weighted sum stays between [lo] and [hi] times the sum of the weights. *)
Lemma blurStep_mean (x y : Z) (ks : list (Z * Z)) :
  (forall kx ky, In (kx, ky) ks -> In (kx, ky) (MathUtil.window radius)) ->
  forall sum weightSum,
    lo * weightSum <= sum -> sum <= hi * weightSum -> 0 <= weightSum ->
    ks <> [] \/ 0 < weightSum ->
    let r := fold_left (MathUtil.blurStep data (MathUtil.createGaussianKernel radius)
                          width height radius x y) ks (sum, weightSum) in
    lo * snd r <= fst r /\ fst r <= hi * snd r /\ 0 < snd r.
Proof.
  induction ks as [| [kx ky] ks IH]; intros Hks sum weightSum H0 H1 Hw Hor;
    cbn [fold_left].
  - destruct Hor; [done | by repeat split].
  - unfold MathUtil.blurStep at 2.
    set (d := JS.get data _). set (w := JS.get (MathUtil.createGaussianKernel radius) _).
    assert (0 < w) as Hwpos.
    { apply (kernel_weight_pos radius radius_pos kx ky), Hks. by left. }
    assert (lo <= d /\ d <= hi) as [Hd0 Hd1].
    { apply get_within. apply coordToIndex_bound; unfold MathUtil.clampi; lia. }
    assert (0 <= (d - lo) * w) by (apply Qmult_le_0_compat; lra).
    assert (0 <= (hi - d) * w) by (apply Qmult_le_0_compat; lra).
    apply IH.
    + intros kx' ky' Hin. apply Hks. by right.
    + lra.
    + lra.
    + lra.
    + right. lra.
Qed.

(** The value [gaussianBlur] stores at the cell [(x, y)]. *)
Definition blurred (x y : Z) : Q :=
  let r := fold_left (MathUtil.blurStep data (MathUtil.createGaussianKernel radius)
                        width height radius x y) (MathUtil.window radius) (0, 0) in
  fst r / snd r.

Lemma blurred_mean (x y : Z) : lo <= blurred x y /\ blurred x y <= hi.
Proof.
  unfold blurred.
  pose proof (blurStep_mean x y (MathUtil.window radius) (fun _ _ H => H) 0 0) as Hb.
  destruct (fold_left _ _ (0, 0)) as [sum weightSum]. cbn [fst snd] in *.
  destruct Hb as (H0 & H1 & Hpos); [lra | lra | lra | |].
  { left. intros E.
    assert (In (0, 0)%Z (MathUtil.window radius)) as Hin by (apply in_window; lia).
    by rewrite E in Hin. }
  split.
  - apply Qle_shift_div_l; [done |]. lra.
  - apply Qle_shift_div_r; [done |]. lra.
Qed.

Lemma gaussianBlur_fill :
  MathUtil.gaussianBlur data width height radius
  = fold_left (fun a '(x, y) => JS.set a (MathUtil.coordToIndex x y width) (blurred x y))
      (JS.cells 0 width 0 height) (JS.zeros (Z.of_nat (length data))).
Proof.
  unfold MathUtil.gaussianBlur. generalize (JS.zeros (Z.of_nat (length data))).
  induction (JS.cells 0 width 0 height) as [| [x y] cs IH]; intros init; [done |].
  cbn [fold_left]. rewrite <- IH. f_equal.
  unfold MathUtil.blurCell, blurred. by destruct (fold_left _ _ (0, 0)).
Qed.

Lemma gaussianBlur_length :
  length (MathUtil.gaussianBlur data width height radius) = length data.
Proof.
  rewrite gaussianBlur_fill.
  apply (fold_left_invariant (fun a => length a = length data)).
  - intros a [x y] Ha. by rewrite set_length.
  - rewrite zeros_length. apply Nat2Z.id.
Qed.

Lemma gaussianBlur_cell (x y : Z) :
  (0 <= x < width)%Z -> (0 <= y < height)%Z ->
  JS.get (MathUtil.gaussianBlur data width height radius) (MathUtil.coordToIndex x y width)
  = blurred x y.
Proof.
  intros Hx Hy. rewrite gaussianBlur_fill.
  pose proof (coordToIndex_bound width height x y Hx Hy) as Hi.
  unfold JS.get. destruct (_ <? 0)%Z eqn:E; [apply Z.ltb_lt in E; lia |].
  apply (fill_nth (fun x y => MathUtil.coordToIndex x y width) blurred).
  - rewrite zeros_length. lia.
  - intros x' y' Hin%in_cells Heq.
    apply coordToIndex_inj in Heq as [-> ->]; [done | lia | lia].
  - right. exists x, y. split; [by apply in_cells | done].
Qed.

End BlurMean.

(** X12: on a grid filled with values between [lo] and [hi],
    [gaussianBlur] returns a grid of the same length whose every cell is
    again between [lo] and [hi]: each cell is a weighted mean of the data,
    so a flat grid comes back unchanged. *)
Theorem gaussianBlur_is_a_weighted_mean {host : Host} {facts : HostFacts host}
    (data : list Q) (width height radius : Z) (lo hi : Q) :
  0 < radius -> 0 < width -> 0 < height ->
  length data = Z.to_nat (width * height) ->
  Forall (fun v => lo <= v /\ v <= hi)%Q data ->
  length (MathUtil.gaussianBlur data width height radius) = length data
  /\ forall x y, 0 <= x < width -> 0 <= y < height ->
       (lo <= JS.get (MathUtil.gaussianBlur data width height radius)
                (MathUtil.coordToIndex x y width)
        /\ JS.get (MathUtil.gaussianBlur data width height radius)
             (MathUtil.coordToIndex x y width) <= hi)%Q.
Proof.
  intros Hr Hw Hh Hlen Hdata. split.
  - apply gaussianBlur_length.
  - intros x y Hx Hy.
    rewrite (gaussianBlur_cell radius width height data Hw Hh Hlen x y Hx Hy).
    by apply (blurred_mean radius width height data lo hi).
Qed.

Lemma gaussianBlur_is_a_weighted_mean_witness :
  let data := repeat 0.25%Q 4 in
  length (MathUtil.gaussianBlur (host := Sample.host) data 2 2 1) = 4%nat
  /\ forall x y, 0 <= x < 2 -> 0 <= y < 2 ->
       (0.25 <= JS.get (MathUtil.gaussianBlur (host := Sample.host) data 2 2 1)
                  (MathUtil.coordToIndex x y 2)
        /\ JS.get (MathUtil.gaussianBlur (host := Sample.host) data 2 2 1)
             (MathUtil.coordToIndex x y 2) <= 0.25)%Q.
Proof.
  intros data.
  apply (gaussianBlur_is_a_weighted_mean (host := Sample.host) (facts := sample_host_facts)
           data 2 2 1 0.25 0.25).
  - reflexivity.
  - reflexivity.
  - reflexivity.
  - reflexivity.
  - repeat constructor; vm_compute; discriminate.
Defined.

(* ================================================================== *)
(** ** src/generation/climate/biomes.ts                                 *)
(* ================================================================== *)

(** X13: the biome tables agree.  [ID_TO_BIOME] undoes [BIOME_IDS], so
    [getBiomeName] gives every biome's id its own name and [getBiomeColor]
    a colour of its own; an id outside 0..10 is "unknown" and "#000000";
    and the four ids that settlements.ts keeps a copy of are the ids of
    biomes.ts. *)
Theorem biome_tables_agree (b : Types.BiomeType) :
  (if Biomes.BIOME_IDS b <? 0 then None
   else Biomes.ID_TO_BIOME !! Z.to_nat (Biomes.BIOME_IDS b)) = Some b
  /\ Biomes.getBiomeName (Biomes.BIOME_IDS b) = Types.biomeLiteral b
  /\ Biomes.getBiomeColor (Biomes.BIOME_IDS b) <> "#000000"%string
  /\ (forall id, ~ 0 <= id <= 10 ->
        Biomes.getBiomeName id = "unknown"%string
        /\ Biomes.getBiomeColor id = "#000000"%string)
  /\ (Settlements.BIOME_OCEAN = Biomes.BIOME_IDS Types.ocean
      /\ Settlements.BIOME_BEACH = Biomes.BIOME_IDS Types.beach
      /\ Settlements.BIOME_MOUNTAIN = Biomes.BIOME_IDS Types.mountain
      /\ Settlements.BIOME_SNOW = Biomes.BIOME_IDS Types.snow).
Proof.
  split; [by destruct b |]. split; [by destruct b |].
  split; [destruct b; vm_compute; discriminate |]. split.
  - intros id Hid. split.
    + unfold Biomes.getBiomeName. destruct (id <? 0) eqn:E; [done |].
      apply Z.ltb_ge in E. rewrite lookup_ge_None_2; [done |]. simpl. lia.
    + unfold Biomes.getBiomeColor, Biomes.colors. cbn [List.find fst Biomes.BIOME_IDS].
      repeat match goal with
             | |- context [(?k =? id)] => destruct (Z.eqb_spec k id); [lia |]
             end.
      reflexivity.
  - by repeat split.
Qed.

(* ================================================================== *)
(** ** src/generation/hydrology/rivers.ts                               *)
(* ================================================================== *)

Section EscapeSound.
Open Scope Z_scope.

Variables (width height : Z) (heightmap : list Q) (seaLevel startHeight : Q) (x y : Z).

(** A queue entry is a cell of the grid, no more steps from the start
    than its depth. *)
Definition near (e : Z * Z * Z) : Prop :=
  let '(cx, cy, depth) := e in
  0 <= cx < width /\ 0 <= cy < height /\ Z.abs (cx - x) + Z.abs (cy - y) <= depth.

Lemma escapeLoop_sound (fuel : nat) :
  forall (queue : list (Z * Z * Z)) (visited : gset Z) (ex ey : Z),
    Forall near queue ->
    Rivers.escapeLoop fuel width height heightmap seaLevel startHeight queue visited
    = Some (Some (ex, ey)) ->
    0 <= ex < width /\ 0 <= ey < height /\ Z.abs (ex - x) + Z.abs (ey - y) <= 20
    /\ (JS.get heightmap (MathUtil.coordToIndex ex ey width) < startHeight
        \/ JS.get heightmap (MathUtil.coordToIndex ex ey width) < seaLevel)%Q.
Proof.
  induction fuel as [| fuel IH]; intros queue visited ex ey Hq Hres; [done |].
  cbn [Rivers.escapeLoop] in Hres.
  destruct queue as [| [[cx cy] depth] queue]; [done |].
  apply Forall_cons in Hq as [(Hx & Hy & Hd) Hq].
  destruct (20 <? depth) eqn:Edepth; [by eapply IH |].
  apply Z.ltb_ge in Edepth.
  destruct (decide (_ ∈ visited)); [by eapply IH |].
  destruct (_ || _) eqn:Efound.
  - injection Hres as <- <-. repeat split; try lia.
    apply orb_true_iff in Efound as [E | E]; apply ltb_lt in E; [by left | by right].
  - eapply IH; [| exact Hres]. apply Forall_app. split; [done |].
    apply Forall_forall. intros [[nx ny] d] [Hin Hc]%list_elem_of_In%filter_In.
    apply in_map_iff in Hin as ([dx dy] & [= <- <- <-] & Hn).
    assert (Z.abs dx + Z.abs dy = 1) as Hstep.
    { unfold Rivers.neighbors4 in Hn. simpl in Hn.
      destruct Hn as [[= <- <-] | [[= <- <-] | [[= <- <-] | [[= <- <-] | []]]]]; done. }
    simpl. lia.
Qed.

End EscapeSound.

(** X14: from a cell of the grid, the search of [escapeLocalMinimum] ends
    by itself, and a cell it returns is a cell of the grid, at most 20
    steps from the start, that is lower than the start or below sea
    level. *)
Theorem escapeLocalMinimum_returns_lower_ground (x y width height : Z)
    (heightmap : list Q) (seaLevel : Q) :
  0 <= x < width -> 0 <= y < height ->
  Rivers.escapeLoop (Rivers.escapeFuel width height) width height heightmap seaLevel
    (JS.get heightmap (MathUtil.coordToIndex x y width)) [(x, y, 0)] ∅ <> None
  /\ forall ex ey,
       Rivers.escapeLocalMinimum x y width height heightmap seaLevel = Some (ex, ey) ->
       0 <= ex < width /\ 0 <= ey < height /\ Z.abs (ex - x) + Z.abs (ey - y) <= 20
       /\ (JS.get heightmap (MathUtil.coordToIndex ex ey width)
           < JS.get heightmap (MathUtil.coordToIndex x y width)
           \/ JS.get heightmap (MathUtil.coordToIndex ex ey width) < seaLevel)%Q.
Proof.
  intros Hx Hy. split; [by apply escapeLocalMinimum_fuel |].
  intros ex ey Hres. unfold Rivers.escapeLocalMinimum in Hres.
  destruct (Rivers.escapeLoop _ _ _ _ _ _ _ _) as [[[ex' ey'] |] |] eqn:E; try done.
  injection Hres as -> ->. eapply (escapeLoop_sound width height heightmap seaLevel _ x y); [| exact E].
  apply Forall_singleton. simpl. lia.
Qed.

Lemma escapeLocalMinimum_returns_lower_ground_witness :
  Rivers.escapeLoop (Rivers.escapeFuel 13 13) 13 13 Examples.basin 0.15
    (JS.get Examples.basin (MathUtil.coordToIndex 5 5 13)) [(5, 5, 0)] ∅ <> None
  /\ forall ex ey,
       Rivers.escapeLocalMinimum 5 5 13 13 Examples.basin 0.15 = Some (ex, ey) ->
       0 <= ex < 13 /\ 0 <= ey < 13 /\ Z.abs (ex - 5) + Z.abs (ey - 5) <= 20
       /\ (JS.get Examples.basin (MathUtil.coordToIndex ex ey 13)
           < JS.get Examples.basin (MathUtil.coordToIndex 5 5 13)
           \/ JS.get Examples.basin (MathUtil.coordToIndex ex ey 13) < 0.15)%Q.
Proof.
  apply (escapeLocalMinimum_returns_lower_ground 5 5 13 13 Examples.basin 0.15); lia.
Defined.

Section Steepest.
Open Scope Z_scope.

Variables (x y width height : Z) (heightmap : list Q).

Local Abbreviation at_ := (fun cx cy : Z => JS.get heightmap (MathUtil.coordToIndex cx cy width)).

(** The scan of [findSteepestDescent] over the offsets [ds]. *)
Definition scan (ds : list (Z * Z)) (s : Q * Z * Z) : Q * Z * Z :=
  fold_left
    (fun '(lowestHeight, nextX, nextY) '(dx, dy) =>
       let nx := (x + dx)%Z in
       let ny := (y + dy)%Z in
       if (nx <? 0)%Z || (width <=? nx)%Z || (ny <? 0)%Z || (height <=? ny)%Z
       then (lowestHeight, nextX, nextY)
       else
         let neighborHeight := JS.get heightmap (MathUtil.coordToIndex nx ny width) in
         if JS.ltb neighborHeight lowestHeight then (neighborHeight, nx, ny)
         else (lowestHeight, nextX, nextY))
    ds s.

Lemma outside_spec (a b : Z) :
  (a <? 0) || (width <=? a) || (b <? 0) || (height <=? b) = false
  <-> 0 <= a < width /\ 0 <= b < height.
Proof. rewrite !orb_false_iff, !Z.ltb_ge, !Z.leb_gt. lia. Qed.

(** The lowest height so far is the height of the cell chosen so far. *)
Definition chosen (ds : list (Z * Z)) (s : Q * Z * Z) : Prop :=
  let '(lowest, nx, ny) := s in
  lowest = at_ nx ny
  /\ (lowest <= at_ x y)%Q
  /\ ((nx, ny) = (x, y)
      \/ ((lowest < at_ x y)%Q
          /\ exists dx dy, In (dx, dy) ds /\ nx = x + dx /\ ny = y + dy
               /\ 0 <= nx < width /\ 0 <= ny < height)).

Lemma scan_chosen (ds : list (Z * Z)) : forall (seen : list (Z * Z)) (s : Q * Z * Z),
  chosen seen s ->
  (forall dx dy, In (dx, dy) seen ->
     0 <= x + dx < width -> 0 <= y + dy < height ->
     (fst (fst s) <= at_ (x + dx)%Z (y + dy)%Z)%Q) ->
  chosen (seen ++ ds) (scan ds s)
  /\ (forall dx dy, In (dx, dy) (seen ++ ds) ->
        0 <= x + dx < width -> 0 <= y + dy < height ->
        (fst (fst (scan ds s)) <= at_ (x + dx)%Z (y + dy)%Z)%Q).
Proof.
  induction ds as [| [dx dy] ds IH]; intros seen [[lowest nx] ny] Hc Hlow.
  - rewrite app_nil_r. by split.
  - replace (seen ++ (dx, dy) :: ds) with ((seen ++ [(dx, dy)]) ++ ds)
      by (by rewrite <- app_assoc).
    unfold scan. cbn [fold_left]. fold (scan ds).
    destruct Hc as (Hat & Hle & Hor). cbn [fst] in Hlow.
    destruct ((x + dx <? 0) || (width <=? x + dx) || (y + dy <? 0) || (height <=? y + dy))
      eqn:Eout.
    + apply IH.
      * repeat split; try done. destruct Hor as [? | (? & ddx & ddy & Hin & ?)]; [by left |].
        right. split; [done |]. exists ddx, ddy. split; [| done].
        apply in_app_iff. by left.
      * intros ddx ddy [Hin | [[= <- <-] | []]]%in_app_iff Hgx Hgy; [by apply Hlow |].
        assert ((x + dx <? 0) || (width <=? x + dx) || (y + dy <? 0) || (height <=? y + dy)
                = false) as E by (by apply outside_spec).
        congruence.
    + apply outside_spec in Eout as [Hgx0 Hgy0].
      destruct (JS.ltb (at_ (x + dx) (y + dy)) lowest) eqn:Elt.
      * apply ltb_lt in Elt. apply IH.
        -- repeat split; try lra. right. split; [lra |]. exists dx, dy.
           split; [apply in_app_iff; right; by left |]. repeat split; lia.
        -- intros ddx ddy [Hin | [[= <- <-] | []]]%in_app_iff Hgx Hgy; cbn [fst].
           ++ specialize (Hlow ddx ddy Hin Hgx Hgy). lra.
           ++ lra.
      * apply ltb_ge in Elt. apply IH.
        -- repeat split; try done.
           destruct Hor as [? | (? & ddx & ddy & Hin & ?)]; [by left |].
           right. split; [done |]. exists ddx, ddy. split; [| done].
           apply in_app_iff. by left.
        -- intros ddx ddy [Hin | [[= <- <-] | []]]%in_app_iff Hgx Hgy; cbn [fst].
           ++ by apply Hlow.
           ++ done.
Qed.

End Steepest.

(** X15: [findSteepestDescent] never moves uphill.  The cell it returns
    is the cell itself or one of the eight neighbours inside the grid, then
    strictly lower than the cell; no neighbour inside the grid is lower
    than the cell returned; and the cell itself is returned exactly when no
    neighbour inside the grid is lower than it. *)
Theorem findSteepestDescent_goes_to_a_lowest_neighbour (x y width height : Z)
    (heightmap : list Q) (rng : Random.SeededRandom) :
  let at_ := fun cx cy => JS.get heightmap (MathUtil.coordToIndex cx cy width) in
  let '(nextX, nextY) := fst (Rivers.findSteepestDescent x y width height heightmap rng) in
  ((nextX, nextY) = (x, y)
   \/ (Z.abs (nextX - x) <= 1 /\ Z.abs (nextY - y) <= 1
       /\ 0 <= nextX < width /\ 0 <= nextY < height
       /\ (at_ nextX nextY < at_ x y)%Q))
  /\ (forall dx dy, -1 <= dx <= 1 -> -1 <= dy <= 1 ->
        0 <= x + dx < width -> 0 <= y + dy < height ->
        (at_ nextX nextY <= at_ (x + dx)%Z (y + dy)%Z)%Q)
  /\ ((nextX, nextY) = (x, y)
      <-> forall dx dy, -1 <= dx <= 1 -> -1 <= dy <= 1 ->
            0 <= x + dx < width -> 0 <= y + dy < height ->
            (at_ x y <= at_ (x + dx)%Z (y + dy)%Z)%Q).
Proof.
  intros at_. subst at_. cbn beta. unfold Rivers.findSteepestDescent.
  pose proof (shuffle_Permutation Rivers.neighbors8 rng) as Hperm.
  destruct (Random.shuffle Rivers.neighbors8 rng) as [neighbors rng']. cbn [fst] in Hperm.
  pose proof (scan_chosen x y width height heightmap neighbors []
                (JS.get heightmap (MathUtil.coordToIndex x y width), x, y)) as Hscan.
  unfold scan in Hscan.
  destruct (fold_left _ neighbors _) as [[lowest nextX] nextY]. cbn [fst].
  destruct Hscan as [(Hat & Hle & Hor) Hlow].
  { repeat split; [apply Qle_refl | by left]. }
  { intros dx dy []. }
  cbn [fst app] in *.
  assert (forall dx dy, -1 <= dx <= 1 -> -1 <= dy <= 1 ->
            0 <= x + dx < width -> 0 <= y + dy < height ->
            (lowest <= JS.get heightmap (MathUtil.coordToIndex (x + dx) (y + dy) width))%Q)
    as Hall.
  { intros dx dy Hdx Hdy Hgx Hgy.
    destruct (decide (dx = 0 /\ dy = 0)) as [[-> ->] | Hne].
    - by rewrite !Z.add_0_r.
    - apply Hlow; [| done | done].
      apply list_elem_of_In. rewrite Hperm. apply list_elem_of_In.
      unfold Rivers.neighbors8.
      assert (dx = -1 \/ dx = 0 \/ dx = 1) as [-> | [-> | ->]] by lia;
        assert (dy = -1 \/ dy = 0 \/ dy = 1) as [-> | [-> | ->]] by lia;
        simpl; tauto. }
  split; [| split].
  - destruct Hor as [? | (Hlt & dx & dy & Hin & -> & -> & Hgx & Hgy)]; [by left |].
    right. rewrite <- Hat.
    apply list_elem_of_In in Hin. rewrite Hperm in Hin. apply list_elem_of_In in Hin.
    unfold Rivers.neighbors8 in Hin. simpl in Hin.
    repeat destruct Hin as [[= <- <-] | Hin]; try done; repeat split; try lia; done.
  - intros dx dy Hdx Hdy Hgx Hgy. rewrite <- Hat. by apply Hall.
  - split.
    + intros [= -> ->] dx dy Hdx Hdy Hgx Hgy. rewrite <- Hat. by apply Hall.
    + intros Hflat. destruct Hor as [? | (Hlt & dx & dy & Hin & -> & -> & Hgx & Hgy)]; [done |].
      exfalso.
      apply list_elem_of_In in Hin. rewrite Hperm in Hin. apply list_elem_of_In in Hin.
      assert (-1 <= dx <= 1 /\ -1 <= dy <= 1) as [Hdx Hdy].
      { unfold Rivers.neighbors8 in Hin. simpl in Hin.
        repeat destruct Hin as [[= <- <-] | Hin]; try done; lia. }
      specialize (Hflat dx dy Hdx Hdy Hgx Hgy).
      rewrite Hat in Hlt. lra.
Qed.

Section Sorting.
Context {A : Type}.
Variable key : A -> Q.

Local Abbreviation compare := (fun a b : A => (key b - key a)%Q).
Local Abbreviation descending := (fun a b : A => (key b <= key a)%Q).

Lemma insertBy_Permutation (cmp : A -> A -> Q) (e : A) (l : list A) :
  JS.insertBy cmp e l ≡ₚ e :: l.
Proof.
  induction l as [| h t IH]; cbn [JS.insertBy]; [done |].
  destruct (JS.ltb 0 (cmp h e)); [done |]. rewrite IH. apply Permutation_swap.
Qed.

Lemma sortBy_Permutation (cmp : A -> A -> Q) (l : list A) : JS.sortBy cmp l ≡ₚ l.
Proof.
  unfold JS.sortBy.
  assert (forall acc, fold_left (fun acc e => JS.insertBy cmp e acc) l acc ≡ₚ acc ++ l) as H.
  { induction l as [| e l IH]; intros acc; cbn [fold_left].
    - by rewrite app_nil_r.
    - rewrite IH, insertBy_Permutation. simpl. apply Permutation_middle. }
  by rewrite H.
Qed.

Lemma insertBy_sorted (e : A) (l : list A) :
  StronglySorted descending l -> StronglySorted descending (JS.insertBy compare e l).
Proof.
  induction l as [| h t IH]; intros Hs; cbn [JS.insertBy].
  - by repeat constructor.
  - apply StronglySorted_inv in Hs as [Ht Hh].
    destruct (JS.ltb 0 (key e - key h)) eqn:E.
    + apply ltb_lt in E. constructor; [by constructor |].
      constructor; [lra |]. eapply Forall_impl; [exact Hh |]. simpl. intros a Ha. lra.
    + apply ltb_ge in E. constructor; [by apply IH |].
      apply Forall_forall. intros a Ha%(elem_of_Permutation_proper _ _ _ (insertBy_Permutation _ e t)).
      apply elem_of_cons in Ha as [-> | Ha]; [lra |].
      rewrite Forall_forall in Hh. by apply Hh.
Qed.

Lemma sortBy_sorted (l : list A) : StronglySorted descending (JS.sortBy compare l).
Proof.
  unfold JS.sortBy.
  apply (fold_left_invariant (StronglySorted descending)).
  - intros acc e Hacc. by apply insertBy_sorted.
  - constructor.
Qed.

Lemma firstn_In (n : nat) (l : list A) (a : A) : In a (firstn n l) -> In a l.
Proof.
  revert n. induction l as [| h t IH]; intros [| n]; cbn [firstn]; try done.
  intros [-> | H]; [by left | right; by eapply IH].
Qed.

Lemma firstn_sorted (R : A -> A -> Prop) (n : nat) (l : list A) :
  StronglySorted R l -> StronglySorted R (firstn n l).
Proof.
  revert n. induction l as [| h t IH]; intros [| n] Hs; cbn [firstn]; try constructor.
  - apply IH. by apply StronglySorted_inv in Hs as [? _].
  - apply StronglySorted_inv in Hs as [_ Hh].
    apply Forall_forall. intros a Ha%list_elem_of_In%firstn_In%list_elem_of_In.
    rewrite Forall_forall in Hh. by apply Hh.
Qed.

Lemma slice0_sublist (l : list A) (count : Z) (a : A) : In a (JS.slice0 l count) -> In a l.
Proof. unfold JS.slice0. destruct (count <? 0); apply firstn_In. Qed.

Lemma slice0_sorted (R : A -> A -> Prop) (l : list A) (count : Z) :
  StronglySorted R l -> StronglySorted R (JS.slice0 l count).
Proof. unfold JS.slice0. destruct (count <? 0); apply firstn_sorted. Qed.

Lemma slice0_length (l : list A) (count : Z) :
  0 <= count -> Z.of_nat (length (JS.slice0 l count)) <= count.
Proof.
  intros Hc. unfold JS.slice0. destruct (count <? 0) eqn:E; [apply Z.ltb_lt in E; lia |].
  rewrite length_firstn. lia.
Qed.

End Sorting.

Section Strides.

Lemma in_strided (step hi i : Z) : 1 <= step -> In i (JS.strided step hi) -> step <= i < hi.
Proof.
  intros Hs [Hin Hlt]%filter_In. apply Z.ltb_lt in Hlt.
  apply in_map_iff in Hin as (k & <- & _). nia.
Qed.

End Strides.

(** X16: the sources of [findRiverSources] are at most [count], sorted
    by their score from the highest down, lie on the sampled grid at least
    one step from the border, and have an elevation above [seaLevel + 0.3]
    and below 0.9. *)
Theorem river_sources_are_high_and_sorted (width height : Z) (heightmap moisture : list Q)
    (seaLevel : Q) (rng : Random.SeededRandom) (count : Z) :
  let sources :=
    fst (Rivers.findRiverSources width height heightmap moisture seaLevel rng count) in
  let sampleStep := Z.max 4 (JS.floor (JS.num width / 50)) in
  (0 <= count -> Z.of_nat (length sources) <= count)
  /\ StronglySorted (fun a b => (Rivers.score b <= Rivers.score a)%Q) sources
  /\ Forall (fun c =>
               sampleStep <= Rivers.cand_x c < width - sampleStep
               /\ sampleStep <= Rivers.cand_y c < height - sampleStep
               /\ (seaLevel + 0.3
                   < JS.get heightmap
                       (MathUtil.coordToIndex (Rivers.cand_x c) (Rivers.cand_y c) width)
                   /\ JS.get heightmap
                        (MathUtil.coordToIndex (Rivers.cand_x c) (Rivers.cand_y c) width)
                      < 0.9)%Q) sources.
Proof.
  intros sources sampleStep. unfold sources, Rivers.findRiverSources. fold sampleStep.
  set (P := fun c : Rivers.Candidate =>
              sampleStep <= Rivers.cand_x c < width - sampleStep
              /\ sampleStep <= Rivers.cand_y c < height - sampleStep
              /\ (seaLevel + 0.3
                  < JS.get heightmap
                      (MathUtil.coordToIndex (Rivers.cand_x c) (Rivers.cand_y c) width)
                  /\ JS.get heightmap
                       (MathUtil.coordToIndex (Rivers.cand_x c) (Rivers.cand_y c) width)
                     < 0.9)%Q).
  set (cells := flat_map _ _).
  assert (forall x y, In (x, y) cells ->
            sampleStep <= x < width - sampleStep /\ sampleStep <= y < height - sampleStep)
    as Hcells.
  { intros x y Hin. unfold cells in Hin. apply in_flat_map in Hin as (y' & Hy & Hin).
    apply in_map_iff in Hin as (x' & [= -> ->] & Hx).
    apply in_strided in Hx, Hy; unfold sampleStep; lia. }
  assert (forall cs acc r,
            (forall x y, In (x, y) cs -> In (x, y) cells) ->
            Forall P acc ->
            Forall P (fst (fold_left
              (fun '(candidates, rng) '(x, y) =>
                 let idx := MathUtil.coordToIndex x y width in
                 let elevation := JS.get heightmap idx in
                 let moist := JS.get moisture idx in
                 if JS.ltb (seaLevel + 0.3) elevation && JS.ltb elevation 0.9 then
                   let '(u, rng) := Random.next rng in
                   let score := (elevation * 0.5 + moist * 0.5 + u * 0.2)%Q in
                   (candidates ++ [{| Rivers.cand_x := x; Rivers.cand_y := y;
                                      Rivers.score := score |}], rng)
                 else (candidates, rng)) cs (acc, r)))) as Hfold.
  { induction cs as [| [x y] cs IH]; intros acc r Hcs Hacc; cbn [fold_left]; [done |].
    destruct (JS.ltb (seaLevel + 0.3) _ && JS.ltb _ 0.9) eqn:E.
    - destruct (Random.next r) as [u r']. apply IH; [intros; apply Hcs; by right |].
      apply Forall_app. split; [done |]. constructor; [| done].
      apply andb_true_iff in E as [E1%ltb_lt E2%ltb_lt].
      destruct (Hcells x y (Hcs x y (or_introl eq_refl))) as [Hx Hy].
      unfold P. cbn [Rivers.cand_x Rivers.cand_y]. repeat split; try lia; done.
    - apply IH; [intros; apply Hcs; by right | done]. }
  specialize (Hfold cells [] rng (fun _ _ H => H) (Forall_nil_2 _)).
  destruct (fold_left _ cells ([], rng)) as [candidates rng']. cbn [fst] in *.
  split; [| split].
  - apply slice0_length.
  - apply slice0_sorted. apply (sortBy_sorted Rivers.score).
  - apply Forall_forall. intros c Hc%list_elem_of_In%slice0_sublist%list_elem_of_In.
    rewrite sortBy_Permutation in Hc. rewrite Forall_forall in Hfold. by apply Hfold.
Qed.

Section RiverShape.
Import Types.

Variables (width height : Z) (heightmap : list Q) (seaLevel : Q).

(** A segment that lies off the border of the grid. *)
Definition inside (seg : RiverSegment) : Prop :=
  1 <= JS.floor (seg_x seg) < width - 1 /\ 1 <= JS.floor (seg_y seg) < height - 1.

(** A segment on a cell that is not below sea level. *)
Definition onLand (seg : RiverSegment) : Prop :=
  (seaLevel <= JS.get heightmap (Rivers.cellOf width seg))%Q.

(** Segments on land, then at most one more. *)
Definition landThenMouth (segs : list RiverSegment) : Prop :=
  exists upper mouth, segs = upper ++ mouth /\ Forall onLand upper /\ (length mouth <= 1)%nat.

Lemma landThenMouth_nil : landThenMouth [].
Proof. exists [], []. repeat split; [constructor | simpl; lia]. Qed.

Lemma landThenMouth_mouth (seg : RiverSegment) : landThenMouth [seg].
Proof. exists [], [seg]. repeat split; [constructor | simpl; lia]. Qed.

Lemma landThenMouth_cons (seg : RiverSegment) (segs : list RiverSegment) :
  onLand seg -> landThenMouth segs -> landThenMouth (seg :: segs).
Proof.
  intros Hseg (upper & mouth & -> & Hup & Hm).
  exists (seg :: upper), mouth. repeat split; [| done]. by constructor.
Qed.

Lemma traceLoop_shape (usedCells : gset Z) (steps : nat) :
  forall (x y : Q) (lastIdx : Z) (segments : list RiverSegment) (rng : Random.SeededRandom),
  exists more,
    fst (Rivers.traceLoop steps width height heightmap seaLevel usedCells x y lastIdx
           segments rng) = segments ++ more
    /\ (length more <= steps)%nat /\ Forall inside more /\ landThenMouth more.
Proof.
  induction steps as [| steps IH]; intros x y lastIdx segments rng.
  { exists []. rewrite app_nil_r. repeat split; [done | done | apply landThenMouth_nil]. }
  cbn [Rivers.traceLoop].
  destruct ((JS.floor x <? 1) || (width - 1 <=? JS.floor x) || (JS.floor y <? 1)
            || (height - 1 <=? JS.floor y)) eqn:Eborder.
  { exists []. rewrite app_nil_r. repeat split; [simpl; lia | done | apply landThenMouth_nil]. }
  assert (inside {| seg_x := x; seg_y := y; seg_flow := 1 |}) as Hin.
  { unfold inside. cbn [seg_x seg_y].
    rewrite !orb_false_iff, !Z.ltb_ge, !Z.leb_gt in Eborder. lia. }
  destruct (JS.ltb _ seaLevel) eqn:Esea.
  { exists [{| seg_x := x; seg_y := y; seg_flow := 1 |}]. cbn [fst].
    repeat split; [simpl; lia | by constructor | apply landThenMouth_mouth]. }
  assert (onLand {| seg_x := x; seg_y := y; seg_flow := 1 |}) as Hland.
  { unfold onLand, Rivers.cellOf. cbn [seg_x seg_y]. by apply ltb_ge in Esea. }
  destruct (bool_decide _ && negb _).
  { exists []. rewrite app_nil_r. repeat split; [simpl; lia | done | apply landThenMouth_nil]. }
  destruct (Rivers.findSteepestDescent _ _ _ _ _ _) as [[nextX nextY] rng1].
  destruct ((nextX =? JS.floor x) && (nextY =? JS.floor y)).
  - destruct (Rivers.escapeLocalMinimum _ _ _ _ _ _) as [[ex ey] |].
    + destruct (IH (JS.num ex) (JS.num ey) (MathUtil.coordToIndex (JS.floor x) (JS.floor y) width)
                  (segments ++ [{| seg_x := x; seg_y := y; seg_flow := 1 |}]) rng1)
        as (more & -> & Hlen & Hins & Hlm).
      exists ({| seg_x := x; seg_y := y; seg_flow := 1 |} :: more).
      rewrite <- app_assoc. repeat split; [simpl; lia | by constructor |].
      by apply landThenMouth_cons.
    + exists [{| seg_x := x; seg_y := y; seg_flow := 1 |}]. cbn [fst].
      repeat split; [simpl; lia | by constructor | apply landThenMouth_mouth].
  - destruct (Random.next rng1) as [u rng2]. destruct (Random.next rng2) as [v rng3].
    match goal with
    | |- context [Rivers.traceLoop steps _ _ _ _ _ ?x' ?y' ?l ?s ?r] =>
        destruct (IH x' y' l s r) as (more & -> & Hlen & Hins & Hlm)
    end.
    exists ({| seg_x := x; seg_y := y; seg_flow := 1 |} :: more).
    rewrite <- app_assoc. repeat split; [simpl; lia | by constructor |].
    by apply landThenMouth_cons.
Qed.

End RiverShape.

Section RiverList.
Import Types.

Variable o : Rivers.RiverOptions.

(** What [generateRivers] keeps of a traced river. *)
Definition riverOk (river : River) : Prop :=
  Rivers.minRiverLength o <= Z.of_nat (length (segments river))
  /\ (length (segments river) <= Z.to_nat (Rivers.width o + Rivers.height o))%nat
  /\ String.length (river_id river) = 36%nat
  /\ river_name river = ""%string
  /\ Forall (inside (Rivers.width o) (Rivers.height o)) (segments river)
  /\ landThenMouth (Rivers.width o) (Rivers.heightmap o) (Rivers.seaLevel o) (segments river).

Lemma riverLoop_shape (sources : list Rivers.Candidate) :
  forall (rivers : list River) (usedCells : gset Z) (rng : Random.SeededRandom),
    Forall riverOk rivers ->
    Z.of_nat (length rivers) <= Z.max 0 (Rivers.riverCount o) ->
    Forall riverOk (fst (fst (Rivers.riverLoop o sources rivers usedCells rng)))
    /\ Z.of_nat (length (fst (fst (Rivers.riverLoop o sources rivers usedCells rng))))
       <= Z.max 0 (Rivers.riverCount o).
Proof.
  induction sources as [| source sources IH]; intros rivers usedCells rng Hok Hlen;
    cbn [Rivers.riverLoop]; [done |].
  destruct (Rivers.riverCount o <=? Z.of_nat (length rivers)) eqn:Ecount; [done |].
  apply Z.leb_gt in Ecount.
  unfold Rivers.traceRiver.
  destruct (traceLoop_shape (Rivers.width o) (Rivers.height o) (Rivers.heightmap o)
              (Rivers.seaLevel o) usedCells
              (Z.to_nat (Rivers.width o + Rivers.height o))
              (JS.num (Rivers.cand_x source)) (JS.num (Rivers.cand_y source)) (-1) [] rng)
    as (more & Hmore & Hsteps & Hins & Hlm).
  destruct (Rivers.traceLoop _ _ _ _ _ _ _ _ _ _ _) as [segs rng1].
  cbn [fst app] in Hmore. subst segs. cbn [segments].
  destruct (Rivers.minRiverLength o <=? Z.of_nat (length more)) eqn:Emin; [| by apply IH].
  apply Z.leb_le in Emin.
  pose proof (uuid_form rng1) as [Hid _].
  destruct (Random.uuid rng1) as [id rng2]. cbn [fst] in Hid.
  apply IH.
  - apply Forall_app. split; [done |]. constructor; [| done]. by repeat split.
  - rewrite length_app. simpl. lia.
Qed.

Lemma generateRivers_shape :
  Forall (fun river =>
            exists river0, riverOk river0 /\ river = Rivers.calculateRiverFlow river0)
         (Rivers.generateRivers o)
  /\ Z.of_nat (length (Rivers.generateRivers o)) <= Z.max 0 (Rivers.riverCount o).
Proof.
  unfold Rivers.generateRivers.
  destruct (Rivers.findRiverSources _ _ _ _ _ _ _) as [sources rng].
  pose proof (riverLoop_shape sources [] ∅ rng (Forall_nil_2 _)) as [Hok Hlen].
  { simpl. lia. }
  destruct (Rivers.riverLoop _ _ _ _ _) as [[rivers used] rng']. cbn [fst] in *.
  split; [| by rewrite length_map].
  apply Forall_forall. intros river (river0 & <- & Hin)%list_elem_of_In%in_map_iff.
  exists river0. split; [| done].
  rewrite Forall_forall in Hok. by apply Hok, list_elem_of_In.
Qed.

End RiverList.

(** X17: [generateRivers] returns at most [riverCount] rivers, and every
    river it returns has at least [minRiverLength] and at most
    [width + height] segments, a 36-character id and the empty name; its
    segments lie off the border of the grid, and all but the last one are
    on cells that are not below sea level. *)
Theorem rivers_are_well_formed (o : Rivers.RiverOptions) (river : Types.River) :
  In river (Rivers.generateRivers o) ->
  Z.of_nat (length (Rivers.generateRivers o)) <= Z.max 0 (Rivers.riverCount o)
  /\ Rivers.minRiverLength o <= Z.of_nat (length (Types.segments river))
  /\ (length (Types.segments river) <= Z.to_nat (Rivers.width o + Rivers.height o))%nat
  /\ String.length (Types.river_id river) = 36%nat
  /\ Types.river_name river = ""%string
  /\ forall (i : nat) (seg : Types.RiverSegment),
       Types.segments river !! i = Some seg ->
       1 <= JS.floor (Types.seg_x seg) < Rivers.width o - 1
       /\ 1 <= JS.floor (Types.seg_y seg) < Rivers.height o - 1
       /\ ((S i < length (Types.segments river))%nat ->
           (Rivers.seaLevel o
            <= JS.get (Rivers.heightmap o) (Rivers.cellOf (Rivers.width o) seg))%Q).
Proof.
  intros Hin. destruct (generateRivers_shape o) as [Hall Hcount].
  split; [done |].
  rewrite Forall_forall in Hall.
  destruct (Hall river (proj2 (list_elem_of_In _ _) Hin))
    as (river0 & (Hmin & Hmax & Hid & Hname & Hins & Hlm) & ->).
  rewrite calculateRiverFlow_length. repeat split; try done.
  all: unfold Rivers.calculateRiverFlow in H; cbn [Types.segments] in H;
    rewrite list_lookup_imap in H;
    destruct (Types.segments river0 !! i) as [seg0 |] eqn:E; [| done];
    cbn in H; injection H as <-; cbn [Types.seg_x Types.seg_y];
    rewrite Forall_forall in Hins;
    pose proof (Hins seg0 (list_elem_of_lookup_2 _ _ _ E)) as [Hx Hy]; try lia.
  intros Hi. destruct Hlm as (upper & mouth & Hsegs & Hup & Hm).
  rewrite Hsegs in E, Hi. rewrite length_app in Hi.
  rewrite lookup_app_l in E by lia.
  rewrite Forall_forall in Hup. apply (Hup seg0). by eapply list_elem_of_lookup_2.
Qed.

Lemma rivers_are_well_formed_witness :
  let o := Examples.basinRivers in
  let river := nth 0 (Rivers.generateRivers o) (Types.Build_River "" "" []) in
  Z.of_nat (length (Rivers.generateRivers o)) <= Z.max 0 2
  /\ 2 <= Z.of_nat (length (Types.segments river))
  /\ (length (Types.segments river) <= Z.to_nat (13 + 13))%nat
  /\ String.length (Types.river_id river) = 36%nat
  /\ Types.river_name river = ""%string
  /\ forall (i : nat) (seg : Types.RiverSegment),
       Types.segments river !! i = Some seg ->
       1 <= JS.floor (Types.seg_x seg) < 13 - 1
       /\ 1 <= JS.floor (Types.seg_y seg) < 13 - 1
       /\ ((S i < length (Types.segments river))%nat ->
           (0.15 <= JS.get Examples.basin (Rivers.cellOf 13 seg))%Q).
Proof.
  intros o river.
  apply (rivers_are_well_formed Examples.basinRivers river).
  apply (nth_error_In _ 0). vm_compute; reflexivity.
Defined.

Section Carving.
Import Types.
Open Scope Q_scope.

Variables (width : Z) (carveDepth : Q).
Hypothesis carveDepth_nonneg : 0 <= carveDepth.

Lemma carveSegment_frame (heightmap : list Q) (segment : RiverSegment) (i : Z) :
  0 <= seg_flow segment -> 0 <= JS.get heightmap i ->
  0 <= JS.get (Rivers.carveSegment width carveDepth heightmap segment) i
  /\ JS.get (Rivers.carveSegment width carveDepth heightmap segment) i <= JS.get heightmap i
  /\ (Rivers.cellOf width segment <> i ->
      JS.get (Rivers.carveSegment width carveDepth heightmap segment) i = JS.get heightmap i).
Proof.
  intros Hflow Hi. unfold Rivers.carveSegment, Rivers.cellOf.
  destruct (_ && _); [| by repeat split; try lra].
  rewrite get_set. destruct (decide _) as [[<- Hr] | Hne].
  - assert (0 <= carveDepth * seg_flow segment) by (by apply Qmult_le_0_compat).
    repeat split.
    + apply Q.le_max_l.
    + apply Q.max_lub; lra.
    + done.
  - by repeat split; try lra.
Qed.

Lemma carveSegments_frame (segs : list RiverSegment) : forall (heightmap : list Q) (i : Z),
  Forall (fun seg => 0 <= seg_flow seg) segs -> 0 <= JS.get heightmap i ->
  let carved := fold_left (Rivers.carveSegment width carveDepth) segs heightmap in
  0 <= JS.get carved i /\ JS.get carved i <= JS.get heightmap i
  /\ (Forall (fun seg => Rivers.cellOf width seg <> i) segs ->
      JS.get carved i = JS.get heightmap i).
Proof.
  induction segs as [| seg segs IH]; intros heightmap i Hflow Hi; cbn [fold_left].
  - by repeat split; try lra.
  - apply Forall_cons in Hflow as [Hseg Hflow].
    destruct (carveSegment_frame heightmap seg i Hseg Hi) as (H0 & H1 & H2).
    destruct (IH (Rivers.carveSegment width carveDepth heightmap seg) i Hflow H0)
      as (K0 & K1 & K2).
    repeat split; [done | lra |].
    intros [Hne Hrest]%Forall_cons. rewrite K2 by done. by apply H2.
Qed.

Lemma carveRivers_flat (rivers : list River) : forall heightmap : list Q,
  Rivers.carveRiversIntoHeightmap heightmap rivers width carveDepth
  = fold_left (Rivers.carveSegment width carveDepth) (concat (map segments rivers)) heightmap.
Proof.
  unfold Rivers.carveRiversIntoHeightmap.
  induction rivers as [| river rivers IH]; intros heightmap; cbn [fold_left map concat];
    [done |].
  by rewrite fold_left_app, IH.
Qed.

Lemma carveSegment_length (heightmap : list Q) (segment : RiverSegment) :
  length (Rivers.carveSegment width carveDepth heightmap segment) = length heightmap.
Proof.
  unfold Rivers.carveSegment. destruct (_ && _); [| done]. by rewrite set_length.
Qed.

End Carving.

(** X18: with a carve depth and flows that are not negative, on a
    heightmap without negative values, [carveRiversIntoHeightmap] keeps the
    length, raises no cell, leaves no cell below 0, and changes no cell that
    no river segment lies on. *)
Theorem carving_only_lowers_river_cells (heightmap : list Q) (rivers : list Types.River)
    (width : Z) (carveDepth : Q) :
  (0 <= carveDepth)%Q ->
  Forall (fun v => 0 <= v)%Q heightmap ->
  (forall river seg, In river rivers -> In seg (Types.segments river) ->
     (0 <= Types.seg_flow seg)%Q) ->
  let carved := Rivers.carveRiversIntoHeightmap heightmap rivers width carveDepth in
  length carved = length heightmap
  /\ forall i,
       (0 <= JS.get carved i /\ JS.get carved i <= JS.get heightmap i)%Q
       /\ ((forall river seg, In river rivers -> In seg (Types.segments river) ->
              Rivers.cellOf width seg <> i) ->
           JS.get carved i = JS.get heightmap i).
Proof.
  intros Hd Hh Hflow carved. unfold carved. rewrite carveRivers_flat. split.
  - apply (fold_left_invariant (fun a => length a = length heightmap)); [| done].
    intros a seg Ha. by rewrite carveSegment_length.
  - intros i.
    assert (Forall (fun seg => 0 <= Types.seg_flow seg)%Q
              (concat (map Types.segments rivers))) as Hall.
    { apply Forall_forall. intros seg Hin%list_elem_of_In%in_concat.
      destruct Hin as (segs & Hsegs & Hin). apply in_map_iff in Hsegs as (river & <- & Hr).
      by eapply Hflow. }
    destruct (carveSegments_frame width carveDepth Hd _ heightmap i Hall) as (H0 & H1 & H2).
    { apply get_Forall; [apply Qle_refl | done]. }
    repeat split; [done | done |].
    intros Hoff. apply H2. apply Forall_forall.
    intros seg Hin%list_elem_of_In%in_concat.
    destruct Hin as (segs & Hsegs & Hin). apply in_map_iff in Hsegs as (river & <- & Hr).
    by eapply Hoff.
Qed.

Lemma carving_only_lowers_river_cells_witness :
  let heightmap := repeat 0.5%Q 16 in
  let rivers :=
    [Types.Build_River "" "" [Types.Build_RiverSegment 1.5 2.25 0.5]] in
  let carved := Rivers.carveRiversIntoHeightmap heightmap rivers 4 0.02 in
  length carved = 16%nat
  /\ forall i,
       (0 <= JS.get carved i /\ JS.get carved i <= JS.get heightmap i)%Q
       /\ ((forall river seg, In river rivers -> In seg (Types.segments river) ->
              Rivers.cellOf 4 seg <> i) ->
           JS.get carved i = JS.get heightmap i).
Proof.
  intros heightmap rivers carved.
  apply (carving_only_lowers_river_cells heightmap rivers 4 0.02).
  - vm_compute. discriminate.
  - repeat constructor; vm_compute; discriminate.
  - intros river seg [<- | []] [<- | []]. vm_compute. discriminate.
Defined.

(* ================================================================== *)
(** ** src/generation/civilization/settlements.ts                       *)
(* ================================================================== *)

Section Suitability.
Context {host : Host}.
Import Types.
Open Scope Q_scope.

Variables (width height : Z) (heightmap moisture : list Q) (biomes : list Z)
          (rivers : list River) (seaLevel : Q).

(** The score that the last loops of [calculateSuitability] store at [(x, y)]. *)
Definition suitabilityAt (x y : Z) : Q :=
  let riverProximity := Settlements.riverProximityMap width height rivers in
  let coastProximity := Settlements.coastProximityMap width height biomes in
  let idx := MathUtil.coordToIndex x y width in
  let biome := JS.getb biomes idx in
  if (biome =? Settlements.BIOME_OCEAN)%Z || (biome =? Settlements.BIOME_MOUNTAIN)%Z
     || (biome =? Settlements.BIOME_SNOW)%Z
  then 0
  else
    let elevation := JS.get heightmap idx in
    let moist := JS.get moisture idx in
    let score := 0.5 in
    let elevationScore := 1 - JS.abs (elevation - 0.4) * 2 in
    let score := score + elevationScore * 0.2 in
    let score := score + JS.get riverProximity idx * 0.3 in
    let score := score + JS.get coastProximity idx * 0.25 in
    let score := score + moist * 0.1 in
    let score := if (biome =? Settlements.BIOME_BEACH)%Z then score + 0.15 else score in
    JS.max 0 (JS.min 1 score).

Lemma calculateSuitability_fill :
  Settlements.calculateSuitability width height heightmap moisture biomes rivers seaLevel
  = fold_left (fun a '(x, y) => JS.set a (MathUtil.coordToIndex x y width) (suitabilityAt x y))
      (JS.cells 0 width 0 height) (JS.zeros (width * height)).
Proof.
  unfold Settlements.calculateSuitability. generalize (JS.zeros (width * height)).
  induction (JS.cells 0 width 0 height) as [| [x y] cs IH]; intros init; [done |].
  cbn [fold_left]. rewrite <- IH. f_equal. unfold suitabilityAt.
  by destruct (_ || _).
Qed.

Lemma suitabilityAt_unit (x y : Z) : 0 <= suitabilityAt x y /\ suitabilityAt x y <= 1.
Proof.
  unfold suitabilityAt. destruct (_ || _); [split; lra |]. split.
  - apply Q.le_max_l.
  - apply Q.max_lub; [lra | apply Q.le_min_l].
Qed.

Lemma calculateSuitability_cell (x y : Z) :
  (0 <= x < width)%Z -> (0 <= y < height)%Z ->
  JS.get (Settlements.calculateSuitability width height heightmap moisture biomes rivers seaLevel)
    (MathUtil.coordToIndex x y width) = suitabilityAt x y.
Proof.
  intros Hx Hy. rewrite calculateSuitability_fill.
  pose proof (coordToIndex_bound width height x y Hx Hy) as Hi.
  unfold JS.get. destruct (_ <? 0)%Z eqn:E; [apply Z.ltb_lt in E; lia |].
  apply (fill_nth (fun x y => MathUtil.coordToIndex x y width) suitabilityAt).
  - rewrite zeros_length. lia.
  - intros x' y' Hin%in_cells Heq.
    apply coordToIndex_inj in Heq as [-> ->]; [done | lia | lia].
  - right. exists x, y. split; [by apply in_cells | done].
Qed.

Lemma calculateSuitability_length :
  length (Settlements.calculateSuitability width height heightmap moisture biomes rivers seaLevel)
  = Z.to_nat (width * height).
Proof.
  rewrite calculateSuitability_fill.
  apply (fold_left_invariant (fun a => length a = Z.to_nat (width * height))).
  - intros a [x y] Ha. by rewrite set_length.
  - apply zeros_length.
Qed.

End Suitability.

(** X19: [calculateSuitability] returns one score for every cell of the
    grid; the score of a cell is between 0 and 1, and it is 0 on ocean,
    mountain and snow. *)
Theorem suitability_is_zero_on_unsuitable_biomes {host : Host} (width height : Z)
    (heightmap moisture : list Q) (biomes : list Z) (rivers : list Types.River)
    (seaLevel : Q) (x y : Z) :
  0 <= x < width -> 0 <= y < height ->
  let suitability :=
    Settlements.calculateSuitability width height heightmap moisture biomes rivers seaLevel in
  let biome := JS.getb biomes (MathUtil.coordToIndex x y width) in
  length suitability = Z.to_nat (width * height)
  /\ (0 <= JS.get suitability (MathUtil.coordToIndex x y width) <= 1)%Q
  /\ (biome = Biomes.BIOME_IDS Types.ocean \/ biome = Biomes.BIOME_IDS Types.mountain
      \/ biome = Biomes.BIOME_IDS Types.snow ->
      JS.get suitability (MathUtil.coordToIndex x y width) = 0%Q).
Proof.
  intros Hx Hy suitability biome. unfold suitability.
  rewrite calculateSuitability_cell by done.
  split; [apply calculateSuitability_length |]. split; [apply suitabilityAt_unit |].
  intros Hb. unfold suitabilityAt. fold biome.
  destruct Hb as [-> | [-> | ->]]; reflexivity.
Qed.

Lemma suitability_is_zero_on_unsuitable_biomes_witness :
  let o := Examples.openSea in
  let suitability :=
    Settlements.calculateSuitability (host := Sample.host) 8 8 (Settlements.heightmap o)
      (Settlements.moisture o) (Settlements.biomes o) [] 0.35 in
  length suitability = 64%nat
  /\ (0 <= JS.get suitability (MathUtil.coordToIndex 3 4 8) <= 1)%Q
  /\ (JS.getb (Settlements.biomes o) (MathUtil.coordToIndex 3 4 8) = 0
      \/ JS.getb (Settlements.biomes o) (MathUtil.coordToIndex 3 4 8) = 8
      \/ JS.getb (Settlements.biomes o) (MathUtil.coordToIndex 3 4 8) = 7 ->
      JS.get suitability (MathUtil.coordToIndex 3 4 8) = 0%Q).
Proof.
  intros o suitability.
  apply (suitability_is_zero_on_unsuitable_biomes (host := Sample.host) 8 8
           (Settlements.heightmap o) (Settlements.moisture o) (Settlements.biomes o)
           [] 0.35 3 4); lia.
Defined.

Section Placement.
Context {host : Host}.
Import Types.

Variables (width height : Z) (suitability : list Q) (minDistance : Q).

Local Abbreviation step := (Z.max 2 (JS.floor (JS.num width / 100))).

(** A place where a settlement may go, given the places taken. *)
Definition placeable (placedPositions : list (Z * Z)) (p : Z * Z) : Prop :=
  let '(x, y) := p in
  step <= x < width - step /\ step <= y < height - step
  /\ (0.3 <= JS.get suitability (MathUtil.coordToIndex x y width))%Q
  /\ Forall (fun '(px, py) =>
               ~ (MathUtil.distance (JS.num x) (JS.num y) (JS.num px) (JS.num py)
                  < minDistance)%Q) placedPositions.

Lemma pickWeighted_In (candidates : list Settlements.Weighted) : forall (random : Q) (p : Z * Z),
  Settlements.pickWeighted candidates random = Some p ->
  exists c, In c candidates /\ p = (Settlements.wx c, Settlements.wy c).
Proof.
  induction candidates as [| c candidates IH]; intros random p H; cbn in H; [done |].
  destruct (JS.leb _ 0).
  - injection H as <-. exists c. split; [by left | done].
  - destruct (IH _ _ H) as (c' & Hin & ->). exists c'. split; [by right | done].
Qed.

Lemma last_In {A} (l : list A) (a : A) : last l = Some a -> In a l.
Proof.
  intros H. apply list_elem_of_In. rewrite last_lookup in H. by eapply list_elem_of_lookup_2.
Qed.

Lemma findSettlementLocation_placeable (placedPositions : list (Z * Z))
    (rng : Random.SeededRandom) (p : Z * Z) :
  fst (Settlements.findSettlementLocation width height suitability placedPositions
         minDistance rng) = Some p ->
  placeable placedPositions p.
Proof.
  unfold Settlements.findSettlementLocation.
  set (cells := flat_map _ _).
  assert (forall x y, In (x, y) cells -> step <= x < width - step /\ step <= y < height - step)
    as Hcells.
  { intros x y Hin. unfold cells in Hin. apply in_flat_map in Hin as (y' & Hy & Hin).
    apply in_map_iff in Hin as (x' & [= -> ->] & Hx).
    apply in_strided in Hx, Hy; lia. }
  set (P := fun c : Settlements.Weighted =>
              placeable placedPositions (Settlements.wx c, Settlements.wy c)).
  assert (forall cs acc,
            (forall x y, In (x, y) cs -> In (x, y) cells) -> Forall P acc ->
            Forall P (fold_left
              (fun candidates '(x, y) =>
                 let idx := MathUtil.coordToIndex x y width in
                 let score := JS.get suitability idx in
                 if JS.ltb score 0.3 then candidates
                 else
                   let tooClose :=
                     existsb (fun '(px, py) =>
                                JS.ltb (MathUtil.distance (JS.num x) (JS.num y)
                                          (JS.num px) (JS.num py)) minDistance)
                             placedPositions in
                   if tooClose then candidates
                   else candidates ++ [{| Settlements.wx := x; Settlements.wy := y;
                                          Settlements.weight := (score * score)%Q |}])
              cs acc)) as Hfold.
  { induction cs as [| [x y] cs IH]; intros acc Hcs Hacc; cbn [fold_left]; [done |].
    destruct (JS.ltb _ 0.3) eqn:Escore; [apply IH; [intros; apply Hcs; by right | done] |].
    destruct (existsb _ placedPositions) eqn:Eclose;
      [apply IH; [intros; apply Hcs; by right | done] |].
    apply IH; [intros; apply Hcs; by right |].
    apply Forall_app. split; [done |]. constructor; [| done].
    unfold P, placeable. cbn [Settlements.wx Settlements.wy].
    destruct (Hcells x y (Hcs x y (or_introl eq_refl))) as [Hx Hy].
    split; [done |]. split; [done |]. split; [by apply ltb_ge in Escore |].
    apply Forall_forall. intros [px py] Hin%list_elem_of_In Hlt.
    assert (existsb (fun '(px, py) =>
                       JS.ltb (MathUtil.distance (JS.num x) (JS.num y) (JS.num px) (JS.num py))
                              minDistance) placedPositions = true) as Hex; [| congruence].
    apply existsb_exists. exists (px, py). split; [done |]. by apply ltb_lt. }
  specialize (Hfold cells [] (fun _ _ H => H) (Forall_nil_2 _)).
  destruct (fold_left _ cells []) as [| c0 candidates] eqn:Ecand; [done |].
  destruct (Random.next rng) as [u rng']. rewrite Forall_forall in Hfold.
  destruct (Settlements.pickWeighted _ _) as [q |] eqn:Epick; cbn [fst].
  - intros [= <-]. apply pickWeighted_In in Epick as (c & Hin & ->).
    by apply (Hfold c), list_elem_of_In.
  - destruct (last (c0 :: candidates)) as [c |] eqn:Elast; cbn; [| done].
    intros [= <-]. apply last_In in Elast. by apply (Hfold c), list_elem_of_In.
Qed.

End Placement.

Section PlaceLoop.
Context {host : Host}.
Import Types.

Variable o : Settlements.SettlementOptions.

Local Abbreviation width := (Settlements.width o).
Local Abbreviation height := (Settlements.height o).
Local Abbreviation suitability :=
  (Settlements.calculateSuitability width height (Settlements.heightmap o)
     (Settlements.moisture o) (Settlements.biomes o) (Settlements.rivers o)
     (Settlements.seaLevel o)).

Variable minDistance : Q.

(** Where a settlement stands. *)
Definition site (s : Settlement) : Z * Z := (settlement_x s, settlement_y s).

(** The population fits the size, the id is a uuid, the name is still empty. *)
Definition recordOk (s : Settlement) : Prop :=
  fst (SETTLEMENT_POPULATIONS (size s)) <= population s <= snd (SETTLEMENT_POPULATIONS (size s))
  /\ String.length (settlement_id s) = 36%nat
  /\ settlement_name s = ""%string.

(** Every settlement could be placed, given the ones placed before it. *)
Definition inOrder (settlements : list Settlement) : Prop :=
  forall (n : nat) (s : Settlement),
    settlements !! n = Some s ->
    placeable width height suitability minDistance (map site (take n settlements)) (site s).

Lemma generatePopulation_range (size : SettlementSize) (rng : Random.SeededRandom) :
  fst (SETTLEMENT_POPULATIONS size) <= fst (Settlements.generatePopulation size rng)
  <= snd (SETTLEMENT_POPULATIONS size).
Proof.
  unfold Settlements.generatePopulation.
  destruct (SETTLEMENT_POPULATIONS size) as [min max] eqn:E. cbn [fst snd].
  apply int_bounds. destruct size; injection E as <- <-; lia.
Qed.

Lemma placeLoop_inv (attempts : nat) :
  forall (settlements : list Settlement) (placed : list (Z * Z)) (rng : Random.SeededRandom),
    placed = map site settlements -> inOrder settlements -> Forall recordOk settlements ->
    inOrder (Settlements.placeLoop attempts o suitability minDistance settlements placed rng)
    /\ Forall recordOk
         (Settlements.placeLoop attempts o suitability minDistance settlements placed rng).
Proof.
  induction attempts as [| attempts IH]; intros settlements placed rng Hplaced Hord Hrec;
    cbn [Settlements.placeLoop]; [done |].
  destruct (Settlements.settlementCount o <=? Z.of_nat (length settlements)); [done |].
  pose proof (findSettlementLocation_placeable width height suitability minDistance placed rng)
    as Hfind.
  destruct (Settlements.findSettlementLocation _ _ _ _ _ _) as [[[lx ly] |] rng1];
    [| by apply IH].
  specialize (Hfind (lx, ly) eq_refl).
  destruct (Settlements.determineSettlementSize _ _ _ _ _ _ _ _) as [size rng2].
  pose proof (uuid_form rng2) as [Hid _].
  destruct (Random.uuid rng2) as [id rng3]. cbn [fst] in Hid.
  pose proof (generatePopulation_range size rng3) as Hpop.
  destruct (Settlements.generatePopulation size rng3) as [population rng4]. cbn [fst] in Hpop.
  apply IH.
  - rewrite map_app. by rewrite Hplaced.
  - intros n s Hs. destruct (decide (n < length settlements)%nat) as [Hn | Hn].
    + rewrite lookup_app_l in Hs by done. rewrite take_app_le by lia. by apply Hord.
    + apply lookup_lt_Some in Hs as Hlt. rewrite length_app in Hlt. cbn [length] in Hlt.
      assert (n = length settlements) as -> by lia.
      rewrite list_lookup_middle in Hs by done. injection Hs as <-.
      rewrite take_app_length. unfold site at 2. cbn [settlement_x settlement_y].
      by rewrite <- Hplaced.
  - apply Forall_app. split; [done |]. constructor; [| done].
    unfold recordOk. cbn [Types.size Types.population settlement_id settlement_name].
    split; [exact Hpop | by split].
Qed.

End PlaceLoop.

Section SettlementList.
Context {host : Host}.
Import Types.

Variable o : Settlements.SettlementOptions.

Local Abbreviation minDistance :=
  (Math_sqrt (JS.num (Settlements.width o * Settlements.height o)
              / JS.num (Settlements.settlementCount o)) * 0.5)%Q.

(** The settlements in the order they were placed. *)
Definition placedSettlements : list Settlement :=
  Settlements.placeLoop (Z.to_nat (Settlements.settlementCount o * 10)) o
    (Settlements.calculateSuitability (Settlements.width o) (Settlements.height o)
       (Settlements.heightmap o) (Settlements.moisture o) (Settlements.biomes o)
       (Settlements.rivers o) (Settlements.seaLevel o))
    minDistance [] [] (Random.new (Settlements.seed o ++ "_settlements")).

Lemma generateSettlements_sorted :
  Settlements.generateSettlements o
  = JS.sortBy (fun a b => (JS.num (population b) - JS.num (population a))%Q) placedSettlements.
Proof. reflexivity. Qed.

Lemma placedSettlements_inv :
  inOrder o minDistance placedSettlements /\ Forall recordOk placedSettlements.
Proof.
  unfold placedSettlements.
  apply (placeLoop_inv o minDistance (Z.to_nat (Settlements.settlementCount o * 10)) [] []
           (Random.new (Settlements.seed o ++ "_settlements")) eq_refl);
    [| constructor].
  intros n s Hs. by rewrite lookup_nil in Hs.
Qed.

Lemma generateSettlements_Permutation : Settlements.generateSettlements o ≡ₚ placedSettlements.
Proof. rewrite generateSettlements_sorted. apply sortBy_Permutation. Qed.

End SettlementList.

(** X20: on well-formed options, every settlement that
    [generateSettlements] returns stands on a sampled cell at least one
    step from the border, whose suitability is at least 0.3 and whose biome
    is not ocean, mountain or snow; and of any two settlements, the one
    placed later is not nearer than [minDistance] to the other. *)
Theorem settlements_stand_apart_on_suitable_land {host : Host}
    (o : Settlements.SettlementOptions) :
  let cells := Z.to_nat (Settlements.width o * Settlements.height o) in
  length (Settlements.heightmap o) = cells ->
  length (Settlements.moisture o) = cells ->
  length (Settlements.biomes o) = cells ->
  let settlements := Settlements.generateSettlements o in
  let suitability :=
    Settlements.calculateSuitability (Settlements.width o) (Settlements.height o)
      (Settlements.heightmap o) (Settlements.moisture o) (Settlements.biomes o)
      (Settlements.rivers o) (Settlements.seaLevel o) in
  let step := Z.max 2 (JS.floor (JS.num (Settlements.width o) / 100)) in
  let minDistance :=
    (Math_sqrt (JS.num (Settlements.width o * Settlements.height o)
                / JS.num (Settlements.settlementCount o)) * 0.5)%Q in
  let between := fun a b : Types.Settlement =>
    MathUtil.distance (JS.num (Types.settlement_x a)) (JS.num (Types.settlement_y a))
      (JS.num (Types.settlement_x b)) (JS.num (Types.settlement_y b)) in
  Forall (fun s =>
            let idx := MathUtil.coordToIndex (Types.settlement_x s) (Types.settlement_y s)
                         (Settlements.width o) in
            step <= Types.settlement_x s < Settlements.width o - step
            /\ step <= Types.settlement_y s < Settlements.height o - step
            /\ (0.3 <= JS.get suitability idx)%Q
            /\ JS.getb (Settlements.biomes o) idx <> Biomes.BIOME_IDS Types.ocean
            /\ JS.getb (Settlements.biomes o) idx <> Biomes.BIOME_IDS Types.mountain
            /\ JS.getb (Settlements.biomes o) idx <> Biomes.BIOME_IDS Types.snow)
         settlements
  /\ forall (i j : nat) (a b : Types.Settlement),
       i <> j -> settlements !! i = Some a -> settlements !! j = Some b ->
       ~ (between a b < minDistance)%Q \/ ~ (between b a < minDistance)%Q.
Proof.
  intros cells _ _ _ settlements suitability step minDistance between.
  destruct (placedSettlements_inv o) as [Hord _].
  pose proof (generateSettlements_Permutation o) as Hperm. fold settlements in Hperm.
  split.
  - apply Forall_forall. intros s Hs. rewrite Hperm in Hs.
    apply list_elem_of_lookup_1 in Hs as [n Hn].
    destruct (Hord n s Hn) as (Hx & Hy & Hsuit & _). fold step in Hx, Hy.
    fold suitability in Hsuit. cbn zeta. repeat split; try lia; try done.
    all: intros Hb;
      unfold suitability in Hsuit;
      rewrite calculateSuitability_cell in Hsuit by (unfold step in *; lia);
      unfold suitabilityAt in Hsuit; rewrite Hb in Hsuit; cbn in Hsuit;
      revert Hsuit; vm_compute; intros Hsuit; by apply Hsuit.
  - intros i j a b Hij Ha Hb.
    apply Permutation_inj in Hperm as [_ (f & Hinj & Hf)].
    rewrite Hf in Ha, Hb.
    assert (f i <> f j) as Hne by (intros E; by apply Hij, Hinj).
    destruct (decide (f i < f j)%nat) as [Hlt | Hge].
    + right. destruct (Hord (f j) b Hb) as (_ & _ & _ & Hfar).
      rewrite Forall_forall in Hfar.
      assert (site a ∈ map site (take (f j) (placedSettlements o))) as Hin.
      { apply list_elem_of_fmap. exists a. split; [done |].
        apply elem_of_take. by exists (f i). }
      apply (Hfar (site a) Hin).
    + left. destruct (Hord (f i) a Ha) as (_ & _ & _ & Hfar).
      rewrite Forall_forall in Hfar.
      assert (site b ∈ map site (take (f i) (placedSettlements o))) as Hin.
      { apply list_elem_of_fmap. exists b. split; [done |].
        apply elem_of_take. exists (f j). split; [done | lia]. }
      apply (Hfar (site b) Hin).
Qed.

Lemma settlements_stand_apart_on_suitable_land_witness :
  let o := Examples.meadow in
  let settlements := Settlements.generateSettlements (host := Sample.host) o in
  let suitability :=
    Settlements.calculateSuitability (host := Sample.host)
      (Settlements.width o) (Settlements.height o)
      (Settlements.heightmap o) (Settlements.moisture o) (Settlements.biomes o)
      (Settlements.rivers o) (Settlements.seaLevel o) in
  let step := Z.max 2 (JS.floor (JS.num (Settlements.width o) / 100)) in
  let minDistance :=
    (@Math_sqrt Sample.host (JS.num (Settlements.width o * Settlements.height o)
                             / JS.num (Settlements.settlementCount o)) * 0.5)%Q in
  let between := fun a b : Types.Settlement =>
    MathUtil.distance (host := Sample.host)
      (JS.num (Types.settlement_x a)) (JS.num (Types.settlement_y a))
      (JS.num (Types.settlement_x b)) (JS.num (Types.settlement_y b)) in
  Forall (fun s =>
            let idx := MathUtil.coordToIndex (Types.settlement_x s) (Types.settlement_y s)
                         (Settlements.width o) in
            step <= Types.settlement_x s < Settlements.width o - step
            /\ step <= Types.settlement_y s < Settlements.height o - step
            /\ (0.3 <= JS.get suitability idx)%Q
            /\ JS.getb (Settlements.biomes o) idx <> Biomes.BIOME_IDS Types.ocean
            /\ JS.getb (Settlements.biomes o) idx <> Biomes.BIOME_IDS Types.mountain
            /\ JS.getb (Settlements.biomes o) idx <> Biomes.BIOME_IDS Types.snow)
         settlements
  /\ forall (i j : nat) (a b : Types.Settlement),
       i <> j -> settlements !! i = Some a -> settlements !! j = Some b ->
       ~ (between a b < minDistance)%Q \/ ~ (between b a < minDistance)%Q.
Proof.
  intros o.
  apply (settlements_stand_apart_on_suitable_land (host := Sample.host) Examples.meadow);
    reflexivity.
Defined.

Lemma StronglySorted_impl {A} (R1 R2 : A -> A -> Prop) (l : list A) :
  (forall a b, R1 a b -> R2 a b) -> StronglySorted R1 l -> StronglySorted R2 l.
Proof.
  intros HR Hs. induction Hs as [| a l Hs IH Ha]; constructor; [done |].
  eapply Forall_impl; [exact Ha |]. apply HR.
Qed.

(** X21: [generateSettlements] returns the settlements sorted by
    population, the largest first; each population lies in the range that
    [SETTLEMENT_POPULATIONS] gives for the settlement's size, each id has
    36 characters, and each name is still empty. *)
Theorem settlements_are_sorted_by_population {host : Host}
    (o : Settlements.SettlementOptions) :
  let settlements := Settlements.generateSettlements o in
  StronglySorted (fun a b => Types.population b <= Types.population a) settlements
  /\ Forall (fun s =>
               fst (Types.SETTLEMENT_POPULATIONS (Types.size s)) <= Types.population s
               <= snd (Types.SETTLEMENT_POPULATIONS (Types.size s))
               /\ String.length (Types.settlement_id s) = 36%nat
               /\ Types.settlement_name s = ""%string) settlements.
Proof.
  intros settlements. split.
  - unfold settlements. rewrite generateSettlements_sorted.
    eapply StronglySorted_impl;
      [| apply (sortBy_sorted (fun s => JS.num (Types.population s)) (placedSettlements o))].
    cbn beta. intros a b Hab. unfold JS.num in Hab. by rewrite <- Zle_Qle in Hab.
  - destruct (placedSettlements_inv o) as [_ Hrec].
    apply Forall_forall. intros s Hs.
    unfold settlements in Hs. rewrite (generateSettlements_Permutation o) in Hs.
    rewrite Forall_forall in Hrec. by apply Hrec.
Qed.

(* ================================================================== *)
(** ** src/generation/terrain/erosion.ts                                *)
(* ================================================================== *)

Section Brush.
Context {host : Host}.
Open Scope Q_scope.

Lemma addAt_length (heightmap : list Q) (i : Z) (v : Q) :
  length (Erosion.addAt heightmap i v) = length heightmap.
Proof. apply set_length. Qed.

(** [heightmap[i] += v] changes no other cell. *)
Lemma addAt_other (heightmap : list Q) (i j : Z) (v : Q) :
  i <> j -> JS.get (Erosion.addAt heightmap i v) j = JS.get heightmap j.
Proof. intros Hne. unfold Erosion.addAt. by apply get_set_other. Qed.

(** [heightmap[i] += v] with [v] not negative lowers no cell. *)
Lemma addAt_raises (heightmap : list Q) (i j : Z) (v : Q) :
  0 <= v -> JS.get heightmap j <= JS.get (Erosion.addAt heightmap i v) j.
Proof.
  intros Hv. unfold Erosion.addAt. rewrite get_set.
  destruct (decide _) as [[-> _] | _]; lra.
Qed.

(** [heightmap[i] -= v] with [v] not negative raises no cell. *)
Lemma addAt_lowers (heightmap : list Q) (i j : Z) (v : Q) :
  0 <= v -> JS.get (Erosion.addAt heightmap i (- v)) j <= JS.get heightmap j.
Proof.
  intros Hv. unfold Erosion.addAt. rewrite get_set.
  destruct (decide _) as [[-> _] | _]; lra.
Qed.

(** The fractional part [x - Math.floor(x)]. *)
Lemma fraction_bounds (x : Q) : 0 <= x - JS.num (JS.floor x) /\ x - JS.num (JS.floor x) <= 1.
Proof.
  unfold JS.num, JS.floor. pose proof (Qfloor_le x). pose proof (Qlt_floor x) as Hlt.
  rewrite inject_Z_plus in Hlt. change (inject_Z 1) with 1 in Hlt. split; lra.
Qed.

Lemma depositSediment_frame (heightmap : list Q) (x y : Q) (width height : Z) (amount : Q) :
  0 <= amount ->
  let x0 := JS.floor x in
  let y0 := JS.floor y in
  let x1 := Z.min (x0 + 1) (width - 1) in
  let y1 := Z.min (y0 + 1) (height - 1) in
  let result := Erosion.depositSediment heightmap x y width height amount in
  length result = length heightmap
  /\ forall i : Z,
       JS.get heightmap i <= JS.get result i
       /\ (~ In i [MathUtil.coordToIndex x0 y0 width; MathUtil.coordToIndex x1 y0 width;
                   MathUtil.coordToIndex x0 y1 width; MathUtil.coordToIndex x1 y1 width] ->
           JS.get result i = JS.get heightmap i).
Proof.
  intros Hamount. cbv zeta. unfold Erosion.depositSediment.
  destruct (fraction_bounds x) as [Hx0 Hx1]. destruct (fraction_bounds y) as [Hy0 Hy1].
  set (fx := x - JS.num (JS.floor x)) in *. set (fy := y - JS.num (JS.floor y)) in *.
  assert (0 <= amount * (1 - fx) * (1 - fy)) as H00
    by (repeat apply Qmult_le_0_compat; lra).
  assert (0 <= amount * fx * (1 - fy)) as H10 by (repeat apply Qmult_le_0_compat; lra).
  assert (0 <= amount * (1 - fx) * fy) as H01 by (repeat apply Qmult_le_0_compat; lra).
  assert (0 <= amount * fx * fy) as H11 by (repeat apply Qmult_le_0_compat; lra).
  clearbody fx fy.
  split; [by rewrite !addAt_length |]. intros i. split.
  - eapply Qle_trans; [| apply addAt_raises; exact H11].
    eapply Qle_trans; [| apply addAt_raises; exact H01].
    eapply Qle_trans; [| apply addAt_raises; exact H10].
    apply addAt_raises; exact H00.
  - intros Hout. cbn [In] in Hout.
    rewrite !addAt_other; [done | | | |]; intros E; apply Hout; tauto.
Qed.

(** The first loop of [erodeTerrain]: the weights of the cells under the
    brush. *)
Definition weightsOf (x0 y0 width height : Z) (acc : Q * list (Z * Q)) (cs : list (Z * Z))
    : Q * list (Z * Q) :=
  fold_left
    (fun '(totalWeight, weights) '(dx, dy) =>
       let nx := (x0 + dx)%Z in
       let ny := (y0 + dy)%Z in
       if (nx <? 0)%Z || (width <=? nx)%Z || (ny <? 0)%Z || (height <=? ny)%Z
       then (totalWeight, weights)
       else
         let dist := Math_sqrt (JS.num (dx * dx + dy * dy)) in
         if JS.leb dist (JS.num 2) then
           let weight := JS.max 0 (JS.num 2 - dist) / JS.num 2 in
           (totalWeight + weight, weights ++ [(MathUtil.coordToIndex nx ny width, weight)])
         else (totalWeight, weights))
    cs acc.

(** The index [i] is that of a cell of the grid that the brush, centred
    on [(x0, y0)], reaches with one of the offsets [cs]. *)
Definition brushed (x0 y0 width height : Z) (cs : list (Z * Z)) (i : Z) : Prop :=
  exists dx dy : Z,
    In (dx, dy) cs
    /\ (0 <= x0 + dx < width)%Z /\ (0 <= y0 + dy < height)%Z
    /\ i = MathUtil.coordToIndex (x0 + dx) (y0 + dy) width.

(** What the collected weights satisfy. *)
Definition weighed (x0 y0 width height : Z) (cs : list (Z * Z)) (acc : Q * list (Z * Q))
    : Prop :=
  0 <= fst acc
  /\ Forall (fun w => brushed x0 y0 width height cs (fst w) /\ 0 <= snd w) (snd acc).

Lemma weight_nonneg (dist : Q) : 0 <= JS.max 0 (JS.num 2 - dist) / JS.num 2.
Proof. apply Qle_shift_div_l; [reflexivity |]. rewrite Qmult_0_l. apply Q.le_max_l. Qed.

Lemma weightsOf_app (x0 y0 width height : Z) (acc : Q * list (Z * Q)) (l1 l2 : list (Z * Z)) :
  weightsOf x0 y0 width height acc (l1 ++ l2)
  = weightsOf x0 y0 width height (weightsOf x0 y0 width height acc l1) l2.
Proof. apply fold_left_app. Qed.

Lemma weightsOf_weighed (x0 y0 width height : Z) (all cs : list (Z * Z)) :
  (forall c, In c cs -> In c all) ->
  forall acc, weighed x0 y0 width height all acc ->
              weighed x0 y0 width height all (weightsOf x0 y0 width height acc cs).
Proof.
  induction cs as [| [dx dy] cs IH]; intros Hcs [totalWeight weights] Hacc; [done |].
  unfold weightsOf. cbn [fold_left]. fold (weightsOf x0 y0 width height).
  assert (forall c, In c cs -> In c all) as Hcs' by (intros c Hc; apply Hcs; by right).
  destruct ((x0 + dx <? 0)%Z || (width <=? x0 + dx)%Z || (y0 + dy <? 0)%Z
            || (height <=? y0 + dy)%Z) eqn:Eout; [by apply IH |].
  destruct (JS.leb _ _); [| by apply IH].
  apply IH; [done |]. destruct Hacc as [Hsum Hall]. unfold weighed in *. cbn [fst snd] in *.
  pose proof (weight_nonneg (Math_sqrt (JS.num (dx * dx + dy * dy)))) as Hw.
  split; [lra |].
  apply Forall_app. split; [done |]. constructor; [| done]. cbn [fst snd]. split; [| done].
  exists dx, dy. repeat split; try lia. apply Hcs. by left.
Qed.

(** The sum of the weights never shrinks along the loop. *)
Lemma weightsOf_grows (x0 y0 width height : Z) (cs : list (Z * Z)) :
  forall acc, fst acc <= fst (weightsOf x0 y0 width height acc cs).
Proof.
  induction cs as [| [dx dy] cs IH]; intros [totalWeight weights]; [cbn; lra |].
  change ((dx, dy) :: cs) with ([(dx, dy)] ++ cs). rewrite weightsOf_app.
  eapply Qle_trans; [| apply IH].
  unfold weightsOf. cbn [fold_left fst].
  destruct (_ || _); [cbn; lra |]. destruct (JS.leb _ _); [| cbn; lra]. cbn [fst].
  pose proof (weight_nonneg (Math_sqrt (JS.num (dx * dx + dy * dy)))). lra.
Qed.

(** Inside the grid the cell under the droplet always weighs in, so the
    weights do not sum to 0. *)
Lemma weightsOf_pos (x0 y0 width height : Z) :
  (0 <= x0 < width)%Z -> (0 <= y0 < height)%Z -> Math_sqrt 0 < 2 ->
  0 < fst (weightsOf x0 y0 width height (0, []) (MathUtil.window 2)).
Proof.
  intros Hx Hy Hsqrt.
  assert (In (0, 0)%Z (MathUtil.window 2)) as Hin by (apply in_cells; lia).
  apply in_split in Hin as (l1 & l2 & ->).
  rewrite weightsOf_app.
  pose proof (weightsOf_grows x0 y0 width height l1 (0, [])) as Hg1. cbn [fst] in Hg1.
  destruct (weightsOf x0 y0 width height (0, []) l1) as [t1 w1]. cbn [fst] in Hg1.
  change ((0, 0)%Z :: l2) with ([(0, 0)%Z] ++ l2). rewrite weightsOf_app.
  eapply Qlt_le_trans; [| apply weightsOf_grows].
  unfold weightsOf. cbn [fold_left].
  replace ((x0 + 0 <? 0)%Z || (width <=? x0 + 0)%Z || (y0 + 0 <? 0)%Z
           || (height <=? y0 + 0)%Z) with false
    by (symmetry; rewrite !orb_false_iff; repeat split; lia).
  change (JS.num (0 * 0 + 0 * 0)) with 0.
  assert (JS.leb (Math_sqrt 0) (JS.num 2) = true) as ->.
  { apply leb_le. unfold JS.num, inject_Z. lra. }
  cbn [fst].
  assert (0 < JS.max 0 (JS.num 2 - Math_sqrt 0) / JS.num 2).
  { apply Qlt_shift_div_l; [reflexivity |]. rewrite Qmult_0_l.
    eapply Qlt_le_trans; [| apply Q.le_max_r]. unfold JS.num, inject_Z. lra. }
  lra.
Qed.

Lemma erodeTerrain_loops (heightmap : list Q) (x y : Q) (width height : Z) (amount : Q) :
  Erosion.erodeTerrain heightmap x y width height amount
  = let '(totalWeight, weights) :=
      weightsOf (JS.floor x) (JS.floor y) width height (0, []) (MathUtil.window 2) in
    fold_left
      (fun heightmap '(idx, weight) =>
         Erosion.addAt heightmap idx (- (amount * (weight / totalWeight))))
      weights heightmap.
Proof. reflexivity. Qed.

(** The second loop of [erodeTerrain], with shares that are not negative. *)
Lemma erode_frame (amount totalWeight : Q) (weights : list (Z * Q)) (P : Z -> Prop) :
  0 <= amount -> 0 < totalWeight ->
  Forall (fun w => P (fst w) /\ 0 <= snd w) weights ->
  forall heightmap,
    let result :=
      fold_left
        (fun heightmap '(idx, weight) =>
           Erosion.addAt heightmap idx (- (amount * (weight / totalWeight))))
        weights heightmap in
    length result = length heightmap
    /\ forall i : Z,
         JS.get result i <= JS.get heightmap i
         /\ (~ P i -> JS.get result i = JS.get heightmap i).
Proof.
  intros Hamount Htotal. induction 1 as [| [idx weight] weights [Hp Hw] _ IH];
    intros heightmap; cbn zeta; cbn [fold_left fst snd] in *.
  - split; [done |]. intros i. split; [lra | done].
  - destruct (IH (Erosion.addAt heightmap idx (- (amount * (weight / totalWeight)))))
      as [Hlen Hcells].
    cbn zeta in Hlen, Hcells. split; [by rewrite Hlen, addAt_length |].
    intros i. destruct (Hcells i) as [Hle Hsame].
    assert (0 <= amount * (weight / totalWeight)) as Hshare.
    { apply Qmult_le_0_compat; [done |]. apply Qle_shift_div_l; [done | lra]. }
    split.
    + eapply Qle_trans; [exact Hle |]. by apply addAt_lowers.
    + intros Hi. rewrite (Hsame Hi). apply addAt_other. intros ->. by apply Hi.
Qed.

Lemma erodeTerrain_frame (heightmap : list Q) (x y : Q) (width height : Z) (amount : Q) :
  0 <= amount ->
  (0 <= JS.floor x < width)%Z -> (0 <= JS.floor y < height)%Z ->
  Math_sqrt 0 < 2 ->
  let result := Erosion.erodeTerrain heightmap x y width height amount in
  length result = length heightmap
  /\ forall i : Z,
       JS.get result i <= JS.get heightmap i
       /\ (~ brushed (JS.floor x) (JS.floor y) width height (MathUtil.window 2) i ->
           JS.get result i = JS.get heightmap i).
Proof.
  intros Hamount Hx Hy Hsqrt. cbv zeta. rewrite erodeTerrain_loops.
  pose proof (weightsOf_pos (JS.floor x) (JS.floor y) width height Hx Hy Hsqrt) as Hpos.
  assert (weighed (JS.floor x) (JS.floor y) width height (MathUtil.window 2) (0, [])) as H0.
  { split; [cbn; lra | constructor]. }
  pose proof (weightsOf_weighed (JS.floor x) (JS.floor y) width height (MathUtil.window 2)
                (MathUtil.window 2) (fun _ H => H) _ H0) as [_ Hall].
  destruct (weightsOf _ _ _ _ _ _) as [totalWeight weights]. cbn [fst snd] in *.
  apply (erode_frame amount totalWeight weights
           (brushed (JS.floor x) (JS.floor y) width height (MathUtil.window 2)));
    done.
Qed.

(** The scan of [thermalCell] ends on no neighbour or on one of the list. *)
Lemma steepest_among (result : list Q) (h talusAngle : Q) (neighbors : list Z) :
  forall maxDiff maxNeighbor,
    let r :=
      fold_left
        (fun '(maxDiff, maxNeighbor) nIdx =>
           let diff := h - JS.get result nIdx in
           if JS.ltb maxDiff diff && JS.ltb talusAngle diff then (diff, nIdx)
           else (maxDiff, maxNeighbor))
        neighbors (maxDiff, maxNeighbor) in
    snd r = maxNeighbor \/ In (snd r) neighbors.
Proof.
  induction neighbors as [| nIdx neighbors IH]; intros maxDiff maxNeighbor; cbn zeta;
    cbn [fold_left]; [by left |].
  destruct (JS.ltb maxDiff _ && JS.ltb talusAngle _).
  - destruct (IH (h - JS.get result nIdx) nIdx) as [E | Hin]; cbn zeta in *.
    + right. left. by rewrite E.
    + right. by right.
  - destruct (IH maxDiff maxNeighbor) as [E | Hin]; cbn zeta in *; [by left |].
    right. by right.
Qed.

(** Where no neighbour is lower by more than the talus angle the scan
    finds nothing. *)
Lemma steepest_none (result : list Q) (h talusAngle : Q) (neighbors : list Z) :
  Forall (fun nIdx => h - JS.get result nIdx <= talusAngle) neighbors ->
  forall maxDiff maxNeighbor,
    fold_left
      (fun '(maxDiff, maxNeighbor) nIdx =>
         let diff := h - JS.get result nIdx in
         if JS.ltb maxDiff diff && JS.ltb talusAngle diff then (diff, nIdx)
         else (maxDiff, maxNeighbor))
      neighbors (maxDiff, maxNeighbor)
    = (maxDiff, maxNeighbor).
Proof.
  induction 1 as [| nIdx neighbors Hn _ IH]; intros maxDiff maxNeighbor; cbn [fold_left];
    [done |].
  assert (JS.ltb talusAngle (h - JS.get result nIdx) = false) as -> by (by apply ltb_ge).
  rewrite andb_false_r. apply IH.
Qed.

Lemma get_in_bounds (P : Q -> Prop) (a : list Q) (i : Z) :
  Forall P a -> (0 <= i < Z.of_nat (length a))%Z -> P (JS.get a i).
Proof.
  intros Ha Hi. unfold JS.get. destruct (i <? 0)%Z eqn:E; [lia |].
  rewrite Forall_forall in Ha. apply Ha, list_elem_of_In, nth_In. lia.
Qed.

Section Thermal.
Variables (width height : Z) (talusAngle lo hi : Q).
Hypothesis talus_nonneg : 0 <= talusAngle.

Local Abbreviation within := (fun v : Q => lo <= v /\ v <= hi).

Lemma thermalCell_within (result : list Q) (x y : Z) :
  length result = Z.to_nat (width * height) ->
  (1 <= x < width - 1)%Z -> (1 <= y < height - 1)%Z ->
  Forall within result ->
  Forall within (Erosion.thermalCell width talusAngle result (x, y))
  /\ length (Erosion.thermalCell width talusAngle result (x, y)) = length result.
Proof.
  intros Hlen Hx Hy Hres. unfold Erosion.thermalCell.
  set (idx := MathUtil.coordToIndex x y width).
  set (h := JS.get result idx).
  match goal with
  | |- context [fold_left ?f ?l (0, (-1)%Z)] =>
      pose proof (steepest_neighbor result h talusAngle l 0 (-1)%Z) as Hscan;
      pose proof (steepest_among result h talusAngle l 0 (-1)%Z) as Hamong;
      destruct (fold_left f l (0, (-1)%Z)) as [maxDiff maxNeighbor]
  end.
  cbn zeta in Hscan, Hamong. cbn [fst snd] in Hscan, Hamong.
  destruct (0 <=? maxNeighbor)%Z eqn:Hfound; [| done]. apply Z.leb_le in Hfound.
  destruct Hscan as [Hneg | [-> Hsteep]]; [left; lia | lia |].
  assert (0 <= idx < width * height)%Z as Hidx by (apply coordToIndex_bound; lia).
  assert (0 <= maxNeighbor < width * height)%Z as Hn.
  { destruct Hamong as [-> | Hin]; [lia |].
    repeat destruct Hin as [<- | Hin]; try done; apply coordToIndex_bound; lia. }
  pose proof (get_in_bounds within result idx Hres ltac:(lia)) as [Hh0 Hh1]. fold h in Hh0, Hh1.
  pose proof (get_in_bounds within result maxNeighbor Hres ltac:(lia)) as [Hn0 Hn1].
  set (n := JS.get result maxNeighbor) in *.
  split; [| by rewrite !addAt_length].
  unfold Erosion.addAt. fold h.
  apply set_Forall.
  - apply set_Forall; [done |]. split; lra.
  - destruct (get_set_cases result idx maxNeighbor (h + - ((h - n - talusAngle) * 0.5)))
      as [-> | ->]; fold n; split; lra.
Qed.

Lemma applyThermalErosion_within (heightmap : list Q) (iterations : Z) :
  length heightmap = Z.to_nat (width * height) ->
  Forall within heightmap ->
  Forall within (Erosion.applyThermalErosion heightmap width height iterations talusAngle)
  /\ length (Erosion.applyThermalErosion heightmap width height iterations talusAngle)
     = length heightmap.
Proof.
  intros Hlen Hall. unfold Erosion.applyThermalErosion.
  apply (fold_left_invariant
           (fun result => Forall within result /\ length result = length heightmap));
    [| by split].
  intros result _ Hres.
  assert (forall cs : list (Z * Z),
             Forall (fun c => (1 <= fst c < width - 1)%Z /\ (1 <= snd c < height - 1)%Z) cs ->
             forall r, Forall within r /\ length r = length heightmap ->
                       Forall within (fold_left (Erosion.thermalCell width talusAngle) cs r)
                       /\ length (fold_left (Erosion.thermalCell width talusAngle) cs r)
                          = length heightmap) as Hloop.
  { induction 1 as [| [x y] cs [Hx Hy] _ IH]; intros r [Hr Hl]; [done |].
    cbn [fold_left fst snd] in *. apply IH.
    destruct (thermalCell_within r x y) as [Hr' Hl']; try done.
    { by rewrite Hl. }
    split; [done | by rewrite Hl']. }
  apply Hloop; [| done]. apply Forall_forall. intros [x y] Hc%list_elem_of_In.
  apply in_cells in Hc. cbn [fst snd]. lia.
Qed.

(** No cell off the border is higher than one of its four neighbours by
    more than the talus angle. *)
Definition atRest (heightmap : list Q) : Prop :=
  forall x y : Z, (1 <= x < width - 1)%Z -> (1 <= y < height - 1)%Z ->
    Forall (fun nIdx =>
              JS.get heightmap (MathUtil.coordToIndex x y width) - JS.get heightmap nIdx
              <= talusAngle)
      [ MathUtil.coordToIndex (x - 1) y width; MathUtil.coordToIndex (x + 1) y width;
        MathUtil.coordToIndex x (y - 1) width; MathUtil.coordToIndex x (y + 1) width ].

Lemma applyThermalErosion_atRest (heightmap : list Q) (iterations : Z) :
  atRest heightmap ->
  Erosion.applyThermalErosion heightmap width height iterations talusAngle = heightmap.
Proof.
  intros Hrest. unfold Erosion.applyThermalErosion.
  apply (fold_left_invariant (fun result => result = heightmap)); [| done].
  intros result _ ->.
  assert (forall cs : list (Z * Z),
             Forall (fun c => (1 <= fst c < width - 1)%Z /\ (1 <= snd c < height - 1)%Z) cs ->
             fold_left (Erosion.thermalCell width talusAngle) cs heightmap = heightmap)
    as Hloop.
  { induction 1 as [| [x y] cs [Hx Hy] _ IH]; [done |].
    cbn [fold_left fst snd] in *.
    assert (Erosion.thermalCell width talusAngle heightmap (x, y) = heightmap) as ->; [| done].
    unfold Erosion.thermalCell. rewrite steepest_none by (by apply Hrest). done. }
  apply Hloop. apply Forall_forall. intros [x y] Hc%list_elem_of_In.
  apply in_cells in Hc. cbn [fst snd]. lia.
Qed.

End Thermal.

End Brush.

(** X22: with an amount that is not negative, [depositSediment] lowers no
    cell, changes no cell other than the four around the position (the
    cell of the floored position and its right, lower and lower-right
    neighbours, clamped to the grid) and keeps the size of the heightmap.
    (Rounding keeps this: the four shares are not negative, and a sum with
    a share that is not negative rounds to no less than the cell held.) *)
Theorem depositSediment_only_raises_four_cells
    (heightmap : list Q) (x y : Q) (width height : Z) (amount : Q) :
  (0 <= amount)%Q ->
  let x0 := JS.floor x in
  let y0 := JS.floor y in
  let x1 := Z.min (x0 + 1) (width - 1) in
  let y1 := Z.min (y0 + 1) (height - 1) in
  let result := Erosion.depositSediment heightmap x y width height amount in
  length result = length heightmap
  /\ forall i : Z,
       (JS.get heightmap i <= JS.get result i)%Q
       /\ (~ In i [MathUtil.coordToIndex x0 y0 width; MathUtil.coordToIndex x1 y0 width;
                   MathUtil.coordToIndex x0 y1 width; MathUtil.coordToIndex x1 y1 width] ->
           JS.get result i = JS.get heightmap i).
Proof. apply depositSediment_frame. Qed.

Lemma depositSediment_only_raises_four_cells_witness :
  let heightmap := [0.5; 0.5; 0.5; 0.5; 0.5; 0.5]%Q in
  let result := Erosion.depositSediment heightmap 1.25 1.5 3 2 0.125 in
  length result = length heightmap
  /\ forall i : Z,
       (JS.get heightmap i <= JS.get result i)%Q
       /\ (~ In i [MathUtil.coordToIndex 1 1 3; MathUtil.coordToIndex 2 1 3;
                   MathUtil.coordToIndex 1 1 3; MathUtil.coordToIndex 2 1 3] ->
           JS.get result i = JS.get heightmap i).
Proof.
  intros heightmap result.
  apply (depositSediment_only_raises_four_cells heightmap 1.25 1.5 3 2 0.125).
  vm_compute. discriminate.
Defined.

(** X23: with an amount that is not negative, at a position whose floor
    is a cell of the grid (so that the weights do not sum to 0; the centre
    weighs in because [Math.sqrt(0) < 2]), [erodeTerrain] raises no cell,
    changes no cell other than the cells of the grid within two steps of
    the floored position in each direction, and keeps the size of the
    heightmap.  (Rounding keeps this: every share is not negative.) *)
Theorem erodeTerrain_only_lowers_the_brush_cells {host : Host}
    (heightmap : list Q) (x y : Q) (width height : Z) (amount : Q) :
  (0 <= amount)%Q ->
  0 <= JS.floor x < width -> 0 <= JS.floor y < height ->
  (Math_sqrt 0 < 2)%Q ->
  let result := Erosion.erodeTerrain heightmap x y width height amount in
  length result = length heightmap
  /\ forall i : Z,
       (JS.get result i <= JS.get heightmap i)%Q
       /\ ((forall dx dy : Z,
              -2 <= dx <= 2 -> -2 <= dy <= 2 ->
              0 <= JS.floor x + dx < width -> 0 <= JS.floor y + dy < height ->
              i <> MathUtil.coordToIndex (JS.floor x + dx) (JS.floor y + dy) width) ->
           JS.get result i = JS.get heightmap i).
Proof.
  intros Hamount Hx Hy Hsqrt.
  destruct (erodeTerrain_frame heightmap x y width height amount Hamount Hx Hy Hsqrt)
    as [Hlen Hcells].
  cbv zeta in *. split; [exact Hlen |]. intros i. destruct (Hcells i) as [Hle Hsame].
  split; [exact Hle |]. intros Hout. apply Hsame.
  intros (dx & dy & Hin & Hnx & Hny & ->). apply in_window in Hin as [Hdx Hdy].
  by apply (Hout dx dy Hdx Hdy Hnx Hny).
Qed.

Lemma erodeTerrain_only_lowers_the_brush_cells_witness :
  let heightmap := [0.5; 0.5; 0.5; 0.5; 0.5; 0.5; 0.5; 0.5]%Q in
  let result := Erosion.erodeTerrain (host := Sample.host) heightmap 0.25 0.5 8 1 0.125 in
  length result = length heightmap
  /\ forall i : Z,
       (JS.get result i <= JS.get heightmap i)%Q
       /\ ((forall dx dy : Z,
              -2 <= dx <= 2 -> -2 <= dy <= 2 ->
              0 <= JS.floor 0.25 + dx < 8 -> 0 <= JS.floor 0.5 + dy < 1 ->
              i <> MathUtil.coordToIndex (JS.floor 0.25 + dx) (JS.floor 0.5 + dy) 8) ->
           JS.get result i = JS.get heightmap i).
Proof.
  intros heightmap result.
  apply (erodeTerrain_only_lowers_the_brush_cells (host := Sample.host)
           heightmap 0.25 0.5 8 1 0.125);
    [vm_compute; discriminate | done | done | reflexivity].
Defined.

(** X24: thermal erosion makes no new peak and no new pit, and leaves a
    field at rest alone.  With a talus angle that is not negative, on a
    heightmap of [width * height] cells whose values lie between [lo] and
    [hi], the result has the same size and its values lie between [lo] and
    [hi]; and where no cell off the border is higher than one of its four
    neighbours by more than the talus angle, the heightmap comes back
    unchanged.  (Rounding keeps this: the material moved is at most half
    the difference of the two cells.) *)
Theorem thermal_erosion_makes_no_new_extremes
    (heightmap : list Q) (width height iterations : Z) (talusAngle lo hi : Q) :
  (0 <= talusAngle)%Q ->
  length heightmap = Z.to_nat (width * height) ->
  Forall (fun v => lo <= v /\ v <= hi)%Q heightmap ->
  let result := Erosion.applyThermalErosion heightmap width height iterations talusAngle in
  length result = length heightmap
  /\ Forall (fun v => lo <= v /\ v <= hi)%Q result
  /\ ((forall x y : Z, 1 <= x < width - 1 -> 1 <= y < height - 1 ->
         Forall (fun nIdx =>
                   (JS.get heightmap (MathUtil.coordToIndex x y width)
                    - JS.get heightmap nIdx <= talusAngle)%Q)
           [ MathUtil.coordToIndex (x - 1) y width; MathUtil.coordToIndex (x + 1) y width;
             MathUtil.coordToIndex x (y - 1) width; MathUtil.coordToIndex x (y + 1) width ]) ->
      result = heightmap).
Proof.
  intros Htalus Hlen Hall. cbv zeta.
  destruct (applyThermalErosion_within width height talusAngle lo hi Htalus heightmap
              iterations Hlen Hall) as [Hwithin Hl].
  split; [exact Hl |]. split; [exact Hwithin |].
  intros Hrest. by apply applyThermalErosion_atRest.
Qed.

Lemma thermal_erosion_makes_no_new_extremes_witness :
  let heightmap := [0.125; 0.25; 0.125; 0.25; 0.875; 0.25; 0.125; 0.5; 0.125]%Q in
  let result := Erosion.applyThermalErosion heightmap 3 3 2 0.0625 in
  length result = length heightmap
  /\ Forall (fun v => 0.125 <= v /\ v <= 0.875)%Q result
  /\ ((forall x y : Z, 1 <= x < 3 - 1 -> 1 <= y < 3 - 1 ->
         Forall (fun nIdx =>
                   (JS.get heightmap (MathUtil.coordToIndex x y 3)
                    - JS.get heightmap nIdx <= 0.0625)%Q)
           [ MathUtil.coordToIndex (x - 1) y 3; MathUtil.coordToIndex (x + 1) y 3;
             MathUtil.coordToIndex x (y - 1) 3; MathUtil.coordToIndex x (y + 1) 3 ]) ->
      result = heightmap).
Proof.
  intros heightmap result.
  apply (thermal_erosion_makes_no_new_extremes heightmap 3 3 2 0.0625 0.125 0.875).
  - vm_compute. discriminate.
  - reflexivity.
  - repeat (constructor; [split; vm_compute; discriminate |]). constructor.
Defined.

Section Normalised.
Context {host : Host}.
Open Scope Q_scope.

Lemma fold_min_spec (t : list Q) : forall h,
  In (fold_left JS.min t h) (h :: t)
  /\ fold_left JS.min t h <= h
  /\ Forall (fun v => fold_left JS.min t h <= v) t.
Proof.
  induction t as [| a t IH]; intros h; cbn [fold_left].
  - repeat split; [by left | lra | constructor].
  - destruct (IH (JS.min h a)) as (Hin & Hle & Hall).
    assert (JS.min h a <= h /\ JS.min h a <= a) as [Hh Ha].
    { unfold JS.min. split; [apply Q.le_min_l | apply Q.le_min_r]. }
    repeat split.
    + destruct Hin as [E | Hin]; [| right; by right]. rewrite <- E.
      apply (min_case h a (fun v => In v (h :: a :: t))); [by left | right; by left].
    + lra.
    + constructor; [lra | done].
Qed.

Lemma fold_max_spec (t : list Q) : forall h,
  In (fold_left JS.max t h) (h :: t)
  /\ h <= fold_left JS.max t h
  /\ Forall (fun v => v <= fold_left JS.max t h) t.
Proof.
  induction t as [| a t IH]; intros h; cbn [fold_left].
  - repeat split; [by left | lra | constructor].
  - destruct (IH (JS.max h a)) as (Hin & Hle & Hall).
    assert (h <= JS.max h a /\ a <= JS.max h a) as [Hh Ha].
    { unfold JS.max. split; [apply Q.le_max_l | apply Q.le_max_r]. }
    repeat split.
    + destruct Hin as [E | Hin]; [| right; by right]. rewrite <- E.
      apply (max_case h a (fun v => In v (h :: a :: t))); [by left | right; by left].
    + lra.
    + constructor; [lra | done].
Qed.

Lemma clamp_0 (v : Q) : v == 0 -> MathUtil.clamp v 0 1 == 0.
Proof.
  intros Hv. destruct (clamp_cases v 0 1) as [[H _] | [(_ & _ & E) | [(_ & H & _) | (_ & _ & E)]]];
    lra.
Qed.

Lemma clamp_1 (v : Q) : v == 1 -> MathUtil.clamp v 0 1 == 1.
Proof.
  intros Hv. destruct (clamp_cases v 0 1) as [[H _] | [(_ & H & _) | [(_ & _ & E) | (_ & _ & E)]]];
    lra.
Qed.

(** After the normalisation the heights are all 0 (a flat or empty field)
    or they reach both 0 and 1. *)
Lemma normalizeResult_span (result : list Q) :
  Forall (fun v => v == 0) (Erosion.normalizeResult result)
  \/ (Exists (fun v => v == 0) (Erosion.normalizeResult result)
      /\ Exists (fun v => v == 1) (Erosion.normalizeResult result)).
Proof.
  destruct result as [| h t]; [left; constructor |].
  unfold Erosion.normalizeResult.
  destruct (fold_min_spec t h) as (Hmin_in & Hmin_h & Hmin_t).
  destruct (fold_max_spec t h) as (Hmax_in & Hmax_h & Hmax_t).
  change (fold_left JS.min t h) with (Erosion.minOf (h :: t)) in *.
  change (fold_left JS.max t h) with (Erosion.maxOf (h :: t)) in *.
  set (min := Erosion.minOf (h :: t)) in *. set (max := Erosion.maxOf (h :: t)) in *.
  assert (Forall (fun v => min <= v /\ v <= max) (h :: t)) as Hall.
  { constructor; [done |]. apply Forall_forall. intros v Hv.
    rewrite Forall_forall in Hmin_t, Hmax_t. split; [by apply Hmin_t | by apply Hmax_t]. }
  cbv zeta. destruct (JS.eqb (max - min) 0) eqn:Hflat.
  - left. apply Qeq_bool_iff in Hflat. apply Forall_map.
    eapply Forall_impl; [exact Hall |]. cbn beta. intros v [Hlo Hhi].
    apply clamp_0. field_simplify_eq. lra.
  - right. assert (~ max - min == 0) as Hne.
    { intros E. apply Qeq_bool_iff in E. unfold JS.eqb in Hflat. congruence. }
    split; apply Exists_exists.
    + exists (MathUtil.clamp ((min - min) / (max - min)) 0 1). split.
      * apply list_elem_of_In, in_map_iff. by exists min.
      * apply clamp_0. field. exact Hne.
    + exists (MathUtil.clamp ((max - min) / (max - min)) 0 1). split.
      * apply list_elem_of_In, in_map_iff. by exists max.
      * apply clamp_1. field. exact Hne.
Qed.

Lemma normalizeResult_length (result : list Q) :
  length (Erosion.normalizeResult result) = length result.
Proof. unfold Erosion.normalizeResult. apply length_map. Qed.

Lemma depositSediment_length (heightmap : list Q) (x y : Q) (width height : Z) (amount : Q) :
  length (Erosion.depositSediment heightmap x y width height amount) = length heightmap.
Proof. unfold Erosion.depositSediment. by rewrite !addAt_length. Qed.

Lemma erodeTerrain_length (heightmap : list Q) (x y : Q) (width height : Z) (amount : Q) :
  length (Erosion.erodeTerrain heightmap x y width height amount) = length heightmap.
Proof.
  rewrite erodeTerrain_loops. destruct (weightsOf _ _ _ _ _ _) as [totalWeight weights].
  revert heightmap. induction weights as [| [idx weight] weights IH]; intros heightmap; [done |].
  cbn [fold_left]. by rewrite IH, addAt_length.
Qed.

Lemma dropletLoop_length (opts : Erosion.ErosionOptions) (steps : nat) :
  forall d result rng,
    length (fst (Erosion.dropletLoop steps opts d result rng)) = length result.
Proof.
  induction steps as [| steps IH]; intros d result rng; cbn [Erosion.dropletLoop]; [done |].
  destruct (_ || _); [done |].
  destruct (MathUtil.gradient _ _ _ _ _) as [gdx gdy].
  destruct (JS.ltb 0 _).
  - destruct (_ || _); [done |].
    destruct (_ || _); (destruct (JS.ltb _ 0.01); [cbn [fst] |]).
    + apply depositSediment_length.
    + rewrite IH. apply depositSediment_length.
    + apply erodeTerrain_length.
    + rewrite IH. apply erodeTerrain_length.
  - destruct (Random.range _ _ _) as [angle rng'].
    destruct (_ || _); [done |].
    destruct (_ || _); (destruct (JS.ltb _ 0.01); [cbn [fst] |]).
    + apply depositSediment_length.
    + rewrite IH. apply depositSediment_length.
    + apply erodeTerrain_length.
    + rewrite IH. apply erodeTerrain_length.
Qed.

Lemma applyErosion_length (heightmap : list Q) (seed : string) (opts : Erosion.ErosionOptions) :
  length (Erosion.applyErosion heightmap seed opts) = length heightmap.
Proof.
  unfold Erosion.applyErosion.
  assert (forall (turns : list Z) (acc : list Q * Random.SeededRandom),
             length (fst (fold_left (Erosion.droplet opts) turns acc)) = length (fst acc))
    as Hloop.
  { induction turns as [| i turns IH]; intros acc; [done |].
    cbn [fold_left]. rewrite IH. destruct acc as [result rng]. unfold Erosion.droplet.
    destruct (Random.range _ _ rng) as [x rng1]. destruct (Random.range _ _ rng1) as [y rng2].
    apply dropletLoop_length. }
  specialize (Hloop (JS.range 0 (Erosion.iterations opts))
                (heightmap, Random.new (seed ++ "_erosion"))).
  destruct (fold_left _ _ _) as [result rng]. cbn [fst] in Hloop.
  by rewrite normalizeResult_length.
Qed.

End Normalised.

(** X25: [applyErosion] returns a heightmap of the size it was given, and
    its final normalisation stretches the heights over the whole range:
    either every cell is 0 (the eroded field was flat, or empty) or some
    cell is 0 and some cell is 1. *)
Theorem erosion_result_spans_the_unit_range {host : Host}
    (heightmap : list Q) (seed : string) (opts : Erosion.ErosionOptions) :
  let result := Erosion.applyErosion heightmap seed opts in
  length result = length heightmap
  /\ (Forall (fun v => (v == 0)%Q) result
      \/ (Exists (fun v => (v == 0)%Q) result /\ Exists (fun v => (v == 1)%Q) result)).
Proof.
  cbv zeta. split; [apply applyErosion_length |].
  unfold Erosion.applyErosion. destruct (fold_left _ _ _) as [result rng].
  apply normalizeResult_span.
Qed.

(* ================================================================== *)
(** ** src/generation/index.ts                                          *)
(* ================================================================== *)

Section GridSizes.
Context {host : Host} {naming : Naming}.
Open Scope Z_scope.

(** A loop of writes [a[index c] = value a c] keeps the size of the array. *)
Lemma fill_length {A C} (body : list A -> C -> list A) (cs : list C) (init : list A) :
  (forall a c, length (body a c) = length a) ->
  length (fold_left body cs init) = length init.
Proof.
  intros Hbody. apply (fold_left_invariant (fun a => length a = length init)); [| done].
  intros a c Ha. by rewrite Hbody.
Qed.

Lemma applyLandmassMask_length (heightmap : list Q) (width height : Z)
    (mapType : Types.MapType) (rng : Random.SeededRandom) (waterCoverage : Q) :
  length (fst (Heightmap.applyLandmassMask heightmap width height mapType rng waterCoverage))
  = length heightmap.
Proof.
  unfold Heightmap.applyLandmassMask. destruct (Heightmap.maskSetup _ _ _) as [s rng'].
  apply (fold_left_invariant (fun acc => length (fst acc) = length heightmap)); [| done].
  intros [a r] [x y] Ha. unfold Heightmap.maskCell.
  destruct (Heightmap.cellMask _ _ _ _ _ _ _ _) as [mask r']. cbn [fst] in *.
  by rewrite set_length.
Qed.

Lemma generateHeightmap_length (o : Heightmap.HeightmapOptions) :
  length (Heightmap.generateHeightmap o)
  = Z.to_nat (Heightmap.width o * Heightmap.height o).
Proof.
  unfold Heightmap.generateHeightmap.
  destruct (createNoise2D _) as [noise rng].
  pose proof (applyLandmassMask_length
                (Heightmap.generateFBM (JS.zeros (Heightmap.width o * Heightmap.height o))
                   (Heightmap.width o) (Heightmap.height o) noise (Heightmap.roughness o))
                (Heightmap.width o) (Heightmap.height o) (Heightmap.mapType o) rng
                (Heightmap.waterCoverage o)) as Hmask.
  destruct (Heightmap.applyLandmassMask _ _ _ _ _ _) as [heightmap rng']. cbn [fst] in Hmask.
  rewrite generateFBM_length, zeros_length in Hmask.
  assert (forall h, Heightmap.adjustWaterCoverage h (Heightmap.seaLevel o)
                      (Heightmap.waterCoverage o) (Heightmap.mapType o) = h) as ->
    by (intros h; unfold Heightmap.adjustWaterCoverage; by destruct (Heightmap.mapType o)).
  rewrite cleanup_length. unfold Heightmap.normalizeHeightmap. by rewrite length_map.
Qed.

Lemma thermalCell_length (width : Z) (talusAngle : Q) (result : list Q) (c : Z * Z) :
  length (Erosion.thermalCell width talusAngle result c) = length result.
Proof.
  destruct c as [x y]. unfold Erosion.thermalCell.
  destruct (fold_left _ _ _) as [maxDiff maxNeighbor].
  destruct (0 <=? maxNeighbor); [| done]. by rewrite !addAt_length.
Qed.

Lemma applyThermalErosion_length (heightmap : list Q) (width height iterations : Z)
    (talusAngle : Q) :
  length (Erosion.applyThermalErosion heightmap width height iterations talusAngle)
  = length heightmap.
Proof.
  unfold Erosion.applyThermalErosion. apply fill_length. intros a _.
  apply fill_length. intros a' c. apply thermalCell_length.
Qed.

Lemma generateTemperature_length (width height : Z) (heightmap : list Q) (seaLevel : Q)
    (rng : Random.SeededRandom) :
  length (fst (Climate.generateTemperature width height heightmap seaLevel rng))
  = Z.to_nat (width * height).
Proof.
  unfold Climate.generateTemperature. destruct (createNoise2D rng) as [noise rng'].
  cbn [fst]. rewrite gaussianBlur_length, fill_length; [apply zeros_length |].
  intros a [x y]. apply set_length.
Qed.

Lemma generateMoisture_length (width height : Z) (heightmap temperature : list Q)
    (seaLevel : Q) (rng : Random.SeededRandom) :
  length (fst (Climate.generateMoisture width height heightmap temperature seaLevel rng))
  = Z.to_nat (width * height).
Proof.
  unfold Climate.generateMoisture. destruct (createNoise2D rng) as [noise rng'].
  cbn [fst]. rewrite gaussianBlur_length.
  rewrite fill_length.
  2: { intros a [x y]. unfold Climate.variationCell. destruct (JS.leb _ _); [| done].
       apply set_length. }
  rewrite fill_length.
  2: { intros a _. apply fill_length. intros a' [x y]. unfold Climate.spreadCell.
       destruct (JS.leb _ _); [| done]. apply set_length. }
  unfold Climate.waterCells. rewrite fill_length; [apply zeros_length |].
  intros a i. destruct (JS.ltb _ _); [apply set_length | done].
Qed.

Lemma generateBiomes_length (o : Biomes.BiomeOptions) :
  length (Biomes.generateBiomes o) = Z.to_nat (Biomes.width o * Biomes.height o).
Proof.
  unfold Biomes.generateBiomes. destruct (createNoise2D _) as [noise rng].
  rewrite fill_length; [apply zerosb_length |]. intros a [x y]. apply set_length.
Qed.

Lemma carveRivers_length (heightmap : list Q) (rivers : list Types.River) (width : Z)
    (carveDepth : Q) :
  length (Rivers.carveRiversIntoHeightmap heightmap rivers width carveDepth)
  = length heightmap.
Proof.
  rewrite carveRivers_flat. apply fill_length. intros a seg. apply carveSegment_length.
Qed.

(** The four grids of the map data have one cell for each pixel. *)
Lemma runStages_sizes (config : Pipeline.MapConfig) :
  let data := Pipeline.runStages config in
  let cells := Z.to_nat (Pipeline.width config * Pipeline.height config) in
  Pipeline.config data = config
  /\ length (Pipeline.heightmap data) = cells
  /\ length (Pipeline.temperature data) = cells
  /\ length (Pipeline.moisture data) = cells
  /\ length (Pipeline.biomes data) = cells.
Proof.
  cbv zeta. unfold Pipeline.runStages.
  set (h0 := Heightmap.generateHeightmap _).
  set (h1 := Erosion.applyErosion h0 _ _).
  set (h2 := Erosion.applyThermalErosion h1 _ _ _ _).
  assert (length h2 = Z.to_nat (Pipeline.width config * Pipeline.height config)) as Hh2.
  { unfold h2, h1, h0.
    by rewrite applyThermalErosion_length, applyErosion_length, generateHeightmap_length. }
  unfold Climate.generateClimate. cbn [Climate.width Climate.height Climate.seed
    Climate.heightmap Climate.seaLevel].
  pose proof (generateTemperature_length (Pipeline.width config) (Pipeline.height config) h2
                (Pipeline.seaLevel config)
                (Random.new (Pipeline.seed config ++ "_climate"))) as Ht.
  destruct (Climate.generateTemperature _ _ _ _ _) as [temperature rng1]. cbn [fst] in Ht.
  pose proof (generateMoisture_length (Pipeline.width config) (Pipeline.height config) h2
                temperature (Pipeline.seaLevel config) rng1) as Hm.
  destruct (Climate.generateMoisture _ _ _ _ _ _) as [moisture rng2]. cbn [fst] in Hm.
  destruct (applyNames _ _ _) as [settlements rivers].
  cbn [Pipeline.config Pipeline.heightmap Pipeline.temperature Pipeline.moisture
       Pipeline.biomes].
  repeat split; try done.
  - by rewrite carveRivers_length.
  - by rewrite generateBiomes_length.
Qed.

End GridSizes.

(** X26: whatever the options, the map that [generateMap] resolves with
    is square, with the side of its map size (256, 512, 1024 or 2048), and
    its heightmap, temperature, moisture and biome grids all have exactly
    [width * height] cells. *)
Theorem map_grids_have_width_times_height_cells {host : Host} {naming : Naming}
    (random : nat -> Q) (options : Pipeline.PartialMapConfig) :
  exists data : Pipeline.MapData,
    snd (Pipeline.generateMap random options) = Pipeline.Resolved data
    /\ let width := Pipeline.width (Pipeline.config data) in
       let height := Pipeline.height (Pipeline.config data) in
       (width, height) = Types.MAP_SIZE_CONFIG (Pipeline.mapSize (Pipeline.config data))
       /\ In width [256; 512; 1024; 2048] /\ height = width
       /\ length (Pipeline.heightmap data) = Z.to_nat (width * height)
       /\ length (Pipeline.temperature data) = Z.to_nat (width * height)
       /\ length (Pipeline.moisture data) = Z.to_nat (width * height)
       /\ length (Pipeline.biomes data) = Z.to_nat (width * height).
Proof.
  eexists. split; [reflexivity |]. cbv zeta.
  destruct (runStages_sizes (Pipeline.mergeConfig random options)) as (-> & Hh & Ht & Hm & Hb).
  repeat split; try done.
  - cbn [Pipeline.mergeConfig Pipeline.width Pipeline.height Pipeline.mapSize].
    by destruct (default _ _).
  - cbn [Pipeline.mergeConfig Pipeline.width]. destruct (default _ _); cbn; tauto.
  - cbn [Pipeline.mergeConfig Pipeline.width Pipeline.height]. by destruct (default _ _).
Qed.

(* ================================================================== *)
(** ** src/generation/naming/index.ts                                   *)
(* ================================================================== *)

Section UniqueNames.
Import Names.

Variable generator : Random.SeededRandom -> string * Random.SeededRandom.

(** The names of the first [n] calls of [generator], from the state [r]. *)
Fixpoint draws (n : nat) (r : Random.SeededRandom) : list string :=
  match n with
  | O => []
  | S n => let '(name, r) := generator r in name :: draws n r
  end.

Lemma drawLoop_spec (used : gset string) (more : nat) : forall r,
  In (fst (drawLoop more generator used r)) (draws (S more) r)
  /\ (fst (drawLoop more generator used r) ∉ used
      \/ Forall (fun name => name ∈ used) (draws (S more) r)).
Proof.
  induction more as [| more IH]; intros r.
  - cbn [drawLoop draws]. destruct (generator r) as [name r']. cbn [fst]. split; [by left |].
    destruct (decide (name ∈ used)); [right | by left]. by constructor.
  - cbn [drawLoop]. change (draws (S (S more)) r)
      with (let '(name, r) := generator r in name :: draws (S more) r).
    destruct (generator r) as [name r']. destruct (decide (name ∈ used)) as [Hused | Hnew].
    + destruct (IH r') as [Hin Hor]. split; [by right |].
      destruct Hor as [H | H]; [by left | right; by constructor].
    + cbn [fst]. split; [by left | by left].
Qed.

Lemma generateUniqueName_spec (g : NameGenerator) :
  let name := fst (generateUniqueName generator g) in
  let g' := snd (generateUniqueName generator g) in
  In name (draws 100 (rng g))
  /\ (name ∉ usedNames g \/ Forall (fun n => n ∈ usedNames g) (draws 100 (rng g)))
  /\ usedNames g' = {[ name ]} ∪ usedNames g
  /\ style g' = style g.
Proof.
  cbv zeta. unfold generateUniqueName.
  pose proof (drawLoop_spec (usedNames g) 99 (rng g)) as [Hin Hor].
  destruct (drawLoop 99 generator (usedNames g) (rng g)) as [name r]. cbn [fst snd] in *.
  done.
Qed.

End UniqueNames.

Section NameFacts.
Import Names Types.
Open Scope string_scope.

Lemma append_nonempty (a b : string) : a <> "" -> a ++ b <> "".
Proof. by destruct a. Qed.

(** A syllable picked from a table without empty entries is not empty. *)
Lemma pick_nonempty (array : list string) (r : Random.SeededRandom) :
  Forall (fun s => s <> "") array -> fst (Names.pick array r) <> "".
Proof.
  intros Hall. unfold Names.pick. pose proof (pick_spec array r) as Hpick.
  destruct (Random.pick array r) as [[a |] r']; cbn [fst default] in *; [| done].
  rewrite Forall_forall in Hall. by apply Hall, list_elem_of_In.
Qed.

Lemma tables_nonempty (style : NameStyle) :
  Forall (fun s => s <> "") (prefixes (getSyllables style))
  /\ Forall (fun s => s <> "") (standalone (getSyllables style))
  /\ Forall (fun s => s <> "") (river_prefixes RIVER_NAMES)
  /\ Forall (fun s => s <> "") (river_roots RIVER_NAMES).
Proof.
  repeat split; try destruct style; repeat (constructor; [done |]); constructor.
Qed.

Lemma settlementNameDraw_nonempty (style : NameStyle) (r : Random.SeededRandom) :
  fst (settlementNameDraw style r) <> "".
Proof.
  destruct (tables_nonempty style) as (Hp & Hs & _ & _).
  unfold settlementNameDraw. destruct (Random.int 0 3 r) as [patterns r0].
  repeat match goal with
         | |- context [if ?c then _ else _] => destruct c
         | |- context [Names.pick ?a ?r] =>
             let H := fresh "H" in
             pose proof (pick_nonempty a r) as H; destruct (Names.pick a r); cbn [fst] in H
         end; cbn [fst]; apply append_nonempty; auto.
Qed.

Lemma riverNameDraw_nonempty (r : Random.SeededRandom) : fst (riverNameDraw r) <> "".
Proof.
  destruct (tables_nonempty fantasy) as (_ & _ & Hp & Hr).
  unfold riverNameDraw. destruct (Random.int 0 2 r) as [pattern r0].
  repeat match goal with
         | |- context [if ?c then _ else _] => destruct c
         | |- context [Names.pick ?a ?r] =>
             let H := fresh "H" in
             pose proof (pick_nonempty a r) as H; destruct (Names.pick a r); cbn [fst] in H
         end; cbn [fst]; try done; apply append_nonempty; auto.
Qed.

Lemma drawLoop_nonempty (generator : Random.SeededRandom -> string * Random.SeededRandom)
    (used : gset string) (more : nat) :
  (forall r, fst (generator r) <> "") ->
  forall r, fst (drawLoop more generator used r) <> "".
Proof.
  intros Hgen. induction more as [| more IH]; intros r; cbn [drawLoop];
    specialize (Hgen r); destruct (generator r) as [name r']; cbn [fst] in Hgen; [done |].
  destruct (decide _); [apply IH | done].
Qed.

(** A record and the same record with a name. *)
Definition renamed {R} (setName : R -> string -> R) (old new : R) : Prop :=
  exists name : string, name <> "" /\ new = setName old name.

Lemma naming_loop {R} (setName : R -> string -> R)
    (draw : R -> NameGenerator -> string * NameGenerator) (records : list R) :
  (forall record g, fst (draw record g) <> "") ->
  forall named g,
    exists named',
      fst (fold_left
             (fun '(named, g) record =>
                let '(name, g) := draw record g in ((named ++ [setName record name])%list, g))
             records (named, g))
      = (named ++ named')%list
      /\ Forall2 (renamed setName) records named'.
Proof.
  intros Hdraw. induction records as [| record records IH]; intros named g; cbn [fold_left].
  - exists []. split; [by rewrite app_nil_r | constructor].
  - specialize (Hdraw record g). destruct (draw record g) as [name g']. cbn [fst] in Hdraw.
    destruct (IH (named ++ [setName record name])%list g') as (named' & E & Hall).
    exists (setName record name :: named'). split.
    + rewrite E. by rewrite <- app_assoc.
    + constructor; [by exists name | done].
Qed.

Lemma applyNames_renames (seed : string) (settlements : list Settlement)
    (rivers : list River) (style : NameStyle) :
  Forall2 (renamed nameSettlement) settlements
    (fst (Names.applyNames seed settlements rivers style))
  /\ Forall2 (renamed nameRiver) rivers
       (snd (Names.applyNames seed settlements rivers style)).
Proof.
  unfold Names.applyNames.
  destruct (naming_loop nameSettlement
              (fun settlement g =>
                 generateSettlementName (size settlement) (settlement_type settlement) g)
              settlements) with (named := @nil Settlement) (g := Names.new seed style)
    as (ss & Es & Hs).
  { intros s g. unfold generateSettlementName, generateUniqueName.
    pose proof (drawLoop_nonempty (settlementNameDraw (Names.style g)) (usedNames g) 99
                  (settlementNameDraw_nonempty (Names.style g)) (rng g)) as Hne.
    by destruct (drawLoop _ _ _ _) as [name r]. }
  destruct (fold_left _ settlements _) as [named g1]. cbn [fst] in Es. subst named.
  destruct (naming_loop nameRiver (fun _ g => generateRiverName g) rivers)
    with (named := @nil River) (g := g1) as (rs & Er & Hr).
  { intros _ g. unfold generateRiverName, generateUniqueName.
    pose proof (drawLoop_nonempty riverNameDraw (usedNames g) 99 riverNameDraw_nonempty (rng g))
      as Hne.
    by destruct (drawLoop _ _ _ _) as [name r]. }
  destruct (fold_left _ rivers _) as [named g2]. cbn [fst] in Er. subst named.
  cbn [fst snd app]. done.
Qed.

End NameFacts.

(** X27: [applyNames] gives every settlement and every river a name that
    is not empty and changes nothing else: the two arrays keep their length
    and order, and each record keeps all its other fields. *)
Theorem applyNames_only_fills_in_names (seed : string) (settlements : list Types.Settlement)
    (rivers : list Types.River) (style : Names.NameStyle) :
  let named := Names.applyNames seed settlements rivers style in
  length (fst named) = length settlements
  /\ length (snd named) = length rivers
  /\ (forall (i : nat) (s : Types.Settlement),
        settlements !! i = Some s ->
        exists name : string,
          name <> ""%string /\ fst named !! i = Some (Names.nameSettlement s name))
  /\ (forall (i : nat) (river : Types.River),
        rivers !! i = Some river ->
        exists name : string,
          name <> ""%string /\ snd named !! i = Some (Names.nameRiver river name)).
Proof.
  cbv zeta. destruct (applyNames_renames seed settlements rivers style) as [Hs Hr].
  repeat split.
  - symmetry. by eapply Forall2_length.
  - symmetry. by eapply Forall2_length.
  - intros i s Hi. destruct (Forall2_lookup_l _ _ _ _ _ Hs Hi) as (s' & Hi' & name & Hne & ->).
    by exists name.
  - intros i river Hi.
    destruct (Forall2_lookup_l _ _ _ _ _ Hr Hi) as (r' & Hi' & name & Hne & ->).
    by exists name.
Qed.

(** X28: [generateUniqueName] returns one of the first 100 names its
    generator draws; the name is one that was not in use, unless all the
    100 names drawn were in use already.  The name is then recorded as used. *)
Theorem generateUniqueName_avoids_used_names
    (generator : Random.SeededRandom -> string * Random.SeededRandom)
    (g : Names.NameGenerator) :
  let name := fst (Names.generateUniqueName generator g) in
  let g' := snd (Names.generateUniqueName generator g) in
  In name (draws generator 100 (Names.rng g))
  /\ (name ∉ Names.usedNames g
      \/ Forall (fun n => n ∈ Names.usedNames g) (draws generator 100 (Names.rng g)))
  /\ Names.usedNames g' = {[ name ]} ∪ Names.usedNames g
  /\ Names.style g' = Names.style g.
Proof. apply generateUniqueName_spec. Qed.

(* ================================================================== *)
(** ** src/generation/climate/index.ts                                  *)
(* ================================================================== *)

Section Wind.
Context {host : Host}.
Open Scope Q_scope.

Variables (width height : Z) (noise : NoiseFunction2D).

Local Abbreviation windLoop :=
  (fold_left
     (fun '(dx, dy) '(x, y) =>
        let idx := MathUtil.coordToIndex x y width in
        let '(windX, windY) := Climate.windCell height noise x y in
        (JS.set dx idx windX, JS.set dy idx windY))).

(** The loop fills the two fields independently. *)
Lemma windLoop_split (cs : list (Z * Z)) : forall dx dy : list Q,
  windLoop cs (dx, dy)
  = (fold_left (fun a '(x, y) => JS.set a (MathUtil.coordToIndex x y width)
                                   (fst (Climate.windCell height noise x y))) cs dx,
     fold_left (fun a '(x, y) => JS.set a (MathUtil.coordToIndex x y width)
                                   (snd (Climate.windCell height noise x y))) cs dy).
Proof.
  induction cs as [| [x y] cs IH]; intros dx dy; cbn [fold_left]; [done |].
  destruct (Climate.windCell height noise x y) as [windX windY]. cbn [fst snd]. apply IH.
Qed.

Lemma windLoop_cell (x y : Z) :
  (0 <= x < width)%Z -> (0 <= y < height)%Z ->
  let fields :=
    windLoop (JS.cells 0 width 0 height) (JS.zeros (width * height), JS.zeros (width * height)) in
  JS.get (fst fields) (MathUtil.coordToIndex x y width) = fst (Climate.windCell height noise x y)
  /\ JS.get (snd fields) (MathUtil.coordToIndex x y width)
     = snd (Climate.windCell height noise x y)
  /\ length (fst fields) = Z.to_nat (width * height)
  /\ length (snd fields) = Z.to_nat (width * height).
Proof.
  intros Hx Hy. cbv zeta. rewrite windLoop_split. cbn [fst snd].
  pose proof (coordToIndex_bound width height x y Hx Hy) as Hi.
  unfold JS.get. destruct (_ <? 0)%Z eqn:E; [apply Z.ltb_lt in E; lia |].
  repeat split.
  - apply (fill_nth (fun x y => MathUtil.coordToIndex x y width)
             (fun x y => fst (Climate.windCell height noise x y))).
    + rewrite zeros_length. lia.
    + intros x' y' Hin%in_cells Heq.
      apply coordToIndex_inj in Heq as [-> ->]; [done | lia | lia].
    + right. exists x, y. split; [by apply in_cells | done].
  - apply (fill_nth (fun x y => MathUtil.coordToIndex x y width)
             (fun x y => snd (Climate.windCell height noise x y))).
    + rewrite zeros_length. lia.
    + intros x' y' Hin%in_cells Heq.
      apply coordToIndex_inj in Heq as [-> ->]; [done | lia | lia].
    + right. exists x, y. split; [by apply in_cells | done].
  - rewrite <- (zeros_length (width * height)).
    apply (fold_left_invariant (fun a => length a = length (JS.zeros (width * height))));
      [| done].
    intros a [x' y'] Ha. by rewrite set_length.
  - rewrite <- (zeros_length (width * height)).
    apply (fold_left_invariant (fun a => length a = length (JS.zeros (width * height))));
      [| done].
    intros a [x' y'] Ha. by rewrite set_length.
Qed.

(** With turbulence between -0.3 and 0.3 the wind keeps the east-west
    direction of its band. *)
Lemma windCell_bands (x y : Z) :
  (forall u v, -1 <= noise u v /\ noise u v <= 1) ->
  let latitude := JS.num y / JS.num height in
  let windX := fst (Climate.windCell height noise x y) in
  let windY := snd (Climate.windCell height noise x y) in
  (0.3 <= latitude /\ latitude < 0.6 -> 0.4 <= windX /\ windX <= 1)
  /\ (latitude < 0.3 \/ 0.6 <= latitude -> -0.8 <= windX /\ windX <= -0.2)
  /\ -0.5 <= windY /\ windY <= 0.5.
Proof.
  intros Hnoise. cbv zeta. unfold Climate.windCell.
  pose proof (Hnoise (JS.num x / 50) (JS.num y / 50)) as [Hx0 Hx1].
  pose proof (Hnoise (JS.num x / 50 + 100) (JS.num y / 50 + 100)) as [Hy0 Hy1].
  set (nx := noise (JS.num x / 50) (JS.num y / 50)) in *.
  set (ny := noise (JS.num x / 50 + 100) (JS.num y / 50 + 100)) in *.
  set (latitude := JS.num y / JS.num height). clearbody nx ny latitude.
  destruct (JS.ltb latitude 0.3) eqn:E1;
    [apply ltb_lt in E1 | apply ltb_ge in E1; destruct (JS.ltb latitude 0.6) eqn:E2;
                          [apply ltb_lt in E2 | apply ltb_ge in E2]];
    cbn [fst snd]; repeat split; intros; lra.
Qed.

End Wind.

(** X29: when the noise function of the run stays between -1 and 1, the
    turbulence never reverses the prevailing wind.  At every cell of the
    grid the wind blows east, with [dx] in [0.4, 1], where the latitude
    [y / height] is in [0.3, 0.6), and west, with [dx] in [-0.8, -0.2],
    elsewhere; [dy] is in [-0.5, 0.5]; both fields have [width * height]
    cells. *)
Theorem prevailing_wind_keeps_its_direction {host : Host}
    (width height : Z) (seed : string) (x y : Z) :
  (forall u v : Q,
      -1 <= fst (createNoise2D (Random.new (seed ++ "_wind"))) u v
      /\ fst (createNoise2D (Random.new (seed ++ "_wind"))) u v <= 1)%Q ->
  0 <= x < width -> 0 <= y < height ->
  let wind := Climate.generateWindPatterns width height seed in
  let latitude := (JS.num y / JS.num height)%Q in
  let windX := JS.get (fst wind) (MathUtil.coordToIndex x y width) in
  let windY := JS.get (snd wind) (MathUtil.coordToIndex x y width) in
  (0.3 <= latitude /\ latitude < 0.6 -> 0.4 <= windX /\ windX <= 1)%Q
  /\ (latitude < 0.3 \/ 0.6 <= latitude -> -0.8 <= windX /\ windX <= -0.2)%Q
  /\ (-0.5 <= windY /\ windY <= 0.5)%Q
  /\ length (fst wind) = Z.to_nat (width * height)
  /\ length (snd wind) = Z.to_nat (width * height).
Proof.
  intros Hnoise Hx Hy. cbv zeta. unfold Climate.generateWindPatterns.
  destruct (createNoise2D _) as [noise rng]. cbn [fst] in Hnoise.
  pose proof (windLoop_cell width height noise x y Hx Hy) as Hcell. cbv zeta in Hcell.
  destruct Hcell as (-> & -> & Hl1 & Hl2).
  destruct (windCell_bands height noise x y Hnoise) as (H1 & H2 & H3).
  repeat split; try done; try apply H1; try apply H2; try apply H3; done.
Qed.

Lemma prevailing_wind_keeps_its_direction_witness :
  let wind := Climate.generateWindPatterns (host := Sample.host) 4 10 "a" in
  let windX := JS.get (fst wind) (MathUtil.coordToIndex 1 4 4) in
  let windY := JS.get (snd wind) (MathUtil.coordToIndex 1 4 4) in
  (0.3 <= JS.num 4 / JS.num 10 /\ JS.num 4 / JS.num 10 < 0.6 -> 0.4 <= windX /\ windX <= 1)%Q
  /\ (JS.num 4 / JS.num 10 < 0.3 \/ 0.6 <= JS.num 4 / JS.num 10
      -> -0.8 <= windX /\ windX <= -0.2)%Q
  /\ (-0.5 <= windY /\ windY <= 0.5)%Q
  /\ length (fst wind) = Z.to_nat (4 * 10)
  /\ length (snd wind) = Z.to_nat (4 * 10).
Proof.
  apply (prevailing_wind_keeps_its_direction (host := Sample.host) 4 10 "a" 1 4); [| lia | lia].
  intros u v. vm_compute. split; discriminate.
Defined.

Section Lapse.
Context {host : Host} {facts : HostFacts host}.
Open Scope Q_scope.

Variables (width height : Z) (seaLevel : Q).
Hypothesis width_pos : (0 < width)%Z.
Hypothesis height_pos : (0 < height)%Z.

(** Cell by cell, the second field is nowhere above the first. *)
Definition below (a b : list Q) : Prop :=
  forall x y : Z, (0 <= x < width)%Z -> (0 <= y < height)%Z ->
    JS.get a (MathUtil.coordToIndex x y width) <= JS.get b (MathUtil.coordToIndex x y width).

Lemma cellTemperature_antitone (low high : list Q) (noise : NoiseFunction2D) (x y : Z) :
  JS.get low (MathUtil.coordToIndex x y width) <= JS.get high (MathUtil.coordToIndex x y width) ->
  (0 <= y < height)%Z ->
  Climate.cellTemperature width height high seaLevel noise x y
  <= Climate.cellTemperature width height low seaLevel noise x y.
Proof.
  intros Hle Hy. unfold Climate.cellTemperature.
  set (e1 := JS.get low _) in *. set (e2 := JS.get high _) in *.
  set (n := noise _ _ * 0.15 + noise _ _ * 0.08). clearbody n e1 e2.
  assert (0 <= 1 - JS.abs (JS.num y / JS.num height - 0.5) * 2) as Hlat.
  { assert (0 <= JS.num y / JS.num height /\ JS.num y / JS.num height <= 1) as [H0 H1].
    { assert (0 < JS.num height) as Hh
        by (unfold JS.num; change 0 with (inject_Z 0); rewrite <- Zlt_Qlt; lia).
      split.
      - apply Qle_shift_div_l; [done |]. rewrite Qmult_0_l.
        unfold JS.num. change 0 with (inject_Z 0). rewrite <- Zle_Qle. lia.
      - apply Qle_shift_div_r; [done |]. rewrite Qmult_1_l.
        unfold JS.num. rewrite <- Zle_Qle. lia. }
    set (l := JS.num y / JS.num height) in *. clearbody l.
    assert (JS.abs (l - 0.5) <= 0.5); [| lra].
    unfold JS.abs. apply Qabs_Qle_condition. split; lra. }
  set (lat := 1 - JS.abs (JS.num y / JS.num height - 0.5) * 2) in *. clearbody lat.
  apply clamp01_mono.
  assert (JS.max 0 (e1 - seaLevel) <= JS.max 0 (e2 - seaLevel)) as Hup.
  { unfold JS.max. apply Q.max_le_compat_l. lra. }
  set (u1 := JS.max 0 (e1 - seaLevel)) in *. set (u2 := JS.max 0 (e2 - seaLevel)) in *.
  clearbody u1 u2.
  assert (0 <= (lat * 0.8 + 0.1) * (u2 - u1)) as Hprod
    by (apply Qmult_le_0_compat; lra).
  assert ((if JS.ltb e2 seaLevel then 0.5 else 0) <= (if JS.ltb e1 seaLevel then 0.5 else 0))
    as Hsea.
  { destruct (JS.ltb e2 seaLevel) eqn:E2; destruct (JS.ltb e1 seaLevel) eqn:E1;
      try lra.
    apply ltb_lt in E2. apply ltb_ge in E1. lra. }
  set (m1 := if JS.ltb e1 seaLevel then 0.5 else 0) in *.
  set (m2 := if JS.ltb e2 seaLevel then 0.5 else 0) in *. clearbody m1 m2.
  lra.
Qed.

(** The field that [generateTemperature] hands to the blur. *)
Definition rawTemperature (heightmap : list Q) (noise : NoiseFunction2D) : list Q :=
  fold_left
    (fun temperature '(x, y) =>
       JS.set temperature (MathUtil.coordToIndex x y width)
         (Climate.cellTemperature width height heightmap seaLevel noise x y))
    (JS.cells 0 width 0 height) (JS.zeros (width * height)).

Lemma rawTemperature_length (heightmap : list Q) (noise : NoiseFunction2D) :
  length (rawTemperature heightmap noise) = Z.to_nat (width * height).
Proof.
  unfold rawTemperature.
  apply (fold_left_invariant (fun a => length a = Z.to_nat (width * height))).
  - intros a [x y] Ha. by rewrite set_length.
  - apply zeros_length.
Qed.

Lemma rawTemperature_cell (heightmap : list Q) (noise : NoiseFunction2D) (x y : Z) :
  (0 <= x < width)%Z -> (0 <= y < height)%Z ->
  JS.get (rawTemperature heightmap noise) (MathUtil.coordToIndex x y width)
  = Climate.cellTemperature width height heightmap seaLevel noise x y.
Proof.
  intros Hx Hy. unfold rawTemperature.
  pose proof (coordToIndex_bound width height x y Hx Hy) as Hi.
  unfold JS.get. destruct (_ <? 0)%Z eqn:E; [apply Z.ltb_lt in E; lia |].
  apply (fill_nth (fun x y => MathUtil.coordToIndex x y width)
           (Climate.cellTemperature width height heightmap seaLevel noise)).
  - rewrite zeros_length. lia.
  - intros x' y' Hin%in_cells Heq.
    apply coordToIndex_inj in Heq as [-> ->]; [done | lia | lia].
  - right. exists x, y. split; [by apply in_cells | done].
Qed.

Variable radius : Z.
Hypothesis radius_pos : (0 < radius)%Z.

(** The weighted sums of the blur keep the order of the data; the
    weights do not depend on the data. *)
Lemma blurStep_monotone (a b : list Q) (x y : Z) (ks : list (Z * Z)) :
  below a b ->
  (forall kx ky, In (kx, ky) ks -> In (kx, ky) (MathUtil.window radius)) ->
  forall sumA sumB weightSum,
    sumA <= sumB -> 0 <= weightSum -> ks <> [] \/ 0 < weightSum ->
    let ra := fold_left (MathUtil.blurStep a (MathUtil.createGaussianKernel radius)
                           width height radius x y) ks (sumA, weightSum) in
    let rb := fold_left (MathUtil.blurStep b (MathUtil.createGaussianKernel radius)
                           width height radius x y) ks (sumB, weightSum) in
    fst ra <= fst rb /\ snd ra = snd rb /\ 0 < snd ra.
Proof.
  intros Hab. induction ks as [| [kx ky] ks IH]; intros Hks sumA sumB weightSum Hle H0 Hor;
    cbn [fold_left].
  - destruct Hor; [done | by repeat split].
  - unfold MathUtil.blurStep at 2 4.
    set (w := JS.get (MathUtil.createGaussianKernel radius) _).
    assert (0 < w) as Hw.
    { apply (kernel_weight_pos radius radius_pos kx ky), Hks. by left. }
    pose proof (Hab (MathUtil.clampi (x + kx) 0 (width - 1))
                  (MathUtil.clampi (y + ky) 0 (height - 1))) as Hd.
    set (da := JS.get a _) in *. set (db := JS.get b _) in *.
    assert (da <= db) as Hdab by (apply Hd; unfold MathUtil.clampi; lia).
    assert (0 <= (db - da) * w) by (apply Qmult_le_0_compat; lra).
    apply IH.
    + intros kx' ky' Hin. apply Hks. by right.
    + lra.
    + lra.
    + right. lra.
Qed.

Lemma blurred_monotone (a b : list Q) (x y : Z) :
  below a b -> blurred radius width height a x y <= blurred radius width height b x y.
Proof.
  intros Hab. unfold blurred.
  pose proof (blurStep_monotone a b x y (MathUtil.window radius) Hab (fun _ _ H => H) 0 0 0)
    as Hm.
  cbv zeta in *.
  destruct (fold_left _ _ (0, 0)) as [sumA weightA].
  destruct (fold_left _ _ (0, 0)) as [sumB weightB]. cbn [fst snd] in *.
  destruct Hm as (Hle & -> & Hpos); [lra | lra | |].
  { left. intros E.
    assert (In (0, 0)%Z (MathUtil.window radius)) as Hin by (apply in_window; lia).
    by rewrite E in Hin. }
  apply Qle_shift_div_l; [done |]. unfold Qdiv. rewrite <- Qmult_assoc.
  rewrite (Qmult_comm (/ weightB)), Qmult_inv_r, Qmult_1_r; [done | lra].
Qed.

(** The blur keeps the order of two fields of the size of the grid. *)
Lemma gaussianBlur_monotone (a b : list Q) :
  length a = Z.to_nat (width * height) -> length b = Z.to_nat (width * height) ->
  below a b ->
  below (MathUtil.gaussianBlur a width height radius)
        (MathUtil.gaussianBlur b width height radius).
Proof.
  intros Ha Hb Hab x y Hx Hy.
  rewrite !(gaussianBlur_cell radius width height) by done.
  by apply blurred_monotone.
Qed.

End Lapse.

(** X30: raising the ground never warms it.  On a grid with positive
    sides, if one heightmap is cell by cell at most another, then with the
    same sea level and the same noise the temperature that
    [generateTemperature] computes from the higher one is at no cell above
    the temperature computed from the lower one. *)
Theorem higher_ground_is_never_warmer {host : Host} {facts : HostFacts host}
    (width height : Z) (low high : list Q) (seaLevel : Q) (rng : Random.SeededRandom)
    (x y : Z) :
  0 < width -> 0 < height ->
  (forall i : Z, JS.get low i <= JS.get high i)%Q ->
  0 <= x < width -> 0 <= y < height ->
  (JS.get (fst (Climate.generateTemperature width height high seaLevel rng))
     (MathUtil.coordToIndex x y width)
   <= JS.get (fst (Climate.generateTemperature width height low seaLevel rng))
        (MathUtil.coordToIndex x y width))%Q.
Proof.
  intros Hw Hh Hle Hx Hy. unfold Climate.generateTemperature.
  destruct (createNoise2D rng) as [noise rng']. cbn [fst].
  apply (gaussianBlur_monotone width height Hw Hh 3 ltac:(lia)
           (rawTemperature width height seaLevel high noise)
           (rawTemperature width height seaLevel low noise));
    try apply rawTemperature_length; try done.
  intros x' y' Hx' Hy'. rewrite !rawTemperature_cell by done.
  apply cellTemperature_antitone; [done | apply Hle | done].
Qed.

Lemma higher_ground_is_never_warmer_witness :
  (JS.get (fst (Climate.generateTemperature (host := Sample.host) 2 2
                  [0.5; 0.6; 0.7; 0.8]%Q 0.35 (Random.new "a")))
     (MathUtil.coordToIndex 1 1 2)
   <= JS.get (fst (Climate.generateTemperature (host := Sample.host) 2 2
                     [0.5; 0.4; 0.3; 0.2]%Q 0.35 (Random.new "a")))
        (MathUtil.coordToIndex 1 1 2))%Q.
Proof.
  apply (higher_ground_is_never_warmer (host := Sample.host) (facts := sample_host_facts)
           2 2 [0.5; 0.4; 0.3; 0.2]%Q [0.5; 0.6; 0.7; 0.8]%Q 0.35 (Random.new "a") 1 1);
    try lia.
  intros i. unfold JS.get. destruct (i <? 0); [vm_compute; discriminate |].
  destruct (Z.to_nat i) as [| [| [| [| [| n]]]]]; vm_compute; discriminate.
Defined.
